(** * Evidence derivation pipeline (scripts/pipeline_all_v2.js)

    A shallow embedding of the derivation core of the forensic pipeline:
    the NDJSON shard writer, the log and revert-reason decoders, the
    per-transaction derivation loop with its three accumulators (address
    profiles, method statistics, approval registry) and the final flush.

    Conventions of the embedding:
    - a JavaScript string is a [string]; a non-ASCII character is held as
      its UTF-8 bytes, [toLowerCase] acts on ASCII letters only, and
      lengths and slice positions count bytes, which are the characters of
      the strings the provider returns;
    - a JavaScript BigInt is a [Z]; a JavaScript number that the pipeline
      only uses as an integer (block number, timestamp, counters) is a [Z];
    - a value that may be [null] or [undefined] is an [option];
    - a [Map] (insertion ordered) is an association list, a [Set] a
      duplicate-free list in insertion order;
    - a statement that may throw returns a [Res]. *)

From Stdlib Require Import ZArith List String Ascii Bool Lia.
From Stdlib Require Import Decimal DecimalString DecimalPos DecimalZ.
Import ListNotations.

Local Open Scope string_scope.
Local Open Scope Z_scope.

(* ------------------------------------------------------------------ *)
(** ** Exceptions *)

Inductive Res (A : Type) : Type :=
| Ok (a : A)
| Throw (e : string).
Arguments Ok {A} a.
Arguments Throw {A} e.

Definition bind {A B} (r : Res A) (k : A -> Res B) : Res B :=
  match r with
  | Ok a => k a
  | Throw e => Throw e
  end.

Notation "'do' x <- r ; k" := (bind r (fun x => k))
  (at level 10, x name, r at level 100, k at level 200).

(** [try { ... } catch (_) { return null }] *)
Definition try_or_null {A} (r : Res (option A)) : option A :=
  match r with
  | Ok a => a
  | Throw _ => None
  end.

(* ------------------------------------------------------------------ *)
(** ** JavaScript strings *)

Definition code (c : ascii) : Z := Z.of_N (N_of_ascii c).

Definition lower_char (c : ascii) : ascii :=
  if (65 <=? code c) && (code c <=? 90)
  then ascii_of_N (N_of_ascii c + 32)
  else c.

(** [s.toLowerCase()] *)
Fixpoint toLowerCase (s : string) : string :=
  match s with
  | EmptyString => EmptyString
  | String c r => String (lower_char c) (toLowerCase r)
  end.

(** [s.startsWith(p)] *)
Fixpoint startsWith (s p : string) : bool :=
  match p with
  | EmptyString => true
  | String c p' =>
      match s with
      | EmptyString => false
      | String d s' => Ascii.eqb d c && startsWith s' p'
      end
  end.

Fixpoint str_drop (n : nat) (s : string) : string :=
  match n, s with
  | O, _ => s
  | S n', String _ r => str_drop n' r
  | S _, EmptyString => EmptyString
  end.

Fixpoint str_take (n : nat) (s : string) : string :=
  match n, s with
  | O, _ => EmptyString
  | S n', String c r => String c (str_take n' r)
  | S _, EmptyString => EmptyString
  end.

(** [s.slice(n)] for a literal [n >= 0] *)
Definition slice_from (n : nat) (s : string) : string := str_drop n s.

(** [s.slice(0, n)] *)
Definition slice_to (n : nat) (s : string) : string := str_take n s.

(** [s.slice(-n)] on a string of one-byte characters, which the
    hexadecimal strings of the provider are: the last [n] characters, or
    all of [s] when it is shorter.  (On other strings [slice] counts
    UTF-16 code units, not bytes.) *)
Definition slice_last (n : nat) (s : string) : string :=
  str_drop (String.length s - n) s.

(** JavaScript truthiness of a string and of a nullable string *)
Definition truthy_str (s : string) : bool :=
  match s with
  | EmptyString => false
  | _ => true
  end.

Definition truthy_ostr (o : option string) : bool :=
  match o with
  | Some s => truthy_str s
  | None => false
  end.

(** [s.split(sep)] for a one-character separator *)
Fixpoint split_on (sep : ascii) (s : string) : list string :=
  match s with
  | EmptyString => [EmptyString]
  | String c r =>
      if Ascii.eqb c sep then EmptyString :: split_on sep r
      else match split_on sep r with
           | [] => [String c EmptyString]
           | h :: t => String c h :: t
           end
  end.

(* ------------------------------------------------------------------ *)
(** ** BigInt *)

(** [z.toString()] on a BigInt: decimal, with a leading minus sign for a
    negative value. *)
Definition bigint_toString (z : Z) : string :=
  NilZero.string_of_int (Z.to_int z).

Definition digit_val (base : Z) (c : ascii) : option Z :=
  let n := code c in
  let v :=
    if (48 <=? n) && (n <=? 57) then Some (n - 48)
    else if (97 <=? n) && (n <=? 122) then Some (n - 87)
    else if (65 <=? n) && (n <=? 90) then Some (n - 55)
    else None in
  match v with
  | Some d => if d <? base then Some d else None
  | None => None
  end.

Fixpoint parse_digits (base : Z) (s : string) (acc : Z) : option Z :=
  match s with
  | EmptyString => Some acc
  | String c r =>
      match digit_val base c with
      | Some d => parse_digits base r (acc * base + d)
      | None => None
      end
  end.

Definition parse_nonempty (base : Z) (s : string) : option Z :=
  match s with
  | EmptyString => None
  | _ => parse_digits base s 0
  end.

(** White space as [BigInt] trims it (the WhiteSpace and LineTerminator
    characters), by the length of the UTF-8 form.  One byte: tab, line
    feed, vertical tab, form feed, carriage return, space. *)
Definition is_ws (c : ascii) : bool :=
  let n := code c in ((9 <=? n) && (n <=? 13)) || (n =? 32).

(** Two bytes: U+00A0. *)
Definition is_ws2 (c1 c2 : ascii) : bool :=
  (code c1 =? 194) && (code c2 =? 160).

(** Three bytes: U+1680, U+2000 to U+200A, U+2028, U+2029, U+202F, U+205F,
    U+3000 and U+FEFF. *)
Definition is_ws3 (c1 c2 c3 : ascii) : bool :=
  let a := code c1 in
  let b := code c2 in
  let c := code c3 in
  ((a =? 225) && (b =? 154) && (c =? 128))
  || ((a =? 226) && (b =? 128)
      && (((128 <=? c) && (c <=? 138)) || (c =? 168) || (c =? 169) || (c =? 175)))
  || ((a =? 226) && (b =? 129) && (c =? 159))
  || ((a =? 227) && (b =? 128) && (c =? 128))
  || ((a =? 239) && (b =? 187) && (c =? 191)).

(** The string starts with a white-space character. *)
Definition starts_ws (s : string) : bool :=
  match s with
  | EmptyString => false
  | String c r =>
      is_ws c
      || match r with
         | EmptyString => false
         | String c2 r2 =>
             is_ws2 c c2
             || match r2 with
                | EmptyString => false
                | String c3 _ => is_ws3 c c2 c3
                end
         end
  end.

(** The string holds a white-space character. *)
Fixpoint has_ws (s : string) : bool :=
  match s with
  | EmptyString => false
  | String _ r => starts_ws s || has_ws r
  end.

Fixpoint trim_left (s : string) : string :=
  match s with
  | EmptyString => EmptyString
  | String c r =>
      if is_ws c then trim_left r
      else match r with
           | EmptyString => s
           | String c2 r2 =>
               if is_ws2 c c2 then trim_left r2
               else match r2 with
                    | EmptyString => s
                    | String c3 r3 =>
                        if is_ws3 c c2 c3 then trim_left r3 else s
                    end
           end
  end.

(** White space at the end: [s] without its longest suffix of white
    space, the suffix that [trim_left] empties. *)
Fixpoint trim_right (s : string) : string :=
  match s with
  | EmptyString => EmptyString
  | String c r =>
      match trim_left s with
      | EmptyString => EmptyString
      | String _ _ => String c (trim_right r)
      end
  end.

Definition trim (s : string) : string := trim_right (trim_left s).

Definition is_one_of (c a b : ascii) : bool := Ascii.eqb c a || Ascii.eqb c b.

(** The StringToBigInt operation behind [BigInt(s)]: white space is
    trimmed; the empty string is [0n]; a [0x], [0o] or [0b] prefix selects
    the base and takes no sign; otherwise an optionally signed run of
    decimal digits.  [None] is the SyntaxError case. *)
Definition StringToBigInt (s : string) : option Z :=
  let t := trim s in
  match t with
  | EmptyString => Some 0
  | String c r =>
      if Ascii.eqb c "-" then option_map Z.opp (parse_nonempty 10 r)
      else if Ascii.eqb c "+" then parse_nonempty 10 r
      else if Ascii.eqb c "0" then
        match r with
        | EmptyString => Some 0
        | String x r' =>
            if is_one_of x "x" "X" then parse_nonempty 16 r'
            else if is_one_of x "o" "O" then parse_nonempty 8 r'
            else if is_one_of x "b" "B" then parse_nonempty 2 r'
            else parse_nonempty 10 t
        end
      else parse_nonempty 10 t
  end.

(** [BigInt(s)] on a string argument *)
Definition BigInt (s : string) : Res Z :=
  match StringToBigInt s with
  | Some z => Ok z
  | None => Throw "SyntaxError: Cannot convert to a BigInt"
  end.

(** [function hexToBigInt(hex)] *)
Definition hexToBigInt (hex : string) : Res Z :=
  if negb (truthy_str hex) || String.eqb hex "0x" then Ok 0
  else BigInt hex.

(** [function topicToAddress(topic)] *)
Definition topicToAddress (topic : string) : option string :=
  if negb (truthy_str topic) then None
  else Some ("0x" ++ slice_last 40 topic).

(** [function addBigStr(aStr, add)] *)
Definition addBigStr (aStr : string) (add : Z) : Res string :=
  do a <- BigInt aStr;
  Ok (bigint_toString (a + add)).

(** Character classes *)

Definition all_chars (p : ascii -> bool) (s : string) : bool :=
  forallb p (list_ascii_of_string s).

Definition is_dec_digit (c : ascii) : bool :=
  (48 <=? code c) && (code c <=? 57).

Definition not_ws (c : ascii) : bool := negb (is_ws c).

(** An ASCII character *)
Definition is_ascii (c : ascii) : bool := code c <? 128.

Definition is_hex_digit (c : ascii) : bool :=
  match digit_val 16 c with
  | Some _ => true
  | None => false
  end.


(** A well-formed hexadecimal string as the provider returns it for
    addresses, topics, data and call values: [0x] followed by hexadecimal
    digits. *)
Definition is_hex_string (s : string) : bool :=
  startsWith s "0x" && all_chars is_hex_digit (str_drop 2 s).

(* ------------------------------------------------------------------ *)
(** ** JSON values and [safeStringify] *)

#[local] Set Warnings "-register-all".

Inductive json : Type :=
| JUndef
| JNull
| JBool (b : bool)
| JNum (n : Z)
| JStr (s : string)
| JArr (items : list json)
| JObj (fields : list (string * json)).

(** A fact: an object literal, its properties in the order written. *)
Definition record : Type := list (string * json).

Definition jstr_or_null (o : option string) : json :=
  match o with
  | Some s => JStr s
  | None => JNull
  end.

Definition jnum_or_null (o : option Z) : json :=
  match o with
  | Some n => JNum n
  | None => JNull
  end.

(** A number that may be [undefined]: the property is then left out of
    the line that [JSON.stringify] writes. *)
Definition jnum_or_undef (o : option Z) : json :=
  match o with
  | Some n => JNum n
  | None => JUndef
  end.

Definition nl : string := String (ascii_of_nat 10) EmptyString.

(** The double-quote and backslash characters *)
Definition dq : ascii := ascii_of_nat 34.
Definition bs : ascii := ascii_of_nat 92.

Definition hex_char (d : Z) : ascii :=
  if d <? 10 then ascii_of_N (Z.to_N (48 + d)) else ascii_of_N (Z.to_N (87 + d)).

Definition escape_char (c : ascii) : string :=
  let n := code c in
  if n =? 34 then String bs (String dq EmptyString)
  else if n =? 92 then String bs (String bs EmptyString)
  else if n =? 8 then "\b"
  else if n =? 9 then "\t"
  else if n =? 10 then "\n"
  else if n =? 12 then "\f"
  else if n =? 13 then "\r"
  else if n <? 32 then
    "\u00" ++ String (hex_char (n / 16)) (String (hex_char (n mod 16)) EmptyString)
  else String c EmptyString.

Fixpoint escape (s : string) : string :=
  match s with
  | EmptyString => EmptyString
  | String c r => escape_char c ++ escape r
  end.

Definition quote (s : string) : string :=
  String dq (escape s ++ String dq EmptyString).

Fixpoint join (sep : string) (l : list string) : string :=
  match l with
  | [] => EmptyString
  | [x] => x
  | x :: r => x ++ sep ++ join sep r
  end.

(** [JSON.stringify]: a property whose value is [undefined] is left out,
    an [undefined] array element is written [null].  Every BigInt of the
    pipeline is already a string when a record is written, so the
    replacer of [safeStringify] has nothing left to convert. *)
Fixpoint stringify (j : json) : string :=
  match j with
  | JUndef => "null"
  | JNull => "null"
  | JBool b => if b then "true" else "false"
  | JNum n => bigint_toString n
  | JStr s => quote s
  | JArr items =>
      "[" ++ join "," ((fix each (l : list json) : list string :=
                          match l with
                          | [] => []
                          | x :: r => stringify x :: each r
                          end) items) ++ "]"
  | JObj fields =>
      "{" ++ join "," ((fix each (l : list (string * json)) : list string :=
                          match l with
                          | [] => []
                          | (k, v) :: r =>
                              match v with
                              | JUndef => each r
                              | _ => (quote k ++ ":" ++ stringify v) :: each r
                              end
                          end) fields) ++ "}"
  end.

(** [function safeStringify(obj)] *)
Definition safeStringify (obj : record) : string := stringify (JObj obj).

(* ------------------------------------------------------------------ *)
(** ** The shard writer: [function ndjsonWriter(dir, name, shardSize)] *)

(** The file system: each file is the sequence of chunks appended to it. *)
Definition Disk : Type := list (string * list string).

Fixpoint disk_read (fp : string) (d : Disk) : option (list string) :=
  match d with
  | [] => None
  | (p, c) :: r => if String.eqb fp p then Some c else disk_read fp r
  end.

(** [fs.createWriteStream(fp, { flags: "a" })]: the file is created when
    it does not exist, and kept as it is when it does. *)
Definition disk_open (fp : string) (d : Disk) : Disk :=
  match disk_read fp d with
  | Some _ => d
  | None => (d ++ [(fp, [])])%list
  end.

(** [stream.write(chunk)] on a stream opened for appending to [fp] *)
Fixpoint disk_append (fp : string) (chunk : string) (d : Disk) : Disk :=
  match d with
  | [] => [(fp, [chunk])]
  | (p, c) :: r =>
      if String.eqb fp p then (p, (c ++ [chunk])%list) :: r
      else (p, c) :: disk_append fp chunk r
  end.

Fixpoint repeat_char (c : ascii) (n : nat) : string :=
  match n with
  | O => EmptyString
  | S n' => String c (repeat_char c n')
  end.

(** [s.padStart(n, "0")] *)
Definition padStart0 (n : nat) (s : string) : string :=
  repeat_char "0" (n - String.length s) ++ s.

(** [path.join(dir, file)] for a directory path without a trailing
    separator. *)
Definition path_join (dir file : string) : string := dir ++ "/" ++ file.

(** The variables the closure of one writer holds, and the disk. *)
Record WState : Type := mkWState {
  w_shard : Z;
  w_count : Z;
  w_stream : option string;
  w_files : list string;
  w_disk : Disk
}.

Section Writer.

Variable dir name : string.
Variable shardSize : Z.

Definition shard_path (shard : Z) : string :=
  path_join dir (name ++ "_" ++ padStart0 5 (bigint_toString shard) ++ ".ndjson").

(** [function openNew()] *)
Definition openNew (w : WState) : WState :=
  let fp := shard_path (w_shard w) in
  {| w_shard := w_shard w + 1;
     w_count := 0;
     w_stream := Some fp;
     w_files := (w_files w ++ [fp])%list;
     w_disk := disk_open fp (w_disk w) |}.

(** The body of [ndjsonWriter] up to its [return]: the first shard is
    opened at once. *)
Definition ndjsonWriter (d : Disk) : WState :=
  openNew {| w_shard := 0; w_count := 0; w_stream := None;
             w_files := []; w_disk := d |}.

(** [write(obj)] *)
Definition write (obj : record) (w : WState) : WState :=
  let w1 := if w_count w >=? shardSize then openNew w else w in
  match w_stream w1 with
  | Some fp =>
      {| w_shard := w_shard w1;
         w_count := w_count w1 + 1;
         w_stream := w_stream w1;
         w_files := w_files w1;
         w_disk := disk_append fp (safeStringify obj ++ nl) (w_disk w1) |}
  | None => w1
  end.

Definition write_all (objs : list record) (w : WState) : WState :=
  fold_left (fun w obj => write obj w) objs w.

(** [files()], each path with what the disk holds for it *)
Definition shards (w : WState) : list (list string) :=
  map (fun fp => match disk_read fp (w_disk w) with
                 | Some c => c
                 | None => []
                 end) (w_files w).

End Writer.

(** The number of shards [ceil(N / K)] the specification announces. *)
Definition ceil_div (n k : Z) : Z := (n + k - 1) / k.

(* ------------------------------------------------------------------ *)
(** ** Bytes, Keccak-256 and [ethers.id] *)

(** A byte is a [Z] in [0, 256). *)
Definition bytes_of_string (s : string) : list Z :=
  map code (list_ascii_of_string s).

Definition string_of_bytes (bs : list Z) : string :=
  string_of_list_ascii (map (fun b => ascii_of_N (Z.to_N b)) bs).

Fixpoint hexlify (bs : list Z) : string :=
  match bs with
  | [] => EmptyString
  | b :: r => String (hex_char (b / 16)) (String (hex_char (b mod 16)) (hexlify r))
  end.

Module Keccak.

Definition mask64 : Z := 18446744073709551615.

Definition rotl64 (v n : Z) : Z :=
  Z.land (Z.lor (Z.shiftl v n) (Z.shiftr v (64 - n))) mask64.

(** A state is 25 lanes of 64 bits, lane [(x, y)] at index [x + 5 y]. *)
Definition lane (st : list Z) (x y : nat) : Z :=
  nth (x mod 5 + 5 * (y mod 5)) st 0.

Definition idx5 : list nat := [0; 1; 2; 3; 4]%nat.

Definition RC : list Z :=
  [0x0000000000000001; 0x0000000000008082; 0x800000000000808A;
   0x8000000080008000; 0x000000000000808B; 0x0000000080000001;
   0x8000000080008081; 0x8000000000008009; 0x000000000000008A;
   0x0000000000000088; 0x0000000080008009; 0x000000008000000A;
   0x000000008000808B; 0x800000000000008B; 0x8000000000008089;
   0x8000000000008003; 0x8000000000008002; 0x8000000000000080;
   0x000000000000800A; 0x800000008000000A; 0x8000000080008081;
   0x8000000000008080; 0x0000000080000001; 0x8000000080008008].

Definition ROT : list Z :=
  [ 0;  1; 62; 28; 27;
   36; 44;  6; 55; 20;
    3; 10; 43; 25; 39;
   41; 45; 15; 21;  8;
   18;  2; 61; 56; 14].

Definition theta (a : list Z) : list Z :=
  let c := map (fun x => fold_left Z.lxor (map (fun y => lane a x y) idx5) 0) idx5 in
  let d := map (fun x => Z.lxor (nth ((x + 4) mod 5) c 0)
                                (rotl64 (nth ((x + 1) mod 5) c 0) 1)) idx5 in
  flat_map (fun y => map (fun x => Z.lxor (lane a x y) (nth x d 0)) idx5) idx5.

(** Lane [(X, Y)] of the result is lane [(x, y)] rotated, where
    [X = y] and [Y = 2 x + 3 y]. *)
Definition rho_pi (a : list Z) : list Z :=
  flat_map (fun Y => map (fun X =>
    let x := ((X + 3 * Y) mod 5)%nat in
    rotl64 (lane a x X) (nth (x + 5 * X) ROT 0)) idx5) idx5.

Definition chi (b : list Z) : list Z :=
  flat_map (fun y => map (fun x =>
    Z.lxor (lane b x y)
           (Z.land (Z.lxor (lane b (x + 1) y) mask64) (lane b (x + 2) y)))
    idx5) idx5.

Definition iota (rc : Z) (a : list Z) : list Z :=
  match a with
  | [] => []
  | h :: t => Z.lxor h rc :: t
  end.

Definition round (a : list Z) (rc : Z) : list Z :=
  iota rc (chi (rho_pi (theta a))).

Definition keccak_f (a : list Z) : list Z := fold_left round RC a.

Fixpoint le_word (bs : list Z) : Z :=
  match bs with
  | [] => 0
  | b :: r => b + 256 * le_word r
  end.

Fixpoint word_bytes (n : nat) (w : Z) : list Z :=
  match n with
  | O => []
  | S k => (w mod 256) :: word_bytes k (w / 256)
  end.

Fixpoint chunks (n fuel : nat) (l : list Z) : list (list Z) :=
  match fuel with
  | O => []
  | S f =>
      match l with
      | [] => []
      | _ => firstn n l :: chunks n f (skipn n l)
      end
  end.

(** The Keccak padding [10*1] on bytes. *)
Definition pad (rate : nat) (m : list Z) : list Z :=
  let q := (rate - (List.length m mod rate))%nat in
  if (q =? 1)%nat then (m ++ [0x81])%list
  else (m ++ [0x01] ++ repeat 0 (q - 2) ++ [0x80])%list.

Definition absorb (st block : list Z) : list Z :=
  let lanes := map le_word (chunks 8 25 block) in
  keccak_f (map (fun p => Z.lxor (fst p) (snd p))
                (combine st (lanes ++ repeat 0 25)%list)).

Definition keccak256 (m : list Z) : list Z :=
  let p := pad 136 m in
  let st := fold_left absorb (chunks 136 (S (List.length p)) p) (repeat 0 25) in
  firstn 32 (flat_map (word_bytes 8) st).

End Keccak.

(** [ethers.id(text)]: the Keccak-256 hash of the UTF-8 bytes of [text],
    as a lower-case hexadecimal string. *)
Definition ethers_id (text : string) : string :=
  "0x" ++ hexlify (Keccak.keccak256 (bytes_of_string text)).

(** [const TRANSFER_TOPIC0 = ethers.id("Transfer(address,address,uint256)")] *)
Definition TRANSFER_TOPIC0 : string :=
  Eval vm_compute in ethers_id "Transfer(address,address,uint256)".

(** [const APPROVAL_TOPIC0 = ethers.id("Approval(address,address,uint256)")] *)
Definition APPROVAL_TOPIC0 : string :=
  Eval vm_compute in ethers_id "Approval(address,address,uint256)".

(** The selector of an error signature: the first four bytes of its hash. *)
Definition selector_of (signature : string) : string :=
  slice_to 10 (ethers_id signature).

(* ------------------------------------------------------------------ *)
(** ** The provider's records *)

(** An entry of [rc.logs]. *)
Record Log : Type := mkLog {
  lg_address : string;
  lg_topics : list string;
  lg_data : string;
  lg_logIndex : option Z
}.

(** What [getTransaction] returns. *)
Record Tx : Type := mkTx {
  tx_from : string;
  tx_to : option string;
  tx_value : Z;
  tx_data : string;
  tx_gasPrice : option Z
}.

(** What [getTransactionReceipt] returns.  [rc.transactionIndex] is
    [undefined] on a receipt that has no property of that name. *)
Record Receipt : Type := mkReceipt {
  rc_status : option Z;
  rc_blockNumber : Z;
  rc_gasUsed : Z;
  rc_logs : list Log;
  rc_transactionIndex : option Z;
  rc_revertReason : option string
}.

(** A frame of the [callTracer] output, with the properties the pipeline
    reads. *)
Inductive Call : Type :=
  mkCall (c_from c_to c_input c_value c_type c_output c_revertReason : option string)
         (c_calls : option (list Call)).

Definition c_output (c : Call) : option string :=
  match c with mkCall _ _ _ _ _ o _ _ => o end.

Definition c_revertReason (c : Call) : option string :=
  match c with mkCall _ _ _ _ _ _ r _ => r end.

(** What the loop has fetched for one transaction hash: the transaction,
    its receipt, the timestamp of its block and the result of
    [tryCallTrace], each [None] when the provider returned [null]. *)
Record Fetched : Type := mkFetched {
  f_hash : string;
  f_tx : option Tx;
  f_rc : option Receipt;
  f_blk : option Z;
  f_trace : option Call
}.

(* ------------------------------------------------------------------ *)
(** ** ABI decoding of one string, as [ethers.AbiCoder] does it *)

Fixpoint unhex (s : string) : option (list Z) :=
  match s with
  | EmptyString => Some []
  | String _ EmptyString => None
  | String a (String b r) =>
      match digit_val 16 a, digit_val 16 b, unhex r with
      | Some x, Some y, Some bs => Some (16 * x + y :: bs)
      | _, _, _ => None
      end
  end.

(** [getBytes(hex)]: [0x] and an even number of hexadecimal digits. *)
Definition getBytes (hex : string) : option (list Z) :=
  if startsWith hex "0x" then unhex (str_drop 2 hex) else None.

Definition be_word (bs : list Z) : Z :=
  fold_left (fun acc b => acc * 256 + b) bs 0.

Definition blen (bs : list Z) : Z := Z.of_nat (List.length bs).

(** [Reader.#peekBytes]: reads are padded to whole words and may not run
    past the end of the data. *)
Definition peekBytes (data : list Z) (offset len : Z) : option (list Z) :=
  let aligned := (len + 31) / 32 * 32 in
  if offset + aligned >? blen data then None
  else Some (firstn (Z.to_nat aligned) (skipn (Z.to_nat offset) data)).

Definition MAX_SAFE_INTEGER : Z := 2 ^ 53 - 1.

(** [Reader.readIndex]: one word, as a safe integer. *)
Definition readIndex (data : list Z) (offset : Z) : option Z :=
  match peekBytes data offset 32 with
  | Some w => if be_word w >? MAX_SAFE_INTEGER then None else Some (be_word w)
  | None => None
  end.

(** [toUtf8String] with its default error handler: any ill-formed
    sequence (bad prefix, missing continuation, overrun, overlong form,
    surrogate, out of range) is an error. *)
Definition is_cont (c : Z) : bool := Z.land c 0xc0 =? 0x80.

Fixpoint utf8_valid (bs : list Z) : bool :=
  match bs with
  | [] => true
  | c :: r =>
      if c <? 128 then utf8_valid r
      else if Z.land c 0xe0 =? 0xc0 then
        match r with
        | c1 :: r1 =>
            let cp := Z.lor (Z.shiftl (Z.land c 0x1f) 6) (Z.land c1 0x3f) in
            is_cont c1 && (0x7f <? cp) && utf8_valid r1
        | _ => false
        end
      else if Z.land c 0xf0 =? 0xe0 then
        match r with
        | c1 :: c2 :: r2 =>
            let cp := Z.lor (Z.shiftl (Z.lor (Z.shiftl (Z.land c 0x0f) 6)
                                             (Z.land c1 0x3f)) 6)
                            (Z.land c2 0x3f) in
            is_cont c1 && is_cont c2 && (0x7ff <? cp)
            && negb ((0xd800 <=? cp) && (cp <=? 0xdfff)) && utf8_valid r2
        | _ => false
        end
      else if Z.land c 0xf8 =? 0xf0 then
        match r with
        | c1 :: c2 :: c3 :: r3 =>
            let cp := Z.lor (Z.shiftl (Z.lor (Z.shiftl
                        (Z.lor (Z.shiftl (Z.land c 0x07) 6) (Z.land c1 0x3f)) 6)
                        (Z.land c2 0x3f)) 6) (Z.land c3 0x3f) in
            is_cont c1 && is_cont c2 && is_cont c3
            && (0xffff <? cp) && (cp <=? 0x10ffff) && utf8_valid r3
        | _ => false
        end
      else false
  end.

(** [ethers.AbiCoder.defaultAbiCoder().decode(["string"], hex)[0]]: the
    head word is the offset of the string, the word there its length,
    followed by the bytes padded to whole words.  Any failure throws. *)
Definition abi_decode_string (hex : string) : Res string :=
  match getBytes hex with
  | None => Throw "invalid BytesLike value"
  | Some data =>
      match readIndex data 0 with
      | None => Throw "BUFFER_OVERRUN"
      | Some offset =>
          let sub := skipn (Z.to_nat offset) data in
          match readIndex sub 0 with
          | None => Throw "BUFFER_OVERRUN"
          | Some len =>
              match peekBytes sub 32 len with
              | None => Throw "BUFFER_OVERRUN"
              | Some bs =>
                  let str := firstn (Z.to_nat len) bs in
                  if utf8_valid str then Ok (string_of_bytes str)
                  else Throw "invalid codepoint"
              end
          end
      end
  end.

(* ------------------------------------------------------------------ *)
(** ** The decoders *)

(** [function decodeApprovalEvent(log)]; the object it returns. *)
Record ApprovalEvent : Type := mkApprovalEvent {
  ev_owner : option string;
  ev_spender : option string;
  ev_value : Z
}.

(** [a[i] || ""] on an array of strings *)
Definition topic_at (i : nat) (topics : list string) : string :=
  nth i topics EmptyString.

(** [lg.data || "0x"] *)
Definition data_or_0x (data : string) : string :=
  if truthy_str data then data else "0x".

Definition decodeApprovalEvent (log : Log) : option ApprovalEvent :=
  try_or_null
    (if (List.length (lg_topics log) <? 3)%nat then Ok None
     else if negb (String.eqb (toLowerCase (topic_at 0 (lg_topics log)))
                              (toLowerCase APPROVAL_TOPIC0)) then Ok None
     else
       let owner := topicToAddress (topic_at 1 (lg_topics log)) in
       let spender := topicToAddress (topic_at 2 (lg_topics log)) in
       do value <- hexToBigInt (data_or_0x (lg_data log));
       Ok (Some {| ev_owner := owner; ev_spender := spender; ev_value := value |})).

(** The [panicCodes] table; [None] is a missing property. *)
Definition panicCodes (errorCode : Z) : option string :=
  if errorCode =? 1 then Some "ASSERTION_ERROR"
  else if errorCode =? 17 then Some "ARITHMETIC_OVERFLOW"
  else if errorCode =? 18 then Some "DIVISION_BY_ZERO"
  else if errorCode =? 33 then Some "ENUM_CONVERSION_ERROR"
  else if errorCode =? 34 then Some "INVALID_ENCODING"
  else if errorCode =? 65 then Some "ARRAY_ALLOCATION_ERROR"
  else if errorCode =? 81 then Some "MEMORY_ACCESS_ERROR"
  else None.

(** [panicCodes[errorCode] || errorCode] inside the template literal *)
Definition panic_text (errorCode : Z) : string :=
  match panicCodes errorCode with
  | Some name => name
  | None => bigint_toString errorCode
  end.

Definition opt_field {A B} (o : option A) (f : A -> option B) : option B :=
  match o with
  | Some a => f a
  | None => None
  end.

(** The body of the [try] block of [decodeRevertReason]. *)
Definition decode_output (output : string) : Res (option string) :=
  if startsWith output "0x08c379a0" && (10 <? String.length output)%nat then
    let data := slice_from 10 output in
    do decoded <- abi_decode_string ("0x" ++ data);
    Ok (Some decoded)
  else if startsWith output "0x4e487b71" && (10 <? String.length output)%nat then
    let data := slice_from 10 output in
    do errorCode <- hexToBigInt ("0x" ++ data);
    Ok (Some ("Panic(" ++ panic_text errorCode ++ ")"))
  else Ok None.

(** [function decodeRevertReason(trace, rc)] *)
Definition decodeRevertReason (trace : option Call) (rc : option Receipt)
  : option string :=
  if truthy_ostr (opt_field trace c_revertReason) then opt_field trace c_revertReason
  else if truthy_ostr (opt_field rc rc_revertReason) then opt_field rc rc_revertReason
  else if truthy_ostr (opt_field trace c_output) then
    match opt_field trace c_output with
    | Some output => try_or_null (decode_output output)
    | None => None
    end
  else None.

(* ------------------------------------------------------------------ *)
(** ** The accumulators and the output streams *)

(** An insertion-ordered [Map] (or plain object) with string keys. *)
Fixpoint map_get {V : Type} (k : string) (m : list (string * V)) : option V :=
  match m with
  | [] => None
  | (k', v) :: r => if String.eqb k k' then Some v else map_get k r
  end.

(** [m.set(k, v)]: an existing key keeps its place. *)
Fixpoint map_set {V : Type} (k : string) (v : V) (m : list (string * V))
  : list (string * V) :=
  match m with
  | [] => [(k, v)]
  | (k', v') :: r =>
      if String.eqb k k' then (k, v) :: r else (k', v') :: map_set k v r
  end.

(** [s.add(x)] on a [Set] of strings *)
Definition set_add (x : string) (s : list string) : list string :=
  if existsb (String.eqb x) s then s else (s ++ [x])%list.

(** The object [getProf] creates for an address. *)
Record Prof : Type := mkProf {
  address : string;
  eth_in_wei : string;
  eth_out_wei : string;
  eth_in_txs : Z;
  eth_out_txs : Z;
  erc20_in : list (string * string);
  erc20_out : list (string * string);
  tx_out_count : Z;
  tx_in_count : Z;
  gas_spent_wei : string;
  total_gas_used : string;
  call_targets : list string;
  first_seen_ts : option Z;
  last_seen_ts : option Z;
  first_seen_block : option Z;
  last_seen_block : option Z
}.

Definition set_eth_in_wei (v : string) (r : Prof) : Prof :=
  {| address := address r;
     eth_in_wei := v;
     eth_out_wei := eth_out_wei r;
     eth_in_txs := eth_in_txs r;
     eth_out_txs := eth_out_txs r;
     erc20_in := erc20_in r;
     erc20_out := erc20_out r;
     tx_out_count := tx_out_count r;
     tx_in_count := tx_in_count r;
     gas_spent_wei := gas_spent_wei r;
     total_gas_used := total_gas_used r;
     call_targets := call_targets r;
     first_seen_ts := first_seen_ts r;
     last_seen_ts := last_seen_ts r;
     first_seen_block := first_seen_block r;
     last_seen_block := last_seen_block r |}.

Definition set_eth_out_wei (v : string) (r : Prof) : Prof :=
  {| address := address r;
     eth_in_wei := eth_in_wei r;
     eth_out_wei := v;
     eth_in_txs := eth_in_txs r;
     eth_out_txs := eth_out_txs r;
     erc20_in := erc20_in r;
     erc20_out := erc20_out r;
     tx_out_count := tx_out_count r;
     tx_in_count := tx_in_count r;
     gas_spent_wei := gas_spent_wei r;
     total_gas_used := total_gas_used r;
     call_targets := call_targets r;
     first_seen_ts := first_seen_ts r;
     last_seen_ts := last_seen_ts r;
     first_seen_block := first_seen_block r;
     last_seen_block := last_seen_block r |}.

Definition set_eth_in_txs (v : Z) (r : Prof) : Prof :=
  {| address := address r;
     eth_in_wei := eth_in_wei r;
     eth_out_wei := eth_out_wei r;
     eth_in_txs := v;
     eth_out_txs := eth_out_txs r;
     erc20_in := erc20_in r;
     erc20_out := erc20_out r;
     tx_out_count := tx_out_count r;
     tx_in_count := tx_in_count r;
     gas_spent_wei := gas_spent_wei r;
     total_gas_used := total_gas_used r;
     call_targets := call_targets r;
     first_seen_ts := first_seen_ts r;
     last_seen_ts := last_seen_ts r;
     first_seen_block := first_seen_block r;
     last_seen_block := last_seen_block r |}.

Definition set_eth_out_txs (v : Z) (r : Prof) : Prof :=
  {| address := address r;
     eth_in_wei := eth_in_wei r;
     eth_out_wei := eth_out_wei r;
     eth_in_txs := eth_in_txs r;
     eth_out_txs := v;
     erc20_in := erc20_in r;
     erc20_out := erc20_out r;
     tx_out_count := tx_out_count r;
     tx_in_count := tx_in_count r;
     gas_spent_wei := gas_spent_wei r;
     total_gas_used := total_gas_used r;
     call_targets := call_targets r;
     first_seen_ts := first_seen_ts r;
     last_seen_ts := last_seen_ts r;
     first_seen_block := first_seen_block r;
     last_seen_block := last_seen_block r |}.

Definition set_erc20_in (v : list (string * string)) (r : Prof) : Prof :=
  {| address := address r;
     eth_in_wei := eth_in_wei r;
     eth_out_wei := eth_out_wei r;
     eth_in_txs := eth_in_txs r;
     eth_out_txs := eth_out_txs r;
     erc20_in := v;
     erc20_out := erc20_out r;
     tx_out_count := tx_out_count r;
     tx_in_count := tx_in_count r;
     gas_spent_wei := gas_spent_wei r;
     total_gas_used := total_gas_used r;
     call_targets := call_targets r;
     first_seen_ts := first_seen_ts r;
     last_seen_ts := last_seen_ts r;
     first_seen_block := first_seen_block r;
     last_seen_block := last_seen_block r |}.

Definition set_erc20_out (v : list (string * string)) (r : Prof) : Prof :=
  {| address := address r;
     eth_in_wei := eth_in_wei r;
     eth_out_wei := eth_out_wei r;
     eth_in_txs := eth_in_txs r;
     eth_out_txs := eth_out_txs r;
     erc20_in := erc20_in r;
     erc20_out := v;
     tx_out_count := tx_out_count r;
     tx_in_count := tx_in_count r;
     gas_spent_wei := gas_spent_wei r;
     total_gas_used := total_gas_used r;
     call_targets := call_targets r;
     first_seen_ts := first_seen_ts r;
     last_seen_ts := last_seen_ts r;
     first_seen_block := first_seen_block r;
     last_seen_block := last_seen_block r |}.

Definition set_tx_out_count (v : Z) (r : Prof) : Prof :=
  {| address := address r;
     eth_in_wei := eth_in_wei r;
     eth_out_wei := eth_out_wei r;
     eth_in_txs := eth_in_txs r;
     eth_out_txs := eth_out_txs r;
     erc20_in := erc20_in r;
     erc20_out := erc20_out r;
     tx_out_count := v;
     tx_in_count := tx_in_count r;
     gas_spent_wei := gas_spent_wei r;
     total_gas_used := total_gas_used r;
     call_targets := call_targets r;
     first_seen_ts := first_seen_ts r;
     last_seen_ts := last_seen_ts r;
     first_seen_block := first_seen_block r;
     last_seen_block := last_seen_block r |}.

Definition set_tx_in_count (v : Z) (r : Prof) : Prof :=
  {| address := address r;
     eth_in_wei := eth_in_wei r;
     eth_out_wei := eth_out_wei r;
     eth_in_txs := eth_in_txs r;
     eth_out_txs := eth_out_txs r;
     erc20_in := erc20_in r;
     erc20_out := erc20_out r;
     tx_out_count := tx_out_count r;
     tx_in_count := v;
     gas_spent_wei := gas_spent_wei r;
     total_gas_used := total_gas_used r;
     call_targets := call_targets r;
     first_seen_ts := first_seen_ts r;
     last_seen_ts := last_seen_ts r;
     first_seen_block := first_seen_block r;
     last_seen_block := last_seen_block r |}.

Definition set_gas_spent_wei (v : string) (r : Prof) : Prof :=
  {| address := address r;
     eth_in_wei := eth_in_wei r;
     eth_out_wei := eth_out_wei r;
     eth_in_txs := eth_in_txs r;
     eth_out_txs := eth_out_txs r;
     erc20_in := erc20_in r;
     erc20_out := erc20_out r;
     tx_out_count := tx_out_count r;
     tx_in_count := tx_in_count r;
     gas_spent_wei := v;
     total_gas_used := total_gas_used r;
     call_targets := call_targets r;
     first_seen_ts := first_seen_ts r;
     last_seen_ts := last_seen_ts r;
     first_seen_block := first_seen_block r;
     last_seen_block := last_seen_block r |}.

Definition set_total_gas_used (v : string) (r : Prof) : Prof :=
  {| address := address r;
     eth_in_wei := eth_in_wei r;
     eth_out_wei := eth_out_wei r;
     eth_in_txs := eth_in_txs r;
     eth_out_txs := eth_out_txs r;
     erc20_in := erc20_in r;
     erc20_out := erc20_out r;
     tx_out_count := tx_out_count r;
     tx_in_count := tx_in_count r;
     gas_spent_wei := gas_spent_wei r;
     total_gas_used := v;
     call_targets := call_targets r;
     first_seen_ts := first_seen_ts r;
     last_seen_ts := last_seen_ts r;
     first_seen_block := first_seen_block r;
     last_seen_block := last_seen_block r |}.

Definition set_call_targets (v : list string) (r : Prof) : Prof :=
  {| address := address r;
     eth_in_wei := eth_in_wei r;
     eth_out_wei := eth_out_wei r;
     eth_in_txs := eth_in_txs r;
     eth_out_txs := eth_out_txs r;
     erc20_in := erc20_in r;
     erc20_out := erc20_out r;
     tx_out_count := tx_out_count r;
     tx_in_count := tx_in_count r;
     gas_spent_wei := gas_spent_wei r;
     total_gas_used := total_gas_used r;
     call_targets := v;
     first_seen_ts := first_seen_ts r;
     last_seen_ts := last_seen_ts r;
     first_seen_block := first_seen_block r;
     last_seen_block := last_seen_block r |}.

Definition set_first_seen_ts (v : option Z) (r : Prof) : Prof :=
  {| address := address r;
     eth_in_wei := eth_in_wei r;
     eth_out_wei := eth_out_wei r;
     eth_in_txs := eth_in_txs r;
     eth_out_txs := eth_out_txs r;
     erc20_in := erc20_in r;
     erc20_out := erc20_out r;
     tx_out_count := tx_out_count r;
     tx_in_count := tx_in_count r;
     gas_spent_wei := gas_spent_wei r;
     total_gas_used := total_gas_used r;
     call_targets := call_targets r;
     first_seen_ts := v;
     last_seen_ts := last_seen_ts r;
     first_seen_block := first_seen_block r;
     last_seen_block := last_seen_block r |}.

Definition set_last_seen_ts (v : option Z) (r : Prof) : Prof :=
  {| address := address r;
     eth_in_wei := eth_in_wei r;
     eth_out_wei := eth_out_wei r;
     eth_in_txs := eth_in_txs r;
     eth_out_txs := eth_out_txs r;
     erc20_in := erc20_in r;
     erc20_out := erc20_out r;
     tx_out_count := tx_out_count r;
     tx_in_count := tx_in_count r;
     gas_spent_wei := gas_spent_wei r;
     total_gas_used := total_gas_used r;
     call_targets := call_targets r;
     first_seen_ts := first_seen_ts r;
     last_seen_ts := v;
     first_seen_block := first_seen_block r;
     last_seen_block := last_seen_block r |}.

Definition set_first_seen_block (v : option Z) (r : Prof) : Prof :=
  {| address := address r;
     eth_in_wei := eth_in_wei r;
     eth_out_wei := eth_out_wei r;
     eth_in_txs := eth_in_txs r;
     eth_out_txs := eth_out_txs r;
     erc20_in := erc20_in r;
     erc20_out := erc20_out r;
     tx_out_count := tx_out_count r;
     tx_in_count := tx_in_count r;
     gas_spent_wei := gas_spent_wei r;
     total_gas_used := total_gas_used r;
     call_targets := call_targets r;
     first_seen_ts := first_seen_ts r;
     last_seen_ts := last_seen_ts r;
     first_seen_block := v;
     last_seen_block := last_seen_block r |}.

Definition set_last_seen_block (v : option Z) (r : Prof) : Prof :=
  {| address := address r;
     eth_in_wei := eth_in_wei r;
     eth_out_wei := eth_out_wei r;
     eth_in_txs := eth_in_txs r;
     eth_out_txs := eth_out_txs r;
     erc20_in := erc20_in r;
     erc20_out := erc20_out r;
     tx_out_count := tx_out_count r;
     tx_in_count := tx_in_count r;
     gas_spent_wei := gas_spent_wei r;
     total_gas_used := total_gas_used r;
     call_targets := call_targets r;
     first_seen_ts := first_seen_ts r;
     last_seen_ts := last_seen_ts r;
     first_seen_block := first_seen_block r;
     last_seen_block := v |}.

(** The object [getMethodStat] creates for a (callee, selector) pair. *)
Record MethodStat : Type := mkMethodStat {
  ms_to : string;
  ms_method_id : string;
  ms_count : Z;
  ms_success_count : Z;
  ms_revert_count : Z;
  ms_callers : list string;
  ms_first_seen_ts : option Z;
  ms_last_seen_ts : option Z
}.

Definition set_ms_count (v : Z) (r : MethodStat) : MethodStat :=
  {| ms_to := ms_to r;
     ms_method_id := ms_method_id r;
     ms_count := v;
     ms_success_count := ms_success_count r;
     ms_revert_count := ms_revert_count r;
     ms_callers := ms_callers r;
     ms_first_seen_ts := ms_first_seen_ts r;
     ms_last_seen_ts := ms_last_seen_ts r |}.

Definition set_ms_success_count (v : Z) (r : MethodStat) : MethodStat :=
  {| ms_to := ms_to r;
     ms_method_id := ms_method_id r;
     ms_count := ms_count r;
     ms_success_count := v;
     ms_revert_count := ms_revert_count r;
     ms_callers := ms_callers r;
     ms_first_seen_ts := ms_first_seen_ts r;
     ms_last_seen_ts := ms_last_seen_ts r |}.

Definition set_ms_revert_count (v : Z) (r : MethodStat) : MethodStat :=
  {| ms_to := ms_to r;
     ms_method_id := ms_method_id r;
     ms_count := ms_count r;
     ms_success_count := ms_success_count r;
     ms_revert_count := v;
     ms_callers := ms_callers r;
     ms_first_seen_ts := ms_first_seen_ts r;
     ms_last_seen_ts := ms_last_seen_ts r |}.

Definition set_ms_callers (v : list string) (r : MethodStat) : MethodStat :=
  {| ms_to := ms_to r;
     ms_method_id := ms_method_id r;
     ms_count := ms_count r;
     ms_success_count := ms_success_count r;
     ms_revert_count := ms_revert_count r;
     ms_callers := v;
     ms_first_seen_ts := ms_first_seen_ts r;
     ms_last_seen_ts := ms_last_seen_ts r |}.

Definition set_ms_first_seen_ts (v : option Z) (r : MethodStat) : MethodStat :=
  {| ms_to := ms_to r;
     ms_method_id := ms_method_id r;
     ms_count := ms_count r;
     ms_success_count := ms_success_count r;
     ms_revert_count := ms_revert_count r;
     ms_callers := ms_callers r;
     ms_first_seen_ts := v;
     ms_last_seen_ts := ms_last_seen_ts r |}.

Definition set_ms_last_seen_ts (v : option Z) (r : MethodStat) : MethodStat :=
  {| ms_to := ms_to r;
     ms_method_id := ms_method_id r;
     ms_count := ms_count r;
     ms_success_count := ms_success_count r;
     ms_revert_count := ms_revert_count r;
     ms_callers := ms_callers r;
     ms_first_seen_ts := ms_first_seen_ts r;
     ms_last_seen_ts := v |}.

(** A value of the [approvals] map: [{ amount, tx_hash }]. *)
Record ApprovalEntry : Type := mkApprovalEntry {
  ap_amount : Z;
  ap_tx_hash : string
}.

(** The writers of the DERIVED section the loop writes to. *)
Inductive Stream : Type :=
| txEnrichedW | blockTxOrderW | contractCallsW
| transfersW | internalTransfersW | edgesW
| profilesW | methodStatsW
| traceEdgesW | revertReasonsW
| approvalsW | allowanceEdgesW | allowanceUsageW.

Definition Stream_eqb (a b : Stream) : bool :=
  match a, b with
  | txEnrichedW, txEnrichedW | blockTxOrderW, blockTxOrderW
  | contractCallsW, contractCallsW | transfersW, transfersW
  | internalTransfersW, internalTransfersW | edgesW, edgesW
  | profilesW, profilesW | methodStatsW, methodStatsW
  | traceEdgesW, traceEdgesW | revertReasonsW, revertReasonsW
  | approvalsW, approvalsW | allowanceEdgesW, allowanceEdgesW
  | allowanceUsageW, allowanceUsageW => true
  | _, _ => false
  end.

(** The state of the derivation: every [write] so far, in the order
    made, and the three maps. *)
Record State : Type := mkState {
  out : list (Stream * record);
  prof : list (string * Prof);
  methodStats : list (string * MethodStat);
  approvals : list (string * ApprovalEntry)
}.

Definition set_out (v : list (Stream * record)) (r : State) : State :=
  {| out := v;
     prof := prof r;
     methodStats := methodStats r;
     approvals := approvals r |}.

Definition set_prof (v : list (string * Prof)) (r : State) : State :=
  {| out := out r;
     prof := v;
     methodStats := methodStats r;
     approvals := approvals r |}.

Definition set_methodStats (v : list (string * MethodStat)) (r : State) : State :=
  {| out := out r;
     prof := prof r;
     methodStats := v;
     approvals := approvals r |}.

Definition set_approvals (v : list (string * ApprovalEntry)) (r : State) : State :=
  {| out := out r;
     prof := prof r;
     methodStats := methodStats r;
     approvals := v |}.

Definition init_state : State :=
  {| out := []; prof := []; methodStats := []; approvals := [] |}.

(** [W.write(obj)] *)
Definition emit (W : Stream) (obj : record) (st : State) : State :=
  set_out (out st ++ [(W, obj)])%list st.

(** The records written to one writer, in order. *)
Definition written (W : Stream) (l : list (Stream * record)) : list record :=
  map snd (filter (fun e => Stream_eqb (fst e) W) l).

(** [obj[k]] on a record *)
Definition field (k : string) (obj : record) : json :=
  match map_get k obj with
  | Some v => v
  | None => JUndef
  end.

(* ------------------------------------------------------------------ *)
(** ** The derivation loop of [main] *)

(** The object literal of [getProf]. *)
Definition newProf (a : string) : Prof :=
  {| address := a;
     eth_in_wei := "0";
     eth_out_wei := "0";
     eth_in_txs := 0;
     eth_out_txs := 0;
     erc20_in := [];
     erc20_out := [];
     tx_out_count := 0;
     tx_in_count := 0;
     gas_spent_wei := "0";
     total_gas_used := "0";
     call_targets := [];
     first_seen_ts := None;
     last_seen_ts := None;
     first_seen_block := None;
     last_seen_block := None |}.

(** [function getProf(a)] up to its [return]: the map after the call. *)
Definition getProf (a : string) (m : list (string * Prof)) : list (string * Prof) :=
  match map_get a m with
  | Some _ => m
  | None => map_set a (newProf a) m
  end.

(** [function getMethodStat(to, methodId)], likewise. *)
Definition method_key (to methodId : string) : string := to ++ "|" ++ methodId.

(** The object literal of [getMethodStat]. *)
Definition newMethodStat (to methodId : string) : MethodStat :=
  {| ms_to := to;
     ms_method_id := methodId;
     ms_count := 0;
     ms_success_count := 0;
     ms_revert_count := 0;
     ms_callers := [];
     ms_first_seen_ts := None;
     ms_last_seen_ts := None |}.

Definition getMethodStat (to methodId : string) (m : list (string * MethodStat))
  : list (string * MethodStat) :=
  let key := method_key to methodId in
  match map_get key m with
  | Some _ => m
  | None => map_set key (newMethodStat to methodId) m
  end.

(** Assignments through the reference a [get...] call returned: the
    object stored under [k] is replaced by its updated value. *)
Definition modify {V : Type} (k : string) (f : V -> Res V) (m : list (string * V))
  : Res (list (string * V)) :=
  match map_get k m with
  | Some v => do v' <- f v; Ok (map_set k v' m)
  | None => Throw "TypeError: Cannot read properties of undefined"
  end.

(** [if (ts)] on a number or [null] *)
Definition truthy_num (o : option Z) : bool :=
  match o with
  | Some n => negb (n =? 0)
  | None => false
  end.

(** [cur === null || n < cur] and [cur === null || n > cur] *)
Definition is_earlier (n : Z) (cur : option Z) : bool :=
  match cur with
  | None => true
  | Some c => n <? c
  end.

Definition is_later (n : Z) (cur : option Z) : bool :=
  match cur with
  | None => true
  | Some c => n >? c
  end.

(** The first/last-seen bookkeeping both sides of a transaction share. *)
Definition touch_seen (ts : option Z) (blockNumber : Z) (pf : Prof) : Prof :=
  let pf :=
    match ts with
    | Some t =>
        if truthy_num ts then
          let pf := if is_earlier t (first_seen_ts pf)
                    then set_first_seen_ts (Some t) pf else pf in
          if is_later t (last_seen_ts pf)
          then set_last_seen_ts (Some t) pf else pf
        else pf
    | None => pf
    end in
  let pf := if is_earlier blockNumber (first_seen_block pf)
            then set_first_seen_block (Some blockNumber) pf else pf in
  if is_later blockNumber (last_seen_block pf)
  then set_last_seen_block (Some blockNumber) pf else pf.

(** [const txStatus = rc.status === 1 ? "success" : "revert"] *)
Definition txStatus (rc : Receipt) : string :=
  match rc_status rc with
  | Some 1 => "success"
  | _ => "revert"
  end.

(** [const methodId = tx.data ? tx.data.slice(0, 10) : "0x"] *)
Definition methodId (tx : Tx) : string :=
  if truthy_str (tx_data tx) then slice_to 10 (tx_data tx) else "0x".

(** [tx.gasPrice ? BigInt(tx.gasPrice) : 1n] *)
Definition gasPrice (tx : Tx) : Z :=
  match tx_gasPrice tx with
  | Some g => if g =? 0 then 1 else g
  | None => 1
  end.

(** [n.toString()] for a truthy BigInt [n], [null] otherwise *)
Definition bigint_or_null (o : option Z) : json :=
  match o with
  | Some g => if g =? 0 then JNull else JStr (bigint_toString g)
  | None => JNull
  end.

(** An entry of the local array [transfers]. *)
Record Transfer : Type := mkTransfer {
  tr_from : option string;
  tr_to : option string;
  tr_amount : Z;
  tr_tokenAddr : string;
  tr_logIndex : option Z
}.

(** The head of the body of the loop over [rc.logs] in the ERC20 TRANSFER
    EVENTS block: the two [continue] tests and the extraction of the
    fields.  [Ok None] is a [continue]. *)
Definition decodeTransferLog (lg : Log) : Res (option Transfer) :=
  if (List.length (lg_topics lg) <? 3)%nat then Ok None
  else if negb (String.eqb (toLowerCase (topic_at 0 (lg_topics lg)))
                           (toLowerCase TRANSFER_TOPIC0)) then Ok None
  else
    let from := topicToAddress (topic_at 1 (lg_topics lg)) in
    let to := topicToAddress (topic_at 2 (lg_topics lg)) in
    do amount <- hexToBigInt (data_or_0x (lg_data lg));
    Ok (Some {| tr_from := from; tr_to := to; tr_amount := amount;
                tr_tokenAddr := lg_address lg; tr_logIndex := lg_logIndex lg |}).

(** [(BigInt(obj[token] || "0") + amount).toString()] stored back under
    [token]. *)
Definition add_token (token : string) (amount : Z) (obj : list (string * string))
  : Res (list (string * string)) :=
  let cur := match map_get token obj with
             | Some s => if truthy_str s then s else "0"
             | None => "0"
             end in
  do a <- BigInt cur;
  Ok (map_set token (bigint_toString (a + amount)) obj).

(** The trace object as it is written into a [trace_call] record. *)
Fixpoint call_json (c : Call) : json :=
  match c with
  | mkCall from to input value type output revertReason calls =>
      let opt (o : option string) := match o with Some s => JStr s | None => JUndef end in
      JObj [("from", opt from); ("to", opt to); ("input", opt input);
            ("value", opt value); ("type", opt type); ("output", opt output);
            ("revertReason", opt revertReason);
            ("calls", match calls with
                      | Some subs => JArr (map call_json subs)
                      | None => JUndef
                      end)]
  end.

(** [o.toLowerCase()]: a TypeError on [null] or [undefined]. *)
Definition lower_of (o : option string) : Res string :=
  match o with
  | Some s => Ok (toLowerCase s)
  | None => Throw "TypeError: Cannot read properties of undefined"
  end.

(** The loop over [approvals.entries()] for one transfer, up to its
    [break]: the first entry whose key matches, if any. *)
Fixpoint find_approval (entries : list (string * ApprovalEntry))
    (tokenAddr : string) (from : option string) (sender : string)
  : Res (option (string * ApprovalEntry)) :=
  match entries with
  | [] => Ok None
  | (key, approval) :: rest =>
      let parts := split_on "|" key in
      do keyToken <- lower_of (nth_error parts 0);
      if negb (String.eqb keyToken (toLowerCase tokenAddr))
      then find_approval rest tokenAddr from sender
      else
        do keyOwner <- lower_of (nth_error parts 1);
        do owner <- lower_of from;
        if negb (String.eqb keyOwner owner)
        then find_approval rest tokenAddr from sender
        else
          do keySpender <- lower_of (nth_error parts 2);
          if String.eqb keySpender (toLowerCase sender)
          then Ok (Some (key, approval))
          else find_approval rest tokenAddr from sender
  end.

(** [`${x}`] for a string or [null] *)
Definition template (o : option string) : string :=
  match o with
  | Some s => s
  | None => "null"
  end.

Definition approval_key (tokenAddr : string) (owner spender : option string) : string :=
  tokenAddr ++ "|" ++ template owner ++ "|" ++ template spender.

Section Derive.

Variable runId : string.

(** What one iteration has in scope once [tx], [rc] and [blk] are
    fetched. *)
Variables (h : string) (tx : Tx) (rc : Receipt) (ts : option Z).

Definition head (doc_type : string) : record :=
  [("doc_type", JStr doc_type); ("run_id", JStr runId)].

(** TX ENRICHED, BLOCK TX ORDER, CONTRACT CALLS *)
Definition tx_enriched_doc : record :=
  (head "tx_enriched" ++
   [("tx_hash", JStr h);
    ("block_number", JNum (rc_blockNumber rc));
    ("timestamp", jnum_or_null ts);
    ("status", JStr (txStatus rc));
    ("from", JStr (tx_from tx));
    ("to", jstr_or_null (tx_to tx));
    ("value_wei", JStr (if tx_value tx =? 0 then "0"
                        else bigint_toString (tx_value tx)));
    ("gas_used", bigint_or_null (Some (rc_gasUsed rc)));
    ("gas_price", bigint_or_null (tx_gasPrice tx));
    ("logs_count", JNum (Z.of_nat (List.length (rc_logs rc))));
    ("method_id", JStr (methodId tx));
    ("tx_index", jnum_or_undef (rc_transactionIndex rc))])%list.

Definition block_tx_order_doc : record :=
  (head "block_tx_order" ++
   [("block_number", JNum (rc_blockNumber rc));
    ("tx_hash", JStr h);
    ("tx_index", jnum_or_undef (rc_transactionIndex rc));
    ("timestamp", jnum_or_null ts)])%list.

Definition contract_call_doc : record :=
  (head "contract_call" ++
   [("tx_hash", JStr h);
    ("from", JStr (tx_from tx));
    ("to", if truthy_ostr (tx_to tx) then jstr_or_null (tx_to tx) else JNull);
    ("method_id", JStr (methodId tx));
    ("status", JStr (txStatus rc));
    ("value_wei", JStr (bigint_toString
                          (if tx_value tx =? 0 then 0 else tx_value tx)));
    ("gas_used", JStr (bigint_toString (rc_gasUsed rc)));
    ("effective_gas_price", JStr (bigint_toString (gasPrice tx)));
    ("timestamp", jnum_or_null ts);
    ("block_number", JNum (rc_blockNumber rc));
    ("tx_index", jnum_or_undef (rc_transactionIndex rc))])%list.

Definition timeline_block (st : State) : State :=
  emit contractCallsW contract_call_doc
    (emit blockTxOrderW block_tx_order_doc
       (emit txEnrichedW tx_enriched_doc st)).

(** Update address profile *)
Definition profile_block (st : State) : Res State :=
  let gasUsed := rc_gasUsed rc in
  let gasCostWei := gasUsed * gasPrice tx in
  do p1 <-
    (if truthy_str (tx_from tx) then
       modify (tx_from tx)
         (fun pf =>
            let pf := set_tx_out_count (tx_out_count pf + 1) pf in
            do spent <- addBigStr (gas_spent_wei pf) gasCostWei;
            let pf := set_gas_spent_wei spent pf in
            do used <- addBigStr (total_gas_used pf) gasUsed;
            let pf := set_total_gas_used used pf in
            Ok (touch_seen ts (rc_blockNumber rc) pf))
         (getProf (tx_from tx) (prof st))
     else Ok (prof st));
  do p2 <-
    (match tx_to tx with
     | Some to =>
         if truthy_str to then
           modify to
             (fun pf =>
                let pf := set_tx_in_count (tx_in_count pf + 1) pf in
                Ok (touch_seen ts (rc_blockNumber rc) pf))
             (getProf to p1)
         else Ok p1
     | None => Ok p1
     end);
  Ok (set_prof p2 st).

(** Update method stats *)
Definition method_stats_block (st : State) : Res State :=
  match tx_to tx with
  | Some to =>
      if truthy_str to && negb (String.eqb (methodId tx) "0x") then
        do m <-
          modify (method_key to (methodId tx))
            (fun stat =>
               let stat := set_ms_count (ms_count stat + 1) stat in
               let stat :=
                 if String.eqb (txStatus rc) "success"
                 then set_ms_success_count (ms_success_count stat + 1) stat
                 else set_ms_revert_count (ms_revert_count stat + 1) stat in
               let stat :=
                 if truthy_str (tx_from tx)
                 then set_ms_callers (set_add (tx_from tx) (ms_callers stat)) stat
                 else stat in
               Ok (match ts with
                   | Some t =>
                       if truthy_num ts then
                         let stat :=
                           if is_earlier t (ms_first_seen_ts stat)
                           then set_ms_first_seen_ts (Some t) stat else stat in
                         if is_later t (ms_last_seen_ts stat)
                         then set_ms_last_seen_ts (Some t) stat else stat
                       else stat
                   | None => stat
                   end))
            (getMethodStat to (methodId tx) (methodStats st));
        Ok (set_methodStats m st)
      else Ok st
  | None => Ok st
  end.

(** ETH TRANSFER *)
Definition native_transfer_doc (to : string) : record :=
  (head "asset_transfer" ++
   [("tx_hash", JStr h);
    ("block_number", JNum (rc_blockNumber rc));
    ("timestamp", jnum_or_null ts);
    ("asset_type", JStr "native");
    ("asset", JStr "ETH");
    ("from", JStr (tx_from tx));
    ("to", JStr to);
    ("amount_wei", JStr (bigint_toString (tx_value tx)))])%list.

Definition native_edge_doc (to : string) : record :=
  (head "fund_flow_edge" ++
   [("tx_hash", JStr h);
    ("block_number", JNum (rc_blockNumber rc));
    ("timestamp", jnum_or_null ts);
    ("asset_type", JStr "native");
    ("asset", JStr "ETH");
    ("from", JStr (tx_from tx));
    ("to", JStr to);
    ("amount", JStr (bigint_toString (tx_value tx)))])%list.

(** [tx.to && tx.value && tx.value > 0n] *)
Definition sends_value : bool :=
  truthy_ostr (tx_to tx) && negb (tx_value tx =? 0) && (tx_value tx >? 0).

Definition eth_transfer_block (st : State) : Res State :=
  match tx_to tx with
  | Some to =>
      if sends_value then
        let st := emit transfersW (native_transfer_doc to) st in
        let st := emit edgesW (native_edge_doc to) st in
        let p := getProf to (getProf (tx_from tx) (prof st)) in
        do p <- modify (tx_from tx)
                  (fun pfFrom =>
                     do v <- addBigStr (eth_out_wei pfFrom) (tx_value tx);
                     let pfFrom := set_eth_out_wei v pfFrom in
                     let pfFrom := set_eth_out_txs (eth_out_txs pfFrom + 1) pfFrom in
                     Ok (set_call_targets (set_add to (call_targets pfFrom)) pfFrom))
                  p;
        do p <- modify to
                  (fun pfTo =>
                     do v <- addBigStr (eth_in_wei pfTo) (tx_value tx);
                     let pfTo := set_eth_in_wei v pfTo in
                     Ok (set_eth_in_txs (eth_in_txs pfTo + 1) pfTo))
                  p;
        Ok (set_prof p st)
      else Ok st
  | None => Ok st
  end.

(** ERC20 TRANSFER EVENTS *)
Definition token_transfer_doc (t : Transfer) : record :=
  (head "asset_transfer" ++
   [("tx_hash", JStr h);
    ("block_number", JNum (rc_blockNumber rc));
    ("timestamp", jnum_or_null ts);
    ("asset_type", JStr "erc20");
    ("asset", JStr (tr_tokenAddr t));
    ("from", jstr_or_null (tr_from t));
    ("to", jstr_or_null (tr_to t));
    ("amount", JStr (bigint_toString (tr_amount t)));
    ("log_index", match tr_logIndex t with
                  | Some n => JStr (bigint_toString n)
                  | None => JUndef
                  end)])%list.

Definition token_edge_doc (t : Transfer) : record :=
  (head "fund_flow_edge" ++
   [("tx_hash", JStr h);
    ("block_number", JNum (rc_blockNumber rc));
    ("timestamp", jnum_or_null ts);
    ("asset_type", JStr "erc20");
    ("asset", JStr (tr_tokenAddr t));
    ("from", jstr_or_null (tr_from t));
    ("to", jstr_or_null (tr_to t));
    ("amount", JStr (bigint_toString (tr_amount t)))])%list.

(** The rest of the loop body for a log that passed the tests. *)
Definition token_transfer_step (t : Transfer) (st : State) : Res State :=
  let st := emit transfersW (token_transfer_doc t) st in
  let st := emit edgesW (token_edge_doc t) st in
  do p1 <-
    (match tr_from t with
     | Some from =>
         if truthy_str from then
           modify from
             (fun p => do o <- add_token (tr_tokenAddr t) (tr_amount t) (erc20_out p);
                       Ok (set_erc20_out o p))
             (getProf from (prof st))
         else Ok (prof st)
     | None => Ok (prof st)
     end);
  do p2 <-
    (match tr_to t with
     | Some to =>
         if truthy_str to then
           modify to
             (fun p => do i <- add_token (tr_tokenAddr t) (tr_amount t) (erc20_in p);
                       Ok (set_erc20_in i p))
             (getProf to p1)
         else Ok p1
     | None => Ok p1
     end);
  Ok (set_prof p2 st).

(** The loop over [rc.logs]; the result carries the array [transfers]. *)
Fixpoint token_transfers_block (logs : list Log) (transfers : list Transfer)
    (st : State) : Res (list Transfer * State) :=
  match logs with
  | [] => Ok (transfers, st)
  | lg :: rest =>
      do d <- decodeTransferLog lg;
      match d with
      | None => token_transfers_block rest transfers st
      | Some t =>
          do st' <- token_transfer_step t st;
          token_transfers_block rest (transfers ++ [t])%list st'
      end
  end.

(** TRACE EDGES + INTERNAL NATIVE TRANSFERS *)
Definition trace_call_doc (trace : Call) : record :=
  (head "trace_call" ++
   [("tx_hash", JStr h);
    ("block_number", JNum (rc_blockNumber rc));
    ("trace", call_json trace)])%list.

Definition trace_edge_doc (from to type : string) (value input : option string)
    (depth : Z) : record :=
  (head "trace_edge" ++
   [("tx_hash", JStr h);
    ("block_number", JNum (rc_blockNumber rc));
    ("timestamp", jnum_or_null ts);
    ("caller", JStr from);
    ("callee", JStr to);
    ("call_type", JStr type);
    ("value", JStr (if truthy_ostr value then template value else "0"));
    ("input_selector",
      match input with
      | Some i => if truthy_str i && (10 <=? String.length i)%nat
                  then JStr (slice_to 10 i) else JNull
      | None => JNull
      end);
    ("depth", JNum depth)])%list.

Definition internal_transfer_doc (from to type : string) (val depth : Z) : record :=
  (head "internal_native_transfer" ++
   [("tx_hash", JStr h);
    ("block_number", JNum (rc_blockNumber rc));
    ("timestamp", jnum_or_null ts);
    ("from", JStr from);
    ("to", JStr to);
    ("value_wei", JStr (bigint_toString val));
    ("depth", JNum depth);
    ("call_type", JStr type)])%list.

(** [const val = value ? BigInt(value) : 0n] *)
Definition call_value (value : option string) : Res Z :=
  match value with
  | Some v => if truthy_str v then BigInt v else Ok 0
  | None => Ok 0
  end.

(** The body of [walkTrace] before it descends into [call.calls]. *)
Definition visit_call (from to type value input : option string) (depth : Z)
    (st : State) : Res State :=
  match from, to, type with
  | Some from, Some to, Some type =>
      if truthy_str from && truthy_str to && truthy_str type then
        let st := emit traceEdgesW (trace_edge_doc from to type value input depth) st in
        do val <- call_value value;
        if val >? 0 then
          let st := emit internalTransfersW
                      (internal_transfer_doc from to type val depth) st in
          let p := getProf to (getProf from (prof st)) in
          do p <- modify from
                    (fun pf_from => do v <- addBigStr (eth_out_wei pf_from) val;
                                    Ok (set_eth_out_wei v pf_from)) p;
          do p <- modify to
                    (fun pf_to => do v <- addBigStr (eth_in_wei pf_to) val;
                                  Ok (set_eth_in_wei v pf_to)) p;
          do p <- modify from
                    (fun pf_from =>
                       Ok (set_call_targets (set_add to (call_targets pf_from)) pf_from)) p;
          Ok (set_prof p st)
        else Ok st
      else Ok st
  | _, _, _ => Ok st
  end.

(** [function walkTrace(call, depth = 0)] *)
Fixpoint walkTrace (call : Call) (depth : Z) (st : State) {struct call} : Res State :=
  match call with
  | mkCall from to input value type _ _ calls =>
      do st1 <- visit_call from to type value input depth st;
      match calls with
      | Some subs =>
          (fix each (l : list Call) (st : State) {struct l} : Res State :=
             match l with
             | [] => Ok st
             | sub :: r => do st' <- walkTrace sub (depth + 1) st; each r st'
             end) subs st1
      | None => Ok st1
      end
  end.

Definition trace_block (trace : option Call) (st : State) : Res State :=
  match trace with
  | Some t => walkTrace t 0 (emit traceEdgesW (trace_call_doc t) st)
  | None => Ok st
  end.

(** REVERT REASONS *)
Definition revert_reason_doc (reason : option string) : record :=
  (head "revert_reason" ++
   [("tx_hash", JStr h);
    ("status", JStr "revert");
    ("reason", jstr_or_null reason);
    ("timestamp", jnum_or_null ts);
    ("block_number", JNum (rc_blockNumber rc))])%list.

Definition revert_block (trace : option Call) (st : State) : State :=
  if String.eqb (txStatus rc) "revert"
  then emit revertReasonsW (revert_reason_doc (decodeRevertReason trace (Some rc))) st
  else st.

(** ERC20 APPROVALS *)
Definition approval_doc (lg : Log) (a : ApprovalEvent) (logIdx : Z) : record :=
  (head "approval" ++
   [("tx_hash", JStr h);
    ("block_number", JNum (rc_blockNumber rc));
    ("timestamp", jnum_or_null ts);
    ("token", JStr (lg_address lg));
    ("owner", jstr_or_null (ev_owner a));
    ("spender", jstr_or_null (ev_spender a));
    ("value", JStr (bigint_toString (ev_value a)));
    ("log_index", JNum logIdx)])%list.

Definition allowance_edge_doc (lg : Log) (a : ApprovalEvent) : record :=
  (head "allowance_edge" ++
   [("tx_hash", JStr h);
    ("block_number", JNum (rc_blockNumber rc));
    ("timestamp", jnum_or_null ts);
    ("token", JStr (lg_address lg));
    ("from", jstr_or_null (ev_owner a));
    ("to", jstr_or_null (ev_spender a));
    ("amount", JStr (bigint_toString (ev_value a)))])%list.

Definition approval_step (lg : Log) (logIdx : Z) (st : State) : State :=
  match decodeApprovalEvent lg with
  | None => st
  | Some a =>
      let approvalKey := approval_key (lg_address lg) (ev_owner a) (ev_spender a) in
      let st := set_approvals
                  (map_set approvalKey
                     {| ap_amount := ev_value a; ap_tx_hash := h |} (approvals st)) st in
      let st := emit approvalsW (approval_doc lg a logIdx) st in
      emit allowanceEdgesW (allowance_edge_doc lg a) st
  end.

Fixpoint approvals_block (logs : list Log) (logIdx : Z) (st : State) : State :=
  match logs with
  | [] => st
  | lg :: rest => approvals_block rest (logIdx + 1) (approval_step lg logIdx st)
  end.

(** ALLOWANCE USAGE *)
Definition allowance_usage_doc (t : Transfer) (approval : ApprovalEntry) : record :=
  (head "allowance_usage" ++
   [("token", JStr (tr_tokenAddr t));
    ("owner", jstr_or_null (tr_from t));
    ("spender", JStr (tx_from tx));
    ("approved_amount", JStr (bigint_toString (ap_amount approval)));
    ("used_amount", JStr (bigint_toString (tr_amount t)));
    ("approval_tx_hash", JStr (ap_tx_hash approval));
    ("drain_tx_hash", JStr h);
    ("block_number", JNum (rc_blockNumber rc));
    ("timestamp", jnum_or_null ts)])%list.

Definition usage_step (t : Transfer) (st : State) : Res State :=
  do found <- find_approval (approvals st) (tr_tokenAddr t) (tr_from t) (tx_from tx);
  match found with
  | Some (_, approval) => Ok (emit allowanceUsageW (allowance_usage_doc t approval) st)
  | None => Ok st
  end.

Fixpoint usage_loop (transfers : list Transfer) (st : State) : Res State :=
  match transfers with
  | [] => Ok st
  | t :: rest => do st' <- usage_step t st; usage_loop rest st'
  end.

Definition allowance_usage_block (transfers : list Transfer) (st : State) : Res State :=
  if truthy_str (methodId tx)
     && String.eqb (toLowerCase (methodId tx)) "0x23b872dd"
  then usage_loop transfers st
  else Ok st.

(** The body of the loop for a transaction whose [tx] and [rc] are
    there. *)
Definition derive_tx (trace : option Call) (st : State) : Res State :=
  let st := timeline_block st in
  do st <- profile_block st;
  do st <- method_stats_block st;
  do st <- eth_transfer_block st;
  do r <- token_transfers_block (rc_logs rc) [] st;
  let (transfers, st) := r in
  do st <- trace_block trace st;
  let st := revert_block trace st in
  let st := approvals_block (rc_logs rc) 0 st in
  allowance_usage_block transfers st.

End Derive.

(** One iteration of [for (let i = 0; i < txHashes.length; i++)]. *)
Definition iteration (runId : string) (f : Fetched) (st : State) : Res State :=
  match f_tx f, f_rc f with
  | Some tx, Some rc => derive_tx runId (f_hash f) tx rc (f_blk f) (f_trace f) st
  | _, _ => Ok st
  end.

Fixpoint derive_loop (runId : string) (fs : list Fetched) (st : State) : Res State :=
  match fs with
  | [] => Ok st
  | f :: rest => do st' <- iteration runId f st; derive_loop runId rest st'
  end.

(** Flush profiles *)
Definition profile_doc (runId : string) (p : Prof) : record :=
  let amounts (o : list (string * string)) :=
    JObj (map (fun kv => (fst kv, JStr (snd kv))) o) in
  [("doc_type", JStr "address_profile"); ("run_id", JStr runId);
   ("address", JStr (address p));
   ("eth_in_wei", JStr (eth_in_wei p));
   ("eth_out_wei", JStr (eth_out_wei p));
   ("eth_in_txs", JNum (eth_in_txs p));
   ("eth_out_txs", JNum (eth_out_txs p));
   ("erc20_in", amounts (erc20_in p));
   ("erc20_out", amounts (erc20_out p));
   ("tx_out_count", JNum (tx_out_count p));
   ("tx_in_count", JNum (tx_in_count p));
   ("gas_spent_wei", JStr (gas_spent_wei p));
   ("total_gas_used", JStr (total_gas_used p));
   ("call_targets", JArr (map JStr (call_targets p)));
   ("first_seen_ts", jnum_or_null (first_seen_ts p));
   ("last_seen_ts", jnum_or_null (last_seen_ts p));
   ("first_seen_block", jnum_or_null (first_seen_block p));
   ("last_seen_block", jnum_or_null (last_seen_block p))].

(** Flush method stats *)
Definition method_stat_doc (runId : string) (stat : MethodStat) : record :=
  [("doc_type", JStr "method_stat"); ("run_id", JStr runId);
   ("to", JStr (ms_to stat));
   ("method_id", JStr (ms_method_id stat));
   ("count", JNum (ms_count stat));
   ("success_count", JNum (ms_success_count stat));
   ("revert_count", JNum (ms_revert_count stat));
   ("unique_callers", JNum (Z.of_nat (List.length (ms_callers stat))));
   ("first_seen_ts", jnum_or_null (ms_first_seen_ts stat));
   ("last_seen_ts", jnum_or_null (ms_last_seen_ts stat))].

Definition flush (runId : string) (st : State) : State :=
  let st := fold_left (fun st kv => emit profilesW (profile_doc runId (snd kv)) st)
                      (prof st) st in
  fold_left (fun st kv => emit methodStatsW (method_stat_doc runId (snd kv)) st)
            (methodStats st) st.

(** Section 3 of [main], from the creation of the maps to the two
    flushes. *)
Definition derive (runId : string) (fs : list Fetched) : Res State :=
  do st <- derive_loop runId fs init_state;
  Ok (flush runId st).

(* ------------------------------------------------------------------ *)
(** ** Invariants of the shard writer *)

(** What one [write] does to the shards on disk: [init] are the closed
    shards, [lst] is the open one. *)
Definition shards_write (K : Z) (chunk : string)
    (s : list (list string) * list string) : list (list string) * list string :=
  let (init, lst) := s in
  if Z.of_nat (List.length lst) >=? K then ((init ++ [lst])%list, [chunk])
  else (init, (lst ++ [chunk])%list).

(** The writer's variables and the disk agree with the shards
    [init ++ [lst]]: shard [i] is the file numbered [i], the open stream is
    the last one, [count] is its number of records, and no later shard
    file exists yet. *)
Definition writer_inv (dir name : string) (w : WState)
    (init : list (list string)) (lst : list string) : Prop :=
  let path := shard_path dir name in
  w_shard w = Z.of_nat (List.length init) + 1
  /\ w_files w = map (fun i => path (Z.of_nat i)) (seq 0 (S (List.length init)))
  /\ w_stream w = Some (path (Z.of_nat (List.length init)))
  /\ w_count w = Z.of_nat (List.length lst)
  /\ (forall i, (i < List.length init)%nat ->
       disk_read (path (Z.of_nat i)) (w_disk w) = Some (nth i init []))
  /\ disk_read (path (Z.of_nat (List.length init))) (w_disk w) = Some lst
  /\ (forall n, Z.of_nat (List.length init) < n ->
       disk_read (path n) (w_disk w) = None).

(** A run directory in which no shard file of this writer exists yet. *)
Definition fresh_disk (dir name : string) (d : Disk) : Prop :=
  forall n, 0 <= n -> disk_read (shard_path dir name n) d = None.

(** The shard boundary property as the specification words it, for one
    writer and one sequence of writes. *)
Definition shard_boundary_claim (dir name : string) (K : Z) (d : Disk)
    (objs : list record) : Prop :=
  let w := write_all dir name K objs (ndjsonWriter dir name d) in
  Z.of_nat (List.length (w_files w)) = ceil_div (Z.of_nat (List.length objs)) K
  /\ Forall (fun s => Z.of_nat (List.length s) <= K) (shards w)
  /\ List.concat (shards w) = map (fun obj => safeStringify obj ++ nl) objs.

(* ------------------------------------------------------------------ *)
(** ** Specification-level definitions for the revert-reason decoder *)

Definition is_byte (b : Z) : Prop := 0 <= b < 256.

(** [n] as a word of [k] bytes, most significant byte first. *)
Definition be_bytes (k : nat) (n : Z) : list Z := List.rev (Keccak.word_bytes k n).

(** The 32-byte encoding of an unsigned integer, as hexadecimal digits. *)
Definition uint256_hex (n : Z) : string := hexlify (be_bytes 32 n).

(** The ABI encoding of one string argument, as hexadecimal digits: the
    offset of the string (32), its length in bytes, and its bytes padded
    with zeros to a whole number of words. *)
Definition abi_encode_string (s : string) : string :=
  let bs := bytes_of_string s in
  let padding := ((32 - List.length bs mod 32) mod 32)%nat in
  uint256_hex 32 ++ uint256_hex (blen bs) ++ hexlify (bs ++ repeat 0 padding)%list.

(** A trace frame that carries only output bytes. *)
Definition output_only (output : string) : Call :=
  mkCall None None None None None (Some output) None None.

(** The four sources of a revert reason, in the order the specification
    lists them; [None] is a source that has nothing to offer. *)
Definition present (o : option string) : option string :=
  if truthy_ostr o then o else None.

Definition error_string_source (output : option string) : option string :=
  match present output with
  | Some o =>
      if startsWith o (selector_of "Error(string)") && (10 <? String.length o)%nat
      then match abi_decode_string ("0x" ++ slice_from 10 o) with
           | Ok s => Some s
           | Throw _ => None
           end
      else None
  | None => None
  end.

Definition panic_source (output : option string) : option string :=
  match present output with
  | Some o =>
      if startsWith o (selector_of "Panic(uint256)") && (10 <? String.length o)%nat
      then match hexToBigInt ("0x" ++ slice_from 10 o) with
           | Ok code => Some ("Panic(" ++ panic_text code ++ ")")
           | Throw _ => None
           end
      else None
  | None => None
  end.

Fixpoint first_present (sources : list (option string)) : option string :=
  match sources with
  | [] => None
  | Some s :: _ => Some s
  | None :: rest => first_present rest
  end.

Definition revert_reason_sources (trace : option Call) (rc : option Receipt)
  : list (option string) :=
  [ present (opt_field trace c_revertReason);
    present (opt_field rc rc_revertReason);
    error_string_source (opt_field trace c_output);
    panic_source (opt_field trace c_output) ].

(** The numeric panic codes the specification names. *)
Definition known_panic_codes : list Z := [1; 17; 18; 33; 34; 65; 81].

(* ------------------------------------------------------------------ *)
(** ** Specification-level definitions for the log decoders *)

(** The shape test of the specification, with "exactly 3 topics". *)
Definition transfer_shape_exact (lg : Log) : Prop :=
  List.length (lg_topics lg) = 3%nat
  /\ toLowerCase (topic_at 0 (lg_topics lg)) = toLowerCase TRANSFER_TOPIC0.

(** The shape test the code makes. *)
Definition has_shape (topic0 : string) (lg : Log) : Prop :=
  (3 <= List.length (lg_topics lg))%nat
  /\ toLowerCase (topic_at 0 (lg_topics lg)) = topic0.

(** Token-transfer decoding as the specification states it: a fact exactly
    for the logs of the exact shape. *)
Definition transfer_decoding_claim (lg : Log) : Prop :=
  (exists t, decodeTransferLog lg = Ok (Some t)) <-> transfer_shape_exact lg.

(** An ERC-721 transfer: the same event signature with three indexed
    arguments (from, to, token id) and no data. *)
Definition erc721_transfer_log : Log :=
  {| lg_address := "0x5fbdb2315678afecb367f032d93f642f64180aa3";
     lg_topics :=
       [TRANSFER_TOPIC0;
        "0x000000000000000000000000f39fd6e51aad88f6f4ce6ab8827279cfffb92266";
        "0x00000000000000000000000070997970c51812dc3a010c7d01b50e0d17dc79c8";
        "0x0000000000000000000000000000000000000000000000000000000000000007"];
     lg_data := "0x";
     lg_logIndex := None |}.

(** A token transfer of 500 units, as an ERC-20 contract logs it. *)
Definition erc20_transfer_log : Log :=
  {| lg_address := "0x5fbdb2315678afecb367f032d93f642f64180aa3";
     lg_topics :=
       [TRANSFER_TOPIC0;
        "0x000000000000000000000000f39fd6e51aad88f6f4ce6ab8827279cfffb92266";
        "0x00000000000000000000000070997970c51812dc3a010c7d01b50e0d17dc79c8"];
     lg_data := "0x00000000000000000000000000000000000000000000000000000000000001f4";
     lg_logIndex := None |}.

(* ------------------------------------------------------------------ *)
(** ** Specification-level definitions for the derivation loop *)

(** Reading facts back *)
Definition jstr_is (s : string) (j : json) : bool :=
  match j with
  | JStr t => String.eqb s t
  | _ => false
  end.

Definition doc_type_is (t : string) (r : record) : bool :=
  jstr_is t (field "doc_type" r).

Definition is_native_transfer (r : record) : bool :=
  doc_type_is "asset_transfer" r && jstr_is "native" (field "asset_type" r).

Definition is_native_edge (r : record) : bool :=
  doc_type_is "fund_flow_edge" r && jstr_is "native" (field "asset_type" r).

Definition is_internal_transfer (r : record) : bool :=
  doc_type_is "internal_native_transfer" r.

(** The integer a decimal-string field holds ([0] for anything else). *)
Definition amount_of (j : json) : Z :=
  match j with
  | JStr s => match StringToBigInt s with
              | Some z => z
              | None => 0
              end
  | _ => 0
  end.

Definition facts (l : list (Stream * record)) : list record := map snd l.

(** The sum of [weight] over the facts selected by [sel] whose field
    [side] is the address [a]. *)
Fixpoint tally (sel : record -> bool) (weight : record -> Z) (side a : string)
    (l : list record) : Z :=
  match l with
  | [] => 0
  | r :: rest =>
      (if sel r && jstr_is a (field side r) then weight r else 0)
      + tally sel weight side a rest
  end.

(** The sum of the field [amount] over those facts, and their number. *)
Definition total (sel : record -> bool) (amount side a : string) (l : list record) : Z :=
  tally sel (fun r => amount_of (field amount r)) side a l.

Definition count (sel : record -> bool) (side a : string) (l : list record) : Z :=
  tally sel (fun _ => 1) side a l.

(** Native asset transfers received minus sent by [a]. *)
Definition native_flow (a : string) (l : list record) : Z :=
  total is_native_transfer "amount_wei" "to" a l
  - total is_native_transfer "amount_wei" "from" a l.

(** Internal native transfers received minus sent by [a]. *)
Definition internal_flow (a : string) (l : list record) : Z :=
  total is_internal_transfer "value_wei" "to" a l
  - total is_internal_transfer "value_wei" "from" a l.

(** What a profile map holds for an address, with the value of a
    profile not yet created. *)
Definition obs {X : Type} (f : Prof -> X) (a : string) (m : list (string * Prof)) : X :=
  match map_get a m with
  | Some p => f p
  | None => f (newProf a)
  end.

Definition parsed (s : string) : Z := amount_of (JStr s).

Definition net_eth (p : Prof) : Z := parsed (eth_in_wei p) - parsed (eth_out_wei p).

(** Every amount a profile holds is the decimal rendering of an integer,
    and the profile stored for an address names that address. *)
Definition decimal (s : string) : Prop := exists z, s = bigint_toString z.

Definition prof_ok (k : string) (p : Prof) : Prop :=
  address p = k
  /\ decimal (eth_in_wei p) /\ decimal (eth_out_wei p)
  /\ decimal (gas_spent_wei p) /\ decimal (total_gas_used p)
  /\ Forall (fun kv => decimal (snd kv)) (erc20_in p)
  /\ Forall (fun kv => decimal (snd kv)) (erc20_out p).

Definition profs_ok (m : list (string * Prof)) : Prop :=
  NoDup (map fst m) /\ Forall (fun kv => prof_ok (fst kv) (snd kv)) m.

(** Well-formed logs: the address, the topics and the data are
    hexadecimal strings, as the provider returns them. *)
Definition wf_log (lg : Log) : bool :=
  is_hex_string (lg_address lg)
  && forallb is_hex_string (lg_topics lg)
  && is_hex_string (lg_data lg).

Definition wf_fetched (f : Fetched) : bool :=
  match f_tx f, f_rc f with
  | Some tx, Some rc => forallb wf_log (rc_logs rc)
  | _, _ => true
  end.

(** The documents each block of one iteration writes. *)
Definition timeline_docs (runId h : string) (tx : Tx) (rc : Receipt) (ts : option Z)
  : list (Stream * record) :=
  [(txEnrichedW, tx_enriched_doc runId h tx rc ts);
   (blockTxOrderW, block_tx_order_doc runId h rc ts);
   (contractCallsW, contract_call_doc runId h tx rc ts)].

Definition native_docs (runId h : string) (tx : Tx) (rc : Receipt) (ts : option Z)
  : list (Stream * record) :=
  match tx_to tx with
  | Some to =>
      if sends_value tx
      then [(transfersW, native_transfer_doc runId h tx rc ts to);
            (edgesW, native_edge_doc runId h tx rc ts to)]
      else []
  | None => []
  end.

Definition token_docs (runId h : string) (rc : Receipt) (ts : option Z)
    (transfers : list Transfer) : list (Stream * record) :=
  flat_map (fun t => [(transfersW, token_transfer_doc runId h rc ts t);
                      (edgesW, token_edge_doc runId h rc ts t)]) transfers.

(** The transfers the logs of a receipt decode to. *)
Fixpoint decoded_transfers (logs : list Log) : list Transfer :=
  match logs with
  | [] => []
  | lg :: rest =>
      match decodeTransferLog lg with
      | Ok (Some t) => t :: decoded_transfers rest
      | _ => decoded_transfers rest
      end
  end.

Definition revert_docs (runId h : string) (rc : Receipt) (ts : option Z)
    (trace : option Call) : list (Stream * record) :=
  if String.eqb (txStatus rc) "revert"
  then [(revertReasonsW,
         revert_reason_doc runId h rc ts (decodeRevertReason trace (Some rc)))]
  else [].

Fixpoint approval_docs (runId h : string) (rc : Receipt) (ts : option Z)
    (logs : list Log) (logIdx : Z) : list (Stream * record) :=
  match logs with
  | [] => []
  | lg :: rest =>
      match decodeApprovalEvent lg with
      | Some a =>
          (approvalsW, approval_doc runId h rc ts lg a logIdx)
          :: (allowanceEdgesW, allowance_edge_doc runId h rc ts lg a)
          :: approval_docs runId h rc ts rest (logIdx + 1)
      | None => approval_docs runId h rc ts rest (logIdx + 1)
      end
  end.

(** The native-value figures of a profile that only the ETH TRANSFER
    block and [walkTrace] assign. *)
Definition eth_view (p : Prof) : Z * Z * Z * Z :=
  (parsed (eth_in_wei p), parsed (eth_out_wei p), eth_in_txs p, eth_out_txs p).

(** Two profile maps that agree on the native-value figures of every
    address. *)
Definition same_eth (m m' : list (string * Prof)) : Prop :=
  forall a, obs eth_view a m' = obs eth_view a m.

Definition view_add (x y : Z * Z * Z * Z) : Z * Z * Z * Z :=
  let '(a, b, c, d) := x in
  let '(a', b', c', d') := y in
  (a + a', b + b', c + c', d + d').

(** The change a movement of [val] wei from [from] to [to] makes to the
    figures of address [a]; [n] is 1 when the movement counts as a
    transaction (the ETH TRANSFER block) and 0 when it does not
    ([walkTrace]). *)
Definition movement (from to : string) (val n : Z) (a : string) : Z * Z * Z * Z :=
  (if String.eqb a to then val else 0,
   if String.eqb a from then val else 0,
   if String.eqb a to then n else 0,
   if String.eqb a from then n else 0).

(** The change the ETH TRANSFER block makes to the figures of [a]. *)
Definition native_movement (tx : Tx) (a : string) : Z * Z * Z * Z :=
  match tx_to tx with
  | Some to =>
      if sends_value tx then movement (tx_from tx) to (tx_value tx) 1 a
      else (0, 0, 0, 0)
  | None => (0, 0, 0, 0)
  end.

(** The native-value figures of address [a] as the facts written so far
    give them: wei received and sent in native asset transfers and in
    internal native transfers, and the numbers of native asset transfers
    received and sent. *)
Definition docs_view (a : string) (l : list record) : Z * Z * Z * Z :=
  (total is_native_transfer "amount_wei" "to" a l
   + total is_internal_transfer "value_wei" "to" a l,
   total is_native_transfer "amount_wei" "from" a l
   + total is_internal_transfer "value_wei" "from" a l,
   count is_native_transfer "to" a l,
   count is_native_transfer "from" a l).

(** The documents [walkTrace] writes for one frame, and for a tree. *)
Definition visit_docs (runId h : string) (rc : Receipt) (ts : option Z)
    (from to type value input : option string) (depth : Z) : list (Stream * record) :=
  match from, to, type with
  | Some from, Some to, Some type =>
      if truthy_str from && truthy_str to && truthy_str type then
        (traceEdgesW, trace_edge_doc runId h rc ts from to type value input depth)
        :: match call_value value with
           | Ok val =>
               if val >? 0
               then [(internalTransfersW,
                      internal_transfer_doc runId h rc ts from to type val depth)]
               else []
           | Throw _ => []
           end
      else []
  | _, _, _ => []
  end.

Fixpoint walk_docs (runId h : string) (rc : Receipt) (ts : option Z)
    (call : Call) (depth : Z) {struct call} : list (Stream * record) :=
  match call with
  | mkCall from to input value type _ _ calls =>
      (visit_docs runId h rc ts from to type value input depth ++
       match calls with
       | Some subs =>
           (fix each (l : list Call) : list (Stream * record) :=
              match l with
              | [] => []
              | sub :: r => walk_docs runId h rc ts sub (depth + 1) ++ each r
              end) subs
       | None => []
       end)%list
  end.

Definition trace_docs (runId h : string) (rc : Receipt) (ts : option Z)
    (trace : option Call) : list (Stream * record) :=
  match trace with
  | Some t => (traceEdgesW, trace_call_doc runId h rc t) :: walk_docs runId h rc ts t 0
  | None => []
  end.

(** One block's effect: it appended the documents [new], the
    native-value figures of every profile moved by what [new] says, and
    well-formed amounts stay well-formed. *)
Definition steps (st st' : State) (new : list (Stream * record)) : Prop :=
  out st' = (out st ++ new)%list
  /\ (forall a, obs eth_view a (prof st')
                = view_add (obs eth_view a (prof st)) (docs_view a (facts new)))
  /\ (profs_ok (prof st) -> profs_ok (prof st')).

(* ------------------------------------------------------------------ *)
(** ** Specification-level definitions for the allowance linkage *)

(** A string without the separator of the registry keys. *)
Definition no_bar (s : string) : bool :=
  all_chars (fun c => negb (Ascii.eqb c "|")) s.

(** Two fields that hold the same address up to letter case. *)
Definition same_address (j1 j2 : json) : Prop :=
  exists s1 s2, j1 = JStr s1 /\ j2 = JStr s2 /\ toLowerCase s1 = toLowerCase s2.

(** The approval fact [a] backs the allowance-usage fact [u]: the same
    (token, owner, spender) up to letter case, and [u] quotes the
    transaction and the amount of [a]. *)
Definition backs (a u : record) : Prop :=
  same_address (field "token" a) (field "token" u)
  /\ same_address (field "owner" a) (field "owner" u)
  /\ same_address (field "spender" a) (field "spender" u)
  /\ field "tx_hash" a = field "approval_tx_hash" u
  /\ field "value" a = field "approved_amount" u.

(** Every allowance-usage fact is preceded, in the order written, by an
    approval fact that backs it. *)
Definition usage_sound (l : list (Stream * record)) : Prop :=
  forall pre u post,
    l = (pre ++ (allowanceUsageW, u) :: post)%list ->
    exists a, In (approvalsW, a) pre /\ backs a u.

(** Every entry of the registry comes from an approval fact already
    written, and its key is made of that fact's three addresses. *)
Definition registry_backed (reg : list (string * ApprovalEntry))
    (l : list (Stream * record)) : Prop :=
  forall key e,
    In (key, e) reg ->
    exists token owner spender a,
      key = token ++ "|" ++ owner ++ "|" ++ spender
      /\ no_bar token = true /\ no_bar owner = true /\ no_bar spender = true
      /\ In (approvalsW, a) l
      /\ field "token" a = JStr token
      /\ field "owner" a = JStr owner
      /\ field "spender" a = JStr spender
      /\ field "tx_hash" a = JStr (ap_tx_hash e)
      /\ field "value" a = JStr (bigint_toString (ap_amount e)).

(** The documents written to streams other than [W]. *)
Definition none_on (W : Stream) (l : list (Stream * record)) : Prop :=
  Forall (fun e => Stream_eqb (fst e) W = false) l.

(** The documents one iteration writes before it reaches the ALLOWANCE
    USAGE block. *)
Definition tx_docs (runId h : string) (tx : Tx) (rc : Receipt) (ts : option Z)
    (trace : option Call) : list (Stream * record) :=
  (timeline_docs runId h tx rc ts
   ++ native_docs runId h tx rc ts
   ++ token_docs runId h rc ts (decoded_transfers (rc_logs rc))
   ++ trace_docs runId h rc ts trace
   ++ revert_docs runId h rc ts trace
   ++ approval_docs runId h rc ts (rc_logs rc) 0)%list.

(** A list of allowance-usage documents of one transaction. *)
Definition usage_docs (runId h : string) (tx : Tx) (rc : Receipt) (ts : option Z)
    (us : list (Stream * record)) : Prop :=
  Forall (fun e => exists t ap,
            e = (allowanceUsageW, allowance_usage_doc runId h tx rc ts t ap)) us.

(** Documents written to streams among [Ws] only. *)
Definition streams_in (Ws : list Stream) (l : list (Stream * record)) : Prop :=
  Forall (fun e => existsb (Stream_eqb (fst e)) Ws = true) l.

(** The native-value figures of every profile are what the facts written
    so far say. *)
Definition eth_balanced (st : State) : Prop :=
  forall a, obs eth_view a (prof st) = docs_view a (facts (out st)).

(** The documents of the two flushes. *)
Definition flush_docs (runId : string) (st : State) : list (Stream * record) :=
  (map (fun kv => (profilesW, profile_doc runId (snd kv))) (prof st)
   ++ map (fun kv => (methodStatsW, method_stat_doc runId (snd kv))) (methodStats st))%list.

(** The streams the loop writes to. *)
Definition loop_streams : list Stream :=
  [txEnrichedW; blockTxOrderW; contractCallsW; transfersW; internalTransfersW;
   edgesW; traceEdgesW; revertReasonsW; approvalsW; allowanceEdgesW;
   allowanceUsageW].

(** The conservation property as the specification words it: the net
    native value of a finalized profile against the native asset-transfer
    facts alone. *)
Definition conservation_claim (runId : string) (fs : list Fetched) : Prop :=
  forall st, derive runId fs = Ok st ->
  forall p, In p (written profilesW (out st)) ->
  exists a i o,
    field "address" p = JStr a
    /\ field "eth_in_wei" p = JStr (bigint_toString i)
    /\ field "eth_out_wei" p = JStr (bigint_toString o)
    /\ i - o = native_flow a (facts (out st)).

(** A transfer of 1000 wei from one account to another, traced: the
    tracer reports the top-level call with the value of the transaction. *)
Definition traced_payment : Fetched :=
  let A := "0xf39fd6e51aad88f6f4ce6ab8827279cfffb92266" in
  let B := "0x70997970c51812dc3a010c7d01b50e0d17dc79c8" in
  {| f_hash := "0x01";
     f_tx := Some {| tx_from := A; tx_to := Some B; tx_value := 1000;
                     tx_data := "0x"; tx_gasPrice := Some 1 |};
     f_rc := Some {| rc_status := Some 1; rc_blockNumber := 1; rc_gasUsed := 21000;
                     rc_logs := []; rc_transactionIndex := Some 0;
                     rc_revertReason := None |};
     f_blk := Some 1700000000;
     f_trace := Some (mkCall (Some A) (Some B) (Some "0x") (Some "0x3e8")
                             (Some "CALL") (Some "0x") None None) |}.

(** The state a completed derivation returns. *)
Definition final_state (r : Res State) : State :=
  match r with
  | Ok st => st
  | Throw _ => init_state
  end.

(** The documents one iteration writes before the ERC20 APPROVALS block. *)
Definition early_docs (runId h : string) (tx : Tx) (rc : Receipt) (ts : option Z)
    (trace : option Call) : list (Stream * record) :=
  (timeline_docs runId h tx rc ts
   ++ native_docs runId h tx rc ts
   ++ token_docs runId h rc ts (decoded_transfers (rc_logs rc))
   ++ trace_docs runId h rc ts trace
   ++ revert_docs runId h rc ts trace)%list.

(** An approval of 200 units by an owner to a spender, then a
    [transferFrom] of 16 units of the owner's tokens sent by the spender
    (whose address the provider gives in checksum case). *)
Definition approval_then_spend : list Fetched :=
  let token := "0x5fbdb2315678afecb367f032d93f642f64180aa3" in
  let owner := "0xf39Fd6e51aad88F6F4ce6aB8827279cffFb92266" in
  let spender := "0x70997970C51812dc3A010C7d01b50e0d17dc79C8" in
  let owner_topic :=
    "0x000000000000000000000000f39fd6e51aad88f6f4ce6ab8827279cfffb92266" in
  let spender_topic :=
    "0x00000000000000000000000070997970c51812dc3a010c7d01b50e0d17dc79c8" in
  let other_topic :=
    "0x0000000000000000000000003c44cdddb6a900fa2b585dd299e03d12fa4293bc" in
  let receipt logs :=
    {| rc_status := Some 1; rc_blockNumber := 7; rc_gasUsed := 50000;
       rc_logs := logs; rc_transactionIndex := Some 0; rc_revertReason := None |} in
  [ {| f_hash := "0xaa";
       f_tx := Some {| tx_from := owner; tx_to := Some token; tx_value := 0;
                       tx_data := "0x095ea7b3"; tx_gasPrice := Some 1 |};
       f_rc := Some (receipt
                [ {| lg_address := token;
                     lg_topics := [APPROVAL_TOPIC0; owner_topic; spender_topic];
                     lg_data := "0xc8"; lg_logIndex := None |} ]);
       f_blk := Some 1700000000; f_trace := None |};
    {| f_hash := "0xbb";
       f_tx := Some {| tx_from := spender; tx_to := Some token; tx_value := 0;
                       tx_data := "0x23b872dd"; tx_gasPrice := Some 1 |};
       f_rc := Some (receipt
                [ {| lg_address := token;
                     lg_topics := [TRANSFER_TOPIC0; owner_topic; other_topic];
                     lg_data := "0x10"; lg_logIndex := None |} ]);
       f_blk := Some 1700000012; f_trace := None |} ].

(* ------------------------------------------------------------------ *)
(** ** Specification-level definitions for the native transfer *)

(** The condition of the specification for a native transfer, with the
    recipient it names: [to] is not null and the value is strictly
    positive. *)
Definition pays (tx : Tx) : option string :=
  match tx_to tx with
  | Some to => if tx_value tx >? 0 then Some to else None
  | None => None
  end.

(** The two documents of a native transfer. *)
Definition payment_docs (runId h : string) (tx : Tx) (rc : Receipt) (ts : option Z)
  : list (Stream * record) :=
  match pays tx with
  | Some to => [(transfersW, native_transfer_doc runId h tx rc ts to);
                (edgesW, native_edge_doc runId h tx rc ts to)]
  | None => []
  end.

(* ------------------------------------------------------------------ *)
(** ** Specification-level definitions for an iteration without a trace *)

(** The shape test as a boolean, to select the logs of a receipt. *)
Definition shaped (topic0 : string) (lg : Log) : bool :=
  (3 <=? List.length (lg_topics lg))%nat
  && String.eqb (toLowerCase (topic_at 0 (lg_topics lg))) topic0.

(** The record [r] is a fact of the type [doc_type] about transaction
    [h]. *)
Definition fact_of (doc_type h : string) (r : record) : Prop :=
  field "doc_type" r = JStr doc_type /\ field "tx_hash" r = JStr h.

(** The [asset_transfer] fact of the native value that transaction [h]
    sends to [to]. *)
Definition native_fact (h : string) (tx : Tx) (to : string) (r : record) : Prop :=
  fact_of "asset_transfer" h r
  /\ field "asset_type" r = JStr "native"
  /\ field "asset" r = JStr "ETH"
  /\ field "from" r = JStr (tx_from tx)
  /\ field "to" r = JStr to
  /\ field "amount_wei" r = JStr (bigint_toString (tx_value tx)).

(** The native facts of a transaction: one when it pays, none when it
    does not. *)
Definition native_facts (h : string) (tx : Tx) (l : list record) : Prop :=
  match pays tx with
  | Some to => exists r, l = [r] /\ native_fact h tx to r
  | None => l = []
  end.

(** The [asset_transfer] fact of a token-transfer log of transaction [h]:
    an [erc20] transfer of the emitting contract's token between the
    addresses of topics 1 and 2, of the amount that the data holds as one
    big-endian unsigned integer. *)
Definition token_fact (h : string) (lg : Log) (r : record) : Prop :=
  fact_of "asset_transfer" h r
  /\ field "asset_type" r = JStr "erc20"
  /\ field "asset" r = JStr (lg_address lg)
  /\ field "from" r = jstr_or_null (topicToAddress (topic_at 1 (lg_topics lg)))
  /\ field "to" r = jstr_or_null (topicToAddress (topic_at 2 (lg_topics lg)))
  /\ forall payload, Forall is_byte payload ->
       lg_data lg = String "0" (String "x" (hexlify payload)) ->
       field "amount" r = JStr (bigint_toString (be_word payload)).

(** A purchase after the two transactions of [approval_then_spend]: 3 wei
    sent to the token contract, which logs a transfer of 500 units; the
    trace fetch returned nothing. *)
Definition untraced_purchase : Fetched :=
  {| f_hash := "0xcc";
     f_tx := Some {| tx_from := "0xf39Fd6e51aad88F6F4ce6aB8827279cffFb92266";
                     tx_to := Some "0x5fbdb2315678afecb367f032d93f642f64180aa3";
                     tx_value := 3; tx_data := "0xa6f2ae3a";
                     tx_gasPrice := Some 1 |};
     f_rc := Some {| rc_status := Some 1; rc_blockNumber := 8; rc_gasUsed := 60000;
                     rc_logs := [erc20_transfer_log];
                     rc_transactionIndex := None; rc_revertReason := None |};
     f_blk := Some 1700000024;
     f_trace := None |}.

(** A payment of 5 wei whose transaction reverted. *)
Definition reverted_payment : Fetched :=
  let A := "0xf39fd6e51aad88f6f4ce6ab8827279cfffb92266" in
  let B := "0x70997970c51812dc3a010c7d01b50e0d17dc79c8" in
  {| f_hash := "0x02";
     f_tx := Some {| tx_from := A; tx_to := Some B; tx_value := 5;
                     tx_data := "0x"; tx_gasPrice := Some 1 |};
     f_rc := Some {| rc_status := Some 0; rc_blockNumber := 2; rc_gasUsed := 21000;
                     rc_logs := []; rc_transactionIndex := Some 0;
                     rc_revertReason := None |};
     f_blk := Some 1700000024;
     f_trace := None |}.

(** A contract creation that carries 5 wei. *)
Definition funded_creation : Tx :=
  {| tx_from := "0xf39fd6e51aad88f6f4ce6ab8827279cfffb92266"; tx_to := None;
     tx_value := 5; tx_data := "0x6080"; tx_gasPrice := Some 1 |}.

(* ------------------------------------------------------------------ *)
(** ** Specification-level definitions for the shape of records *)

(** [obj[k] !== undefined] *)
Definition carries (k : string) (r : record) : bool :=
  match field k r with
  | JUndef => false
  | _ => true
  end.

Definition is_number (j : json) : bool :=
  match j with
  | JNum _ => true
  | _ => false
  end.

Definition number_or_null (j : json) : bool :=
  match j with
  | JNum _ | JNull => true
  | _ => false
  end.

(** A decimal numeral: digits, after an optional minus sign. *)
Definition is_decimal_string (s : string) : bool :=
  match s with
  | EmptyString => false
  | String c r =>
      if Ascii.eqb c "-"
      then negb (String.eqb r EmptyString) && all_chars is_dec_digit r
      else all_chars is_dec_digit s
  end.

Definition is_decimal_json (j : json) : bool :=
  match j with
  | JStr s => is_decimal_string s
  | _ => false
  end.

Definition is_string_array (j : json) : bool :=
  match j with
  | JArr l => forallb (fun x => match x with JStr _ => true | _ => false end) l
  | _ => false
  end.

(** The fields of an [allowance_usage] record after [doc_type] and
    [run_id], as the object literal of the ALLOWANCE USAGE block names
    them. *)
Definition usage_fields : list string :=
  ["token"; "owner"; "spender"; "approved_amount"; "used_amount";
   "approval_tx_hash"; "drain_tx_hash"; "block_number"; "timestamp"].

(** The same fields as the specification names them. *)
Definition claimed_usage_fields : list string :=
  ["token"; "owner"; "spender"; "approved_amount"; "used_amount";
   "approval_tx_hash"; "usage_tx_hash"; "block_number"; "timestamp"].

(** A record carries each of [fields], and its two amounts are decimal
    strings. *)
Definition usage_contract (fields : list string) (u : record) : bool :=
  forallb (fun k => carries k u) fields
  && is_decimal_json (field "approved_amount" u)
  && is_decimal_json (field "used_amount" u).

(** The field contract as the specification words it. *)
Definition allowance_usage_claim (runId : string) (fs : list Fetched) : Prop :=
  forall st, derive runId fs = Ok st ->
  forallb (usage_contract claimed_usage_fields) (written allowanceUsageW (out st)) = true.

(** An allowance-usage document of one of the transactions of a run. *)
Definition usage_record (runId : string) (fs : list Fetched) (u : record) : Prop :=
  exists f tx rc t ap,
    In f fs /\ f_tx f = Some tx /\ f_rc f = Some rc
    /\ u = allowance_usage_doc runId (f_hash f) tx rc (f_blk f) t ap.

(* ------------------------------------------------------------------ *)
(** ** Specification-level definitions for the two flushes *)

(** The method-stat map holds each object under the key made of its own
    callee and selector, and holds no key twice. *)
Definition stats_ok (m : list (string * MethodStat)) : Prop :=
  NoDup (map fst m)
  /\ Forall (fun kv => fst kv = method_key (ms_to (snd kv)) (ms_method_id (snd kv))) m.

(** The fields of the two aggregates that hold numbers. *)
Definition profile_counters : list string :=
  ["eth_in_txs"; "eth_out_txs"; "tx_out_count"; "tx_in_count"].

Definition profile_totals : list string :=
  ["eth_in_wei"; "eth_out_wei"; "gas_spent_wei"; "total_gas_used"].

Definition profile_bounds : list string :=
  ["first_seen_ts"; "last_seen_ts"; "first_seen_block"; "last_seen_block"].

Definition stat_counters : list string :=
  ["count"; "success_count"; "revert_count"; "unique_callers"].

Definition stat_bounds : list string := ["first_seen_ts"; "last_seen_ts"].

(** Every field among [fields] of the record satisfies [shape]. *)
Definition fields_are (shape : json -> bool) (fields : list string) (r : record) : bool :=
  forallb (fun k => shape (field k r)) fields.

(** Finalization as the specification words it: one record per key, and
    every numeric field of a record a number. *)
Definition finalization_claim (runId : string) (fs : list Fetched) : Prop :=
  forall st, derive runId fs = Ok st ->
  NoDup (map (field "address") (written profilesW (out st)))
  /\ NoDup (map (fun r => (field "to" r, field "method_id" r))
                (written methodStatsW (out st)))
  /\ forallb (fields_are is_number (profile_counters ++ profile_bounds))
             (written profilesW (out st)) = true
  /\ forallb (fields_are is_number (stat_counters ++ stat_bounds))
             (written methodStatsW (out st)) = true.

(** The shape of a flushed profile: counters are numbers, totals are
    decimal strings, the call targets are an array of strings, and the
    first- and last-seen bounds are numbers or null. *)
Definition profile_shape (r : record) : bool :=
  fields_are is_number profile_counters r
  && fields_are is_decimal_json profile_totals r
  && is_string_array (field "call_targets" r)
  && fields_are number_or_null profile_bounds r.

(** The shape of a flushed method stat. *)
Definition stat_shape (r : record) : bool :=
  fields_are is_number stat_counters r
  && fields_are number_or_null stat_bounds r.

(* ------------------------------------------------------------------ *)
(** ** Definitions for the properties of the shard writer *)

(** The line feed that ends each record. *)
Definition lf : ascii := ascii_of_nat 10.

Definition no_lf (s : string) : bool :=
  all_chars (fun c => negb (Ascii.eqb c lf)) s.

(** The text of a file: its chunks, one after the other. *)
Definition file_text (chunks : list string) : string :=
  fold_right String.append EmptyString chunks.

(** The chunk [write(obj)] appends. *)
Definition line_of (obj : record) : string := safeStringify obj ++ nl.

(** Both [shard] and [files] count the shards opened so far, and [files]
    names them in order. *)
Definition files_inv (dir name : string) (w : WState) : Prop :=
  w_shard w = Z.of_nat (List.length (w_files w))
  /\ w_files w = map (fun i => shard_path dir name (Z.of_nat i))
                     (seq 0 (List.length (w_files w)))
  /\ (forall fp, w_stream w = Some fp -> In fp (w_files w)).

(** What a disk holds is only ever extended. *)
Definition extends (d d' : Disk) : Prop :=
  forall fp c, disk_read fp d = Some c ->
               exists c', disk_read fp d' = Some (c ++ c')%list.

(* ------------------------------------------------------------------ *)
(** ** Definitions for the properties of the BigInt helpers *)

(** The no-break space U+00A0, one of the white-space characters beyond
    ASCII, in its UTF-8 form. *)
Definition nbsp : string :=
  String (ascii_of_nat 194) (String (ascii_of_nat 160) EmptyString).

(** The accumulation the profile totals go through: [addBigStr] applied
    to one amount after the other. *)
Definition add_all (s : string) (amounts : list Z) : Res string :=
  fold_left (fun acc v => do a <- acc; addBigStr a v) amounts (Ok s).

Definition sum_Z (l : list Z) : Z := fold_right Z.add 0 l.

(* ------------------------------------------------------------------ *)
(** ** Definitions for the properties of the derivation loop *)

(** The hashes of a run whose transaction and receipt were both
    fetched, with what was fetched: the iterations that get past
    [if (!tx || !rc) continue]. *)
Definition processed (fs : list Fetched) : list (Fetched * Tx * Receipt) :=
  flat_map (fun f => match f_tx f, f_rc f with
                     | Some tx, Some rc => [(f, tx, rc)]
                     | _, _ => []
                     end) fs.

(** What one iteration writes before its ALLOWANCE USAGE block. *)
Definition run_docs (runId : string) (f : Fetched) : list (Stream * record) :=
  match f_tx f, f_rc f with
  | Some tx, Some rc => tx_docs runId (f_hash f) tx rc (f_blk f) (f_trace f)
  | _, _ => []
  end.

(** A run of one reverted and one successful transaction, between them a
    hash whose receipt could not be fetched. *)
Definition payments_run : list Fetched :=
  [ reverted_payment;
    {| f_hash := "0x0f"; f_tx := f_tx traced_payment; f_rc := None;
       f_blk := None; f_trace := None |};
    traced_payment ].

(** The receipt of a processed transaction reports no success:
    [rc.status !== 1]. *)
Definition reverted (p : Fetched * Tx * Receipt) : bool :=
  match rc_status (snd p) with
  | Some 1 => false
  | _ => true
  end.

(** The [revert_reason] record of a processed transaction: it names the
    transaction and the status [revert], and its reason is what
    [decodeRevertReason] gives for the trace and the receipt, null when
    that is nothing. *)
Definition revert_fact (p : Fetched * Tx * Receipt) (r : record) : Prop :=
  let f := fst (fst p) in
  field "doc_type" r = JStr "revert_reason"
  /\ field "tx_hash" r = JStr (f_hash f)
  /\ field "status" r = JStr "revert"
  /\ field "reason" r = jstr_or_null (decodeRevertReason (f_trace f) (Some (snd p))).

(** A run of two reverted transactions and a successful one: a payment
    whose trace could not be fetched, and a call whose trace holds the
    output of [revert("paused")]. *)
Definition reverts_run : list Fetched :=
  [ reverted_payment;
    {| f_hash := "0x03";
       f_tx := Some {| tx_from := "0xf39fd6e51aad88f6f4ce6ab8827279cfffb92266";
                       tx_to := Some "0x5fbdb2315678afecb367f032d93f642f64180aa3";
                       tx_value := 0; tx_data := "0xa6f2ae3a";
                       tx_gasPrice := Some 1 |};
       f_rc := Some {| rc_status := Some 0; rc_blockNumber := 3; rc_gasUsed := 30000;
                       rc_logs := []; rc_transactionIndex := None;
                       rc_revertReason := None |};
       f_blk := Some 1700000036;
       f_trace := Some (output_only ("0x08c379a0" ++ abi_encode_string "paused")) |};
    traced_payment ].

(** The logs of a receipt that [decodeApprovalEvent] accepts, each with
    the value of the loop counter [logIdx] when it is met. *)
Fixpoint decoded_approvals (logs : list Log) (logIdx : Z)
  : list (Log * ApprovalEvent * Z) :=
  match logs with
  | [] => []
  | lg :: rest =>
      match decodeApprovalEvent lg with
      | Some a => (lg, a, logIdx) :: decoded_approvals rest (logIdx + 1)
      | None => decoded_approvals rest (logIdx + 1)
      end
  end.

(** The accepted approval logs of a run, each with the iteration it
    belongs to. *)
Definition run_approvals (fs : list Fetched)
  : list (Fetched * Receipt * (Log * ApprovalEvent * Z)) :=
  flat_map (fun p => match p with
                     | (f, tx, rc) =>
                         map (fun x => (f, rc, x)) (decoded_approvals (rc_logs rc) 0)
                     end) (processed fs).

(** The trace edge [e] is the one of the call that the internal native
    transfer [i] reports: the same transaction, caller, callee, depth and
    call type, and the value of [i] is the positive integer that the raw
    value of [e] denotes. *)
Definition edge_of_transfer (e i : record) : Prop :=
  doc_type_is "trace_edge" e = true
  /\ field "tx_hash" e = field "tx_hash" i
  /\ field "caller" e = field "from" i
  /\ field "callee" e = field "to" i
  /\ field "depth" e = field "depth" i
  /\ field "call_type" e = field "call_type" i
  /\ exists raw v,
       field "value" e = JStr raw
       /\ StringToBigInt raw = Some v /\ 0 < v
       /\ field "value_wei" i = JStr (bigint_toString v).

(** What one frame or one tree contributes to the two streams. *)
Definition edges_ok (l : list (Stream * record)) : Prop :=
  (forall i, In i (written internalTransfersW l) ->
             exists e, In e (written traceEdgesW l) /\ edge_of_transfer e i)
  /\ (List.length (written internalTransfersW l)
      <= List.length (filter (doc_type_is "trace_edge") (written traceEdgesW l)))%nat.

(** The counters of a method stat agree: every call counted is counted
    once as a success or as a revert, and a caller is only recorded with
    a call. *)
Definition stat_counts_ok (s : MethodStat) : Prop :=
  ms_count s = ms_success_count s + ms_revert_count s
  /\ 0 <= ms_success_count s /\ 0 <= ms_revert_count s
  /\ Z.of_nat (List.length (ms_callers s)) <= ms_count s.

(** A first-seen and a last-seen bound: both null, or both set and in
    order. *)
Definition seen_ordered (first last : option Z) : Prop :=
  match first, last with
  | None, None => True
  | Some f, Some l => f <= l
  | _, _ => False
  end.

(** What holds of every method stat between two iterations. *)
Definition stat_ok (s : MethodStat) : Prop :=
  stat_counts_ok s /\ 1 <= ms_count s
  /\ seen_ordered (ms_first_seen_ts s) (ms_last_seen_ts s).

(** The four bounds of a profile are in order. *)
Definition prof_bounds (p : Prof) : Prop :=
  seen_ordered (first_seen_ts p) (last_seen_ts p)
  /\ seen_ordered (first_seen_block p) (last_seen_block p).

(** Two fields of a record that hold a first and a last bound: both
    null, or two numbers in order. *)
Definition bounds_ordered (first last : json) : Prop :=
  (first = JNull /\ last = JNull)
  \/ exists f l, first = JNum f /\ last = JNum l /\ f <= l.

(** The transaction figures of a profile. *)
Definition tx_view (p : Prof) : Z * Z * Z * Z :=
  (tx_out_count p, tx_in_count p, parsed (gas_spent_wei p), parsed (total_gas_used p)).

(** What a [contract_call] record says its transaction cost: gas used
    times the effective gas price. *)
Definition call_gas_cost (r : record) : Z :=
  amount_of (field "gas_used" r) * amount_of (field "effective_gas_price" r).

Definition any_record (r : record) : bool := true.

(** The transaction figures of address [a] as a list of [contract_call]
    records gives them. *)
Definition calls_view (a : string) (calls : list record) : Z * Z * Z * Z :=
  (count any_record "from" a calls,
   count any_record "to" a calls,
   tally any_record call_gas_cost "from" a calls,
   total any_record "gas_used" "from" a calls).

(** What the update of the address profile adds to the figures of [a]. *)
Definition tx_delta (tx : Tx) (rc : Receipt) (a : string) : Z * Z * Z * Z :=
  view_add
    (if truthy_str (tx_from tx) && String.eqb a (tx_from tx)
     then (1, 0, rc_gasUsed rc * gasPrice tx, rc_gasUsed rc) else (0, 0, 0, 0))
    (match tx_to tx with
     | Some to => if truthy_str to && String.eqb a to then (0, 1, 0, 0) else (0, 0, 0, 0)
     | None => (0, 0, 0, 0)
     end).

(** What the object [erc20_in] or [erc20_out] of a profile holds for a
    token, as an integer; a token it does not hold counts for zero. *)
Definition token_amount (t : string) (o : list (string * string)) : Z :=
  match map_get t o with
  | Some s => parsed s
  | None => 0
  end.

(** The same, read off the serialized object of a flushed profile. *)
Definition token_field (t : string) (j : json) : Z :=
  match j with
  | JObj o => match map_get t o with
              | Some v => amount_of v
              | None => 0
              end
  | _ => 0
  end.

(** The [asset_transfer] records of token [t]. *)
Definition is_token_transfer (t : string) (r : record) : bool :=
  doc_type_is "asset_transfer" r
  && jstr_is "erc20" (field "asset_type" r)
  && jstr_is t (field "asset" r).

(** What a decoded transfer adds to the token totals of address [a]. *)
Definition received (t a : string) (x : Transfer) : Z :=
  match tr_to x with
  | Some to =>
      if truthy_str to && String.eqb a to && String.eqb t (tr_tokenAddr x)
      then tr_amount x else 0
  | None => 0
  end.

Definition sent (t a : string) (x : Transfer) : Z :=
  match tr_from x with
  | Some from =>
      if truthy_str from && String.eqb a from && String.eqb t (tr_tokenAddr x)
      then tr_amount x else 0
  | None => 0
  end.


(** Two transactions whose receipts hold a log with the event signature of
    [Transfer] (respectively [Approval]) and a data field that is no
    number. *)
Definition unreadable_log (topic0 : string) : Log :=
  {| lg_address := "0x5fbdb2315678afecb367f032d93f642f64180aa3";
     lg_topics :=
       [topic0;
        "0x000000000000000000000000f39fd6e51aad88f6f4ce6ab8827279cfffb92266";
        "0x00000000000000000000000070997970c51812dc3a010c7d01b50e0d17dc79c8"];
     lg_data := "0xzz";
     lg_logIndex := Some 0 |}.

Definition fetched_with_log (lg : Log) : Fetched :=
  {| f_hash := "0x0a";
     f_tx := Some {| tx_from := "0xf39fd6e51aad88f6f4ce6ab8827279cfffb92266";
                     tx_to := Some "0x5fbdb2315678afecb367f032d93f642f64180aa3";
                     tx_value := 0;
                     tx_data := "0xa9059cbb";
                     tx_gasPrice := Some 1 |};
     f_rc := Some {| rc_status := Some 1;
                     rc_blockNumber := 1;
                     rc_gasUsed := 21000;
                     rc_logs := [lg];
                     rc_transactionIndex := Some 0;
                     rc_revertReason := None |};
     f_blk := Some 1700000000;
     f_trace := None |}.

(* ------------------------------------------------------------------ *)
(** ** The snapshot set of the RAW export *)

(** The addresses of the six deployed contracts, from which both [banned]
    and [truth.contracts] are made. *)
Record Deployed : Type := mkDeployed {
  d_token : string;
  d_stable : string;
  d_vault : string;
  d_reent : string;
  d_amm : string;
  d_adminBug : string
}.

(** [set.has(x)], and [array.includes(x)] on strings *)
Definition set_has (x : string) (s : list string) : bool :=
  existsb (String.eqb x) s.

(** [Object.values(truth.contracts)] *)
Definition contract_values (d : Deployed) : list string :=
  [d_token d; d_stable d; d_vault d; d_reent d; d_amm d; d_adminBug d].

(** [const banned = new Set([...])] *)
Definition banned (d : Deployed) : list string :=
  fold_left (fun s a => set_add a s)
            [d_token d; d_stable d; d_vault d; d_reent d; d_amm d; d_adminBug d] [].

(** What [envInt] can return: [parseInt] gives an integer, NaN when the
    text starts with no digit, or an infinity when the numeral is too
    long for a number. *)
Inductive Cap : Type :=
| Fin (c : Z)
| NaN
| PosInf
| NegInf.

(** [n < cap] for a counter [n]; every comparison with NaN is false. *)
Definition lt_num (n : Z) (cap : Cap) : bool :=
  match cap with
  | Fin c => n <? c
  | PosInf => true
  | NaN | NegInf => false
  end.

(** [snapAddrs] and [observedEOAs]. *)
Record Snap : Type := mkSnap {
  snapAddrs : list string;
  observedEOAs : Z
}.

(** [forEach(a => a && snapAddrs.add(a))] *)
Definition add_truthy (l : list string) (s : list string) : list string :=
  fold_left (fun s a => if truthy_str a then set_add a s else s) l s.

(** The set before the export loop: the attackers, then the contracts. *)
Definition snap_init (attackers : list string) (d : Deployed) : Snap :=
  {| snapAddrs := add_truthy (contract_values d) (add_truthy attackers []);
     observedEOAs := 0 |}.

(** [if (a && observedEOAs < SNAPSHOT_USER_CAP && !snapAddrs.has(a))
    { snapAddrs.add(a); observedEOAs++; }] *)
Definition observe (cap : Cap) (a : string) (s : Snap) : Snap :=
  if truthy_str a && lt_num (observedEOAs s) cap && negb (set_has a (snapAddrs s))
  then {| snapAddrs := set_add a (snapAddrs s); observedEOAs := observedEOAs s + 1 |}
  else s.

(** What one iteration of the export loop does to the snapshot set. *)
Definition expand_snapshot_set (cap : Cap) (f : Fetched) (s : Snap) : Snap :=
  match f_tx f, f_rc f with
  | Some tx, Some _ =>
      let s := observe cap (tx_from tx) s in
      match tx_to tx with
      | Some to => observe cap to s
      | None => s
      end
  | _, _ => s
  end.

Definition export_snapshot_set (cap : Cap) (fs : list Fetched) (s : Snap) : Snap :=
  fold_left (fun s f => expand_snapshot_set cap f s) fs s.

(** [array.slice(0, end)]: NaN counts as 0, a negative [end] counts from
    the end of the array, and the result never leaves the array. *)
Definition slice_upto {A : Type} (end_ : Cap) (l : list A) : list A :=
  match end_ with
  | Fin e =>
      if e <? 0 then firstn (Z.to_nat (Z.of_nat (List.length l) + e)) l
      else firstn (Z.to_nat e) l
  | PosInf => l
  | NaN | NegInf => []
  end.

(** [snapshotted_users] of [addresses.json] *)
Definition snapshotted_users (attackers : list string) (d : Deployed)
    (cap : Cap) (snap : list string) : list string :=
  slice_upto cap (filter (fun a => negb (set_has a (banned d))
                                 && negb (set_has a attackers)) snap).

(** The senders and recipients of the transactions the export loop gets
    to. *)
Definition addresses_of (f : Fetched) : list string :=
  match f_tx f, f_rc f with
  | Some tx, Some _ =>
      tx_from tx :: match tx_to tx with
                    | Some to => [to]
                    | None => []
                    end
  | _, _ => []
  end.

(** One step of the snapshot set, over the addresses [seen]: the set
    grows at its end by addresses that were seen, are not empty and were
    not in it, the counter counts them and stays within the cap, and as
    long as the counter is below the cap no address seen is left out. *)
Definition snap_step (cap : Cap) (seen : list string) (s s' : Snap) : Prop :=
  exists added,
    snapAddrs s' = (snapAddrs s ++ added)%list
    /\ observedEOAs s' = observedEOAs s + Z.of_nat (List.length added)
    /\ Forall (fun a => a <> EmptyString /\ ~ In a (snapAddrs s) /\ In a seen) added
    /\ (added = [] \/ lt_num (observedEOAs s' - 1) cap = true)
    /\ (lt_num (observedEOAs s') cap = true ->
        forall a, In a seen -> a <> EmptyString -> In a (snapAddrs s')).

(* ------------------------------------------------------------------ *)
(** ** Input the derivation reads without an error *)

(** A trace in which [BigInt] reads the [value] of every frame that has
    one. *)
Fixpoint readable_call (c : Call) : bool :=
  match c with
  | mkCall _ _ _ value _ _ _ calls =>
      match call_value value with
      | Ok _ => true
      | Throw _ => false
      end
      && match calls with
         | Some subs => forallb readable_call subs
         | None => true
         end
  end.

(** What was fetched for a hash has well-formed logs and, where there is
    a trace, a readable one. *)
Definition readable_fetched (f : Fetched) : bool :=
  wf_fetched f
  && match f_trace f with
     | Some c => readable_call c
     | None => true
     end.

(* ------------------------------------------------------------------ *)
(** ** The fund-flow graph *)

(** The edge that goes with an asset-transfer record: the same
    transaction, block, time, asset and ends, the amount under [amount]
    (a native transfer has it under [amount_wei]), and no [log_index]. *)
Definition flow_edge_of (r : record) : record :=
  [("doc_type", JStr "fund_flow_edge");
   ("run_id", field "run_id" r);
   ("tx_hash", field "tx_hash" r);
   ("block_number", field "block_number" r);
   ("timestamp", field "timestamp" r);
   ("asset_type", field "asset_type" r);
   ("asset", field "asset" r);
   ("from", field "from" r);
   ("to", field "to" r);
   ("amount", if jstr_is "native" (field "asset_type" r)
              then field "amount_wei" r
              else field "amount" r)].

(* ------------------------------------------------------------------ *)
(** ** The approval an allowance usage quotes *)

(** Two approval records for the same token, owner and spender. *)
Definition same_triple (a b : record) : Prop :=
  field "token" a = field "token" b
  /\ field "owner" a = field "owner" b
  /\ field "spender" a = field "spender" b.

(** Every entry of the registry holds the last approval fact written for
    its key: the fact [a] it comes from, and after [a] no approval fact
    for the same three addresses. *)
Definition registry_latest (reg : list (string * ApprovalEntry))
    (l : list (Stream * record)) : Prop :=
  NoDup (map fst reg)
  /\ forall key e,
       In (key, e) reg ->
       exists token owner spender a p mid,
         key = token ++ "|" ++ owner ++ "|" ++ spender
         /\ no_bar token = true /\ no_bar owner = true /\ no_bar spender = true
         /\ l = (p ++ (approvalsW, a) :: mid)%list
         /\ field "token" a = JStr token
         /\ field "owner" a = JStr owner
         /\ field "spender" a = JStr spender
         /\ field "tx_hash" a = JStr (ap_tx_hash e)
         /\ field "value" a = JStr (bigint_toString (ap_amount e))
         /\ forall a', In (approvalsW, a') mid -> ~ same_triple a' a.

(** Every allowance-usage fact quotes an approval fact written before
    it, after which, up to the usage fact, no approval fact for the same
    token, owner and spender was written. *)
Definition quotes_latest (l : list (Stream * record)) : Prop :=
  forall pre u post,
    l = (pre ++ (allowanceUsageW, u) :: post)%list ->
    exists p a mid,
      pre = (p ++ (approvalsW, a) :: mid)%list
      /\ backs a u
      /\ forall a', In (approvalsW, a') mid -> ~ same_triple a' a.

(** Two approval records for the same token, owner and spender up to
    letter case. *)
Definition same_triple_ci (a b : record) : Prop :=
  same_address (field "token" a) (field "token" b)
  /\ same_address (field "owner" a) (field "owner" b)
  /\ same_address (field "spender" a) (field "spender" b).

(** The token, owner and spender that an accepted approval log names. *)
Definition approval_triple (x : Fetched * Receipt * (Log * ApprovalEvent * Z))
  : string * option string * option string :=
  match x with
  | (_, _, (lg, a, _)) => (lg_address lg, ev_owner a, ev_spender a)
  end.

Definition lower_triple (t : string * option string * option string)
  : string * option string * option string :=
  match t with
  | (token, owner, spender) =>
      (toLowerCase token, option_map toLowerCase owner, option_map toLowerCase spender)
  end.

Definition ostr_eqb (a b : option string) : bool :=
  match a, b with
  | Some x, Some y => String.eqb x y
  | None, None => true
  | _, _ => false
  end.

Definition triple_eqb (s t : string * option string * option string) : bool :=
  match s, t with
  | (a, b, c), (a', b', c') => String.eqb a a' && ostr_eqb b b' && ostr_eqb c c'
  end.

(** The approval logs of the run name every token, owner and spender in
    one letter case: two of them that name the same three addresses up to
    letter case name them with the same strings. *)
Definition case_consistent (fs : list Fetched) : bool :=
  let ts := map approval_triple (run_approvals fs) in
  forallb (fun s =>
             forallb (fun t => implb (triple_eqb (lower_triple s) (lower_triple t))
                                     (triple_eqb s t)) ts) ts.

(** An approval of 200 units by an owner to a spender, a second approval
    of 50 units to the same spender, then a [transferFrom] of 16 units of
    the owner's tokens sent by the spender. *)
Definition reapproval_then_spend : list Fetched :=
  let token := "0x5fbdb2315678afecb367f032d93f642f64180aa3" in
  let owner := "0xf39Fd6e51aad88F6F4ce6aB8827279cffFb92266" in
  let spender := "0x70997970C51812dc3A010C7d01b50e0d17dc79C8" in
  let owner_topic :=
    "0x000000000000000000000000f39fd6e51aad88f6f4ce6ab8827279cfffb92266" in
  let spender_topic :=
    "0x00000000000000000000000070997970c51812dc3a010c7d01b50e0d17dc79c8" in
  let other_topic :=
    "0x0000000000000000000000003c44cdddb6a900fa2b585dd299e03d12fa4293bc" in
  let receipt logs :=
    {| rc_status := Some 1; rc_blockNumber := 7; rc_gasUsed := 50000;
       rc_logs := logs; rc_transactionIndex := Some 0; rc_revertReason := None |} in
  let approve hash data :=
    {| f_hash := hash;
       f_tx := Some {| tx_from := owner; tx_to := Some token; tx_value := 0;
                       tx_data := "0x095ea7b3"; tx_gasPrice := Some 1 |};
       f_rc := Some (receipt
                [ {| lg_address := token;
                     lg_topics := [APPROVAL_TOPIC0; owner_topic; spender_topic];
                     lg_data := data; lg_logIndex := None |} ]);
       f_blk := Some 1700000000; f_trace := None |} in
  [ approve "0xaa" "0xc8";
    approve "0xab" "0x32";
    {| f_hash := "0xbb";
       f_tx := Some {| tx_from := spender; tx_to := Some token; tx_value := 0;
                       tx_data := "0x23b872dd"; tx_gasPrice := Some 1 |};
       f_rc := Some (receipt
                [ {| lg_address := token;
                     lg_topics := [TRANSFER_TOPIC0; owner_topic; other_topic];
                     lg_data := "0x10"; lg_logIndex := None |} ]);
       f_blk := Some 1700000012; f_trace := None |} ].

(** The same three transactions when the provider gives the address of
    the token contract in lower case in the log of the first approval and
    in checksum case in the log of the second. *)
Definition mixed_case_reapproval : list Fetched :=
  let token := "0x5fbdb2315678afecb367f032d93f642f64180aa3" in
  let Token := "0x5FbDB2315678afecb367f032d93F642f64180aa3" in
  let owner := "0xf39Fd6e51aad88F6F4ce6aB8827279cffFb92266" in
  let spender := "0x70997970C51812dc3A010C7d01b50e0d17dc79C8" in
  let owner_topic :=
    "0x000000000000000000000000f39fd6e51aad88f6f4ce6ab8827279cfffb92266" in
  let spender_topic :=
    "0x00000000000000000000000070997970c51812dc3a010c7d01b50e0d17dc79c8" in
  let other_topic :=
    "0x0000000000000000000000003c44cdddb6a900fa2b585dd299e03d12fa4293bc" in
  let receipt logs :=
    {| rc_status := Some 1; rc_blockNumber := 7; rc_gasUsed := 50000;
       rc_logs := logs; rc_transactionIndex := Some 0; rc_revertReason := None |} in
  let approve hash address data :=
    {| f_hash := hash;
       f_tx := Some {| tx_from := owner; tx_to := Some token; tx_value := 0;
                       tx_data := "0x095ea7b3"; tx_gasPrice := Some 1 |};
       f_rc := Some (receipt
                [ {| lg_address := address;
                     lg_topics := [APPROVAL_TOPIC0; owner_topic; spender_topic];
                     lg_data := data; lg_logIndex := None |} ]);
       f_blk := Some 1700000000; f_trace := None |} in
  [ approve "0xaa" token "0xc8";
    approve "0xab" Token "0x32";
    {| f_hash := "0xbb";
       f_tx := Some {| tx_from := spender; tx_to := Some token; tx_value := 0;
                       tx_data := "0x23b872dd"; tx_gasPrice := Some 1 |};
       f_rc := Some (receipt
                [ {| lg_address := token;
                     lg_topics := [TRANSFER_TOPIC0; owner_topic; other_topic];
                     lg_data := "0x10"; lg_logIndex := None |} ]);
       f_blk := Some 1700000012; f_trace := None |} ].

(* ------------------------------------------------------------------ *)
(** ** The addresses that have a profile *)

(** The profile map has an entry for [a]. *)
Definition known (a : string) (m : list (string * Prof)) : bool :=
  match map_get a m with
  | Some _ => true
  | None => false
  end.

(** A record of the call, transfer or internal-transfer stream that has
    [a] as its [from] or its [to]. *)
Definition party (a : string) (e : Stream * record) : bool :=
  match fst e with
  | contractCallsW | transfersW | internalTransfersW =>
      jstr_is a (field "from" (snd e)) || jstr_is a (field "to" (snd e))
  | _ => false
  end.

Definition mentioned (a : string) (l : list (Stream * record)) : bool :=
  existsb (party a) l.

(* ------------------------------------------------------------------ *)
(** ** The method stats against the contract calls *)

(** The counters and the caller set stored under a key of the
    method-stat map; nothing is stored under a key that was never
    counted. *)
Definition stat_view (k : string) (m : list (string * MethodStat))
  : Z * Z * Z * list string :=
  match map_get k m with
  | Some s => (ms_count s, ms_success_count s, ms_revert_count s, ms_callers s)
  | None => (0, 0, 0, [])
  end.

(** The key a [contract_call] record is counted under: callee and
    selector, when it has a callee and its selector is not ["0x"]. *)
Definition call_key (r : record) : option string :=
  match field "to" r, field "method_id" r with
  | JStr to, JStr m => if String.eqb m "0x" then None else Some (method_key to m)
  | _, _ => None
  end.

Definition counted (k : string) (r : record) : bool :=
  match call_key r with
  | Some k' => String.eqb k k'
  | None => false
  end.

Definition succeeded (r : record) : bool := jstr_is "success" (field "status" r).

(** The sender of a call, when it is not the empty string. *)
Definition caller_of (r : record) : list string :=
  match field "from" r with
  | JStr f => if truthy_str f then [f] else []
  | _ => []
  end.

(** What one [contract_call] record adds to the figures of its key. *)
Definition bump (r : record) (v : Z * Z * Z * list string) : Z * Z * Z * list string :=
  let '(c, s, rv, cl) := v in
  (c + 1,
   if succeeded r then s + 1 else s,
   if succeeded r then rv else rv + 1,
   fold_left (fun cl f => set_add f cl) (caller_of r) cl).

Definition calls_stat (k : string) (calls : list record) (v : Z * Z * Z * list string)
  : Z * Z * Z * list string :=
  fold_left (fun v r => if counted k r then bump r v else v) calls v.

(* ------------------------------------------------------------------ *)
(** ** The call targets of a profile *)

(** A record that moves native value: a native asset transfer or an
    internal native transfer. *)
Definition moves_value (e : Stream * record) : bool :=
  match fst e with
  | transfersW => jstr_is "native" (field "asset_type" (snd e))
  | internalTransfersW => true
  | _ => false
  end.

(** The recipient of a value move that [a] sent. *)
Definition target_of (a : string) (e : Stream * record) : list string :=
  if moves_value e && jstr_is a (field "from" (snd e))
  then match field "to" (snd e) with
       | JStr to => [to]
       | _ => []
       end
  else [].

(** The set of recipients the records [l] give [a], added to [cl] in the
    order of the records. *)
Definition targets (a : string) (l : list (Stream * record)) (cl : list string)
  : list string :=
  fold_left (fun cl t => set_add t cl) (flat_map (target_of a) l) cl.

(* ------------------------------------------------------------------ *)
(** ** The transfers an allowance usage is written for *)

(** The field holds the address [s], up to letter case. *)
Definition same_lower (j : json) (s : string) : bool :=
  match j with
  | JStr t => String.eqb (toLowerCase t) (toLowerCase s)
  | _ => false
  end.

(** An approval record for the token of the transfer [t], given by the
    address the tokens leave to the sender of the transaction. *)
Definition approves (t : Transfer) (sender : string) (a : record) : bool :=
  same_lower (field "token" a) (tr_tokenAddr t)
  && match tr_from t with
     | Some f => same_lower (field "owner" a) f
     | None => false
     end
  && same_lower (field "spender" a) sender.

Definition approved (approvals : list record) (t : Transfer) (sender : string) : bool :=
  existsb (approves t sender) approvals.

(** [methodId && methodId.toLowerCase() === "0x23b872dd"] *)
Definition is_transferFrom (tx : Tx) : bool :=
  truthy_str (methodId tx) && String.eqb (toLowerCase (methodId tx)) "0x23b872dd".

(** What an allowance-usage record says was spent, and what a decoded
    transfer spends. *)
Definition usage_of (u : record) : json * json * json :=
  (field "token" u, field "owner" u, field "used_amount" u).

Definition spend_of (t : Transfer) : json * json * json :=
  (JStr (tr_tokenAddr t), jstr_or_null (tr_from t), JStr (bigint_toString (tr_amount t))).

(** Every approval fact written has an entry in the registry under the
    key made of its three addresses. *)
Definition registry_complete (reg : list (string * ApprovalEntry))
    (l : list (Stream * record)) : Prop :=
  forall a,
    In (approvalsW, a) l ->
    exists token owner spender,
      field "token" a = JStr token
      /\ field "owner" a = JStr owner
      /\ field "spender" a = JStr spender
      /\ no_bar token = true /\ no_bar owner = true /\ no_bar spender = true
      /\ map_get (token ++ "|" ++ owner ++ "|" ++ spender) reg <> None.
(* ================================================================== *)
(** * Properties *)

(* ------------------------------------------------------------------ *)
(** ** Decimal rendering and parsing are inverse *)

Lemma parse_digits_uint (d : uint) (acc : positive) :
  parse_digits 10 (NilEmpty.string_of_uint d) (Z.pos acc)
  = Some (Z.pos (Pos.of_uint_acc d acc)).
Proof.
  revert acc; induction d; intro acc; cbn [NilEmpty.string_of_uint parse_digits Pos.of_uint_acc];
    [reflexivity | ..];
    (change (digit_val 10 _) with (Some 0) ||
     change (digit_val 10 _) with (Some 1) ||
     change (digit_val 10 _) with (Some 2) ||
     change (digit_val 10 _) with (Some 3) ||
     change (digit_val 10 _) with (Some 4) ||
     change (digit_val 10 _) with (Some 5) ||
     change (digit_val 10 _) with (Some 6) ||
     change (digit_val 10 _) with (Some 7) ||
     change (digit_val 10 _) with (Some 8) ||
     change (digit_val 10 _) with (Some 9));
    cbv iota beta;
    match goal with
    | |- parse_digits 10 _ ?a = Some (Z.pos (Pos.of_uint_acc _ ?b)) =>
        replace a with (Z.pos b) by lia
    end; apply IHd.
Qed.

Lemma parse_digits_uint0 (d : uint) :
  parse_digits 10 (NilEmpty.string_of_uint d) 0
  = Some (Z.of_N (Pos.of_uint d)).
Proof.
  induction d; cbn [NilEmpty.string_of_uint parse_digits Pos.of_uint];
    [reflexivity | ..];
    (change (digit_val 10 _) with (Some 0) ||
     change (digit_val 10 _) with (Some 1) ||
     change (digit_val 10 _) with (Some 2) ||
     change (digit_val 10 _) with (Some 3) ||
     change (digit_val 10 _) with (Some 4) ||
     change (digit_val 10 _) with (Some 5) ||
     change (digit_val 10 _) with (Some 6) ||
     change (digit_val 10 _) with (Some 7) ||
     change (digit_val 10 _) with (Some 8) ||
     change (digit_val 10 _) with (Some 9));
    cbv iota beta; cbn [Z.mul Z.add Z.of_N];
    first [ exact IHd | apply parse_digits_uint ].
Qed.

Lemma digit_not_ws (c : ascii) : is_dec_digit c = true -> is_ws c = false.
Proof. unfold is_dec_digit, is_ws. intros H. lia. Qed.

Lemma ascii_starts_ws (c : ascii) (r : string) :
  is_ascii c = true -> starts_ws (String c r) = is_ws c.
Proof.
  unfold is_ascii. intros H.
  assert (E2 : forall c2, is_ws2 c c2 = false) by (intros; unfold is_ws2; lia).
  assert (E3 : forall c2 c3, is_ws3 c c2 c3 = false)
    by (intros; unfold is_ws3; cbv zeta; lia).
  destruct r as [|c2 [|c3 r3]]; cbn [starts_ws];
    rewrite ?E2, ?E3, ?orb_false_r; reflexivity.
Qed.

Lemma trim_left_no_ws (s : string) : starts_ws s = false -> trim_left s = s.
Proof.
  destruct s as [|c [|c2 [|c3 r3]]]; cbn [starts_ws trim_left]; intros H;
    try reflexivity;
    repeat match type of H with
    | (_ || _) = false => apply orb_false_iff in H; destruct H as [? H]
    end;
    repeat match goal with
    | E : ?b = false |- context [if ?b then _ else _] => rewrite E
    end; reflexivity.
Qed.

Lemma has_ws_starts (s : string) : has_ws s = false -> starts_ws s = false.
Proof.
  destruct s as [|c r]; [reflexivity|]. cbn [has_ws]. intros H.
  now apply orb_false_iff in H.
Qed.

Lemma trim_right_no_ws (s : string) : has_ws s = false -> trim_right s = s.
Proof.
  induction s as [|c r IH]; [reflexivity|]. intros H.
  pose proof (has_ws_starts _ H) as Hs.
  cbn [has_ws] in H. apply orb_false_iff in H. destruct H as [_ Hr].
  cbn [trim_right]. rewrite (trim_left_no_ws _ Hs), (IH Hr). reflexivity.
Qed.

(** A string without white space is its own trimming. *)
Lemma trim_no_ws (s : string) : has_ws s = false -> trim s = s.
Proof.
  intros H. unfold trim. rewrite (trim_left_no_ws _ (has_ws_starts _ H)).
  now apply trim_right_no_ws.
Qed.

Lemma ascii_has_ws (s : string) :
  all_chars is_ascii s = true -> all_chars not_ws s = true -> has_ws s = false.
Proof.
  unfold all_chars, not_ws.
  induction s as [|c r IH]; [reflexivity|]. cbn [list_ascii_of_string forallb].
  intros Ha Hn.
  apply andb_true_iff in Ha. destruct Ha as [Hc Ha].
  apply andb_true_iff in Hn. destruct Hn as [Hw Hn].
  cbn [has_ws]. rewrite (ascii_starts_ws c r Hc), (IH Ha Hn).
  apply negb_true_iff in Hw. now rewrite Hw.
Qed.

Lemma all_chars_impl (p q : ascii -> bool) (s : string) :
  (forall c, p c = true -> q c = true) ->
  all_chars p s = true -> all_chars q s = true.
Proof.
  intros Hpq. unfold all_chars. induction s as [|c r IH]; cbn; [auto|].
  intros H. apply andb_true_iff in H. destruct H as [Hc Hr].
  now rewrite (Hpq c Hc), IH.
Qed.

Lemma digit_ascii (c : ascii) : is_dec_digit c = true -> is_ascii c = true.
Proof. unfold is_dec_digit, is_ascii. intros H. lia. Qed.

Lemma digits_no_ws (s : string) :
  all_chars is_dec_digit s = true -> has_ws s = false.
Proof.
  intros H. apply ascii_has_ws; revert H; apply all_chars_impl.
  - apply digit_ascii.
  - intros c Hc. unfold not_ws. now rewrite (digit_not_ws c Hc).
Qed.

Lemma trim_digits (s : string) :
  all_chars is_dec_digit s = true -> trim s = s.
Proof. intros H. now apply trim_no_ws, digits_no_ws. Qed.

Lemma digit_head_tests (c : ascii) :
  is_dec_digit c = true ->
  Ascii.eqb c "-" = false /\ Ascii.eqb c "+" = false /\
  is_one_of c "x" "X" = false /\ is_one_of c "o" "O" = false /\
  is_one_of c "b" "B" = false.
Proof.
  unfold is_dec_digit, is_one_of. intros H.
  repeat split;
    repeat match goal with
    | |- context [Ascii.eqb c ?k] =>
        destruct (Ascii.eqb_spec c k) as [->|_]; [cbn in H; lia|]
    end; reflexivity.
Qed.

Lemma StringToBigInt_digits (s : string) :
  all_chars is_dec_digit s = true -> s <> EmptyString ->
  StringToBigInt s = parse_digits 10 s 0.
Proof.
  intros H Hne. unfold StringToBigInt. rewrite (trim_digits s H).
  destruct s as [|c r]; [congruence|].
  unfold all_chars in H. cbn in H. apply andb_true_iff in H. destruct H as [Hc Hr].
  destruct (digit_head_tests c Hc) as (-> & -> & _).
  destruct (Ascii.eqb c "0") eqn:E0; [| reflexivity].
  destruct r as [|x r']; [| ].
  - apply Ascii.eqb_eq in E0. subst c. reflexivity.
  - cbn in Hr. apply andb_true_iff in Hr. destruct Hr as [Hx _].
    destruct (digit_head_tests x Hx) as (_ & _ & -> & -> & ->). reflexivity.
Qed.

Lemma uint_digits (d : uint) :
  all_chars is_dec_digit (NilEmpty.string_of_uint d) = true.
Proof.
  unfold all_chars. induction d; cbn; auto.
Qed.

Lemma string_of_uint_nonempty (d : uint) :
  d <> Nil -> NilEmpty.string_of_uint d <> EmptyString.
Proof. destruct d; cbn; congruence. Qed.

Lemma pos_digits (p : positive) :
  let s := NilEmpty.string_of_uint (Pos.to_uint p) in
  all_chars is_dec_digit s = true /\ s <> EmptyString
  /\ parse_digits 10 s 0 = Some (Z.pos p).
Proof.
  cbn zeta. split; [apply uint_digits|]. split.
  - apply string_of_uint_nonempty, Unsigned.to_uint_nonnil.
  - rewrite parse_digits_uint0, DecimalPos.Unsigned.of_to. reflexivity.
Qed.

Lemma bigint_toString_pos (p : positive) :
  bigint_toString (Z.pos p) = NilEmpty.string_of_uint (Pos.to_uint p).
Proof.
  unfold bigint_toString. cbn.
  unfold NilZero.string_of_uint.
  destruct (Pos.to_uint p) eqn:E; try reflexivity.
  now apply Unsigned.to_uint_nonnil in E.
Qed.

Lemma bigint_toString_neg (p : positive) :
  bigint_toString (Z.neg p) = String "-" (NilEmpty.string_of_uint (Pos.to_uint p)).
Proof.
  unfold bigint_toString. cbn.
  unfold NilZero.string_of_uint.
  destruct (Pos.to_uint p) eqn:E; try reflexivity.
  now apply Unsigned.to_uint_nonnil in E.
Qed.

Lemma trim_signed_digits (s : string) :
  all_chars is_dec_digit s = true -> trim (String "-" s) = String "-" s.
Proof.
  intros H. apply trim_no_ws. cbn [has_ws].
  rewrite (ascii_starts_ws "-" s eq_refl), (digits_no_ws s H). reflexivity.
Qed.

(** Parsing the decimal rendering of a BigInt gives the BigInt back. *)
Lemma StringToBigInt_toString (z : Z) :
  StringToBigInt (bigint_toString z) = Some z.
Proof.
  destruct z as [|p|p].
  - reflexivity.
  - rewrite bigint_toString_pos.
    destruct (pos_digits p) as (Hd & Hne & Hp).
    now rewrite StringToBigInt_digits.
  - rewrite bigint_toString_neg.
    destruct (pos_digits p) as (Hd & Hne & Hp).
    unfold StringToBigInt. rewrite (trim_signed_digits _ Hd). cbv zeta.
    destruct (NilEmpty.string_of_uint (Pos.to_uint p)) eqn:E; [congruence|].
    cbn [Ascii.eqb Bool.eqb]. unfold parse_nonempty. rewrite Hp. reflexivity.
Qed.

Lemma BigInt_toString (z : Z) : BigInt (bigint_toString z) = Ok z.
Proof. unfold BigInt. now rewrite StringToBigInt_toString. Qed.

Lemma bigint_toString_inj (a b : Z) :
  bigint_toString a = bigint_toString b -> a = b.
Proof.
  intros H. pose proof (StringToBigInt_toString a) as Ha.
  rewrite H, StringToBigInt_toString in Ha. congruence.
Qed.

(* ------------------------------------------------------------------ *)
(** ** Strings *)

Lemma append_length (a b : string) :
  String.length (a ++ b) = (String.length a + String.length b)%nat.
Proof. induction a; cbn; congruence. Qed.

Lemma append_inv_head (s a b : string) : s ++ a = s ++ b -> a = b.
Proof. induction s; cbn; intros H; [assumption | injection H; auto]. Qed.

Lemma append_inv_tail (t a b : string) : a ++ t = b ++ t -> a = b.
Proof.
  revert b. induction a as [|c a IH]; intros [|d b] H.
  - reflexivity.
  - apply (f_equal String.length) in H. cbn in H. rewrite append_length in H. lia.
  - apply (f_equal String.length) in H. cbn in H. rewrite append_length in H. lia.
  - cbn in H. injection H as -> H. f_equal. now apply IH.
Qed.

Lemma append_assoc (a b c : string) : (a ++ b) ++ c = a ++ (b ++ c).
Proof. induction a; cbn; congruence. Qed.

(* ------------------------------------------------------------------ *)
(** ** The shard writer *)

Local Open Scope list_scope.

Lemma parse_digits_zeros (k : nat) (s : string) :
  parse_digits 10 (repeat_char "0" k ++ s)%string 0 = parse_digits 10 s 0.
Proof. induction k; cbn; auto. Qed.

Lemma parse_toString_nonneg (n : Z) :
  0 <= n -> parse_digits 10 (bigint_toString n) 0 = Some n.
Proof.
  destruct n as [|p|p]; intros H; [reflexivity | | lia].
  rewrite bigint_toString_pos. apply pos_digits.
Qed.

Lemma padStart0_inj (k : nat) (a b : Z) :
  0 <= a -> 0 <= b ->
  padStart0 k (bigint_toString a) = padStart0 k (bigint_toString b) -> a = b.
Proof.
  intros Ha Hb H.
  apply (f_equal (fun s => parse_digits 10 s 0)) in H.
  unfold padStart0 in H.
  rewrite !parse_digits_zeros, !parse_toString_nonneg in H by assumption.
  congruence.
Qed.

(** Distinct shard numbers give distinct file names. *)
Lemma shard_path_inj (dir name : string) (a b : Z) :
  0 <= a -> 0 <= b -> shard_path dir name a = shard_path dir name b -> a = b.
Proof.
  unfold shard_path, path_join. intros Ha Hb H.
  do 4 apply append_inv_head in H.
  apply append_inv_tail in H.
  now apply padStart0_inj in H.
Qed.

Lemma disk_read_snoc (fp q : string) (c : list string) (d : Disk) :
  disk_read fp (d ++ [(q, c)]) =
  match disk_read fp d with
  | Some x => Some x
  | None => if String.eqb fp q then Some c else None
  end.
Proof.
  induction d as [|[p x] r IH]; cbn; [reflexivity|].
  destruct (String.eqb fp p); auto.
Qed.

Lemma disk_read_open (fp q : string) (d : Disk) :
  disk_read q d = None ->
  disk_read fp (disk_open q d) = if String.eqb fp q then Some [] else disk_read fp d.
Proof.
  unfold disk_open. intros H. rewrite H, disk_read_snoc.
  destruct (String.eqb_spec fp q) as [->|N].
  - now rewrite H.
  - now destruct (disk_read fp d).
Qed.

Lemma disk_read_append (fp q chunk : string) (d : Disk) :
  disk_read fp (disk_append q chunk d) =
  if String.eqb fp q
  then Some (match disk_read q d with Some c => c ++ [chunk] | None => [chunk] end)
  else disk_read fp d.
Proof.
  induction d as [|[p x] r IH]; cbn.
  - now destruct (String.eqb fp q).
  - destruct (String.eqb_spec q p) as [->|N]; cbn.
    + destruct (String.eqb_spec fp p) as [->|N']; [reflexivity|].
      reflexivity.
    + destruct (String.eqb_spec fp p) as [->|N'].
      * destruct (String.eqb_spec p q) as [E|_]; [congruence|reflexivity].
      * exact IH.
Qed.

Section WriterProofs.

Variables (dir name : string) (K : Z).
Hypothesis K_pos : 1 <= K.

Let path := shard_path dir name.

Lemma path_eqb (a b : Z) :
  0 <= a -> 0 <= b -> String.eqb (path a) (path b) = (a =? b).
Proof.
  intros Ha Hb. destruct (String.eqb_spec (path a) (path b)) as [E|N].
  - apply shard_path_inj in E; try assumption. subst. now rewrite Z.eqb_refl.
  - destruct (Z.eqb_spec a b) as [->|]; congruence.
Qed.

Lemma writer_inv_init (d : Disk) :
  (forall n, 0 <= n -> disk_read (path n) d = None) ->
  writer_inv dir name (ndjsonWriter dir name d) [] [].
Proof.
  intros fresh. unfold writer_inv, ndjsonWriter, openNew. cbn. fold path.
  repeat split.
  - intros i Hi. lia.
  - rewrite disk_read_open by (apply fresh; lia). now rewrite String.eqb_refl.
  - intros n Hn. rewrite disk_read_open by (apply fresh; lia).
    rewrite path_eqb by lia. destruct (Z.eqb_spec n 0); [lia|]. apply fresh. lia.
Qed.

Lemma writer_inv_write (obj : record) (w : WState) init lst :
  writer_inv dir name w init lst ->
  let s := shards_write K (safeStringify obj ++ nl)%string (init, lst) in
  writer_inv dir name (write dir name K obj w) (fst s) (snd s).
Proof.
  unfold writer_inv. fold path.
  intros (Hs & Hf & Hst & Hc & Hd & Hl & Hn). cbn zeta.
  unfold write, shards_write. rewrite Hc.
  generalize (safeStringify obj ++ nl)%string. intros chunk.
  destruct (Z.of_nat (List.length lst) >=? K) eqn:E; cbn [fst snd].
  - (* a new shard is opened *)
    assert (Hfresh : disk_read (path (w_shard w)) (w_disk w) = None)
      by (apply Hn; lia).
    unfold openNew; cbn [w_shard w_count w_stream w_files w_disk]. fold path.
    rewrite Hs in *.
    rewrite length_app; cbn [List.length].
    replace (Z.of_nat (List.length init + 1)) with (Z.of_nat (List.length init) + 1) by lia.
    repeat split.
    + rewrite Hf. replace (List.length init + 1)%nat with (S (List.length init)) by lia.
      rewrite (seq_S (S (List.length init))), map_app. cbn [map Nat.add].
      do 3 f_equal. lia.
    + intros i Hi. rewrite disk_read_append, !disk_read_open by assumption.
      rewrite !path_eqb by lia.
      destruct (Z.eqb_spec (Z.of_nat i) (Z.of_nat (List.length init) + 1)); [lia|].
      destruct (Nat.eq_dec i (List.length init)) as [->|Ne].
      * rewrite app_nth2, Nat.sub_diag by lia. exact Hl.
      * rewrite app_nth1 by lia. apply Hd. lia.
    + rewrite disk_read_append, String.eqb_refl, !disk_read_open by assumption.
      now rewrite String.eqb_refl.
    + intros n Hlt. rewrite disk_read_append, !disk_read_open by assumption.
      rewrite !path_eqb by lia.
      destruct (Z.eqb_spec n (Z.of_nat (List.length init) + 1)); [lia|].
      apply Hn. lia.
  - (* the open shard takes the record *)
    rewrite Hst. cbn [w_shard w_count w_stream w_files w_disk].
    repeat split; try assumption.
    + rewrite Hc, length_app. cbn. lia.
    + intros i Hi. rewrite disk_read_append, path_eqb by lia.
      destruct (Z.eqb_spec (Z.of_nat i) (Z.of_nat (List.length init))); [lia|].
      now apply Hd.
    + rewrite disk_read_append, String.eqb_refl, Hl. reflexivity.
    + intros n Hlt. rewrite disk_read_append, path_eqb by lia.
      destruct (Z.eqb_spec n (Z.of_nat (List.length init))); [lia|].
      now apply Hn.
Qed.

Lemma map_nth_seq {A} (l : list A) (d : A) :
  map (fun i => nth i l d) (seq 0 (List.length l)) = l.
Proof.
  induction l as [|x l IH] using rev_ind; [reflexivity|].
  rewrite length_app; cbn [List.length]. rewrite Nat.add_1_r, seq_S, map_app.
  cbn [map Nat.add]. rewrite app_nth2, Nat.sub_diag by lia. cbn [nth].
  f_equal. rewrite <- IH at 2. apply map_ext_in. intros i Hi.
  apply in_seq in Hi. now rewrite app_nth1 by lia.
Qed.

Lemma writer_inv_shards (w : WState) init lst :
  writer_inv dir name w init lst -> shards w = init ++ [lst].
Proof.
  unfold writer_inv. fold path.
  intros (_ & Hf & _ & _ & Hd & Hl & _).
  unfold shards. rewrite Hf, map_map, seq_S, map_app. cbn [map Nat.add].
  rewrite Hl. f_equal.
  rewrite <- (map_nth_seq init []) at 2. apply map_ext_in. intros i Hi.
  apply in_seq in Hi. now rewrite Hd by lia.
Qed.

Lemma writer_inv_files (w : WState) init lst :
  writer_inv dir name w init lst ->
  List.length (w_files w) = S (List.length init).
Proof.
  unfold writer_inv. intros (_ & Hf & _). now rewrite Hf, length_map, length_seq.
Qed.

Lemma writer_inv_write_all (objs : list record) (w : WState) init lst :
  writer_inv dir name w init lst ->
  let s := fold_left (fun s obj => shards_write K (safeStringify obj ++ nl)%string s)
                     objs (init, lst) in
  writer_inv dir name (write_all dir name K objs w) (fst s) (snd s).
Proof.
  revert w init lst. induction objs as [|obj objs IH]; intros w init lst H.
  - exact H.
  - cbn [fold_left write_all]. apply (writer_inv_write obj) in H. cbn zeta in H.
    destruct (shards_write K _ (init, lst)) as [init' lst'] eqn:E.
    apply (IH _ _ _ H).
Qed.

(** The shards after [chunks] have been written: all closed shards are
    full, the open one holds between one and [K] records unless nothing
    was written, and together they are what was written. *)
Lemma shards_write_all (chunks : list string) init lst :
  Forall (fun s => Z.of_nat (List.length s) = K) init ->
  Z.of_nat (List.length lst) <= K ->
  let s := fold_left (fun s c => shards_write K c s) chunks (init, lst) in
  Forall (fun s => Z.of_nat (List.length s) = K) (fst s)
  /\ Z.of_nat (List.length (snd s)) <= K
  /\ (snd s = [] -> lst = [] /\ chunks = [])
  /\ List.concat (fst s) ++ snd s = List.concat init ++ lst ++ chunks.
Proof.
  revert init lst. induction chunks as [|c chunks IH]; intros init lst Hfull Hle.
  - cbn. split; [|split; [|split]]; auto. now rewrite app_nil_r.
  - cbn [fold_left]. cbv zeta.
    assert (Hsw : shards_write K c (init, lst) =
                  if Z.of_nat (List.length lst) >=? K
                  then (init ++ [lst], [c]) else (init, lst ++ [c]))
      by reflexivity.
    rewrite Hsw. clear Hsw.
    destruct (Z.of_nat (List.length lst) >=? K) eqn:E.
    + specialize (IH (init ++ [lst]) [c]).
      destruct IH as (A & B & C & D).
      * apply Forall_app. split; [assumption|]. constructor; [lia | constructor].
      * cbn. lia.
      * split; [|split; [|split]]; auto.
        -- intros X. destruct (C X) as (Y & _). discriminate.
        -- rewrite D, concat_app. cbn. now rewrite app_nil_r, <- !app_assoc.
    + specialize (IH init (lst ++ [c])).
      destruct IH as (A & B & C & D).
      * assumption.
      * rewrite length_app. cbn. lia.
      * split; [|split; [|split]]; auto.
        -- intros X. destruct (C X) as (Y & _). now destruct lst.
        -- rewrite D. now rewrite <- !app_assoc.
Qed.

End WriterProofs.

Lemma fold_left_map_chunks {S A B} (g : A -> B) (f : S -> B -> S) (l : list A) (s : S) :
  fold_left (fun s a => f s (g a)) l s = fold_left f (map g l) s.
Proof. revert s. induction l; cbn; auto. Qed.

Lemma length_concat_full (K : Z) (l : list (list string)) :
  Forall (fun s => Z.of_nat (List.length s) = K) l ->
  Z.of_nat (List.length (List.concat l)) = Z.of_nat (List.length l) * K.
Proof.
  induction 1 as [|s l Hs _ IH]; cbn [List.concat List.length]; [lia|].
  rewrite length_app. lia.
Qed.

Lemma ceil_div_shards (K a c : Z) :
  1 <= K -> 0 <= a -> 1 <= c <= K -> ceil_div (a * K + c) K = a + 1.
Proof.
  intros HK Ha Hc. unfold ceil_div.
  replace (a * K + c + K - 1) with ((c - 1) + (a + 1) * K) by lia.
  rewrite Z.div_add by lia. rewrite Z.div_small by lia. lia.
Qed.

(** C7 (amended).  Writing [N] records through a writer of shard capacity
    [K >= 1] into a run directory that holds none of its shard files
    leaves [max 1 (ceil (N / K))] shard files -- the first shard is opened
    when the writer is created, so an unused writer leaves one empty
    file --, each shard holds at most [K] records, and the shards read in
    file order are exactly the lines written, in order. *)
Theorem ndjsonWriter_shards (dir name : string) (K : Z) (d : Disk) (objs : list record) :
  1 <= K ->
  fresh_disk dir name d ->
  let w := write_all dir name K objs (ndjsonWriter dir name d) in
  Z.of_nat (List.length (w_files w))
    = Z.max 1 (ceil_div (Z.of_nat (List.length objs)) K)
  /\ Forall (fun s => Z.of_nat (List.length s) <= K) (shards w)
  /\ List.concat (shards w) = map (fun obj => (safeStringify obj ++ nl)%string) objs.
Proof.
  intros HK Hfresh w.
  pose proof (writer_inv_write_all dir name K objs _ [] []
                (writer_inv_init dir name d Hfresh)) as Hinv.
  cbn zeta in Hinv. fold w in Hinv.
  rewrite (fold_left_map_chunks (fun obj => (safeStringify obj ++ nl)%string)
             (fun s c => shards_write K c s)) in Hinv.
  destruct (shards_write_all K HK (map (fun obj => (safeStringify obj ++ nl)%string) objs)
              [] [] (Forall_nil _) ltac:(cbn; lia)) as (Hfull & Hle & Hemp & Hcat).
  set (s := fold_left _ _ _) in *.
  destruct s as [init lst]. cbn [fst snd] in *.
  rewrite (writer_inv_shards dir name w init lst Hinv).
  rewrite (writer_inv_files dir name w init lst Hinv).
  change (List.concat [] ++ [] ++ ?x) with x in Hcat.
  split; [|split].
  - pose proof (f_equal (fun l => Z.of_nat (List.length l)) Hcat) as Hlen.
    cbv beta in Hlen. rewrite length_app, length_map in Hlen.
    rewrite Nat2Z.inj_add, (length_concat_full K init Hfull) in Hlen.
    rewrite <- Hlen.
    destruct lst as [|x lst].
    + destruct (Hemp eq_refl) as (_ & Hobjs).
      rewrite Hobjs in Hcat. rewrite app_nil_r in Hcat.
      assert (init = []) as ->.
      { destruct init as [|s0 init]; [reflexivity|]. exfalso.
        inversion Hfull as [|? ? Hs0 Hrest].
        destruct s0; [cbn in Hs0; lia | cbn in Hcat; discriminate Hcat]. }
      cbn. unfold ceil_div. rewrite Z.div_small by lia. lia.
    + rewrite ceil_div_shards; cbn [List.length] in *; lia.
  - apply Forall_app. split.
    + eapply Forall_impl; [|exact Hfull]. cbn. intros; lia.
    + constructor; [assumption | constructor].
  - rewrite concat_app. cbn. now rewrite app_nil_r.
Qed.

Lemma ndjsonWriter_shards_witness :
  1 <= 2 /\ fresh_disk "flows" "asset_transfers" [] /\
  let objs := [[("n", JNum 1)]; [("n", JNum 2)]; [("n", JNum 3)]] in
  let w := write_all "flows" "asset_transfers" 2 objs
             (ndjsonWriter "flows" "asset_transfers" []) in
  Z.of_nat (List.length (w_files w)) = Z.max 1 (ceil_div 3 2)
  /\ Forall (fun s => Z.of_nat (List.length s) <= 2) (shards w)
  /\ List.concat (shards w) = map (fun obj => (safeStringify obj ++ nl)%string) objs.
Proof.
  split; [lia|]. split; [intros n _; reflexivity|].
  apply (ndjsonWriter_shards "flows" "asset_transfers" 2 []
           [[("n", JNum 1)]; [("n", JNum 2)]; [("n", JNum 3)]]).
  - lia.
  - intros n _; reflexivity.
Defined.

(** C7 as the specification states it fails for [N = 0]: a writer that
    never receives a record has created one (empty) shard file, not
    [ceil (0 / K) = 0] of them. *)
Lemma shard_boundary_claim_fails_unused_writer :
  ~ shard_boundary_claim "flows" "internal_native_transfers" 5000 [] [].
Proof.
  unfold shard_boundary_claim. intros (H & _). vm_compute in H. discriminate.
Qed.

(* ------------------------------------------------------------------ *)
(** ** Hexadecimal strings *)

Lemma startsWith_0x (s : string) :
  startsWith s "0x" = true -> s = String "0" (String "x" (str_drop 2 s)).
Proof.
  destruct s as [|a [|b r]]; cbn [startsWith]; try discriminate.
  - now rewrite andb_false_r.
  - destruct (Ascii.eqb_spec a "0") as [->|]; [|discriminate].
    destruct (Ascii.eqb_spec b "x") as [->|]; [|discriminate]. reflexivity.
Qed.

Lemma hex_digit_not_ws (c : ascii) : is_hex_digit c = true -> not_ws c = true.
Proof.
  unfold is_hex_digit, digit_val, not_ws, is_ws.
  set (n := code c).
  destruct ((48 <=? n) && (n <=? 57)) eqn:E1; [intros _; lia|].
  destruct ((97 <=? n) && (n <=? 122)) eqn:E2.
  - destruct (n - 87 <? 16) eqn:E; [intros _; lia | discriminate].
  - destruct ((65 <=? n) && (n <=? 90)) eqn:E3; [|discriminate].
    destruct (n - 55 <? 16) eqn:E; [intros _; lia | discriminate].
Qed.

Lemma hex_digit_ascii (c : ascii) : is_hex_digit c = true -> is_ascii c = true.
Proof.
  unfold is_hex_digit, digit_val, is_ascii.
  set (n := code c).
  destruct ((48 <=? n) && (n <=? 57)) eqn:E1; [intros _; lia|].
  destruct ((97 <=? n) && (n <=? 122)) eqn:E2; [intros _; lia|].
  destruct ((65 <=? n) && (n <=? 90)) eqn:E3; [intros _; lia | discriminate].
Qed.

Lemma StringToBigInt_0x (r : string) :
  all_chars is_hex_digit r = true -> r <> EmptyString ->
  StringToBigInt (String "0" (String "x" r)) = parse_digits 16 r 0.
Proof.
  intros H Hne. unfold StringToBigInt. rewrite trim_no_ws.
  - cbn. destruct r; [congruence | reflexivity].
  - change (String "0" (String "x" r)) with ("0x" ++ r)%string.
    apply ascii_has_ws; unfold all_chars;
      cbn [append list_ascii_of_string forallb];
      [ fold (all_chars is_ascii r) | fold (all_chars not_ws r) ];
      (rewrite andb_true_iff; split; [reflexivity|]);
      (rewrite andb_true_iff; split; [reflexivity|]);
      revert H; apply all_chars_impl;
      [ apply hex_digit_ascii | apply hex_digit_not_ws ].
Qed.

Lemma parse_digits_hex (r : string) (acc : Z) :
  all_chars is_hex_digit r = true -> 0 <= acc ->
  exists z, parse_digits 16 r acc = Some z /\ 0 <= z.
Proof.
  unfold all_chars. revert acc. induction r as [|c r IH]; intros acc H Hacc; cbn.
  - eauto.
  - cbn in H. apply andb_true_iff in H. destruct H as [Hc Hr].
    unfold is_hex_digit in Hc. destruct (digit_val 16 c) as [d|] eqn:E; [|discriminate].
    apply IH; [assumption|].
    assert (0 <= d).
    { unfold digit_val in E. set (n := code c) in *.
      destruct ((48 <=? n) && (n <=? 57)) eqn:E1.
      - destruct (n - 48 <? 16); inversion E; lia.
      - destruct ((97 <=? n) && (n <=? 122)) eqn:E2.
        + destruct (n - 87 <? 16); inversion E; lia.
        + destruct ((65 <=? n) && (n <=? 90)) eqn:E3; [|discriminate].
          destruct (n - 55 <? 16); inversion E; lia. }
    lia.
Qed.

(** A well-formed hexadecimal string always converts, to a non-negative
    BigInt. *)
Lemma hexToBigInt_hex_string (s : string) :
  is_hex_string s = true -> exists z, hexToBigInt s = Ok z /\ 0 <= z.
Proof.
  unfold is_hex_string. intros H. apply andb_true_iff in H. destruct H as [Hp Hd].
  rewrite (startsWith_0x s Hp). destruct (str_drop 2 s) as [|c r] eqn:E.
  - exists 0. split; [reflexivity | lia].
  - unfold hexToBigInt. cbn [truthy_str negb orb String.eqb Ascii.eqb Bool.eqb].
    replace (match r with EmptyString => false | String _ _ => false end) with false
      by (now destruct r).
    cbn [andb]. unfold BigInt. rewrite StringToBigInt_0x by (assumption || discriminate).
    destruct (parse_digits_hex (String c r) 0 Hd ltac:(lia)) as (z & Hz & Hz0).
    rewrite Hz. eauto.
Qed.

Lemma digit_val_hex_char (d : Z) :
  0 <= d < 16 -> digit_val 16 (hex_char d) = Some d.
Proof.
  intros H.
  assert (E : d = 0 \/ d = 1 \/ d = 2 \/ d = 3 \/ d = 4 \/ d = 5 \/ d = 6 \/ d = 7
              \/ d = 8 \/ d = 9 \/ d = 10 \/ d = 11 \/ d = 12 \/ d = 13 \/ d = 14
              \/ d = 15) by lia.
  repeat (destruct E as [->|E]; [reflexivity|]). subst. reflexivity.
Qed.

Lemma parse_digits_hexlify (bs : list Z) (acc : Z) :
  Forall is_byte bs ->
  parse_digits 16 (hexlify bs) acc = Some (fold_left (fun a b => a * 256 + b) bs acc).
Proof.
  intros H. revert acc. induction H as [|b bs Hb _ IH]; intros acc; [reflexivity|].
  cbn [hexlify parse_digits fold_left]. unfold is_byte in Hb.
  rewrite digit_val_hex_char by (split; [apply Z.div_pos | apply Z.div_lt_upper_bound]; lia).
  rewrite digit_val_hex_char by (apply Z.mod_pos_bound; lia).
  rewrite IH. do 2 f_equal.
  pose proof (Z.div_mod b 16 ltac:(lia)). lia.
Qed.

Lemma hexlify_hex_digits (bs : list Z) :
  Forall is_byte bs -> all_chars is_hex_digit (hexlify bs) = true.
Proof.
  unfold all_chars. induction 1 as [|b bs Hb _ IH]; [reflexivity|].
  cbn [hexlify list_ascii_of_string forallb]. unfold is_byte in Hb.
  unfold is_hex_digit at 1 2.
  rewrite digit_val_hex_char by (split; [apply Z.div_pos | apply Z.div_lt_upper_bound]; lia).
  rewrite digit_val_hex_char by (apply Z.mod_pos_bound; lia).
  exact IH.
Qed.

Lemma hexlify_length (bs : list Z) :
  String.length (hexlify bs) = (2 * List.length bs)%nat.
Proof. induction bs; cbn [hexlify String.length List.length]; lia. Qed.

Lemma word_bytes_length (k : nat) (w : Z) : List.length (Keccak.word_bytes k w) = k.
Proof. revert w. induction k; intros w; cbn; auto. Qed.

Lemma word_bytes_bytes (k : nat) (w : Z) : Forall is_byte (Keccak.word_bytes k w).
Proof.
  revert w. induction k; intros w; cbn; constructor; auto.
  apply Z.mod_pos_bound. lia.
Qed.

Lemma le_word_bytes (k : nat) (w : Z) :
  Keccak.le_word (Keccak.word_bytes k w) = w mod 256 ^ Z.of_nat k.
Proof.
  revert w. induction k as [|k IH]; intros w.
  - cbn. now rewrite Z.mod_1_r.
  - cbn [Keccak.word_bytes Keccak.le_word]. rewrite IH.
    rewrite Nat2Z.inj_succ, Z.pow_succ_r by lia.
    rewrite (Z.mul_comm 256), Z.rem_mul_r by lia. lia.
Qed.

Lemma fold_be_rev (l : list Z) :
  fold_left (fun a b => a * 256 + b) (List.rev l) 0 = Keccak.le_word l.
Proof.
  induction l as [|b l IH]; [reflexivity|].
  cbn [List.rev Keccak.le_word]. rewrite fold_left_app. cbn [fold_left].
  rewrite IH. lia.
Qed.

Lemma be_bytes_bytes (k : nat) (n : Z) : Forall is_byte (be_bytes k n).
Proof. unfold be_bytes. apply Forall_rev, word_bytes_bytes. Qed.

Lemma uint256_hex_length (n : Z) : String.length (uint256_hex n) = 64%nat.
Proof.
  unfold uint256_hex, be_bytes.
  now rewrite hexlify_length, length_rev, word_bytes_length.
Qed.

(** The 32-byte encoding of a [uint256] reads back as the number. *)
Lemma hexToBigInt_uint256_hex (n : Z) :
  0 <= n < 2 ^ 256 ->
  hexToBigInt (String "0" (String "x" (uint256_hex n))) = Ok n.
Proof.
  intros Hn. unfold hexToBigInt.
  pose proof (uint256_hex_length n) as Hlen.
  destruct (uint256_hex n) as [|c r] eqn:E; [discriminate|].
  cbn [truthy_str negb orb String.eqb Ascii.eqb Bool.eqb andb].
  replace (match r with EmptyString => false | String _ _ => false end) with false
    by (now destruct r).
  unfold BigInt. rewrite <- E. rewrite StringToBigInt_0x.
  - unfold uint256_hex. rewrite parse_digits_hexlify by apply be_bytes_bytes.
    unfold be_bytes. rewrite fold_be_rev, le_word_bytes.
    rewrite Z.mod_small; [reflexivity|]. change (256 ^ Z.of_nat 32) with (2 ^ 256). lia.
  - apply hexlify_hex_digits, be_bytes_bytes.
  - rewrite E. discriminate.
Qed.

(* ------------------------------------------------------------------ *)
(** ** The revert-reason decoder *)

(** The two literals of [decodeRevertReason] are the selectors of the
    standard errors. *)
Lemma error_selector : selector_of "Error(string)" = "0x08c379a0".
Proof. vm_compute. reflexivity. Qed.

Lemma panic_selector : selector_of "Panic(uint256)" = "0x4e487b71".
Proof. vm_compute. reflexivity. Qed.

Lemma selectors_exclusive (o : string) :
  startsWith o "0x08c379a0" = true -> startsWith o "0x4e487b71" = false.
Proof.
  destruct o as [|a [|b [|c r]]]; cbn [startsWith]; try discriminate.
  - now rewrite andb_false_r.
  - now rewrite !andb_false_r.
  - destruct (Ascii.eqb_spec c "0") as [->|]; [| now rewrite !andb_false_r].
    intros _. cbn. now rewrite !andb_false_r.
Qed.

Lemma decode_output_sources (o : string) :
  truthy_str o = true ->
  try_or_null (decode_output o)
  = first_present [error_string_source (Some o); panic_source (Some o)].
Proof.
  intros Ht. unfold error_string_source, panic_source, present, truthy_ostr.
  rewrite Ht, error_selector, panic_selector. unfold decode_output.
  destruct (startsWith o "0x08c379a0") eqn:E1; cbn [andb].
  - rewrite (selectors_exclusive o E1). cbn [andb].
    destruct (10 <? String.length o)%nat; [|reflexivity].
    destruct (abi_decode_string _); reflexivity.
  - destruct (startsWith o "0x4e487b71" && (10 <? String.length o)%nat); [|reflexivity].
    destruct (hexToBigInt _); reflexivity.
Qed.

(** C3.  [decodeRevertReason] returns what the first of its four sources
    offers, in the order: the reason of the trace, the reason of the
    receipt, the [Error(string)] decoding of the output, the
    [Panic(uint256)] decoding of the output; it is a total function, and
    a decoding that throws leaves its source empty.  On the output made
    of the [Error(string)] selector and the ABI encoding of
    ["INSUFFICIENT"], with no reason in trace or receipt, it returns
    exactly ["INSUFFICIENT"]. *)
Theorem decodeRevertReason_sources_in_order :
  (forall trace rc,
     decodeRevertReason trace rc = first_present (revert_reason_sources trace rc))
  /\ (forall rc,
        opt_field rc rc_revertReason = None ->
        decodeRevertReason
          (Some (output_only (selector_of "Error(string)"
                              ++ abi_encode_string "INSUFFICIENT")%string)) rc
        = Some "INSUFFICIENT").
Proof.
  split.
  - intros trace rc. unfold decodeRevertReason, revert_reason_sources.
    unfold present at 1 2.
    destruct (truthy_ostr (opt_field trace c_revertReason)) eqn:T1.
    { destruct (opt_field trace c_revertReason); [reflexivity | discriminate]. }
    destruct (truthy_ostr (opt_field rc rc_revertReason)) eqn:T2.
    { cbn [first_present].
      destruct (opt_field rc rc_revertReason); [reflexivity | discriminate]. }
    cbn [first_present].
    destruct (opt_field trace c_output) as [o|] eqn:O; cbn [truthy_ostr].
    + destruct (truthy_str o) eqn:T3.
      * now apply decode_output_sources.
      * unfold error_string_source, panic_source, present, truthy_ostr.
        now rewrite T3.
    + reflexivity.
  - intros rc Hrc. unfold decodeRevertReason. cbn [opt_field output_only c_revertReason
      c_output truthy_ostr]. rewrite Hrc. cbn [truthy_ostr].
    vm_compute. reflexivity.
Qed.

Lemma decodeRevertReason_sources_in_order_witness :
  decodeRevertReason
    (Some (output_only (selector_of "Error(string)"
                        ++ abi_encode_string "INSUFFICIENT")%string)) None
  = Some "INSUFFICIENT".
Proof.
  apply (proj2 decodeRevertReason_sources_in_order None). reflexivity.
Defined.

Lemma panic_trace_decodes (n : Z) :
  0 <= n < 2 ^ 256 ->
  decodeRevertReason
    (Some (output_only (selector_of "Panic(uint256)" ++ uint256_hex n)%string)) None
  = Some ("Panic(" ++ panic_text n ++ ")")%string.
Proof.
  intros Hn. rewrite panic_selector.
  unfold decodeRevertReason.
  cbn [opt_field output_only c_revertReason c_output truthy_ostr truthy_str append].
  unfold decode_output.
  cbn [startsWith Ascii.eqb Bool.eqb andb String.length slice_from str_drop].
  rewrite uint256_hex_length. cbn [Nat.ltb Nat.leb].
  change ("0x" ++ uint256_hex n)%string with (String "0" (String "x" (uint256_hex n))).
  rewrite hexToBigInt_uint256_hex by assumption. reflexivity.
Qed.

(** C4.  On an output made of the [Panic(uint256)] selector and the
    32-byte encoding of a code [n], with no reason in trace or receipt,
    the decoded reason is [Panic(NAME)] with a symbolic name, not the
    number, for each of the codes 1, 17, 18, 33, 34, 65 and 81, and
    [Panic(n)] with [n] in decimal for every other code; for 17 it is
    [Panic(ARITHMETIC_OVERFLOW)]. *)
Theorem decodeRevertReason_panic_codes (n : Z) :
  0 <= n < 2 ^ 256 ->
  let reason :=
    decodeRevertReason
      (Some (output_only (selector_of "Panic(uint256)" ++ uint256_hex n)%string)) None in
  (In n known_panic_codes ->
     exists name, reason = Some ("Panic(" ++ name ++ ")")%string
                  /\ all_chars is_dec_digit name = false)
  /\ (~ In n known_panic_codes ->
        reason = Some ("Panic(" ++ bigint_toString n ++ ")")%string)
  /\ (n = 17 -> reason = Some "Panic(ARITHMETIC_OVERFLOW)"
                /\ reason <> Some "Panic(17)" /\ reason <> Some "17").
Proof.
  intros Hn reason. subst reason. rewrite (panic_trace_decodes n Hn).
  split; [|split].
  - intros Hin. unfold known_panic_codes in Hin. cbn [In] in Hin.
    repeat (destruct Hin as [<-|Hin]; [eexists; split; [reflexivity | reflexivity]|]).
    contradiction.
  - intros Hnot. unfold panic_text, panicCodes. unfold known_panic_codes in Hnot.
    cbn [In] in Hnot.
    repeat match goal with
           | |- context [?a =? ?b] =>
               destruct (Z.eqb_spec a b) as [->|]; [exfalso; apply Hnot; tauto|]
           end.
    reflexivity.
  - intros ->. repeat split; discriminate.
Qed.

Lemma decodeRevertReason_panic_codes_witness :
  0 <= 17 < 2 ^ 256 /\
  decodeRevertReason
    (Some (output_only (selector_of "Panic(uint256)" ++ uint256_hex 17)%string)) None
  = Some "Panic(ARITHMETIC_OVERFLOW)".
Proof.
  assert (H : 0 <= 17 < 2 ^ 256) by (split; [discriminate | reflexivity]).
  split; [exact H|].
  exact (proj1 (proj2 (proj2 (decodeRevertReason_panic_codes 17 H)) eq_refl)).
Defined.

(* ------------------------------------------------------------------ *)
(** ** The log decoders *)

Lemma TRANSFER_TOPIC0_id :
  TRANSFER_TOPIC0 = ethers_id "Transfer(address,address,uint256)".
Proof. vm_compute. reflexivity. Qed.

Lemma APPROVAL_TOPIC0_id :
  APPROVAL_TOPIC0 = ethers_id "Approval(address,address,uint256)".
Proof. vm_compute. reflexivity. Qed.

Lemma TRANSFER_TOPIC0_lower : toLowerCase TRANSFER_TOPIC0 = TRANSFER_TOPIC0.
Proof. vm_compute. reflexivity. Qed.

Lemma APPROVAL_TOPIC0_lower : toLowerCase APPROVAL_TOPIC0 = APPROVAL_TOPIC0.
Proof. vm_compute. reflexivity. Qed.

(** The data payload is read as one big-endian unsigned integer. *)
Lemma hexToBigInt_hexlify (bs : list Z) :
  Forall is_byte bs ->
  hexToBigInt (String "0" (String "x" (hexlify bs))) = Ok (be_word bs).
Proof.
  intros H. destruct bs as [|b bs]; [reflexivity|].
  unfold hexToBigInt, BigInt.
  rewrite StringToBigInt_0x.
  - rewrite parse_digits_hexlify by assumption. unfold be_word.
    cbn [hexlify truthy_str negb orb String.eqb Ascii.eqb Bool.eqb andb].
    reflexivity.
  - now apply hexlify_hex_digits.
  - discriminate.
Qed.

Lemma str_drop_hexlify (k : nat) (bs : list Z) :
  str_drop (2 * k) (hexlify bs) = hexlify (skipn k bs).
Proof.
  revert bs. induction k as [|k IH]; intros bs; [reflexivity|].
  replace (2 * S k)%nat with (S (S (2 * k))) by lia.
  destruct bs as [|b bs]; [reflexivity|].
  cbn [hexlify str_drop skipn]. apply IH.
Qed.

(** An address is the low 20 bytes of a 32-byte topic. *)
Lemma topicToAddress_low_20_bytes (w : list Z) :
  List.length w = 32%nat ->
  topicToAddress (String "0" (String "x" (hexlify w)))
  = Some (String "0" (String "x" (hexlify (skipn 12 w)))).
Proof.
  intros Hlen. unfold topicToAddress, slice_last.
  cbn [truthy_str negb String.length]. rewrite hexlify_length, Hlen.
  change (S (S (2 * 32)) - 40)%nat with (S (S (2 * 12))).
  cbn [str_drop]. now rewrite str_drop_hexlify.
Qed.

Lemma shape_test (topic0 : string) (lg : Log) :
  toLowerCase topic0 = topic0 ->
  ((List.length (lg_topics lg) <? 3)%nat = false
   /\ String.eqb (toLowerCase (topic_at 0 (lg_topics lg))) (toLowerCase topic0) = true)
  <-> has_shape topic0 lg.
Proof.
  intros Hl. unfold has_shape. rewrite Hl, Nat.ltb_ge, String.eqb_eq. tauto.
Qed.

Lemma decodeTransferLog_cases (lg : Log) :
  decodeTransferLog lg =
  if (List.length (lg_topics lg) <? 3)%nat then Ok None
  else if String.eqb (toLowerCase (topic_at 0 (lg_topics lg)))
                     (toLowerCase TRANSFER_TOPIC0)
  then do amount <- hexToBigInt (data_or_0x (lg_data lg));
       Ok (Some {| tr_from := topicToAddress (topic_at 1 (lg_topics lg));
                   tr_to := topicToAddress (topic_at 2 (lg_topics lg));
                   tr_amount := amount;
                   tr_tokenAddr := lg_address lg;
                   tr_logIndex := lg_logIndex lg |})
  else Ok None.
Proof.
  unfold decodeTransferLog.
  destruct (List.length (lg_topics lg) <? 3)%nat; [reflexivity|].
  now destruct (String.eqb _ _).
Qed.

Lemma decodeApprovalEvent_cases (lg : Log) :
  decodeApprovalEvent lg =
  if (List.length (lg_topics lg) <? 3)%nat then None
  else if String.eqb (toLowerCase (topic_at 0 (lg_topics lg)))
                     (toLowerCase APPROVAL_TOPIC0)
  then match hexToBigInt (data_or_0x (lg_data lg)) with
       | Ok value => Some {| ev_owner := topicToAddress (topic_at 1 (lg_topics lg));
                             ev_spender := topicToAddress (topic_at 2 (lg_topics lg));
                             ev_value := value |}
       | Throw _ => None
       end
  else None.
Proof.
  unfold decodeApprovalEvent.
  destruct (List.length (lg_topics lg) <? 3)%nat; [reflexivity|].
  destruct (String.eqb _ _); [|reflexivity]. cbn [negb].
  now destruct (hexToBigInt _).
Qed.

(** C5 (amended).  For a log whose data is a string of hexadecimal
    bytes, token-transfer decoding yields a fact exactly when the log has
    at least 3 topics and its first topic is, up to letter case, the
    hash of [Transfer(address,address,uint256)]; the fact carries the
    addresses made from topics 1 and 2 (the low 20 bytes of a 32-byte
    topic), the data read as one big-endian unsigned integer and the
    emitting address; in every other case the decoder yields none, and it
    does not throw.  Approval decoding does the same against the hash of
    [Approval(address,address,uint256)]. *)
Theorem token_transfer_decoding (lg : Log) (payload : list Z) :
  Forall is_byte payload ->
  lg_data lg = String "0" (String "x" (hexlify payload)) ->
  let from := topicToAddress (topic_at 1 (lg_topics lg)) in
  let to := topicToAddress (topic_at 2 (lg_topics lg)) in
  (has_shape TRANSFER_TOPIC0 lg ->
     decodeTransferLog lg
     = Ok (Some {| tr_from := from; tr_to := to; tr_amount := be_word payload;
                   tr_tokenAddr := lg_address lg; tr_logIndex := lg_logIndex lg |}))
  /\ (~ has_shape TRANSFER_TOPIC0 lg -> decodeTransferLog lg = Ok None)
  /\ (has_shape APPROVAL_TOPIC0 lg ->
        decodeApprovalEvent lg
        = Some {| ev_owner := from; ev_spender := to; ev_value := be_word payload |})
  /\ (~ has_shape APPROVAL_TOPIC0 lg -> decodeApprovalEvent lg = None)
  /\ (forall w, List.length w = 32%nat ->
        topicToAddress (String "0" (String "x" (hexlify w)))
        = Some (String "0" (String "x" (hexlify (skipn 12 w))))).
Proof.
  intros Hbytes Hdata from to.
  assert (Hamount : hexToBigInt (data_or_0x (lg_data lg)) = Ok (be_word payload)).
  { rewrite Hdata. unfold data_or_0x. cbn [truthy_str].
    now apply hexToBigInt_hexlify. }
  rewrite decodeTransferLog_cases, decodeApprovalEvent_cases, Hamount.
  pose proof (shape_test TRANSFER_TOPIC0 lg TRANSFER_TOPIC0_lower) as HT.
  pose proof (shape_test APPROVAL_TOPIC0 lg APPROVAL_TOPIC0_lower) as HA.
  destruct (List.length (lg_topics lg) <? 3)%nat.
  - repeat split; try reflexivity; try apply topicToAddress_low_20_bytes;
      intros H; try (apply HT in H; destruct H; discriminate);
      try (apply HA in H; destruct H; discriminate).
  - destruct (String.eqb _ (toLowerCase TRANSFER_TOPIC0)),
             (String.eqb _ (toLowerCase APPROVAL_TOPIC0));
      repeat split; try reflexivity; try apply topicToAddress_low_20_bytes;
      intros H;
      try (apply HT in H; destruct H; discriminate);
      try (apply HA in H; destruct H; discriminate);
      try (exfalso; apply H; apply HT; now split);
      try (exfalso; apply H; apply HA; now split).
Qed.

Lemma token_transfer_decoding_witness :
  decodeTransferLog erc20_transfer_log
  = Ok (Some {| tr_from := Some "0xf39fd6e51aad88f6f4ce6ab8827279cfffb92266";
                tr_to := Some "0x70997970c51812dc3a010c7d01b50e0d17dc79c8";
                tr_amount := 500;
                tr_tokenAddr := "0x5fbdb2315678afecb367f032d93f642f64180aa3";
                tr_logIndex := None |}).
Proof.
  assert (Hb : Forall is_byte (repeat 0 30 ++ [1; 244])).
  { apply Forall_app. split.
    - apply Forall_forall. intros x Hx. apply repeat_spec in Hx. subst. unfold is_byte. lia.
    - repeat constructor; unfold is_byte; lia. }
  refine (proj1 (token_transfer_decoding erc20_transfer_log
                   (repeat 0 30 ++ [1; 244]) Hb eq_refl) _).
  split; [cbn; lia | reflexivity].
Defined.

(** C5 as the specification states it fails on a log with four topics:
    an ERC-721 transfer has the same first topic, and the test
    [topics.length < 3] lets it through as a token transfer of amount 0. *)
Lemma transfer_decoding_claim_fails_four_topics :
  ~ transfer_decoding_claim erc721_transfer_log.
Proof.
  unfold transfer_decoding_claim. intros [H _].
  assert (E : exists t, decodeTransferLog erc721_transfer_log = Ok (Some t))
    by (eexists; vm_compute; reflexivity).
  destruct (H E) as [Hlen _]. vm_compute in Hlen. discriminate.
Qed.

(* ------------------------------------------------------------------ *)
(** ** Maps, exceptions and profiles *)

Lemma bind_Ok {A B} (r : Res A) (k : A -> Res B) (b : B) :
  bind r k = Ok b -> exists a, r = Ok a /\ k a = Ok b.
Proof. destruct r; cbn; [eauto | discriminate]. Qed.

Ltac bind_inv H x Hx :=
  let H' := fresh in
  apply bind_Ok in H; destruct H as (x & Hx & H'); rename H' into H.

Lemma map_get_set {V} (a k : string) (v : V) (m : list (string * V)) :
  map_get a (map_set k v m) = if String.eqb a k then Some v else map_get a m.
Proof.
  induction m as [|[k' v'] m IH]; cbn.
  - reflexivity.
  - destruct (String.eqb_spec k k') as [->|N]; cbn.
    + now destruct (String.eqb a k').
    + rewrite IH. destruct (String.eqb_spec a k') as [->|N']; [|reflexivity].
      destruct (String.eqb_spec k' k); congruence.
Qed.

Lemma modify_Ok {V} (k : string) (f : V -> Res V) (m m' : list (string * V)) :
  modify k f m = Ok m' ->
  exists v v', map_get k m = Some v /\ f v = Ok v' /\ m' = map_set k v' m.
Proof.
  unfold modify. destruct (map_get k m) as [v|]; [|discriminate].
  intros H. bind_inv H v' Hv. inversion H. eauto.
Qed.

Lemma modify_total {V} (k : string) (f : V -> Res V) (m : list (string * V)) v v' :
  map_get k m = Some v -> f v = Ok v' -> modify k f m = Ok (map_set k v' m).
Proof. unfold modify. intros -> H. now rewrite H. Qed.

Lemma getProf_get (a k : string) (m : list (string * Prof)) :
  map_get a (getProf k m) =
  if String.eqb a k
  then Some (match map_get k m with Some p => p | None => newProf k end)
  else map_get a m.
Proof.
  unfold getProf. destruct (map_get k m) as [p|] eqn:E.
  - destruct (String.eqb_spec a k) as [->|]; [assumption | reflexivity].
  - apply map_get_set.
Qed.

Lemma getProf_has (k : string) (m : list (string * Prof)) :
  exists p, map_get k (getProf k m) = Some p.
Proof. rewrite getProf_get, String.eqb_refl. eauto. Qed.

Lemma obs_set {X} (f : Prof -> X) (a k : string) (v : Prof) m :
  obs f a (map_set k v m) = if String.eqb a k then f v else obs f a m.
Proof. unfold obs. rewrite map_get_set. now destruct (String.eqb a k). Qed.

Lemma obs_getProf {X} (f : Prof -> X) (a k : string) m :
  obs f a (getProf k m) = obs f a m.
Proof.
  unfold obs. rewrite getProf_get.
  destruct (String.eqb_spec a k) as [->|]; [|reflexivity].
  now destruct (map_get k m).
Qed.

Lemma obs_get {X} (f : Prof -> X) (k : string) m v :
  map_get k m = Some v -> obs f k m = f v.
Proof. unfold obs. now intros ->. Qed.

(** An update that leaves an observable alone leaves it alone in the map. *)
Lemma modify_frame {X} (phi : Prof -> X) (k : string) (f : Prof -> Res Prof) m m' :
  modify k f m = Ok m' ->
  (forall v v', f v = Ok v' -> phi v' = phi v) ->
  forall a, obs phi a m' = obs phi a m.
Proof.
  intros H Hf a. apply modify_Ok in H. destruct H as (v & v' & Hg & Hv & ->).
  rewrite obs_set. destruct (String.eqb_spec a k) as [->|]; [|reflexivity].
  rewrite (obs_get phi k m v Hg). now apply Hf.
Qed.

Lemma Forall_map_set {V} (Q : string -> V -> Prop) (k : string) (v : V)
    (m : list (string * V)) :
  Forall (fun kv => Q (fst kv) (snd kv)) m -> Q k v ->
  Forall (fun kv => Q (fst kv) (snd kv)) (map_set k v m).
Proof.
  intros H Hv. induction H as [|[k' v'] m Hx Hm IH]; cbn.
  - now repeat constructor.
  - destruct (String.eqb k k'); constructor; auto.
Qed.

Lemma Forall_map_get {V} (Q : string -> V -> Prop) (k : string) (v : V)
    (m : list (string * V)) :
  Forall (fun kv => Q (fst kv) (snd kv)) m -> map_get k m = Some v -> Q k v.
Proof.
  induction 1 as [|[k' v'] m Hx _ IH]; cbn; [discriminate|].
  destruct (String.eqb_spec k k') as [->|]; [intros [= <-]; exact Hx | exact IH].
Qed.

Lemma modify_pres {V} (Q : string -> V -> Prop) (k : string) (f : V -> Res V) m m' :
  modify k f m = Ok m' ->
  (forall v v', f v = Ok v' -> Q k v -> Q k v') ->
  Forall (fun kv => Q (fst kv) (snd kv)) m -> Forall (fun kv => Q (fst kv) (snd kv)) m'.
Proof.
  intros H Hf Hm. apply modify_Ok in H. destruct H as (v & v' & Hg & Hv & ->).
  apply Forall_map_set; [assumption|].
  eapply Hf; [eassumption|]. eapply Forall_map_get; eassumption.
Qed.

Lemma decimal_0 : decimal "0".
Proof. now exists 0. Qed.

Lemma newProf_ok (a : string) : prof_ok a (newProf a).
Proof. unfold prof_ok. cbn. repeat split; auto using decimal_0. Qed.

Lemma map_get_None_keys {V} (k : string) (m : list (string * V)) :
  map_get k m = None -> ~ In k (map fst m).
Proof.
  induction m as [|[k' v'] m IH]; cbn; [tauto|].
  destruct (String.eqb_spec k k') as [->|N]; [discriminate|].
  intros H [E|Hin]; [congruence | now apply IH].
Qed.

Lemma map_set_keys {V} (k : string) (v : V) (m : list (string * V)) :
  map fst (map_set k v m)
  = match map_get k m with
    | Some _ => map fst m
    | None => map fst m ++ [k]
    end.
Proof.
  induction m as [|[k' v'] m IH]; cbn; [reflexivity|].
  destruct (String.eqb_spec k k') as [->|N]; cbn; [reflexivity|].
  rewrite IH. now destruct (map_get k m).
Qed.

Lemma NoDup_map_set {V} (k : string) (v : V) (m : list (string * V)) :
  NoDup (map fst m) -> NoDup (map fst (map_set k v m)).
Proof.
  intros H. rewrite map_set_keys. destruct (map_get k m) eqn:E; [assumption|].
  apply NoDup_app; [assumption | repeat constructor; intros [] |].
  intros x Hx [<-|[]]. now apply (map_get_None_keys _ _ E).
Qed.

Lemma profs_ok_set (k : string) (v : Prof) m :
  profs_ok m -> prof_ok k v -> profs_ok (map_set k v m).
Proof.
  intros [N F] Hv. split; [now apply NoDup_map_set | now apply Forall_map_set].
Qed.

Lemma profs_ok_get (k : string) (v : Prof) m :
  profs_ok m -> map_get k m = Some v -> prof_ok k v.
Proof. intros [_ F]. now apply Forall_map_get. Qed.

Lemma modify_profs_ok (k : string) (f : Prof -> Res Prof) m m' :
  modify k f m = Ok m' ->
  (forall v v', f v = Ok v' -> prof_ok k v -> prof_ok k v') ->
  profs_ok m -> profs_ok m'.
Proof.
  intros H Hf Hm. apply modify_Ok in H. destruct H as (v & v' & Hg & Hv & ->).
  apply profs_ok_set; [assumption|].
  eapply Hf; [eassumption|]. eapply profs_ok_get; eassumption.
Qed.

Lemma getProf_ok (k : string) m : profs_ok m -> profs_ok (getProf k m).
Proof.
  unfold getProf. intros H. destruct (map_get k m); [assumption|].
  apply profs_ok_set; [assumption | apply newProf_ok].
Qed.

Lemma parsed_toString (z : Z) : parsed (bigint_toString z) = z.
Proof. unfold parsed, amount_of. now rewrite StringToBigInt_toString. Qed.

Lemma addBigStr_Ok (s s' : string) (v : Z) :
  addBigStr s v = Ok s' -> s' = bigint_toString (parsed s + v).
Proof.
  unfold addBigStr, BigInt, parsed, amount_of.
  destruct (StringToBigInt s); cbn; [|discriminate]. now intros [= <-].
Qed.

Lemma addBigStr_total (s : string) (v : Z) :
  decimal s -> addBigStr s v = Ok (bigint_toString (parsed s + v)).
Proof.
  intros [z ->]. rewrite parsed_toString. unfold addBigStr.
  now rewrite BigInt_toString.
Qed.

Lemma decimal_toString (z : Z) : decimal (bigint_toString z).
Proof. now exists z. Qed.

#[local] Arguments parsed : simpl never.
#[local] Arguments bigint_toString : simpl never.
#[local] Arguments StringToBigInt : simpl never.

Lemma tuple4_eq (a b c d a' b' c' d' : Z) :
  a = a' -> b = b' -> c = c' -> d = d' -> (a, b, c, d) = (a', b', c', d').
Proof. congruence. Qed.

Ltac splits := repeat match goal with |- _ /\ _ => split end.

Ltac case_ifs :=
  repeat match goal with
         | |- context [if ?c then _ else _] => destruct c
         end.

Lemma touch_seen_eth (ts : option Z) (bn : Z) (p : Prof) :
  eth_view (touch_seen ts bn p) = eth_view p.
Proof. unfold touch_seen. destruct ts; case_ifs; reflexivity. Qed.

Lemma touch_seen_ok (k : string) (ts : option Z) (bn : Z) (p : Prof) :
  prof_ok k p -> prof_ok k (touch_seen ts bn p).
Proof. unfold touch_seen. destruct ts; case_ifs; auto. Qed.

Lemma same_eth_refl m : same_eth m m.
Proof. intros a. reflexivity. Qed.

Lemma same_eth_trans m1 m2 m3 : same_eth m1 m2 -> same_eth m2 m3 -> same_eth m1 m3.
Proof. intros H1 H2 a. now rewrite H2, H1. Qed.

Lemma same_eth_getProf k m : same_eth m (getProf k m).
Proof. intros a. apply obs_getProf. Qed.

Lemma same_eth_modify k f m m' :
  modify k f m = Ok m' ->
  (forall v v', f v = Ok v' -> eth_view v' = eth_view v) ->
  same_eth m m'.
Proof. intros H Hf a. eapply modify_frame; eassumption. Qed.

Lemma written_app W l1 l2 : written W (l1 ++ l2) = written W l1 ++ written W l2.
Proof. unfold written. now rewrite filter_app, map_app. Qed.

Lemma written_none W l : none_on W l -> written W l = [].
Proof.
  unfold written. induction 1 as [|e l He _ IH]; [reflexivity|].
  cbn [filter]. now rewrite He.
Qed.

Lemma written_same {X} W (g : X -> record) (l : list X) :
  written W (map (fun x => (W, g x)) l) = map g l.
Proof.
  unfold written. induction l as [|x l IH]; [reflexivity|].
  cbn [map filter fst]. replace (Stream_eqb W W) with true by (now destruct W).
  cbn [map snd]. now rewrite IH.
Qed.

Lemma written_other {X} W W' (g : X -> record) (l : list X) :
  Stream_eqb W' W = false -> written W (map (fun x => (W', g x)) l) = [].
Proof.
  intros H. apply written_none. induction l; constructor; auto.
Qed.

Section BlockProofs.

Variable runId : string.
Variables (h : string) (tx : Tx) (rc : Receipt) (ts : option Z).

(** *** Update address profile *)

Lemma profile_block_spec (st st' : State) :
  profile_block tx rc ts st = Ok st' ->
  out st' = out st /\ approvals st' = approvals st
  /\ methodStats st' = methodStats st
  /\ same_eth (prof st) (prof st')
  /\ (profs_ok (prof st) -> profs_ok (prof st')).
Proof.
  unfold profile_block. intros H.
  bind_inv H p1 H1. bind_inv H p2 H2. inversion H; subst st'; clear H.
  cbn [out approvals methodStats prof set_prof].
  assert (A1 : same_eth (prof st) p1 /\ (profs_ok (prof st) -> profs_ok p1)).
  { destruct (truthy_str (tx_from tx)).
    - split.
      + eapply same_eth_trans; [apply same_eth_getProf|].
        eapply same_eth_modify; [exact H1|].
        intros v v' Hv. bind_inv Hv spent Hs. bind_inv Hv used Hu.
        inversion Hv. now rewrite touch_seen_eth.
      + intros Hok. eapply modify_profs_ok; [exact H1 | | now apply getProf_ok].
        intros v v' Hv (k0 & a & b & c & d & e & f).
        bind_inv Hv spent Hs. bind_inv Hv used Hu. inversion Hv.
        apply touch_seen_ok. apply addBigStr_Ok in Hs, Hu. subst spent used.
        unfold prof_ok. cbn. splits; auto using decimal_toString.
    - inversion H1. split; [apply same_eth_refl | auto]. }
  assert (A2 : same_eth p1 p2 /\ (profs_ok p1 -> profs_ok p2)).
  { destruct (tx_to tx) as [to|]; [|inversion H2; split; [apply same_eth_refl | auto]].
    destruct (truthy_str to); [|inversion H2; split; [apply same_eth_refl | auto]].
    split.
    - eapply same_eth_trans; [apply same_eth_getProf|].
      eapply same_eth_modify; [exact H2|].
      intros v v' Hv. inversion Hv. now rewrite touch_seen_eth.
    - intros Hok. eapply modify_profs_ok; [exact H2 | | now apply getProf_ok].
      intros v v' Hv Hp. inversion Hv. now apply touch_seen_ok. }
  destruct A1 as [E1 O1], A2 as [E2 O2].
  splits; auto. eapply same_eth_trans; eassumption.
Qed.

Lemma profile_block_total (st : State) :
  profs_ok (prof st) -> exists st', profile_block tx rc ts st = Ok st'.
Proof.
  intros Hok. unfold profile_block. cbv zeta.
  assert (tail : forall p1 : list (string * Prof),
            exists st',
              (do p2 <- match tx_to tx with
                        | Some to =>
                            if truthy_str to
                            then modify to
                                   (fun pf => Ok (touch_seen ts (rc_blockNumber rc)
                                                    (set_tx_in_count (tx_in_count pf + 1) pf)))
                                   (getProf to p1)
                            else Ok p1
                        | None => Ok p1
                        end; Ok (set_prof p2 st)) = Ok st').
  { intros p1. destruct (tx_to tx) as [to|]; [|cbn; eauto].
    destruct (truthy_str to); [|cbn; eauto].
    destruct (getProf_has to p1) as (p & Hp).
    erewrite modify_total; [cbn; eauto | exact Hp | reflexivity]. }
  destruct (truthy_str (tx_from tx)); [|cbn [bind]; apply tail].
  destruct (getProf_has (tx_from tx) (prof st)) as (p & Hp).
  pose proof (profs_ok_get _ _ _ (getProf_ok (tx_from tx) _ Hok) Hp)
    as (k0 & a & b & c & d & e & f).
  erewrite modify_total; [cbn [bind]; apply tail | exact Hp |].
  cbn [gas_spent_wei set_tx_out_count].
  rewrite (addBigStr_total _ _ c). cbn [bind total_gas_used set_gas_spent_wei].
  rewrite (addBigStr_total _ _ d). cbn [bind]. reflexivity.
Qed.

(** *** Update method stats *)

Lemma getMethodStat_has (to mid : string) m :
  exists v, map_get (method_key to mid) (getMethodStat to mid m) = Some v.
Proof.
  unfold getMethodStat. cbv zeta. destruct (map_get _ m) eqn:E; [eauto|].
  rewrite map_get_set, String.eqb_refl. eauto.
Qed.

Lemma method_stats_block_spec (st : State) :
  exists st', method_stats_block tx rc ts st = Ok st'
              /\ out st' = out st /\ approvals st' = approvals st
              /\ prof st' = prof st.
Proof.
  unfold method_stats_block.
  destruct (tx_to tx) as [to|]; [|eauto].
  destruct (truthy_str to && negb (String.eqb (methodId tx) "0x")); [|eauto].
  destruct (getMethodStat_has to (methodId tx) (methodStats st)) as (v & Hv).
  erewrite modify_total; [cbn [bind]; eauto | exact Hv | reflexivity].
Qed.

(** *** ETH TRANSFER and the profile side of [walkTrace] *)

Lemma view_add_0 x : view_add x (0, 0, 0, 0) = x.
Proof. destruct x as [[[a b] c] d]. cbn. apply tuple4_eq; lia. Qed.

Lemma modify_obs_add (k : string) (f : Prof -> Res Prof) (d : Z * Z * Z * Z) m m' :
  modify k f m = Ok m' ->
  (forall v v', f v = Ok v' -> eth_view v' = view_add (eth_view v) d) ->
  forall a, obs eth_view a m'
            = view_add (obs eth_view a m) (if String.eqb a k then d else (0, 0, 0, 0)).
Proof.
  intros H Hf a. apply modify_Ok in H. destruct H as (v & v' & Hg & Hv & ->).
  rewrite obs_set. destruct (String.eqb_spec a k) as [->|].
  - rewrite (obs_get eth_view k m v Hg). now apply Hf.
  - now rewrite view_add_0.
Qed.

Lemma movement_split (from to : string) (val n : Z) (a : string) (x : Z * Z * Z * Z) :
  view_add (view_add x (if String.eqb a from then (0, val, 0, n) else (0, 0, 0, 0)))
           (if String.eqb a to then (val, 0, n, 0) else (0, 0, 0, 0))
  = view_add x (movement from to val n a).
Proof.
  unfold movement. destruct x as [[[i o] it] ot].
  destruct (String.eqb a from), (String.eqb a to); cbn;
    apply tuple4_eq; lia.
Qed.

Lemma eth_transfer_block_spec (st st' : State) :
  eth_transfer_block runId h tx rc ts st = Ok st' ->
  out st' = out st ++ native_docs runId h tx rc ts
  /\ approvals st' = approvals st
  /\ (forall a, obs eth_view a (prof st')
                = view_add (obs eth_view a (prof st)) (native_movement tx a))
  /\ (profs_ok (prof st) -> profs_ok (prof st')).
Proof.
  unfold eth_transfer_block, native_docs, native_movement.
  destruct (tx_to tx) as [to|];
    [|intros [= <-]; rewrite app_nil_r; splits; auto;
      intros a; now rewrite view_add_0].
  destruct (sends_value tx);
    [|intros [= <-]; rewrite app_nil_r; splits; auto;
      intros a; now rewrite view_add_0].
  cbv zeta. intros H. bind_inv H p1 H1. bind_inv H p2 H2.
  inversion H; subst st'; clear H.
  cbn [out approvals prof set_prof emit set_out] in *.
  split; [now rewrite <- app_assoc|]. split; [reflexivity|]. split.
  - intros a.
    rewrite (modify_obs_add _ _ (tx_value tx, 0, 1, 0) _ _ H2).
    + rewrite (modify_obs_add _ _ (0, tx_value tx, 0, 1) _ _ H1).
      * rewrite !obs_getProf. apply movement_split.
      * intros v v' Hv. bind_inv Hv s Hs. inversion Hv. apply addBigStr_Ok in Hs.
        subst s. unfold eth_view. cbn. rewrite parsed_toString.
        repeat f_equal; lia.
    + intros v v' Hv. bind_inv Hv s Hs. inversion Hv. apply addBigStr_Ok in Hs.
      subst s. unfold eth_view. cbn. rewrite parsed_toString.
      repeat f_equal; lia.
  - intros Hok.
    eapply modify_profs_ok; [exact H2 | |].
    + intros v v' Hv (k0 & a & b & c & d & e & f). bind_inv Hv s Hs. inversion Hv.
      apply addBigStr_Ok in Hs. subst s. unfold prof_ok. cbn.
      splits; auto using decimal_toString.
    + eapply modify_profs_ok; [exact H1 | |].
      * intros v v' Hv (k0 & a & b & c & d & e & f). bind_inv Hv s Hs. inversion Hv.
        apply addBigStr_Ok in Hs. subst s. unfold prof_ok. cbn.
        splits; auto using decimal_toString.
      * now apply getProf_ok, getProf_ok.
Qed.

Lemma eth_transfer_block_total (st : State) :
  profs_ok (prof st) -> exists st', eth_transfer_block runId h tx rc ts st = Ok st'.
Proof.
  intros Hok. unfold eth_transfer_block.
  destruct (tx_to tx) as [to|]; [|eauto].
  destruct (sends_value tx); [|eauto]. cbv zeta.
  cbn [prof emit set_out].
  set (p0 := getProf to (getProf (tx_from tx) (prof st))).
  assert (Hok0 : profs_ok p0) by (now apply getProf_ok, getProf_ok).
  assert (Hf : exists vf, map_get (tx_from tx) p0 = Some vf).
  { unfold p0. rewrite getProf_get.
    destruct (String.eqb (tx_from tx) to); [eauto | apply getProf_has]. }
  destruct Hf as (vf & Hvf).
  pose proof (profs_ok_get _ _ _ Hok0 Hvf) as (k0 & a & b & c & d & e & f).
  erewrite modify_total; [ | exact Hvf | rewrite (addBigStr_total _ _ b); reflexivity].
  cbn [bind].
  match goal with
  | |- context [modify to _ (map_set ?k ?v' p0)] =>
      assert (Ht : exists vt, map_get to (map_set k v' p0) = Some vt /\ prof_ok to vt)
  end.
  { rewrite map_get_set. destruct (String.eqb_spec to (tx_from tx)) as [Eq|].
    - eexists; split; [reflexivity|]. unfold prof_ok. cbn.
      splits; auto using decimal_toString. congruence.
    - destruct (getProf_has to (getProf (tx_from tx) (prof st))) as (vt & Hvt).
      exists vt. split; [exact Hvt|].
      eapply profs_ok_get; [exact Hok0 | exact Hvt]. }
  destruct Ht as (vt & Hvt & (_ & a' & _)).
  erewrite modify_total; [ | exact Hvt | rewrite (addBigStr_total _ _ a'); reflexivity].
  cbn [bind]. eauto.
Qed.

(** *** ERC20 TRANSFER EVENTS *)

Lemma add_token_Ok (token : string) (amount : Z) (obj obj' : list (string * string)) :
  add_token token amount obj = Ok obj' ->
  Forall (fun kv => decimal (snd kv)) obj -> Forall (fun kv => decimal (snd kv)) obj'.
Proof.
  unfold add_token. intros H Hobj. bind_inv H a Ha. inversion H.
  apply (Forall_map_set (fun _ => decimal)); [assumption | apply decimal_toString].
Qed.

Lemma add_token_total (token : string) (amount : Z) (obj : list (string * string)) :
  Forall (fun kv => decimal (snd kv)) obj -> exists obj', add_token token amount obj = Ok obj'.
Proof.
  intros Hobj. unfold add_token.
  assert (Hc : decimal (match map_get token obj with
                        | Some s => if truthy_str s then s else "0"
                        | None => "0"
                        end)).
  { destruct (map_get token obj) as [s|] eqn:E; [|apply decimal_0].
    destruct (truthy_str s); [|apply decimal_0].
    exact (Forall_map_get (fun _ => decimal) _ _ _ Hobj E). }
  destruct Hc as [z ->]. rewrite BigInt_toString. cbn [bind]. eauto.
Qed.

Lemma token_transfer_step_spec (t : Transfer) (st st' : State) :
  token_transfer_step runId h rc ts t st = Ok st' ->
  out st' = out st ++ token_docs runId h rc ts [t]
  /\ approvals st' = approvals st
  /\ same_eth (prof st) (prof st')
  /\ (profs_ok (prof st) -> profs_ok (prof st')).
Proof.
  unfold token_transfer_step. cbv zeta. intros H.
  bind_inv H p1 H1. bind_inv H p2 H2. inversion H; subst st'; clear H.
  cbn [out approvals prof set_prof emit set_out token_docs flat_map app] in *.
  assert (A1 : same_eth (prof st) p1 /\ (profs_ok (prof st) -> profs_ok p1)).
  { destruct (tr_from t) as [from|]; [|inversion H1; split; [apply same_eth_refl | auto]].
    destruct (truthy_str from); [|inversion H1; split; [apply same_eth_refl | auto]].
    split.
    - eapply same_eth_trans; [apply same_eth_getProf|].
      eapply same_eth_modify; [exact H1|].
      intros v v' Hv. bind_inv Hv o Ho. now inversion Hv.
    - intros Hok. eapply modify_profs_ok; [exact H1 | | now apply getProf_ok].
      intros v v' Hv (k0 & a & b & c & d & e & f). bind_inv Hv o Ho. inversion Hv.
      unfold prof_ok. cbn. splits; auto. eapply add_token_Ok; eassumption. }
  assert (A2 : same_eth p1 p2 /\ (profs_ok p1 -> profs_ok p2)).
  { destruct (tr_to t) as [to|]; [|inversion H2; split; [apply same_eth_refl | auto]].
    destruct (truthy_str to); [|inversion H2; split; [apply same_eth_refl | auto]].
    split.
    - eapply same_eth_trans; [apply same_eth_getProf|].
      eapply same_eth_modify; [exact H2|].
      intros v v' Hv. bind_inv Hv o Ho. now inversion Hv.
    - intros Hok. eapply modify_profs_ok; [exact H2 | | now apply getProf_ok].
      intros v v' Hv (k0 & a & b & c & d & e & f). bind_inv Hv o Ho. inversion Hv.
      unfold prof_ok. cbn. splits; auto. eapply add_token_Ok; eassumption. }
  destruct A1 as [E1 O1], A2 as [E2 O2].
  split; [now rewrite <- app_assoc|]. splits; auto.
  eapply same_eth_trans; eassumption.
Qed.

Lemma token_side_total (side : option string) (amount : Z) (token : string)
    (get : Prof -> list (string * string))
    (set : list (string * string) -> Prof -> Prof) (p1 : list (string * Prof)) :
  (forall k p, prof_ok k p -> Forall (fun kv => decimal (snd kv)) (get p)) ->
  (forall k o p, prof_ok k p -> Forall (fun kv => decimal (snd kv)) o ->
                 prof_ok k (set o p)) ->
  profs_ok p1 ->
  exists p2,
    match side with
    | Some a =>
        if truthy_str a
        then modify a (fun p => do o <- add_token token amount (get p); Ok (set o p))
                    (getProf a p1)
        else Ok p1
    | None => Ok p1
    end = Ok p2 /\ profs_ok p2.
Proof.
  intros Hget Hset Hok.
  destruct side as [a|]; [|eauto].
  destruct (truthy_str a); [|eauto].
  destruct (getProf_has a p1) as (p & Hp).
  pose proof (profs_ok_get _ _ _ (getProf_ok a _ Hok) Hp) as Hpok.
  destruct (add_token_total token amount (get p) (Hget _ p Hpok)) as (o & Ho).
  eexists. split.
  - eapply modify_total; [exact Hp|]. rewrite Ho. reflexivity.
  - apply profs_ok_set; [now apply getProf_ok|].
    apply Hset; [assumption|]. eapply add_token_Ok; eauto.
Qed.

Lemma token_transfer_step_total (t : Transfer) (st : State) :
  profs_ok (prof st) -> exists st', token_transfer_step runId h rc ts t st = Ok st'.
Proof.
  intros Hok. unfold token_transfer_step. cbv zeta. cbn [prof emit set_out].
  destruct (token_side_total (tr_from t) (tr_amount t) (tr_tokenAddr t)
              erc20_out set_erc20_out (prof st)) as (p1 & -> & Hok1); auto.
  { now intros k p (k0 & a & b & c & d & e & f). }
  { intros k o p (k0 & a & b & c & d & e & f) Ho. unfold prof_ok. cbn.
    splits; auto. }
  cbn [bind].
  destruct (token_side_total (tr_to t) (tr_amount t) (tr_tokenAddr t)
              erc20_in set_erc20_in p1) as (p2 & -> & Hok2); auto.
  { now intros k p (k0 & a & b & c & d & e & f). }
  { intros k o p (k0 & a & b & c & d & e & f) Ho. unfold prof_ok. cbn.
    splits; auto. }
  cbn [bind]. eauto.
Qed.

Lemma token_docs_app (l1 l2 : list Transfer) :
  token_docs runId h rc ts (l1 ++ l2)
  = token_docs runId h rc ts l1 ++ token_docs runId h rc ts l2.
Proof. unfold token_docs. apply flat_map_app. Qed.

Lemma token_transfers_block_spec (logs : list Log) (transfers transfers' : list Transfer)
    (st st' : State) :
  token_transfers_block runId h rc ts logs transfers st = Ok (transfers', st') ->
  transfers' = transfers ++ decoded_transfers logs
  /\ out st' = out st ++ token_docs runId h rc ts (decoded_transfers logs)
  /\ approvals st' = approvals st
  /\ same_eth (prof st) (prof st')
  /\ (profs_ok (prof st) -> profs_ok (prof st')).
Proof.
  revert transfers st. induction logs as [|lg logs IH]; intros transfers st H.
  - inversion H. cbn. rewrite !app_nil_r. splits; auto. apply same_eth_refl.
  - cbn [token_transfers_block decoded_transfers] in *.
    bind_inv H d Hd. rewrite Hd. destruct d as [t|].
    + bind_inv H st1 H1. apply token_transfer_step_spec in H1.
      destruct H1 as (O1 & A1 & E1 & K1).
      apply IH in H. destruct H as (T2 & O2 & A2 & E2 & K2).
      split; [now rewrite T2, <- app_assoc|].
      split; [rewrite O2, O1, <- app_assoc; f_equal|].
      split; [congruence|]. split; [eapply same_eth_trans; eassumption | auto].
    + apply IH in H. exact H.
Qed.

Lemma wf_log_data (lg : Log) :
  wf_log lg = true ->
  exists z, hexToBigInt (data_or_0x (lg_data lg)) = Ok z /\ 0 <= z.
Proof.
  unfold wf_log. intros H. apply andb_true_iff in H. destruct H as [_ Hd].
  unfold data_or_0x. destruct (truthy_str (lg_data lg)).
  - now apply hexToBigInt_hex_string.
  - exists 0. split; [reflexivity | lia].
Qed.

Lemma decodeTransferLog_total (lg : Log) :
  wf_log lg = true -> exists d, decodeTransferLog lg = Ok d.
Proof.
  intros H. rewrite decodeTransferLog_cases.
  destruct (wf_log_data lg H) as (z & -> & _). case_ifs; cbn [bind]; eauto.
Qed.

Lemma token_transfers_block_total (logs : list Log) (transfers : list Transfer)
    (st : State) :
  forallb wf_log logs = true -> profs_ok (prof st) ->
  exists r, token_transfers_block runId h rc ts logs transfers st = Ok r.
Proof.
  revert transfers st. induction logs as [|lg logs IH]; intros transfers st Hwf Hok.
  - cbn. eauto.
  - cbn [forallb] in Hwf. apply andb_true_iff in Hwf. destruct Hwf as [Hlg Hwf].
    cbn [token_transfers_block].
    destruct (decodeTransferLog_total lg Hlg) as (d & ->). cbn [bind].
    destruct d as [t|]; [|now apply IH].
    destruct (token_transfer_step_total t st Hok) as (st1 & H1). rewrite H1. cbn [bind].
    apply IH; [assumption|]. apply token_transfer_step_spec in H1.
    destruct H1 as (_ & _ & _ & K). auto.
Qed.

(** *** What the documents say *)

Lemma tally_app sel weight side a (l1 l2 : list record) :
  tally sel weight side a (l1 ++ l2)
  = tally sel weight side a l1 + tally sel weight side a l2.
Proof.
  induction l1 as [|r l1 IH]; [reflexivity|].
  change ((r :: l1) ++ l2) with (r :: (l1 ++ l2)).
  change (tally sel weight side a (r :: ?l))
    with ((if sel r && jstr_is a (field side r) then weight r else 0)
          + tally sel weight side a l).
  rewrite IH. lia.
Qed.

Lemma view_add_assoc x y z : view_add (view_add x y) z = view_add x (view_add y z).
Proof.
  destruct x as [[[a b] c] d], y as [[[a' b'] c'] d'], z as [[[a2 b2] c2] d2].
  cbn. apply tuple4_eq; lia.
Qed.

Lemma docs_view_app a (l1 l2 : list (Stream * record)) :
  docs_view a (facts (l1 ++ l2))
  = view_add (docs_view a (facts l1)) (docs_view a (facts l2)).
Proof.
  unfold docs_view, facts, total, count. rewrite map_app, !tally_app.
  cbn. apply tuple4_eq; lia.
Qed.

Lemma docs_view_nil a : docs_view a (facts []) = (0, 0, 0, 0).
Proof. reflexivity. Qed.

Lemma steps_refl st : steps st st [].
Proof.
  unfold steps. rewrite app_nil_r. splits; auto.
  intros a. now rewrite docs_view_nil, view_add_0.
Qed.

Lemma steps_trans st1 st2 st3 n1 n2 :
  steps st1 st2 n1 -> steps st2 st3 n2 -> steps st1 st3 (n1 ++ n2).
Proof.
  intros (O1 & V1 & K1) (O2 & V2 & K2). unfold steps.
  split; [now rewrite O2, O1, app_assoc|]. split; [|auto].
  intros a. now rewrite V2, V1, docs_view_app, view_add_assoc.
Qed.

Lemma steps_same_eth st st' new :
  out st' = out st ++ new ->
  (forall a, docs_view a (facts new) = (0, 0, 0, 0)) ->
  same_eth (prof st) (prof st') ->
  (profs_ok (prof st) -> profs_ok (prof st')) ->
  steps st st' new.
Proof.
  intros O Z E K. unfold steps. splits; auto.
  intros a. now rewrite Z, view_add_0, E.
Qed.

Lemma docs_view_native a :
  docs_view a (facts (native_docs runId h tx rc ts)) = native_movement tx a.
Proof.
  unfold native_docs, native_movement.
  destruct (tx_to tx) as [to|]; [|reflexivity].
  destruct (sends_value tx); [|reflexivity].
  unfold docs_view, total, count, movement. cbn.
  rewrite StringToBigInt_toString.
  destruct (String.eqb a to), (String.eqb a (tx_from tx)); cbn;
    apply tuple4_eq; lia.
Qed.

Lemma docs_view_token a (l : list Transfer) :
  docs_view a (facts (token_docs runId h rc ts l)) = (0, 0, 0, 0).
Proof.
  induction l as [|t l IH]; [reflexivity|].
  change (token_docs runId h rc ts (t :: l))
    with ([(transfersW, token_transfer_doc runId h rc ts t);
           (edgesW, token_edge_doc runId h rc ts t)] ++ token_docs runId h rc ts l).
  rewrite docs_view_app, IH. reflexivity.
Qed.

Lemma docs_view_timeline a :
  docs_view a (facts (timeline_docs runId h tx rc ts)) = (0, 0, 0, 0).
Proof. reflexivity. Qed.

Lemma docs_view_revert a trace :
  docs_view a (facts (revert_docs runId h rc ts trace)) = (0, 0, 0, 0).
Proof. unfold revert_docs. now destruct (String.eqb _ _). Qed.

Lemma docs_view_approvals a (logs : list Log) (idx : Z) :
  docs_view a (facts (approval_docs runId h rc ts logs idx)) = (0, 0, 0, 0).
Proof.
  revert idx. induction logs as [|lg logs IH]; intros idx; [reflexivity|].
  cbn [approval_docs]. destruct (decodeApprovalEvent lg) as [ev|]; [|apply IH].
  change (?x :: ?y :: ?l) with ([x; y] ++ l).
  rewrite docs_view_app, IH. reflexivity.
Qed.

(** *** The blocks, one by one *)

Lemma timeline_block_steps (st : State) :
  steps st (timeline_block runId h tx rc ts st) (timeline_docs runId h tx rc ts)
  /\ approvals (timeline_block runId h tx rc ts st) = approvals st.
Proof.
  split; [|reflexivity]. apply steps_same_eth; auto.
  - unfold timeline_block, emit, timeline_docs. cbn [out set_out].
    now rewrite <- !app_assoc.
  - apply same_eth_refl.
Qed.

Lemma profile_block_steps (st st' : State) :
  profile_block tx rc ts st = Ok st' ->
  steps st st' [] /\ approvals st' = approvals st.
Proof.
  intros H. apply profile_block_spec in H. destruct H as (O & A & _ & E & K).
  split; [|assumption]. apply steps_same_eth; auto. now rewrite app_nil_r.
Qed.

Lemma eth_transfer_block_steps (st st' : State) :
  eth_transfer_block runId h tx rc ts st = Ok st' ->
  steps st st' (native_docs runId h tx rc ts) /\ approvals st' = approvals st.
Proof.
  intros H. apply eth_transfer_block_spec in H. destruct H as (O & A & V & K).
  split; [|assumption]. unfold steps. splits; auto.
  intros a. now rewrite V, docs_view_native.
Qed.

Lemma token_transfers_block_steps (logs : list Log) (transfers transfers' : list Transfer)
    (st st' : State) :
  token_transfers_block runId h rc ts logs transfers st = Ok (transfers', st') ->
  transfers' = transfers ++ decoded_transfers logs
  /\ steps st st' (token_docs runId h rc ts (decoded_transfers logs))
  /\ approvals st' = approvals st.
Proof.
  intros H. apply token_transfers_block_spec in H.
  destruct H as (T & O & A & E & K). splits; auto.
  unfold steps. splits; auto.
  intros a. now rewrite docs_view_token, view_add_0, E.
Qed.

Lemma revert_block_steps (trace : option Call) (st : State) :
  steps st (revert_block runId h rc ts trace st) (revert_docs runId h rc ts trace)
  /\ approvals (revert_block runId h rc ts trace st) = approvals st.
Proof.
  unfold revert_block, revert_docs. destruct (String.eqb _ _).
  - split; [|reflexivity]. apply steps_same_eth; auto. apply same_eth_refl.
  - split; [|reflexivity]. apply steps_refl.
Qed.

(** *** TRACE EDGES + INTERNAL NATIVE TRANSFERS *)

Lemma visit_call_steps (from to type value input : option string) (depth : Z)
    (st st' : State) :
  visit_call runId h rc ts from to type value input depth st = Ok st' ->
  steps st st' (visit_docs runId h rc ts from to type value input depth)
  /\ approvals st' = approvals st.
Proof.
  unfold visit_call, visit_docs.
  destruct from as [from|]; [|intros [= <-]; split; [apply steps_refl | reflexivity]].
  destruct to as [to|]; [|intros [= <-]; split; [apply steps_refl | reflexivity]].
  destruct type as [type|]; [|intros [= <-]; split; [apply steps_refl | reflexivity]].
  destruct (truthy_str from && truthy_str to && truthy_str type);
    [|intros [= <-]; split; [apply steps_refl | reflexivity]].
  cbv zeta. intros H. bind_inv H val Hval. rewrite Hval.
  destruct (val >? 0).
  - bind_inv H p1 H1. bind_inv H p2 H2. bind_inv H p3 H3.
    inversion H; subst st'; clear H.
    cbn [prof emit set_out out] in *.
    split; [|reflexivity]. unfold steps.
    cbn [out approvals prof set_prof emit set_out].
    split; [now rewrite <- app_assoc|]. split.
    + intros a.
      rewrite (modify_obs_add _ _ (0, 0, 0, 0) _ _ H3) by
        (intros v v' [= <-]; now rewrite view_add_0).
      rewrite (modify_obs_add _ _ (val, 0, 0, 0) _ _ H2).
      * rewrite (modify_obs_add _ _ (0, val, 0, 0) _ _ H1).
        -- rewrite !obs_getProf.
           replace (if String.eqb a from then (0, 0, 0, 0) else (0, 0, 0, 0))
             with (0, 0, 0, 0) by (now destruct (String.eqb a from)).
           rewrite view_add_0, (movement_split from to val 0). f_equal.
           unfold docs_view, total, count, movement. cbn.
           rewrite StringToBigInt_toString.
           destruct (String.eqb a to), (String.eqb a from); cbn; apply tuple4_eq; lia.
        -- intros v v' Hv. bind_inv Hv s Hs. inversion Hv. apply addBigStr_Ok in Hs.
           subst s. unfold eth_view. cbn. rewrite parsed_toString.
           apply tuple4_eq; lia.
      * intros v v' Hv. bind_inv Hv s Hs. inversion Hv. apply addBigStr_Ok in Hs.
        subst s. unfold eth_view. cbn. rewrite parsed_toString.
        apply tuple4_eq; lia.
    + intros Hok.
      eapply modify_profs_ok; [exact H3 | |].
      { intros v v' [= <-] (k0 & a & b & c & d & e & f). unfold prof_ok. cbn.
        splits; auto. }
      eapply modify_profs_ok; [exact H2 | |].
      { intros v v' Hv (k0 & a & b & c & d & e & f). bind_inv Hv s Hs. inversion Hv.
        unfold prof_ok. cbn. splits; auto.
        apply addBigStr_Ok in Hs. subst s. apply decimal_toString. }
      eapply modify_profs_ok; [exact H1 | |].
      { intros v v' Hv (k0 & a & b & c & d & e & f). bind_inv Hv s Hs. inversion Hv.
        unfold prof_ok. cbn. splits; auto.
        apply addBigStr_Ok in Hs. subst s. apply decimal_toString. }
      now apply getProf_ok, getProf_ok.
  - inversion H; subst st'; clear H. split; [|reflexivity].
    apply steps_same_eth; auto. apply same_eth_refl.
Qed.

(** Induction on a call tree. *)
Lemma Call_induction (P : Call -> Prop) :
  (forall from to input value type output rr calls,
      match calls with
      | Some subs => Forall P subs
      | None => True
      end ->
      P (mkCall from to input value type output rr calls)) ->
  forall c, P c.
Proof.
  intros H. fix IH 1. intros [from to input value type output rr calls].
  apply H. destruct calls as [subs|]; [|exact I].
  induction subs as [|s subs IHs]; constructor; [apply IH | exact IHs].
Qed.

Lemma walkTrace_steps (call : Call) :
  forall (depth : Z) (st st' : State),
    walkTrace runId h rc ts call depth st = Ok st' ->
    steps st st' (walk_docs runId h rc ts call depth)
    /\ approvals st' = approvals st.
Proof.
  induction call as [from to input value type output rr calls IH] using Call_induction.
  intros depth st st' H. cbn [walkTrace walk_docs] in *.
  bind_inv H st1 H1. apply visit_call_steps in H1. destruct H1 as (S1 & A1).
  destruct calls as [subs|].
  - revert st1 S1 A1 H.
    generalize (visit_docs runId h rc ts from to type value input depth) as pre.
    induction subs as [|sub subs IHs]; intros pre st1 S1 A1 H.
    + inversion H; subst. now rewrite app_nil_r.
    + bind_inv H st2 H2. inversion IH as [|? ? Hsub Hsubs]; subst.
      apply Hsub in H2. destruct H2 as (S2 & A2).
      specialize (IHs Hsubs _ st2 (steps_trans _ _ _ _ _ S1 S2) ltac:(congruence) H).
      destruct IHs as (S3 & A3). split; [|assumption].
      now rewrite <- app_assoc in S3.
  - inversion H; subst. now rewrite app_nil_r.
Qed.

Lemma trace_block_steps (trace : option Call) (st st' : State) :
  trace_block runId h rc ts trace st = Ok st' ->
  steps st st' (trace_docs runId h rc ts trace) /\ approvals st' = approvals st.
Proof.
  unfold trace_block, trace_docs. destruct trace as [t|].
  - intros H. apply walkTrace_steps in H. destruct H as (S1 & A1).
    split; [|exact A1].
    change (?x :: ?l) with ([x] ++ l).
    eapply steps_trans; [|exact S1].
    apply steps_same_eth; auto. apply same_eth_refl.
  - intros [= <-]. split; [apply steps_refl | reflexivity].
Qed.

(** *** ERC20 APPROVALS *)

Lemma all_chars_app p (a b : string) :
  all_chars p (a ++ b)%string = all_chars p a && all_chars p b.
Proof.
  unfold all_chars. induction a as [|c a IH]; cbn; [reflexivity|].
  now rewrite IH, andb_assoc.
Qed.

Lemma all_chars_drop p (n : nat) (s : string) :
  all_chars p s = true -> all_chars p (str_drop n s) = true.
Proof.
  unfold all_chars. revert s. induction n as [|n IH]; intros s H; [assumption|].
  destruct s as [|c s]; [reflexivity|]. cbn in *.
  apply andb_true_iff in H. now apply IH.
Qed.

Lemma hex_digit_no_bar (c : ascii) :
  is_hex_digit c = true -> negb (Ascii.eqb c "|") = true.
Proof.
  intros H. destruct (Ascii.eqb_spec c "|") as [->|]; [discriminate | reflexivity].
Qed.

Lemma hex_string_no_bar (s : string) : is_hex_string s = true -> no_bar s = true.
Proof.
  unfold is_hex_string. intros H. apply andb_true_iff in H. destruct H as [Hp Hd].
  rewrite (startsWith_0x s Hp). unfold no_bar, all_chars. cbn.
  fold (all_chars (fun c => negb (Ascii.eqb c "|")) (str_drop 2 s)).
  revert Hd. apply all_chars_impl, hex_digit_no_bar.
Qed.

Lemma hex_string_truthy (s : string) : is_hex_string s = true -> truthy_str s = true.
Proof.
  unfold is_hex_string. intros H. apply andb_true_iff in H. destruct H as [Hp _].
  now rewrite (startsWith_0x s Hp).
Qed.

Lemma topicToAddress_hex (t : string) :
  is_hex_string t = true ->
  exists a, topicToAddress t = Some a /\ no_bar a = true.
Proof.
  intros H. unfold topicToAddress. rewrite (hex_string_truthy t H). cbn [negb].
  eexists. split; [reflexivity|].
  unfold no_bar. change ("0x" ++ ?x)%string with (String "0" (String "x" x)).
  unfold all_chars. cbn.
  apply (all_chars_drop _ _ t). now apply hex_string_no_bar.
Qed.

Lemma topic_at_hex (i : nat) (topics : list string) :
  forallb is_hex_string topics = true -> (i < List.length topics)%nat ->
  is_hex_string (topic_at i topics) = true.
Proof.
  intros H Hi. rewrite forallb_forall in H. apply H. now apply nth_In.
Qed.

Lemma registry_backed_app reg l new :
  registry_backed reg l -> registry_backed reg (l ++ new).
Proof.
  intros H key e Hin. destruct (H key e Hin) as (t & o & s & a & K & B1 & B2 & B3 & I & F).
  exists t, o, s, a. splits; try tauto. apply in_or_app. now left.
Qed.

Lemma In_map_set {V} (k k' : string) (v v' : V) (m : list (string * V)) :
  In (k', v') (map_set k v m) -> (k', v') = (k, v) \/ In (k', v') m.
Proof.
  induction m as [|[k0 v0] m IH]; cbn.
  - intros [H|[]]; auto.
  - destruct (String.eqb k k0); cbn; intros [H|H]; auto.
    destruct (IH H); auto.
Qed.

Lemma approval_step_spec (lg : Log) (idx : Z) (st : State) :
  wf_log lg = true ->
  registry_backed (approvals st) (out st) ->
  let st' := approval_step runId h rc ts lg idx st in
  out st' = out st ++ approval_docs runId h rc ts [lg] idx
  /\ prof st' = prof st
  /\ registry_backed (approvals st') (out st').
Proof.
  intros Hwf Hreg. unfold approval_step. cbn [approval_docs].
  destruct (decodeApprovalEvent lg) as [ev|] eqn:E.
  - cbv zeta. cbn [out prof approvals emit set_out set_approvals].
    split; [now rewrite <- app_assoc|]. split; [reflexivity|].
    rewrite decodeApprovalEvent_cases in E.
    destruct (List.length (lg_topics lg) <? 3)%nat eqn:L; [discriminate|].
    destruct (String.eqb _ _); [|discriminate].
    destruct (hexToBigInt _) as [value|]; [|discriminate].
    injection E as <-. cbn [ev_owner ev_spender ev_value].
    apply Nat.ltb_ge in L.
    unfold wf_log in Hwf. apply andb_true_iff in Hwf. destruct Hwf as [Hwf _].
    apply andb_true_iff in Hwf. destruct Hwf as [Haddr Htopics].
    destruct (topicToAddress_hex _ (topic_at_hex 1 _ Htopics ltac:(lia))) as (o & Ho & Bo).
    destruct (topicToAddress_hex _ (topic_at_hex 2 _ Htopics ltac:(lia))) as (s & Hs & Bs).
    rewrite Ho, Hs.
    intros key e Hin. apply In_map_set in Hin. destruct Hin as [Hin|Hin].
    + injection Hin as -> ->.
      exists (lg_address lg), o, s.
      eexists. split; [reflexivity|].
      split; [now apply hex_string_no_bar|]. split; [assumption|]. split; [assumption|].
      split.
      * apply in_or_app. left. apply in_or_app. right. left. reflexivity.
      * cbn. splits; reflexivity.
    + revert key e Hin. fold (registry_backed (approvals st)
        ((out st ++ [(approvalsW, approval_doc runId h rc ts lg
                        {| ev_owner := Some o; ev_spender := Some s; ev_value := value |} idx)])
         ++ [(allowanceEdgesW, allowance_edge_doc runId h rc ts lg
                {| ev_owner := Some o; ev_spender := Some s; ev_value := value |})])).
      now apply registry_backed_app, registry_backed_app.
  - rewrite app_nil_r. auto.
Qed.

Lemma approval_docs_cons lg logs idx :
  approval_docs runId h rc ts (lg :: logs) idx
  = approval_docs runId h rc ts [lg] idx ++ approval_docs runId h rc ts logs (idx + 1).
Proof.
  cbn [approval_docs]. now destruct (decodeApprovalEvent lg).
Qed.

Lemma approvals_block_spec (logs : list Log) (idx : Z) (st : State) :
  forallb wf_log logs = true ->
  registry_backed (approvals st) (out st) ->
  let st' := approvals_block runId h rc ts logs idx st in
  out st' = out st ++ approval_docs runId h rc ts logs idx
  /\ prof st' = prof st
  /\ registry_backed (approvals st') (out st').
Proof.
  revert idx st. induction logs as [|lg logs IH]; intros idx st Hwf Hreg.
  - cbn. rewrite app_nil_r. auto.
  - cbn [forallb] in Hwf. apply andb_true_iff in Hwf. destruct Hwf as [Hlg Hwf].
    cbn [approvals_block]. cbv zeta.
    destruct (approval_step_spec lg idx st Hlg Hreg) as (O1 & P1 & R1).
    destruct (IH (idx + 1) _ Hwf R1) as (O2 & P2 & R2).
    split; [|split; [congruence | exact R2]].
    now rewrite O2, O1, (approval_docs_cons lg logs), app_assoc.
Qed.

(** Without the well-formedness of the logs, the block still only appends
    its documents and leaves the profiles alone. *)
Lemma approvals_block_out (logs : list Log) (idx : Z) (st : State) :
  let st' := approvals_block runId h rc ts logs idx st in
  out st' = out st ++ approval_docs runId h rc ts logs idx /\ prof st' = prof st.
Proof.
  revert idx st. induction logs as [|lg logs IH]; intros idx st.
  - cbn. now rewrite app_nil_r.
  - cbn [approvals_block]. cbv zeta.
    destruct (IH (idx + 1) (approval_step runId h rc ts lg idx st)) as (O2 & P2).
    rewrite O2, P2, (approval_docs_cons lg logs). unfold approval_step.
    cbn [approval_docs].
    destruct (decodeApprovalEvent lg); cbn [out prof emit set_out set_approvals].
    + split; [|reflexivity]. now rewrite <- !app_assoc.
    + split; reflexivity.
Qed.

(** *** ALLOWANCE USAGE *)

Lemma split_on_no_bar (a : string) :
  no_bar a = true -> split_on "|" a = [a].
Proof.
  unfold no_bar, all_chars. induction a as [|c a IH]; [reflexivity|].
  cbn. intros H. apply andb_true_iff in H. destruct H as [Hc Ha].
  apply negb_true_iff in Hc. rewrite Hc, (IH Ha). reflexivity.
Qed.

Lemma split_on_bar (a r : string) :
  no_bar a = true ->
  split_on "|" (a ++ String "|" r)%string = a :: split_on "|" r.
Proof.
  unfold no_bar, all_chars. induction a as [|c a IH]; [reflexivity|].
  cbn. intros H. apply andb_true_iff in H. destruct H as [Hc Ha].
  apply negb_true_iff in Hc. rewrite Hc, (IH Ha). reflexivity.
Qed.

Lemma split_key (t o s : string) :
  no_bar t = true -> no_bar o = true -> no_bar s = true ->
  split_on "|" (t ++ "|" ++ o ++ "|" ++ s)%string = [t; o; s].
Proof.
  intros Ht Ho Hs.
  change (t ++ "|" ++ o ++ "|" ++ s)%string
    with (t ++ String "|" (o ++ String "|" s))%string.
  now rewrite (split_on_bar t _ Ht), (split_on_bar o _ Ho), (split_on_no_bar s Hs).
Qed.

Lemma registry_backed_tail kv reg l :
  registry_backed (kv :: reg) l -> registry_backed reg l.
Proof. intros H key e Hin. apply H. now right. Qed.

(** An entry found in the registry comes from an approval fact whose
    three addresses match, up to letter case, those of the transfer. *)
Lemma find_approval_found reg l (token : string) (from : option string) (sender : string)
    (key : string) (e : ApprovalEntry) :
  registry_backed reg l ->
  find_approval reg token from sender = Ok (Some (key, e)) ->
  exists f a t o s,
    from = Some f /\ In (approvalsW, a) l
    /\ field "token" a = JStr t /\ toLowerCase t = toLowerCase token
    /\ field "owner" a = JStr o /\ toLowerCase o = toLowerCase f
    /\ field "spender" a = JStr s /\ toLowerCase s = toLowerCase sender
    /\ field "tx_hash" a = JStr (ap_tx_hash e)
    /\ field "value" a = JStr (bigint_toString (ap_amount e)).
Proof.
  induction reg as [|[key0 e0] reg IH]; intros Hreg H; [discriminate|].
  pose proof (registry_backed_tail _ _ _ Hreg) as Htail.
  destruct (Hreg key0 e0 (or_introl eq_refl))
    as (t & o & s & a & K & Bt & Bo & Bs & Hin & Ft & Fo & Fs & Fh & Fv).
  cbn [find_approval] in H. rewrite K, (split_key t o s Bt Bo Bs) in H.
  cbn [nth_error lower_of bind] in H.
  destruct (String.eqb_spec (toLowerCase t) (toLowerCase token)) as [Et|];
    cbn [negb] in H; [|now apply IH].
  destruct from as [f|]; [|discriminate]. cbn [lower_of bind] in H.
  destruct (String.eqb_spec (toLowerCase o) (toLowerCase f)) as [Eo|];
    cbn [negb] in H; [|now apply IH].
  destruct (String.eqb_spec (toLowerCase s) (toLowerCase sender)) as [Es|];
    [|now apply IH].
  injection H as <- <-. exists f, a, t, o, s. splits; auto.
Qed.

Lemma find_approval_total reg l (token f sender : string) :
  registry_backed reg l ->
  exists r, find_approval reg token (Some f) sender = Ok r.
Proof.
  induction reg as [|[key0 e0] reg IH]; intros Hreg; [cbn; eauto|].
  pose proof (registry_backed_tail _ _ _ Hreg) as Htail.
  destruct (Hreg key0 e0 (or_introl eq_refl))
    as (t & o & s & a & K & Bt & Bo & Bs & _).
  cbn [find_approval]. rewrite K, (split_key t o s Bt Bo Bs).
  cbn [nth_error lower_of bind]. case_ifs; cbn [negb]; eauto.
Qed.

Lemma usage_sound_snoc l (u : record) :
  usage_sound l ->
  (exists a, In (approvalsW, a) l /\ backs a u) ->
  usage_sound (l ++ [(allowanceUsageW, u)]).
Proof.
  intros Hl Hu pre u' post E.
  destruct post as [|p post] using rev_ind.
  - apply app_inj_tail in E. destruct E as [<- [= <-]]. exact Hu.
  - clear IHpost. rewrite app_comm_cons, app_assoc in E.
    apply app_inj_tail in E. destruct E as [E _].
    exact (Hl _ _ _ E).
Qed.

Lemma usage_sound_app l new :
  usage_sound l -> none_on allowanceUsageW new -> usage_sound (l ++ new).
Proof.
  intros Hl Hnew pre u post E.
  apply app_eq_app in E. destruct E as (m & [[E1 E2]|[E1 E2]]).
  - destruct m as [|x m].
    + cbn in E2. subst new. inversion Hnew as [|? ? Hx _]. discriminate.
    + cbn in E2. injection E2 as <- E2. rewrite E1 in Hl.
      exact (Hl pre u m eq_refl).
  - subst new. unfold none_on in Hnew. rewrite Forall_app in Hnew.
    destruct Hnew as [_ Hnew]. inversion Hnew as [|? ? Hx _]. discriminate.
Qed.

Lemma usage_step_spec (t : Transfer) (st st' : State) :
  usage_step runId h tx rc ts t st = Ok st' ->
  registry_backed (approvals st) (out st) ->
  usage_sound (out st) ->
  prof st' = prof st /\ approvals st' = approvals st
  /\ registry_backed (approvals st') (out st')
  /\ usage_sound (out st')
  /\ exists us, out st' = out st ++ us
                /\ Forall (fun e => exists t' ap,
                             e = (allowanceUsageW,
                                  allowance_usage_doc runId h tx rc ts t' ap)) us.
Proof.
  unfold usage_step. intros H Hreg Hsound. bind_inv H found Hf.
  destruct found as [[key ap]|].
  - inversion H; subst st'; clear H. cbn [prof approvals out emit set_out].
    split; [reflexivity|]. split; [reflexivity|].
    split; [now apply registry_backed_app|]. split.
    + apply usage_sound_snoc; [assumption|].
      destruct (find_approval_found _ _ _ _ _ _ _ Hreg Hf)
        as (f & a & t0 & o & s & Hfrom & Hin & Ft & Et & Fo & Eo & Fs & Es & Fh & Fv).
      exists a. split; [assumption|]. unfold backs, same_address.
      rewrite Ft, Fo, Fs, Fh, Fv. cbn. rewrite Hfrom. cbn.
      splits; eauto.
    + eexists. split; [reflexivity|]. repeat constructor. eauto.
  - inversion H; subst st'; clear H. splits; auto.
    exists []. now rewrite app_nil_r.
Qed.

Lemma usage_loop_spec (transfers : list Transfer) (st st' : State) :
  usage_loop runId h tx rc ts transfers st = Ok st' ->
  registry_backed (approvals st) (out st) ->
  usage_sound (out st) ->
  prof st' = prof st /\ approvals st' = approvals st
  /\ registry_backed (approvals st') (out st')
  /\ usage_sound (out st')
  /\ exists us, out st' = out st ++ us
                /\ Forall (fun e => exists t' ap,
                             e = (allowanceUsageW,
                                  allowance_usage_doc runId h tx rc ts t' ap)) us.
Proof.
  revert st. induction transfers as [|t transfers IH]; intros st H Hreg Hsound.
  - inversion H; subst. splits; auto. exists []. now rewrite app_nil_r.
  - cbn [usage_loop] in H. bind_inv H st1 H1.
    destruct (usage_step_spec t st st1 H1 Hreg Hsound) as (P1 & A1 & R1 & S1 & us1 & O1 & F1).
    destruct (IH st1 H R1 S1) as (P2 & A2 & R2 & S2 & us2 & O2 & F2).
    splits; try congruence; auto.
    exists (us1 ++ us2). split; [now rewrite O2, O1, app_assoc | now apply Forall_app].
Qed.

Lemma usage_loop_out (transfers : list Transfer) (st st' : State) :
  usage_loop runId h tx rc ts transfers st = Ok st' ->
  prof st' = prof st /\ approvals st' = approvals st
  /\ exists us, out st' = out st ++ us /\ usage_docs runId h tx rc ts us.
Proof.
  revert st. induction transfers as [|t transfers IH]; intros st H.
  - inversion H; subst. splits; auto. exists []. split; [now rewrite app_nil_r|].
    constructor.
  - cbn [usage_loop] in H. bind_inv H st1 H1.
    destruct (IH st1 H) as (P2 & A2 & us2 & O2 & F2).
    unfold usage_step in H1. bind_inv H1 found Hf.
    destruct found as [[key ap]|]; inversion H1; subst st1; clear H1.
    + cbn [prof approvals out emit set_out] in *. splits; auto.
      eexists. split; [rewrite O2, <- app_assoc; reflexivity|].
      constructor; [eauto | assumption].
    + splits; auto. eauto.
Qed.

Lemma allowance_usage_block_out (transfers : list Transfer) (st st' : State) :
  allowance_usage_block runId h tx rc ts transfers st = Ok st' ->
  prof st' = prof st /\ approvals st' = approvals st
  /\ exists us, out st' = out st ++ us /\ usage_docs runId h tx rc ts us.
Proof.
  unfold allowance_usage_block. destruct (_ && _); [apply usage_loop_out|].
  intros [= <-]. splits; auto. exists []. split; [now rewrite app_nil_r|].
  constructor.
Qed.

Lemma allowance_usage_block_sound (transfers : list Transfer) (st st' : State) :
  allowance_usage_block runId h tx rc ts transfers st = Ok st' ->
  registry_backed (approvals st) (out st) ->
  usage_sound (out st) ->
  registry_backed (approvals st') (out st') /\ usage_sound (out st').
Proof.
  unfold allowance_usage_block. destruct (_ && _).
  - intros H R S. now apply usage_loop_spec in H.
  - intros [= <-]. auto.
Qed.

Lemma docs_view_usage a (us : list (Stream * record)) :
  usage_docs runId h tx rc ts us -> docs_view a (facts us) = (0, 0, 0, 0).
Proof.
  induction 1 as [|e us (t & ap & ->) _ IH]; [reflexivity|].
  change (?x :: us) with ([x] ++ us). rewrite docs_view_app, IH. reflexivity.
Qed.

(** *** One iteration *)

Lemma derive_tx_split (trace : option Call) (st st' : State) :
  derive_tx runId h tx rc ts trace st = Ok st' ->
  exists st6,
    steps st st6 (early_docs runId h tx rc ts trace)
    /\ approvals st6 = approvals st
    /\ allowance_usage_block runId h tx rc ts (decoded_transfers (rc_logs rc))
         (approvals_block runId h rc ts (rc_logs rc) 0 st6) = Ok st'.
Proof.
  unfold derive_tx. cbv zeta. intros H.
  destruct (timeline_block_steps st) as (S0 & A0).
  bind_inv H st1 H1. apply profile_block_steps in H1. destruct H1 as (S1 & A1).
  bind_inv H st2 H2.
  destruct (method_stats_block_spec st1) as (st2' & E2 & O2 & A2 & P2).
  rewrite E2 in H2. injection H2 as ->.
  bind_inv H st3 H3. apply eth_transfer_block_steps in H3. destruct H3 as (S3 & A3).
  bind_inv H r H4. destruct r as [transfers st4].
  apply token_transfers_block_steps in H4. destruct H4 as (T4 & S4 & A4).
  bind_inv H st5 H5. apply trace_block_steps in H5. destruct H5 as (S5 & A5).
  destruct (revert_block_steps trace st5) as (S6 & A6).
  cbn [app] in T4. subst transfers.
  exists (revert_block runId h rc ts trace st5).
  split; [|split; [congruence | exact H]].
  assert (S2 : steps st1 st2 []).
  { apply steps_same_eth;
      [now rewrite app_nil_r | reflexivity | rewrite P2; apply same_eth_refl
       | now rewrite P2]. }
  pose proof (steps_trans _ _ _ _ _ S0
               (steps_trans _ _ _ _ _ S1
                 (steps_trans _ _ _ _ _ S2
                   (steps_trans _ _ _ _ _ S3
                     (steps_trans _ _ _ _ _ S4
                       (steps_trans _ _ _ _ _ S5 S6)))))) as S.
  cbn [app] in S. exact S.
Qed.

Lemma tx_docs_early (trace : option Call) :
  tx_docs runId h tx rc ts trace
  = early_docs runId h tx rc ts trace ++ approval_docs runId h rc ts (rc_logs rc) 0.
Proof. unfold tx_docs, early_docs. now rewrite <- !app_assoc. Qed.

Lemma derive_tx_steps (trace : option Call) (st st' : State) :
  derive_tx runId h tx rc ts trace st = Ok st' ->
  exists us,
    usage_docs runId h tx rc ts us
    /\ steps st st' (tx_docs runId h tx rc ts trace ++ us).
Proof.
  intros H. apply derive_tx_split in H. destruct H as (st6 & S6 & _ & H).
  destruct (approvals_block_out (rc_logs rc) 0 st6) as (O7 & P7).
  apply allowance_usage_block_out in H. destruct H as (P8 & _ & us & O8 & F8).
  exists us. split; [assumption|].
  assert (S7 : steps st6 (approvals_block runId h rc ts (rc_logs rc) 0 st6)
                     (approval_docs runId h rc ts (rc_logs rc) 0)).
  { apply steps_same_eth;
      [exact O7 | intros a; apply docs_view_approvals
       | rewrite P7; apply same_eth_refl | now rewrite P7]. }
  assert (S8 : steps (approvals_block runId h rc ts (rc_logs rc) 0 st6) st' us).
  { apply steps_same_eth;
      [exact O8 | intros a; now apply docs_view_usage
       | rewrite P8; apply same_eth_refl | now rewrite P8]. }
  rewrite tx_docs_early, <- app_assoc.
  exact (steps_trans _ _ _ _ _ S6 (steps_trans _ _ _ _ _ S7 S8)).
Qed.

(** *** The streams each block writes to *)

Lemma streams_in_app Ws l1 l2 :
  streams_in Ws l1 -> streams_in Ws l2 -> streams_in Ws (l1 ++ l2).
Proof. intros H1 H2. apply Forall_app. now split. Qed.

Lemma streams_in_weaken Ws Ws' l :
  (forall W, existsb (Stream_eqb W) Ws = true -> existsb (Stream_eqb W) Ws' = true) ->
  streams_in Ws l -> streams_in Ws' l.
Proof. intros H. apply Forall_impl. intros e. apply H. Qed.

Lemma Stream_eqb_eq (a b : Stream) : Stream_eqb a b = true <-> a = b.
Proof. split; [destruct a, b; (reflexivity || discriminate) | intros ->; now destruct b]. Qed.

Lemma streams_none Ws W l :
  streams_in Ws l -> existsb (Stream_eqb W) Ws = false -> none_on W l.
Proof.
  intros H HW. eapply Forall_impl; [|exact H]. cbn beta. intros [W' r] He. cbn [fst] in *.
  destruct (Stream_eqb W' W) eqn:E; [|reflexivity].
  apply Stream_eqb_eq in E. subst W'. congruence.
Qed.

Lemma walk_docs_streams (call : Call) :
  forall depth, streams_in [traceEdgesW; internalTransfersW]
                  (walk_docs runId h rc ts call depth).
Proof.
  induction call as [from to input value type output rr calls IH] using Call_induction.
  intros depth. cbn [walk_docs]. apply streams_in_app.
  - unfold visit_docs. destruct from, to, type; try constructor.
    destruct (_ && _); [|constructor].
    constructor; [reflexivity|]. destruct (call_value value); [|constructor].
    destruct (_ >? 0); repeat constructor.
  - destruct calls as [subs|]; [|constructor].
    induction IH as [|sub subs Hsub _ IHs]; [constructor|].
    apply streams_in_app; [apply Hsub | exact IHs].
Qed.

Lemma tx_docs_streams (trace : option Call) :
  streams_in loop_streams (tx_docs runId h tx rc ts trace).
Proof.
  unfold tx_docs. repeat apply streams_in_app.
  - repeat constructor.
  - unfold native_docs. destruct (tx_to tx); [|constructor].
    destruct (sends_value tx); repeat constructor.
  - induction (decoded_transfers (rc_logs rc)); repeat constructor. assumption.
  - unfold trace_docs. destruct trace as [t|]; [|constructor].
    constructor; [reflexivity|].
    eapply streams_in_weaken; [|apply walk_docs_streams].
    intros W. destruct W; cbn; congruence.
  - unfold revert_docs. destruct (String.eqb _ _); repeat constructor.
  - generalize 0. induction (rc_logs rc) as [|lg logs IH]; intros idx; [constructor|].
    cbn [approval_docs]. destruct (decodeApprovalEvent lg); [|apply IH].
    constructor; [reflexivity|]. constructor; [reflexivity|]. apply IH.
Qed.

Lemma usage_docs_streams us :
  usage_docs runId h tx rc ts us -> streams_in [allowanceUsageW] us.
Proof. apply Forall_impl. intros e (t & ap & ->). reflexivity. Qed.

(** *** The allowance linkage across one iteration *)

Lemma early_docs_streams (trace : option Call) :
  streams_in [txEnrichedW; blockTxOrderW; contractCallsW; transfersW;
              internalTransfersW; edgesW; traceEdgesW; revertReasonsW]
    (early_docs runId h tx rc ts trace).
Proof.
  unfold early_docs. repeat apply streams_in_app.
  - repeat constructor.
  - unfold native_docs. destruct (tx_to tx); [|constructor].
    destruct (sends_value tx); repeat constructor.
  - induction (decoded_transfers (rc_logs rc)); repeat constructor. assumption.
  - unfold trace_docs. destruct trace as [t|]; [|constructor].
    constructor; [reflexivity|].
    eapply streams_in_weaken; [|apply walk_docs_streams].
    intros W. destruct W; cbn; congruence.
  - unfold revert_docs. destruct (String.eqb _ _); repeat constructor.
Qed.

Lemma approval_docs_streams (logs : list Log) (idx : Z) :
  streams_in [approvalsW; allowanceEdgesW] (approval_docs runId h rc ts logs idx).
Proof.
  revert idx. induction logs as [|lg logs IH]; intros idx; [constructor|].
  cbn [approval_docs]. destruct (decodeApprovalEvent lg); [|apply IH].
  constructor; [reflexivity|]. constructor; [reflexivity|]. apply IH.
Qed.

Lemma derive_tx_linkage (trace : option Call) (st st' : State) :
  derive_tx runId h tx rc ts trace st = Ok st' ->
  forallb wf_log (rc_logs rc) = true ->
  registry_backed (approvals st) (out st) ->
  usage_sound (out st) ->
  registry_backed (approvals st') (out st') /\ usage_sound (out st').
Proof.
  intros H Hwf Hreg Hsound.
  apply derive_tx_split in H. destruct H as (st6 & (O6 & _) & A6 & H).
  assert (R6 : registry_backed (approvals st6) (out st6)).
  { rewrite A6, O6. now apply registry_backed_app. }
  assert (U6 : usage_sound (out st6)).
  { rewrite O6. apply usage_sound_app; [assumption|].
    eapply streams_none; [apply early_docs_streams | reflexivity]. }
  destruct (approvals_block_spec (rc_logs rc) 0 st6 Hwf R6) as (O7 & _ & R7).
  cbv zeta in *.
  apply (allowance_usage_block_sound _ _ _ H R7).
  rewrite O7. apply usage_sound_app; [assumption|].
  eapply streams_none; [apply approval_docs_streams | reflexivity].
Qed.

(** *** An iteration without a trace does not throw *)

Lemma decoded_transfers_from (logs : list Log) :
  forallb wf_log logs = true ->
  Forall (fun t => exists f, tr_from t = Some f) (decoded_transfers logs).
Proof.
  induction logs as [|lg logs IH]; intros Hwf; [constructor|].
  cbn [forallb] in Hwf. apply andb_true_iff in Hwf. destruct Hwf as [Hlg Hwf].
  cbn [decoded_transfers]. rewrite decodeTransferLog_cases.
  destruct (List.length (lg_topics lg) <? 3)%nat eqn:L; [now apply IH|].
  destruct (String.eqb _ _); [|now apply IH].
  destruct (wf_log_data lg Hlg) as (z & -> & _). cbn [bind].
  constructor; [|now apply IH]. cbn [tr_from].
  apply Nat.ltb_ge in L.
  unfold wf_log in Hlg. apply andb_true_iff in Hlg. destruct Hlg as [Hlg _].
  apply andb_true_iff in Hlg. destruct Hlg as [_ Htopics].
  destruct (topicToAddress_hex _ (topic_at_hex 1 _ Htopics ltac:(lia))) as (o & Ho & _).
  eauto.
Qed.

Lemma usage_loop_total (transfers : list Transfer) (st : State) :
  registry_backed (approvals st) (out st) ->
  Forall (fun t => exists f, tr_from t = Some f) transfers ->
  exists st', usage_loop runId h tx rc ts transfers st = Ok st'.
Proof.
  revert st. induction transfers as [|t transfers IH]; intros st Hreg Hfrom.
  - cbn. eauto.
  - inversion Hfrom as [|? ? (f & Hf) Hrest]; subst.
    cbn [usage_loop]. unfold usage_step. rewrite Hf.
    destruct (find_approval_total _ _ (tr_tokenAddr t) f (tx_from tx) Hreg) as (r & ->).
    cbn [bind]. destruct r as [[key ap]|]; cbn [bind].
    + apply IH; [|assumption]. cbn [approvals out emit set_out].
      now apply registry_backed_app.
    + now apply IH.
Qed.

Lemma derive_tx_total (st : State) :
  profs_ok (prof st) ->
  registry_backed (approvals st) (out st) ->
  forallb wf_log (rc_logs rc) = true ->
  exists st', derive_tx runId h tx rc ts None st = Ok st'.
Proof.
  intros Hok Hreg Hwf. unfold derive_tx. cbv zeta.
  destruct (profile_block_total (timeline_block runId h tx rc ts st) Hok)
    as (st1 & H1).
  rewrite H1. cbn [bind].
  destruct (profile_block_spec _ _ H1) as (O1 & A1 & _ & _ & K1).
  destruct (method_stats_block_spec st1) as (st2 & H2 & O2 & A2 & P2).
  rewrite H2. cbn [bind].
  destruct (eth_transfer_block_total st2) as (st3 & H3);
    [rewrite P2; now apply K1|].
  rewrite H3. cbn [bind].
  destruct (eth_transfer_block_spec _ _ H3) as (O3 & A3 & _ & K3).
  destruct (token_transfers_block_total (rc_logs rc) [] st3 Hwf) as ([transfers st4] & H4);
    [apply K3; rewrite P2; now apply K1|].
  rewrite H4. cbn [bind trace_block].
  destruct (token_transfers_block_spec _ _ _ _ _ H4) as (T4 & O4 & A4 & _ & K4).
  destruct (revert_block_steps None st4) as ((O6 & _) & A6).
  set (st6 := revert_block runId h rc ts None st4) in *.
  assert (R6 : registry_backed (approvals st6) (out st6)).
  { rewrite A6, A4, A3, A2, A1, O6, O4, O3, O2, O1.
    cbn [approvals out timeline_block emit set_out].
    now repeat apply registry_backed_app. }
  destruct (approvals_block_spec (rc_logs rc) 0 st6 Hwf R6) as (_ & _ & R7).
  cbv zeta in R7.
  unfold allowance_usage_block. destruct (_ && _); [|eauto].
  apply usage_loop_total; [exact R7|].
  subst transfers. now apply decoded_transfers_from.
Qed.

Lemma native_docs_streams : streams_in [transfersW; edgesW] (native_docs runId h tx rc ts).
Proof.
  unfold native_docs. destruct (tx_to tx); [|constructor].
  destruct (sends_value tx); repeat constructor.
Qed.

Lemma token_docs_streams (l : list Transfer) :
  streams_in [transfersW; edgesW] (token_docs runId h rc ts l).
Proof. induction l; repeat constructor. assumption. Qed.

Lemma revert_docs_streams trace :
  streams_in [revertReasonsW] (revert_docs runId h rc ts trace).
Proof. unfold revert_docs. destruct (String.eqb _ _); repeat constructor. Qed.

Lemma written_token_docs (l : list Transfer) :
  written transfersW (token_docs runId h rc ts l)
  = map (token_transfer_doc runId h rc ts) l.
Proof. induction l as [|t l IH]; [reflexivity|]. cbn. f_equal. exact IH. Qed.

(** What an iteration without a trace writes to the streams of the
    graceful-degradation property. *)
Lemma written_without_trace (us : list (Stream * record)) :
  usage_docs runId h tx rc ts us ->
  let new := tx_docs runId h tx rc ts None ++ us in
  written txEnrichedW new = [tx_enriched_doc runId h tx rc ts]
  /\ written contractCallsW new = [contract_call_doc runId h tx rc ts]
  /\ written transfersW new
     = written transfersW (native_docs runId h tx rc ts)
       ++ map (token_transfer_doc runId h rc ts) (decoded_transfers (rc_logs rc))
  /\ written traceEdgesW new = []
  /\ written internalTransfersW new = [].
Proof.
  intros Hus. cbv zeta.
  pose proof native_docs_streams as SN.
  pose proof (token_docs_streams (decoded_transfers (rc_logs rc))) as ST.
  pose proof (revert_docs_streams None) as SR.
  pose proof (approval_docs_streams (rc_logs rc) 0) as SA.
  pose proof (usage_docs_streams us Hus) as SU.
  unfold tx_docs. cbn [trace_docs]. rewrite !written_app.
  splits.
  - rewrite (written_none _ _ (streams_none _ txEnrichedW _ SN eq_refl)),
            (written_none _ _ (streams_none _ txEnrichedW _ ST eq_refl)),
            (written_none _ _ (streams_none _ txEnrichedW _ SR eq_refl)),
            (written_none _ _ (streams_none _ txEnrichedW _ SA eq_refl)),
            (written_none _ _ (streams_none _ txEnrichedW _ SU eq_refl)).
    reflexivity.
  - rewrite (written_none _ _ (streams_none _ contractCallsW _ SN eq_refl)),
            (written_none _ _ (streams_none _ contractCallsW _ ST eq_refl)),
            (written_none _ _ (streams_none _ contractCallsW _ SR eq_refl)),
            (written_none _ _ (streams_none _ contractCallsW _ SA eq_refl)),
            (written_none _ _ (streams_none _ contractCallsW _ SU eq_refl)).
    reflexivity.
  - rewrite written_token_docs,
            (written_none _ _ (streams_none _ transfersW _ SR eq_refl)),
            (written_none _ _ (streams_none _ transfersW _ SA eq_refl)),
            (written_none _ _ (streams_none _ transfersW _ SU eq_refl)).
    cbn [app written filter map timeline_docs fst Stream_eqb]. now rewrite !app_nil_r.
  - rewrite (written_none _ _ (streams_none _ traceEdgesW _ SN eq_refl)),
            (written_none _ _ (streams_none _ traceEdgesW _ ST eq_refl)),
            (written_none _ _ (streams_none _ traceEdgesW _ SR eq_refl)),
            (written_none _ _ (streams_none _ traceEdgesW _ SA eq_refl)),
            (written_none _ _ (streams_none _ traceEdgesW _ SU eq_refl)).
    reflexivity.
  - rewrite (written_none _ _ (streams_none _ internalTransfersW _ SN eq_refl)),
            (written_none _ _ (streams_none _ internalTransfersW _ ST eq_refl)),
            (written_none _ _ (streams_none _ internalTransfersW _ SR eq_refl)),
            (written_none _ _ (streams_none _ internalTransfersW _ SA eq_refl)),
            (written_none _ _ (streams_none _ internalTransfersW _ SU eq_refl)).
    reflexivity.
Qed.

(** *** The native transfer of one iteration *)

Lemma sends_value_pays {X} (yes : string -> X) (no : X) :
  tx_to tx <> Some EmptyString ->
  match tx_to tx with
  | Some to => if sends_value tx then yes to else no
  | None => no
  end
  = match pays tx with
    | Some to => yes to
    | None => no
    end.
Proof.
  intros Hto. unfold sends_value, pays. destruct (tx_to tx) as [to|]; [|reflexivity].
  assert (T : truthy_ostr (Some to) = true) by (destruct to; [congruence | reflexivity]).
  rewrite T. cbn [andb].
  destruct (Z.gtb_spec (tx_value tx) 0); destruct (Z.eqb_spec (tx_value tx) 0);
    cbn; try reflexivity; lia.
Qed.

Lemma tally_none sel weight side a (l : list record) :
  Forall (fun r => sel r = false) l -> tally sel weight side a l = 0.
Proof.
  induction 1 as [|r l Hr _ IH]; [reflexivity|].
  cbn [tally]. now rewrite Hr, IH.
Qed.

Lemma walk_docs_not_native (call : Call) :
  forall depth,
    Forall (fun e => is_native_transfer (snd e) = false)
           (walk_docs runId h rc ts call depth).
Proof.
  induction call as [from to input value type output rr calls IH] using Call_induction.
  intros depth. cbn [walk_docs]. apply Forall_app. split.
  - unfold visit_docs. destruct from, to, type; try constructor.
    destruct (_ && _); [|constructor].
    constructor; [reflexivity|]. destruct (call_value value); [|constructor].
    destruct (_ >? 0); repeat constructor.
  - destruct calls as [subs|]; [|constructor].
    induction IH as [|sub subs Hsub _ IHs]; [constructor|].
    apply Forall_app. split; [apply Hsub | exact IHs].
Qed.

Lemma trace_docs_counts (trace : option Call) side a :
  count is_native_transfer side a (facts (trace_docs runId h rc ts trace)) = 0.
Proof.
  unfold count. apply tally_none. unfold facts. rewrite Forall_map.
  unfold trace_docs. destruct trace as [t|]; [|constructor].
  constructor; [reflexivity | apply walk_docs_not_native].
Qed.

Lemma docs_view_counts a (l : list (Stream * record)) :
  snd (fst (docs_view a (facts l))) = count is_native_transfer "to" a (facts l)
  /\ snd (docs_view a (facts l)) = count is_native_transfer "from" a (facts l).
Proof. split; reflexivity. Qed.

Lemma view_add_counts x y :
  snd (fst (view_add x y)) = snd (fst x) + snd (fst y)
  /\ snd (view_add x y) = snd x + snd y.
Proof. destruct x as [[[a b] c] d], y as [[[a' b'] c'] d']. split; reflexivity. Qed.

Lemma obs_eth_view a m :
  snd (fst (obs eth_view a m)) = obs eth_in_txs a m
  /\ snd (obs eth_view a m) = obs eth_out_txs a m.
Proof. unfold obs. destruct (map_get a m); split; reflexivity. Qed.

(** The native-transfer counters of one iteration's documents are those
    of its ETH TRANSFER block. *)
Lemma tx_docs_counts (trace : option Call) (us : list (Stream * record)) a :
  usage_docs runId h tx rc ts us ->
  let v := docs_view a (facts (tx_docs runId h tx rc ts trace ++ us)) in
  snd (fst v) = snd (fst (native_movement tx a))
  /\ snd v = snd (native_movement tx a).
Proof.
  intros Hus. cbv zeta. unfold tx_docs.
  rewrite !docs_view_app, docs_view_timeline, docs_view_native, docs_view_token,
    docs_view_revert, docs_view_approvals, (docs_view_usage a us Hus).
  destruct (docs_view_counts a (trace_docs runId h rc ts trace)) as (C1 & C2).
  rewrite !trace_docs_counts in *.
  destruct (docs_view a (facts (trace_docs runId h rc ts trace))) as [[[i o] c] d].
  cbn [fst snd] in C1, C2. subst c d.
  destruct (native_movement tx a) as [[[i' o'] c'] d'].
  cbn. split; lia.
Qed.

Lemma filter_native_token (l : list Transfer) :
  filter is_native_transfer (map (token_transfer_doc runId h rc ts) l) = []
  /\ filter is_native_edge (map (token_edge_doc runId h rc ts) l) = [].
Proof. induction l as [|t l [IH1 IH2]]; [split; reflexivity|]. cbn. auto. Qed.

Lemma written_token_edges (l : list Transfer) :
  written edgesW (token_docs runId h rc ts l) = map (token_edge_doc runId h rc ts) l.
Proof. induction l as [|t l IH]; [reflexivity|]. cbn. f_equal. exact IH. Qed.

Lemma written_flows (trace : option Call) (us : list (Stream * record)) :
  usage_docs runId h tx rc ts us ->
  let new := tx_docs runId h tx rc ts trace ++ us in
  written transfersW new
  = written transfersW (native_docs runId h tx rc ts)
    ++ map (token_transfer_doc runId h rc ts) (decoded_transfers (rc_logs rc))
  /\ written edgesW new
     = written edgesW (native_docs runId h tx rc ts)
       ++ map (token_edge_doc runId h rc ts) (decoded_transfers (rc_logs rc)).
Proof.
  intros Hus. cbv zeta.
  pose proof (revert_docs_streams trace) as SR.
  pose proof (approval_docs_streams (rc_logs rc) 0) as SA.
  pose proof (usage_docs_streams us Hus) as SU.
  assert (STr : streams_in [traceEdgesW; internalTransfersW]
                  (trace_docs runId h rc ts trace)).
  { unfold trace_docs. destruct trace as [t|]; [|constructor].
    constructor; [reflexivity | apply walk_docs_streams]. }
  unfold tx_docs. rewrite !written_app. split.
  - rewrite written_token_docs,
            (written_none _ _ (streams_none _ transfersW _ STr eq_refl)),
            (written_none _ _ (streams_none _ transfersW _ SR eq_refl)),
            (written_none _ _ (streams_none _ transfersW _ SA eq_refl)),
            (written_none _ _ (streams_none _ transfersW _ SU eq_refl)).
    cbn [app written filter map timeline_docs fst Stream_eqb]. now rewrite !app_nil_r.
  - rewrite written_token_edges,
            (written_none _ _ (streams_none _ edgesW _ STr eq_refl)),
            (written_none _ _ (streams_none _ edgesW _ SR eq_refl)),
            (written_none _ _ (streams_none _ edgesW _ SA eq_refl)),
            (written_none _ _ (streams_none _ edgesW _ SU eq_refl)).
    cbn [app written filter map timeline_docs fst Stream_eqb]. now rewrite !app_nil_r.
Qed.

End BlockProofs.

(* ------------------------------------------------------------------ *)
(** ** The loop and the flushes *)

Lemma iteration_steps (runId : string) (f : Fetched) (st st' : State) :
  iteration runId f st = Ok st' ->
  exists new, steps st st' new /\ streams_in loop_streams new.
Proof.
  unfold iteration. destruct (f_tx f) as [tx|]; [destruct (f_rc f) as [rc|]|].
  - intros H. apply derive_tx_steps in H. destruct H as (us & Hus & S).
    eexists. split; [exact S|]. apply streams_in_app; [apply tx_docs_streams|].
    eapply streams_in_weaken; [|eapply usage_docs_streams; exact Hus].
    intros W. destruct W; cbn; congruence.
  - intros [= <-]. exists []. split; [apply steps_refl | constructor].
  - intros [= <-]. exists []. split; [apply steps_refl | constructor].
Qed.

Lemma derive_loop_steps (runId : string) (fs : list Fetched) (st st' : State) :
  derive_loop runId fs st = Ok st' ->
  exists new, steps st st' new /\ streams_in loop_streams new.
Proof.
  revert st. induction fs as [|f fs IH]; intros st H.
  - inversion H; subst. exists []. split; [apply steps_refl | constructor].
  - cbn [derive_loop] in H. bind_inv H st1 H1.
    apply iteration_steps in H1. destruct H1 as (n1 & S1 & W1).
    destruct (IH _ H) as (n2 & S2 & W2).
    exists (n1 ++ n2). split; [eapply steps_trans; eassumption | now apply streams_in_app].
Qed.

Lemma eth_balanced_init : eth_balanced init_state.
Proof. intros a. reflexivity. Qed.

Lemma profs_ok_init : profs_ok (prof init_state).
Proof. split; constructor. Qed.

Lemma eth_balanced_steps (st st' : State) new :
  steps st st' new -> eth_balanced st -> eth_balanced st'.
Proof.
  intros (O & V & _) B a. now rewrite V, O, docs_view_app, B.
Qed.

Lemma fold_emit {X} (W : Stream) (g : X -> record) (l : list X) (st : State) :
  let st' := fold_left (fun st x => emit W (g x) st) l st in
  out st' = out st ++ map (fun x => (W, g x)) l
  /\ prof st' = prof st /\ methodStats st' = methodStats st
  /\ approvals st' = approvals st.
Proof.
  revert st. induction l as [|x l IH]; intros st; cbn [fold_left map].
  - now rewrite app_nil_r.
  - destruct (IH (emit W (g x) st)) as (O & P & M & A).
    cbn zeta in *. rewrite O, P, M, A. cbn [out prof methodStats approvals emit set_out].
    now rewrite <- app_assoc.
Qed.

Lemma flush_spec (runId : string) (st : State) :
  out (flush runId st) = out st ++ flush_docs runId st
  /\ prof (flush runId st) = prof st
  /\ methodStats (flush runId st) = methodStats st.
Proof.
  unfold flush, flush_docs. cbv zeta.
  pose proof (fold_emit profilesW (fun kv => profile_doc runId (snd kv)) (prof st) st)
    as (O1 & P1 & M1 & _).
  set (st1 := fold_left _ (prof st) st) in *.
  pose proof (fold_emit methodStatsW (fun kv => method_stat_doc runId (snd kv))
                (methodStats st1) st1) as (O2 & P2 & M2 & _).
  cbv zeta in *. rewrite O2, P2, M2, O1, P1, !M1.
  now rewrite app_assoc.
Qed.

Lemma docs_view_flush (runId : string) (st : State) a :
  docs_view a (facts (flush_docs runId st)) = (0, 0, 0, 0).
Proof.
  unfold flush_docs. rewrite docs_view_app.
  assert (Z1 : docs_view a (facts (map (fun kv => (profilesW, profile_doc runId (snd kv)))
                                       (prof st))) = (0, 0, 0, 0)).
  { induction (prof st) as [|kv m IH]; [reflexivity|].
    cbn [map]. change (?x :: ?l) with ([x] ++ l). now rewrite docs_view_app, IH. }
  assert (Z2 : docs_view a (facts (map (fun kv => (methodStatsW,
                                                   method_stat_doc runId (snd kv)))
                                       (methodStats st))) = (0, 0, 0, 0)).
  { induction (methodStats st) as [|kv m IH]; [reflexivity|].
    cbn [map]. change (?x :: ?l) with ([x] ++ l). now rewrite docs_view_app, IH. }
  now rewrite Z1, Z2.
Qed.

Lemma map_get_In {V} (k : string) (v : V) (m : list (string * V)) :
  NoDup (map fst m) -> In (k, v) m -> map_get k m = Some v.
Proof.
  induction m as [|[k' v'] m IH]; cbn; [tauto|].
  intros N [E|Hin].
  - injection E as -> ->. now rewrite String.eqb_refl.
  - inversion N as [|? ? Hk N']; subst.
    destruct (String.eqb_spec k k') as [->|]; [|now apply IH].
    exfalso. apply Hk. now apply (in_map fst) in Hin.
Qed.

(** What the derivation leaves: the state when the loop ends, and the
    flushes on top of it. *)
Lemma derive_Ok (runId : string) (fs : list Fetched) (st : State) :
  derive runId fs = Ok st ->
  exists st0 new,
    derive_loop runId fs init_state = Ok st0
    /\ out st0 = new /\ streams_in loop_streams new
    /\ eth_balanced st0 /\ profs_ok (prof st0)
    /\ out st = new ++ flush_docs runId st0.
Proof.
  unfold derive. intros H. bind_inv H st0 H0. injection H as <-.
  destruct (derive_loop_steps _ _ _ _ H0) as (new & S & W).
  pose proof (eth_balanced_steps _ _ _ S eth_balanced_init) as B.
  destruct S as (O & _ & K).
  exists st0, new. splits; auto.
  - apply K, profs_ok_init.
  - destruct (flush_spec runId st0) as (OF & _). now rewrite OF, O.
Qed.

(** C1 (amended).  In a run that completes, the finalized profile of an
    address holds decimal amounts [eth_in_wei] and [eth_out_wei] whose
    difference is the sum of the native asset-transfer facts and of the
    internal native-transfer facts of the run whose [to] is that address,
    minus the sum of those whose [from] is that address: [walkTrace]
    books every call with a positive value on the two profiles as well. *)
Theorem eth_conservation (runId : string) (fs : list Fetched) (st : State) :
  derive runId fs = Ok st ->
  forall p, In p (written profilesW (out st)) ->
  exists a i o,
    field "address" p = JStr a
    /\ field "eth_in_wei" p = JStr (bigint_toString i)
    /\ field "eth_out_wei" p = JStr (bigint_toString o)
    /\ i - o = native_flow a (facts (out st)) + internal_flow a (facts (out st)).
Proof.
  intros H p Hp.
  destruct (derive_Ok _ _ _ H) as (st0 & new & _ & O0 & W & B & [N F] & O).
  rewrite O in Hp. unfold flush_docs in Hp.
  rewrite !written_app, written_same, written_other in Hp by reflexivity.
  rewrite (written_none profilesW new) in Hp
    by (eapply streams_none; [exact W | reflexivity]).
  rewrite app_nil_r in Hp. cbn [app] in Hp.
  apply in_map_iff in Hp. destruct Hp as ([k pr] & <- & Hin). cbn [snd].
  pose proof (proj1 (Forall_forall _ _) F _ Hin) as Hok. cbn [fst snd] in Hok.
  destruct Hok as (Ha & [i Hi] & [o Ho] & _).
  exists k, i, o. cbn [field map_get String.eqb Ascii.eqb Bool.eqb profile_doc].
  rewrite Ha, Hi, Ho. splits; try reflexivity.
  specialize (B k). rewrite (obs_get eth_view k _ pr (map_get_In _ _ _ N Hin)) in B.
  assert (V : docs_view k (facts (out st)) = docs_view k (facts new)).
  { rewrite O, docs_view_app, docs_view_flush. apply view_add_0. }
  rewrite O0 in B. rewrite <- V in B. clear V.
  unfold eth_view in B. rewrite Hi, Ho, !parsed_toString in B.
  unfold docs_view in B. injection B as Bi Bo _ _.
  unfold native_flow, internal_flow. lia.
Qed.

Lemma eth_conservation_witness :
  exists st,
    derive "RUN_1" [traced_payment] = Ok st
    /\ forall p, In p (written profilesW (out st)) ->
       exists a i o,
         field "address" p = JStr a
         /\ field "eth_in_wei" p = JStr (bigint_toString i)
         /\ field "eth_out_wei" p = JStr (bigint_toString o)
         /\ i - o = native_flow a (facts (out st)) + internal_flow a (facts (out st)).
Proof.
  exists (final_state (derive "RUN_1" [traced_payment])).
  assert (E : derive "RUN_1" [traced_payment]
              = Ok (final_state (derive "RUN_1" [traced_payment])))
    by (vm_compute; reflexivity).
  split; [exact E|].
  exact (eth_conservation "RUN_1" [traced_payment] _ E).
Defined.

(** C1 as the specification states it fails on a traced payment: the
    recipient's profile nets 2000 wei for one native asset-transfer fact
    of 1000 wei, because the trace's top-level call is booked too. *)
Lemma conservation_claim_fails_traced_payment :
  ~ conservation_claim "RUN_1" [traced_payment].
Proof.
  intros H.
  set (st := final_state (derive "RUN_1" [traced_payment])).
  assert (E : derive "RUN_1" [traced_payment] = Ok st) by (vm_compute; reflexivity).
  set (p := nth 1 (written profilesW (out st)) []).
  assert (Hin : In p (written profilesW (out st))) by (vm_compute; tauto).
  destruct (H st E p Hin) as (a & i & o & Ha & Hi & Ho & Hflow).
  assert (Pa : field "address" p = JStr "0x70997970c51812dc3a010c7d01b50e0d17dc79c8")
    by (vm_compute; reflexivity).
  assert (Pi : field "eth_in_wei" p = JStr (bigint_toString 2000))
    by (vm_compute; reflexivity).
  assert (Po : field "eth_out_wei" p = JStr (bigint_toString 0))
    by (vm_compute; reflexivity).
  rewrite Pa in Ha. rewrite Pi in Hi. rewrite Po in Ho.
  injection Ha as <-. injection Hi as Hi. injection Ho as Ho.
  apply bigint_toString_inj in Hi, Ho. subst i o.
  assert (F : native_flow "0x70997970c51812dc3a010c7d01b50e0d17dc79c8" (facts (out st))
              = 1000) by (vm_compute; reflexivity).
  rewrite F in Hflow. discriminate.
Qed.

(* ------------------------------------------------------------------ *)
(** ** Approval-usage soundness *)

Lemma derive_loop_linkage (runId : string) (fs : list Fetched) (st st' : State) :
  derive_loop runId fs st = Ok st' ->
  forallb wf_fetched fs = true ->
  registry_backed (approvals st) (out st) ->
  usage_sound (out st) ->
  registry_backed (approvals st') (out st') /\ usage_sound (out st').
Proof.
  revert st. induction fs as [|f fs IH]; intros st H Hwf Hreg Hsound.
  - inversion H; subst. auto.
  - cbn [derive_loop] in H. bind_inv H st1 H1.
    cbn [forallb] in Hwf. apply andb_true_iff in Hwf. destruct Hwf as [Hf Hwf].
    assert (I1 : registry_backed (approvals st1) (out st1) /\ usage_sound (out st1)).
    { unfold iteration in H1. unfold wf_fetched in Hf.
      destruct (f_tx f) as [tx|]; [destruct (f_rc f) as [rc|]|].
      - eapply derive_tx_linkage; eassumption.
      - inversion H1; subst; auto.
      - inversion H1; subst; auto. }
    destruct I1 as [R1 U1]. now apply (IH st1).
Qed.

Lemma usage_sound_nil : usage_sound [].
Proof. intros pre u post E. destruct pre; discriminate. Qed.

Lemma registry_backed_nil l : registry_backed [] l.
Proof. intros key e []. Qed.

(** C2.  In a run over well-formed logs, every allowance-usage fact is
    preceded, in the order the facts are written, by an approval fact
    with the same token, owner and spender up to letter case, whose
    transaction hash and amount the usage fact quotes; so no usage fact
    refers to an approval processed later, and where no approval fact
    with a matching triple has been written no usage fact for that
    triple is. *)
Theorem allowance_usage_sound (runId : string) (fs : list Fetched) (st : State) :
  forallb wf_fetched fs = true ->
  derive runId fs = Ok st ->
  usage_sound (out st)
  /\ (forall u, In (allowanceUsageW, u) (out st) ->
        exists a, In (approvalsW, a) (out st) /\ backs a u).
Proof.
  intros Hwf H.
  assert (S : usage_sound (out st)).
  { unfold derive in H. bind_inv H st0 H0. injection H as <-.
    destruct (derive_loop_linkage runId fs init_state st0 H0 Hwf
                (registry_backed_nil _) usage_sound_nil) as (_ & U).
    destruct (flush_spec runId st0) as (O & _). rewrite O.
    apply usage_sound_app; [assumption|].
    unfold flush_docs, none_on. apply Forall_app. split.
    - induction (prof st0); constructor; auto.
    - induction (methodStats st0); constructor; auto. }
  split; [exact S|].
  intros u Hin. apply in_split in Hin. destruct Hin as (pre & post & E).
  destruct (S pre u post E) as (a & Ha & Hb).
  exists a. split; [|exact Hb]. rewrite E. apply in_or_app. now left.
Qed.

Lemma allowance_usage_sound_witness :
  exists st u,
    forallb wf_fetched approval_then_spend = true
    /\ derive "RUN_1" approval_then_spend = Ok st
    /\ In (allowanceUsageW, u) (out st)
    /\ usage_sound (out st)
    /\ (forall u, In (allowanceUsageW, u) (out st) ->
          exists a, In (approvalsW, a) (out st) /\ backs a u).
Proof.
  exists (final_state (derive "RUN_1" approval_then_spend)).
  assert (W : forallb wf_fetched approval_then_spend = true) by (vm_compute; reflexivity).
  assert (E : derive "RUN_1" approval_then_spend
              = Ok (final_state (derive "RUN_1" approval_then_spend)))
    by (vm_compute; reflexivity).
  eexists. split; [exact W|]. split; [exact E|]. split.
  - vm_compute. do 10 right. left. reflexivity.
  - exact (allowance_usage_sound "RUN_1" approval_then_spend _ W E).
Defined.

(* ------------------------------------------------------------------ *)
(** ** Graceful degradation *)

Lemma derive_loop_reachable (runId : string) (fs : list Fetched) (st : State) :
  forallb wf_fetched fs = true ->
  derive_loop runId fs init_state = Ok st ->
  profs_ok (prof st) /\ registry_backed (approvals st) (out st).
Proof.
  intros Hwf H. split.
  - destruct (derive_loop_steps _ _ _ _ H) as (new & (_ & _ & K) & _).
    apply K, profs_ok_init.
  - now destruct (derive_loop_linkage runId fs init_state st H Hwf
                    (registry_backed_nil _) usage_sound_nil).
Qed.

(* ------------------------------------------------------------------ *)
(** ** The native transfer of a transaction *)

Lemma native_docs_pays runId h tx rc ts :
  tx_to tx <> Some EmptyString ->
  native_docs runId h tx rc ts = payment_docs runId h tx rc ts.
Proof.
  intros Hto. unfold native_docs, payment_docs.
  exact (sends_value_pays tx
           (fun to => [(transfersW, native_transfer_doc runId h tx rc ts to);
                       (edgesW, native_edge_doc runId h tx rc ts to)]) [] Hto).
Qed.

Lemma native_movement_pays tx a :
  tx_to tx <> Some EmptyString ->
  native_movement tx a
  = match pays tx with
    | Some to => movement (tx_from tx) to (tx_value tx) 1 a
    | None => (0, 0, 0, 0)
    end.
Proof.
  intros Hto. unfold native_movement.
  exact (sends_value_pays tx
           (fun to => movement (tx_from tx) to (tx_value tx) 1 a) (0, 0, 0, 0) Hto).
Qed.

(* ------------------------------------------------------------------ *)
(** ** An iteration without a trace *)

Lemma shaped_test (lg : Log) :
  shaped TRANSFER_TOPIC0 lg
  = negb (List.length (lg_topics lg) <? 3)%nat
    && String.eqb (toLowerCase (topic_at 0 (lg_topics lg)))
                  (toLowerCase TRANSFER_TOPIC0).
Proof.
  unfold shaped. rewrite TRANSFER_TOPIC0_lower. f_equal.
  destruct (Nat.leb_spec 3 (List.length (lg_topics lg)));
    destruct (Nat.ltb_spec (List.length (lg_topics lg)) 3); (reflexivity || lia).
Qed.

(** The decoded transfers of well-formed logs are the facts of the logs of
    the [Transfer] shape, in order. *)
Lemma decoded_transfers_facts (runId h : string) (rc : Receipt) (ts : option Z)
    (logs : list Log) :
  forallb wf_log logs = true ->
  Forall2 (token_fact h) (filter (shaped TRANSFER_TOPIC0) logs)
          (map (token_transfer_doc runId h rc ts) (decoded_transfers logs)).
Proof.
  induction logs as [|lg logs IH]; intros Hwf; [constructor|].
  cbn [forallb] in Hwf. apply andb_true_iff in Hwf. destruct Hwf as [Hlg Hwf].
  cbn [filter decoded_transfers]. rewrite shaped_test, decodeTransferLog_cases.
  destruct (List.length (lg_topics lg) <? 3)%nat; cbn [negb andb]; [now apply IH|].
  destruct (String.eqb _ _); [|now apply IH].
  destruct (wf_log_data lg Hlg) as (z & Hz & _). rewrite Hz. cbn [bind map].
  constructor; [|now apply IH].
  unfold token_fact, fact_of.
  repeat match goal with |- _ /\ _ => split end; try reflexivity.
  intros payload Hbytes Hdata.
  rewrite Hdata in Hz. unfold data_or_0x in Hz. cbn [truthy_str] in Hz.
  rewrite (hexToBigInt_hexlify payload Hbytes) in Hz. injection Hz as <-.
  reflexivity.
Qed.

Lemma payment_docs_facts (runId h : string) (tx : Tx) (rc : Receipt) (ts : option Z) :
  native_facts h tx (written transfersW (payment_docs runId h tx rc ts)).
Proof.
  unfold native_facts, payment_docs. destruct (pays tx) as [to|]; [|reflexivity].
  eexists. split; [reflexivity|]. unfold native_fact, fact_of. repeat split.
Qed.

(** C6.  At any point of a run over well-formed logs, an iteration for a
    transaction whose trace fetch returned nothing does not throw.  It
    writes one [tx_enriched] and one [contract_call] fact, both about the
    transaction.  Its asset-transfer facts are the native one, written
    exactly when [to] is not null and the value is strictly positive,
    from the sender to [to] and of the value, followed by one [erc20]
    fact per log of the receipt that has at least 3 topics and whose first
    topic is, up to letter case, the hash of
    [Transfer(address,address,uint256)], in the order of the logs: each
    names the transaction, the emitting contract, the addresses of topics
    1 and 2 and the data read as one big-endian unsigned integer.  It
    writes nothing to the trace-edge and internal-native-transfer
    streams. *)
Theorem missing_trace_degrades_gracefully (runId : string) (fs : list Fetched)
    (f : Fetched) (tx : Tx) (rc : Receipt) (st : State) :
  forallb wf_fetched fs = true ->
  derive_loop runId fs init_state = Ok st ->
  wf_fetched f = true ->
  f_tx f = Some tx -> f_rc f = Some rc -> f_trace f = None ->
  tx_to tx <> Some EmptyString ->
  exists st' new natives tokens,
    iteration runId f st = Ok st'
    /\ out st' = out st ++ new
    /\ written txEnrichedW new = [tx_enriched_doc runId (f_hash f) tx rc (f_blk f)]
    /\ fact_of "tx_enriched" (f_hash f) (tx_enriched_doc runId (f_hash f) tx rc (f_blk f))
    /\ written contractCallsW new = [contract_call_doc runId (f_hash f) tx rc (f_blk f)]
    /\ fact_of "contract_call" (f_hash f)
               (contract_call_doc runId (f_hash f) tx rc (f_blk f))
    /\ written transfersW new = natives ++ tokens
    /\ native_facts (f_hash f) tx natives
    /\ Forall2 (token_fact (f_hash f))
               (filter (shaped TRANSFER_TOPIC0) (rc_logs rc)) tokens
    /\ written traceEdgesW new = []
    /\ written internalTransfersW new = [].
Proof.
  intros Hwf Hloop Hf Htx Hrc Htrace Hto.
  destruct (derive_loop_reachable runId fs st Hwf Hloop) as (Hok & Hreg).
  unfold wf_fetched in Hf. unfold iteration. rewrite Htx, Hrc, Htrace in *.
  destruct (derive_tx_total runId (f_hash f) tx rc (f_blk f) st Hok Hreg Hf) as (st' & H).
  destruct (derive_tx_steps _ _ _ _ _ _ _ _ H) as (us & Hus & (O & _)).
  destruct (written_without_trace runId (f_hash f) tx rc (f_blk f) us Hus)
    as (W1 & W2 & W3 & W4 & W5).
  exists st', (tx_docs runId (f_hash f) tx rc (f_blk f) None ++ us),
    (written transfersW (payment_docs runId (f_hash f) tx rc (f_blk f))),
    (map (token_transfer_doc runId (f_hash f) rc (f_blk f))
         (decoded_transfers (rc_logs rc))).
  split; [exact H|]. split; [exact O|].
  split; [exact W1|]. split; [split; reflexivity|].
  split; [exact W2|]. split; [split; reflexivity|].
  split; [rewrite <- (native_docs_pays runId (f_hash f) tx rc (f_blk f) Hto); exact W3|].
  split; [apply payment_docs_facts|].
  split; [now apply decoded_transfers_facts|].
  split; [exact W4 | exact W5].
Qed.

Lemma missing_trace_degrades_gracefully_witness :
  let st := final_state (derive_loop "RUN_1" approval_then_spend init_state) in
  exists st' new,
    iteration "RUN_1" untraced_purchase st = Ok st'
    /\ out st' = out st ++ new
    /\ List.length (written txEnrichedW new) = 1%nat
    /\ List.length (written contractCallsW new) = 1%nat
    /\ map (field "asset_type") (written transfersW new) = [JStr "native"; JStr "erc20"]
    /\ map (field "to") (written transfersW new)
       = [JStr "0x5fbdb2315678afecb367f032d93f642f64180aa3";
          JStr "0x70997970c51812dc3a010c7d01b50e0d17dc79c8"]
    /\ written traceEdgesW new = []
    /\ written internalTransfersW new = [].
Proof.
  intros st.
  destruct (missing_trace_degrades_gracefully "RUN_1" approval_then_spend
              untraced_purchase
              {| tx_from := "0xf39Fd6e51aad88F6F4ce6aB8827279cffFb92266";
                 tx_to := Some "0x5fbdb2315678afecb367f032d93f642f64180aa3";
                 tx_value := 3; tx_data := "0xa6f2ae3a"; tx_gasPrice := Some 1 |}
              {| rc_status := Some 1; rc_blockNumber := 8; rc_gasUsed := 60000;
                 rc_logs := [erc20_transfer_log];
                 rc_transactionIndex := None; rc_revertReason := None |}
              st)
    as (st' & new & natives & tokens & H & O & W1 & _ & W2 & _ & W3 & N & F & W4 & W5);
    try (vm_compute; reflexivity); [discriminate|].
  exists st', new. split; [exact H|]. split; [exact O|].
  split; [now rewrite W1|]. split; [now rewrite W2|].
  unfold native_facts in N. cbn [pays tx_to tx_value Z.gtb Z.compare] in N.
  destruct N as (n & -> & _ & N1 & _ & _ & N2 & _).
  assert (L : filter (shaped TRANSFER_TOPIC0) [erc20_transfer_log] = [erc20_transfer_log])
    by (vm_compute; reflexivity).
  cbn [rc_logs] in F. rewrite L in F.
  inversion F as [|lg t logs ts (_ & T1 & _ & _ & T2 & _) F' E1 E2]. subst.
  inversion F'. subst.
  rewrite W3. change ([n] ++ [t]) with [n; t]. cbn [map]. rewrite N1, N2, T1, T2.
  split; [reflexivity|]. split; [reflexivity|]. split; [exact W4 | exact W5].
Defined.

(** C10.  For a transaction whose [to] is an address or null, the ETH
    TRANSFER block returns, and it writes the native [asset_transfer]
    fact and its [fund_flow_edge] and books the value and one transfer on
    the recipient's and the sender's profiles exactly when [to] is not
    null and the value is strictly positive, whatever the status of the
    receipt.  Over a whole iteration these are the only native asset
    transfer and native edge written, and the only change to the
    [eth_in_txs] and [eth_out_txs] counters. *)
Theorem native_transfer_emission (runId h : string) (tx : Tx) (rc : Receipt)
    (ts : option Z) (st : State) :
  tx_to tx <> Some EmptyString ->
  profs_ok (prof st) ->
  (exists st1,
      eth_transfer_block runId h tx rc ts st = Ok st1
      /\ out st1 = out st ++ payment_docs runId h tx rc ts
      /\ forall a,
           obs eth_view a (prof st1)
           = view_add (obs eth_view a (prof st))
               match pays tx with
               | Some to => movement (tx_from tx) to (tx_value tx) 1 a
               | None => (0, 0, 0, 0)
               end)
  /\ (forall trace st', derive_tx runId h tx rc ts trace st = Ok st' ->
      exists new,
        out st' = out st ++ new
        /\ filter is_native_transfer (written transfersW new)
           = written transfersW (payment_docs runId h tx rc ts)
        /\ filter is_native_edge (written edgesW new)
           = written edgesW (payment_docs runId h tx rc ts)
        /\ forall a,
             obs eth_in_txs a (prof st')
             = obs eth_in_txs a (prof st)
               + match pays tx with
                 | Some to => if String.eqb a to then 1 else 0
                 | None => 0
                 end
             /\ obs eth_out_txs a (prof st')
                = obs eth_out_txs a (prof st)
                  + match pays tx with
                    | Some _ => if String.eqb a (tx_from tx) then 1 else 0
                    | None => 0
                    end).
Proof.
  intros Hto Hok. split.
  - destruct (eth_transfer_block_total runId h tx rc ts st Hok) as (st1 & H1).
    exists st1. split; [exact H1|].
    destruct (eth_transfer_block_spec _ _ _ _ _ _ _ H1) as (O & _ & V & _).
    split; [now rewrite <- native_docs_pays|].
    intros a. now rewrite <- native_movement_pays.
  - intros trace st' H.
    destruct (derive_tx_steps _ _ _ _ _ _ _ _ H) as (us & Hus & (O & V & _)).
    exists (tx_docs runId h tx rc ts trace ++ us).
    split; [exact O|].
    destruct (written_flows runId h tx rc ts trace us Hus) as (WT & WE).
    destruct (filter_native_token runId h rc ts (decoded_transfers (rc_logs rc)))
      as (FT & FE).
    rewrite WT, WE, !filter_app, FT, FE, !app_nil_r, native_docs_pays by exact Hto.
    unfold payment_docs.
    split; [destruct (pays tx); reflexivity|].
    split; [destruct (pays tx); reflexivity|].
    intros a.
    destruct (obs_eth_view a (prof st')) as (I' & O').
    destruct (obs_eth_view a (prof st)) as (I0 & O0).
    destruct (tx_docs_counts runId h tx rc ts trace us a Hus) as (C1 & C2).
    cbv zeta in C1, C2.
    destruct (view_add_counts (obs eth_view a (prof st))
                (docs_view a (facts (tx_docs runId h tx rc ts trace ++ us))))
      as (A1 & A2).
    rewrite <- I', <- O', (V a), A1, A2, C1, C2, I0, O0,
      native_movement_pays by exact Hto.
    destruct (pays tx); split; reflexivity.
Qed.

Lemma native_transfer_emission_witness :
  exists tx rc,
    f_tx reverted_payment = Some tx /\ f_rc reverted_payment = Some rc
    /\ txStatus rc = "revert"
    /\ exists st1,
         eth_transfer_block "RUN_1" "0x02" tx rc (f_blk reverted_payment) init_state
         = Ok st1
         /\ out st1 = payment_docs "RUN_1" "0x02" tx rc (f_blk reverted_payment)
         /\ List.length (out st1) = 2%nat.
Proof.
  eexists _, _. split; [reflexivity|]. split; [reflexivity|].
  split; [reflexivity|].
  destruct (native_transfer_emission "RUN_1" "0x02"
              {| tx_from := "0xf39fd6e51aad88f6f4ce6ab8827279cfffb92266";
                 tx_to := Some "0x70997970c51812dc3a010c7d01b50e0d17dc79c8";
                 tx_value := 5; tx_data := "0x"; tx_gasPrice := Some 1 |}
              {| rc_status := Some 0; rc_blockNumber := 2; rc_gasUsed := 21000;
                 rc_logs := []; rc_transactionIndex := Some 0;
                 rc_revertReason := None |}
              (Some 1700000024) init_state
              ltac:(discriminate) profs_ok_init) as ((st1 & H1 & O1 & _) & _).
  exists st1. split; [exact H1|]. split; [exact O1|].
  rewrite O1. reflexivity.
Defined.

(* ------------------------------------------------------------------ *)
(** ** The fields of an allowance-usage record *)

Lemma string_of_uint_digits (d : uint) :
  all_chars is_dec_digit (NilEmpty.string_of_uint d) = true.
Proof. induction d; cbn; auto. Qed.

Lemma is_decimal_string_toString (z : Z) :
  is_decimal_string (bigint_toString z) = true.
Proof.
  unfold bigint_toString. destruct z as [|p|p]; cbn; [reflexivity| |].
  - destruct (Pos.to_uint p); cbn; try reflexivity; apply string_of_uint_digits.
  - destruct (Pos.to_uint p); cbn; try reflexivity; apply string_of_uint_digits.
Qed.

Lemma allowance_usage_doc_contract runId h tx rc ts t ap :
  let u := allowance_usage_doc runId h tx rc ts t ap in
  usage_contract usage_fields u = true
  /\ map fst u = "doc_type" :: "run_id" :: usage_fields
  /\ carries "usage_tx_hash" u = false
  /\ field "drain_tx_hash" u = JStr h.
Proof.
  cbv zeta. unfold usage_contract, allowance_usage_doc, head, carries, field.
  cbn. rewrite !is_decimal_string_toString.
  split; [|repeat split].
  destruct (tr_from t), ts; reflexivity.
Qed.

Lemma written_usage_docs runId h tx rc ts us :
  usage_docs runId h tx rc ts us -> written allowanceUsageW us = facts us.
Proof.
  induction 1 as [|e us (t & ap & ->) _ IH]; [reflexivity|].
  unfold written, facts in *. cbn. now rewrite IH.
Qed.

Lemma derive_tx_usage runId h tx rc ts trace st st' :
  derive_tx runId h tx rc ts trace st = Ok st' ->
  exists us,
    usage_docs runId h tx rc ts us
    /\ written allowanceUsageW (out st') = written allowanceUsageW (out st) ++ facts us.
Proof.
  intros H. destruct (derive_tx_steps _ _ _ _ _ _ _ _ H) as (us & Hus & (O & _)).
  exists us. split; [exact Hus|].
  rewrite O, tx_docs_early, !written_app, (written_usage_docs _ _ _ _ _ _ Hus).
  rewrite (written_none _ _ (streams_none _ allowanceUsageW _
                               (early_docs_streams runId h tx rc ts trace) eq_refl)),
          (written_none _ _ (streams_none _ allowanceUsageW _
                               (approval_docs_streams runId h rc ts (rc_logs rc) 0) eq_refl)).
  reflexivity.
Qed.

Lemma usage_record_cons runId f fs u :
  usage_record runId fs u -> usage_record runId (f :: fs) u.
Proof.
  intros (f' & tx & rc & t & ap & Hin & Htx & Hrc & ->).
  exists f', tx, rc, t, ap. splits; auto. now right.
Qed.

Lemma derive_loop_usage (runId : string) (fs : list Fetched) (st st' : State) :
  derive_loop runId fs st = Ok st' ->
  forall u, In u (written allowanceUsageW (out st')) ->
            In u (written allowanceUsageW (out st)) \/ usage_record runId fs u.
Proof.
  revert st. induction fs as [|f fs IH]; intros st H u Hu.
  - inversion H; subst. now left.
  - cbn [derive_loop] in H. bind_inv H st1 H1.
    destruct (IH st1 H u Hu) as [Hin|Hrec]; [|right; now apply usage_record_cons].
    unfold iteration in H1.
    destruct (f_tx f) as [tx|] eqn:Etx; [destruct (f_rc f) as [rc|] eqn:Erc|].
    + destruct (derive_tx_usage _ _ _ _ _ _ _ _ H1) as (us & Hus & W).
      rewrite W in Hin. apply in_app_or in Hin. destruct Hin as [Hin|Hin]; [now left|].
      right. unfold facts in Hin. apply in_map_iff in Hin.
      destruct Hin as (e & <- & He).
      unfold usage_docs in Hus. rewrite Forall_forall in Hus.
      destruct (Hus e He) as (t & ap & ->).
      exists f, tx, rc, t, ap. splits; auto. now left.
    + inversion H1; subst. now left.
    + inversion H1; subst. now left.
Qed.

Lemma written_flush_docs_usage runId st :
  written allowanceUsageW (flush_docs runId st) = [].
Proof.
  unfold flush_docs. rewrite written_app.
  rewrite !written_none; [reflexivity | |].
  - induction (methodStats st); constructor; auto.
  - induction (prof st); constructor; auto.
Qed.

(** C8.  Every allowance-usage record of a run is the document of one of
    its transactions: after [doc_type] and [run_id] its fields are token,
    owner, spender, approved_amount, used_amount, approval_tx_hash,
    drain_tx_hash, block_number and timestamp, in this order; the hash of
    the spending transaction is under [drain_tx_hash] and there is no
    [usage_tx_hash]; both amounts are decimal strings. *)
Theorem allowance_usage_fields (runId : string) (fs : list Fetched) (st : State) :
  derive runId fs = Ok st ->
  forall u, In u (written allowanceUsageW (out st)) ->
    usage_contract usage_fields u = true
    /\ map fst u = "doc_type" :: "run_id" :: usage_fields
    /\ carries "usage_tx_hash" u = false
    /\ (exists f, In f fs /\ field "drain_tx_hash" u = JStr (f_hash f))
    /\ (exists a b, field "approved_amount" u = JStr (bigint_toString a)
                    /\ field "used_amount" u = JStr (bigint_toString b)).
Proof.
  intros H u Hu. unfold derive in H. bind_inv H st0 H0. injection H as <-.
  destruct (flush_spec runId st0) as (O & _).
  rewrite O, written_app, written_flush_docs_usage, app_nil_r in Hu.
  destruct (derive_loop_usage runId fs init_state st0 H0 u Hu) as [[]|Hrec].
  destruct Hrec as (f & tx & rc & t & ap & Hin & _ & _ & ->).
  destruct (allowance_usage_doc_contract runId (f_hash f) tx rc (f_blk f) t ap)
    as (C & K & N & D).
  splits; auto.
  - exists f. now split.
  - exists (ap_amount ap), (tr_amount t). split; reflexivity.
Qed.

Lemma allowance_usage_fields_witness :
  exists st u,
    derive "RUN_1" approval_then_spend = Ok st
    /\ written allowanceUsageW (out st) = [u]
    /\ usage_contract usage_fields u = true
    /\ map fst u = "doc_type" :: "run_id" :: usage_fields
    /\ carries "usage_tx_hash" u = false
    /\ field "drain_tx_hash" u = JStr "0xbb".
Proof.
  eexists _, _. split; [reflexivity|]. split; [reflexivity|].
  match goal with
  | |- usage_contract _ ?u = true /\ _ =>
      destruct (allowance_usage_fields "RUN_1" approval_then_spend
                  (final_state (derive "RUN_1" approval_then_spend))
                  eq_refl u (or_introl eq_refl)) as (C & K & N & _)
  end.
  split; [exact C|]. split; [exact K|]. split; [exact N|]. reflexivity.
Defined.

(** C8, as worded: the record written for the spend of
    [approval_then_spend] has no [usage_tx_hash]. *)
Lemma allowance_usage_claim_fails_usage_tx_hash :
  ~ allowance_usage_claim "RUN_1" approval_then_spend.
Proof.
  intros C. specialize (C _ eq_refl). vm_compute in C. discriminate.
Qed.

(* ------------------------------------------------------------------ *)
(** ** The two flushes *)

Section FlushProofs.

Variables (runId h : string) (tx : Tx) (rc : Receipt) (ts : option Z).

Lemma stats_ok_get (to mid : string) m :
  stats_ok m -> stats_ok (getMethodStat to mid m).
Proof.
  intros [N F]. unfold getMethodStat. cbv zeta.
  destruct (map_get _ m); [now split|].
  split; [now apply NoDup_map_set|].
  now apply (Forall_map_set (fun k v => k = method_key (ms_to v) (ms_method_id v))).
Qed.

Lemma method_stats_block_stats (st st' : State) :
  method_stats_block tx rc ts st = Ok st' ->
  stats_ok (methodStats st) -> stats_ok (methodStats st').
Proof.
  unfold method_stats_block.
  destruct (tx_to tx) as [to|]; [|now intros [= <-]].
  destruct (_ && _); [|now intros [= <-]].
  intros H K. bind_inv H m Hm. injection H as <-.
  cbn [methodStats set_methodStats].
  apply (stats_ok_get to (methodId tx)) in K. destruct K as [N F].
  split.
  - apply modify_Ok in Hm. destruct Hm as (v & v' & _ & _ & ->).
    now apply NoDup_map_set.
  - eapply (modify_pres (fun k v => k = method_key (ms_to v) (ms_method_id v)));
      [exact Hm | | exact F].
    intros v v' Hv ->. injection Hv as <-.
    destruct ts; case_ifs; reflexivity.
Qed.

Lemma eth_transfer_block_stats (st st' : State) :
  eth_transfer_block runId h tx rc ts st = Ok st' -> methodStats st' = methodStats st.
Proof.
  unfold eth_transfer_block.
  destruct (tx_to tx) as [to|]; [|now intros [= <-]].
  destruct (sends_value tx); [|now intros [= <-]].
  cbv zeta. intros H. bind_inv H p1 H1. bind_inv H p2 H2. now injection H as <-.
Qed.

Lemma token_transfer_step_stats (t : Transfer) (st st' : State) :
  token_transfer_step runId h rc ts t st = Ok st' -> methodStats st' = methodStats st.
Proof.
  unfold token_transfer_step. cbv zeta. intros H.
  bind_inv H p1 H1. bind_inv H p2 H2. now injection H as <-.
Qed.

Lemma token_transfers_block_stats (logs : list Log) (transfers transfers' : list Transfer)
    (st st' : State) :
  token_transfers_block runId h rc ts logs transfers st = Ok (transfers', st') ->
  methodStats st' = methodStats st.
Proof.
  revert transfers st. induction logs as [|lg logs IH]; intros transfers st H.
  - now inversion H.
  - cbn [token_transfers_block] in H. bind_inv H d Hd. destruct d as [t|].
    + bind_inv H st1 H1. apply token_transfer_step_stats in H1.
      rewrite <- H1. exact (IH _ _ H).
    + exact (IH _ _ H).
Qed.

Lemma visit_call_stats (from to type value input : option string) (depth : Z)
    (st st' : State) :
  visit_call runId h rc ts from to type value input depth st = Ok st' ->
  methodStats st' = methodStats st.
Proof.
  unfold visit_call.
  destruct from as [from|]; [|now intros [= <-]].
  destruct to as [to|]; [|now intros [= <-]].
  destruct type as [type|]; [|now intros [= <-]].
  destruct (_ && _); [|now intros [= <-]].
  cbv zeta. intros H. bind_inv H val Hval.
  destruct (val >? 0); [|now injection H as <-].
  bind_inv H p1 H1. bind_inv H p2 H2. bind_inv H p3 H3. now injection H as <-.
Qed.

Lemma walkTrace_stats (call : Call) :
  forall (depth : Z) (st st' : State),
    walkTrace runId h rc ts call depth st = Ok st' ->
    methodStats st' = methodStats st.
Proof.
  induction call as [from to input value type output rr calls IH] using Call_induction.
  intros depth st st' H. cbn [walkTrace] in H.
  bind_inv H st1 H1. apply visit_call_stats in H1. rewrite <- H1. clear H1.
  destruct calls as [subs|]; [|now injection H as <-].
  revert st1 H. induction subs as [|sub subs IHs]; intros st1 H.
  - now injection H as <-.
  - bind_inv H st2 H2. inversion IH as [|? ? Hsub Hsubs]; subst.
    apply Hsub in H2. rewrite <- H2. exact (IHs Hsubs st2 H).
Qed.

Lemma trace_block_stats (trace : option Call) (st st' : State) :
  trace_block runId h rc ts trace st = Ok st' -> methodStats st' = methodStats st.
Proof.
  unfold trace_block. destruct trace as [t|]; [|now intros [= <-]].
  intros H. now apply walkTrace_stats in H.
Qed.

Lemma approvals_block_stats (logs : list Log) (idx : Z) (st : State) :
  methodStats (approvals_block runId h rc ts logs idx st) = methodStats st.
Proof.
  revert idx st. induction logs as [|lg logs IH]; intros idx st; [reflexivity|].
  cbn [approvals_block]. rewrite IH. unfold approval_step.
  now destruct (decodeApprovalEvent lg).
Qed.

Lemma usage_loop_stats (transfers : list Transfer) (st st' : State) :
  usage_loop runId h tx rc ts transfers st = Ok st' -> methodStats st' = methodStats st.
Proof.
  revert st. induction transfers as [|t transfers IH]; intros st H.
  - now injection H as <-.
  - cbn [usage_loop] in H. bind_inv H st1 H1. rewrite (IH _ H).
    unfold usage_step in H1. bind_inv H1 found Hf.
    destruct found as [[k ap]|]; now injection H1 as <-.
Qed.

Lemma derive_tx_stats (trace : option Call) (st st' : State) :
  derive_tx runId h tx rc ts trace st = Ok st' ->
  stats_ok (methodStats st) -> stats_ok (methodStats st').
Proof.
  unfold derive_tx. cbv zeta. intros H K.
  bind_inv H st1 H1. destruct (profile_block_spec _ _ _ _ _ H1) as (_ & _ & M1 & _).
  bind_inv H st2 H2. apply method_stats_block_stats in H2;
    [|rewrite M1; exact K].
  bind_inv H st3 H3. apply eth_transfer_block_stats in H3.
  bind_inv H r H4. destruct r as [transfers st4].
  apply token_transfers_block_stats in H4.
  bind_inv H st5 H5. apply trace_block_stats in H5.
  assert (E : methodStats st' = methodStats st5).
  { unfold allowance_usage_block in H.
    destruct (_ && _); [apply usage_loop_stats in H | injection H as <-];
      rewrite ?H, approvals_block_stats; unfold revert_block;
      now destruct (String.eqb _ _). }
  now rewrite E, H5, H4, H3.
Qed.

End FlushProofs.

Lemma derive_loop_stats (runId : string) (fs : list Fetched) (st st' : State) :
  derive_loop runId fs st = Ok st' ->
  stats_ok (methodStats st) -> stats_ok (methodStats st').
Proof.
  revert st. induction fs as [|f fs IH]; intros st H K.
  - now injection H as <-.
  - cbn [derive_loop] in H. bind_inv H st1 H1. apply (IH st1 H).
    unfold iteration in H1.
    destruct (f_tx f) as [tx|]; [destruct (f_rc f) as [rc|]|].
    + eapply derive_tx_stats; eassumption.
    + now injection H1 as <-.
    + now injection H1 as <-.
Qed.

Lemma stats_ok_init : stats_ok (methodStats init_state).
Proof. split; constructor. Qed.

Lemma NoDup_map_by {X A B} (f : X -> A) (g : X -> B) (l : list X) :
  (forall x y, In x l -> In y l -> g x = g y -> f x = f y) ->
  NoDup (map f l) -> NoDup (map g l).
Proof.
  induction l as [|x l IH]; intros Hfg N; [constructor|].
  cbn [map] in *. inversion N as [|? ? Hx N']; subst. constructor.
  - intros Hin. apply in_map_iff in Hin. destruct Hin as (y & E & Hy).
    apply Hx. apply in_map_iff. exists y. split; [|exact Hy].
    apply Hfg; [now right | now left | exact E].
  - apply IH; [|exact N']. intros a b Ha Hb. apply Hfg; now right.
Qed.

Lemma profile_doc_shape (runId k : string) (p : Prof) :
  prof_ok k p -> profile_shape (profile_doc runId p) = true.
Proof.
  intros (_ & (i & Ei) & (o & Eo) & (g & Eg) & (u & Eu) & _).
  unfold profile_shape, fields_are, profile_doc, field. cbn.
  rewrite Ei, Eo, Eg, Eu, !is_decimal_string_toString. cbn.
  assert (A : forallb (fun x => match x with JStr _ => true | _ => false end)
                      (map JStr (call_targets p)) = true)
    by (induction (call_targets p); auto).
  rewrite A.
  destruct (first_seen_ts p), (last_seen_ts p), (first_seen_block p),
    (last_seen_block p); reflexivity.
Qed.

Lemma method_stat_doc_shape (runId : string) (s : MethodStat) :
  stat_shape (method_stat_doc runId s) = true.
Proof.
  unfold stat_shape, fields_are, method_stat_doc, field. cbn.
  destruct (ms_first_seen_ts s), (ms_last_seen_ts s); reflexivity.
Qed.

Lemma written_flush (runId : string) (st0 : State) new :
  streams_in loop_streams new ->
  written profilesW (new ++ flush_docs runId st0)
  = map (fun kv => profile_doc runId (snd kv)) (prof st0)
  /\ written methodStatsW (new ++ flush_docs runId st0)
     = map (fun kv => method_stat_doc runId (snd kv)) (methodStats st0).
Proof.
  intros S. unfold flush_docs. rewrite !written_app.
  rewrite (written_none _ _ (streams_none _ profilesW _ S eq_refl)),
          (written_none _ _ (streams_none _ methodStatsW _ S eq_refl)).
  rewrite !written_same, !written_other by reflexivity.
  now rewrite app_nil_r.
Qed.

(** C9.  The two flushes write one [address_profile] per entry of the
    profile map and one [method_stat] per entry of the method-stat map,
    in the order of insertion, and nothing else to these two streams; no
    two profiles have the same address and no two method stats the same
    callee and selector.  In every profile the four counters are numbers,
    the four totals decimal strings, [call_targets] an array of strings in
    the order of insertion, and the first- and last-seen bounds numbers or
    null; in every method stat the counters are numbers, [unique_callers]
    among them as the size of the caller set, and the two bounds numbers
    or null.  An object as [getProf] or [getMethodStat] creates it is
    flushed with counters 0, totals the string 0, no call target and null
    bounds. *)
Theorem flush_one_record_per_key (runId : string) (fs : list Fetched) (st : State) :
  derive runId fs = Ok st ->
  exists st0,
    derive_loop runId fs init_state = Ok st0
    /\ written profilesW (out st)
       = map (fun kv => profile_doc runId (snd kv)) (prof st0)
    /\ written methodStatsW (out st)
       = map (fun kv => method_stat_doc runId (snd kv)) (methodStats st0)
    /\ map (field "address") (written profilesW (out st))
       = map JStr (map fst (prof st0))
    /\ NoDup (map (field "address") (written profilesW (out st)))
    /\ NoDup (map (fun r => (field "to" r, field "method_id" r))
                  (written methodStatsW (out st)))
    /\ forallb profile_shape (written profilesW (out st)) = true
    /\ forallb stat_shape (written methodStatsW (out st)) = true
    /\ (forall a,
          let r := profile_doc runId (newProf a) in
          fields_are (fun j => match j with JNum 0 => true | _ => false end)
            profile_counters r
          && fields_are (jstr_is "0") profile_totals r
          && match field "call_targets" r with JArr [] => true | _ => false end
          && fields_are (fun j => match j with JNull => true | _ => false end)
               profile_bounds r = true)
    /\ (forall to mid,
          let r := method_stat_doc runId (newMethodStat to mid) in
          fields_are (fun j => match j with JNum 0 => true | _ => false end)
            stat_counters r
          && fields_are (fun j => match j with JNull => true | _ => false end)
               stat_bounds r = true).
Proof.
  intros H.
  destruct (derive_Ok runId fs st H) as (st0 & new & H0 & O0 & S & _ & Kp & O).
  pose proof (derive_loop_stats runId fs init_state st0 H0 stats_ok_init) as [Ns Fs].
  destruct Kp as [Np Fp].
  destruct (written_flush runId st0 new S) as (WP & WS).
  exists st0. rewrite O, WP, WS.
  assert (A : map (field "address") (map (fun kv => profile_doc runId (snd kv)) (prof st0))
              = map JStr (map fst (prof st0))).
  { rewrite !map_map. apply map_ext_in. intros [k p] Hin.
    rewrite Forall_forall in Fp. destruct (Fp _ Hin) as (E & _).
    cbn [fst snd] in *. now rewrite <- E. }
  splits; auto.
  - rewrite A. apply (NoDup_map_by (fun k => k) JStr).
    + intros x y _ _ E. now injection E.
    + now rewrite map_id.
  - rewrite map_map.
    apply (NoDup_map_by fst
             (fun kv => (field "to" (method_stat_doc runId (snd kv)),
                         field "method_id" (method_stat_doc runId (snd kv)))));
      [|exact Ns].
    intros [k s] [k' s'] Hin Hin' E. rewrite Forall_forall in Fs.
    pose proof (Fs _ Hin) as K. pose proof (Fs _ Hin') as K'.
    cbn [fst snd] in *. unfold method_stat_doc, field in E. cbn in E.
    injection E as E1 E2. now rewrite K, K', E1, E2.
  - rewrite forallb_forall. intros r Hr. apply in_map_iff in Hr.
    destruct Hr as ([k p] & <- & Hin). rewrite Forall_forall in Fp.
    exact (profile_doc_shape runId k p (Fp _ Hin)).
  - rewrite forallb_forall. intros r Hr. apply in_map_iff in Hr.
    destruct Hr as ([k s] & <- & Hin). apply method_stat_doc_shape.
Qed.

Lemma flush_one_record_per_key_witness :
  exists st,
    derive "RUN_1" approval_then_spend = Ok st
    /\ List.length (written profilesW (out st)) = 5%nat
    /\ List.length (written methodStatsW (out st)) = 2%nat
    /\ NoDup (map (field "address") (written profilesW (out st)))
    /\ NoDup (map (fun r => (field "to" r, field "method_id" r))
                  (written methodStatsW (out st)))
    /\ forallb profile_shape (written profilesW (out st)) = true
    /\ forallb stat_shape (written methodStatsW (out st)) = true.
Proof.
  exists (final_state (derive "RUN_1" approval_then_spend)).
  destruct (flush_one_record_per_key "RUN_1" approval_then_spend
              (final_state (derive "RUN_1" approval_then_spend)) eq_refl)
    as (st0 & _ & _ & _ & _ & Np & Ns & Sp & Ss & _).
  split; [vm_compute; reflexivity|].
  split; [vm_compute; reflexivity|]. split; [vm_compute; reflexivity|].
  split; [exact Np|]. split; [exact Ns|]. split; [exact Sp | exact Ss].
Defined.

(** C9, as worded: in the run of [approval_then_spend] the recipient of
    the tokens is flushed with null first- and last-seen bounds. *)
Lemma finalization_claim_fails_null_bounds :
  ~ finalization_claim "RUN_1" approval_then_spend.
Proof.
  intros C. destruct (C _ eq_refl) as (_ & _ & C3 & _).
  vm_compute in C3. discriminate.
Qed.

(** A contract creation that carries value writes no native transfer. *)
Example funded_creation_writes_nothing :
  pays funded_creation = None
  /\ eth_transfer_block "RUN_1" "0x03" funded_creation
       (mkReceipt (Some 1) 3 21000 [] (Some 0) None) None init_state = Ok init_state.
Proof. split; reflexivity. Qed.

(* ================================================================== *)
(** * Further properties of the shard writer *)

Section WriterExtras.

Variables (dir name : string) (K : Z).

Lemma files_inv_openNew (w : WState) :
  files_inv dir name w -> files_inv dir name (openNew dir name w).
Proof.
  intros (Hs & Hf & Hst). unfold files_inv, openNew.
  cbn [w_shard w_files w_stream].
  rewrite length_app. cbn [List.length]. rewrite Nat.add_1_r.
  split; [lia|]. split.
  - rewrite seq_S, map_app. cbn [map Nat.add]. rewrite <- Hf, Hs. reflexivity.
  - intros fp [= <-]. apply in_or_app. right. now left.
Qed.

Lemma files_inv_write (obj : record) (w : WState) :
  files_inv dir name w -> files_inv dir name (write dir name K obj w).
Proof.
  intros H. unfold write. cbv zeta.
  assert (H1 : files_inv dir name
                 (if w_count w >=? K then openNew dir name w else w))
    by (destruct (w_count w >=? K); [now apply files_inv_openNew | exact H]).
  destruct (w_stream _) eqn:E; [|exact H1].
  destruct H1 as (Hs & Hf & Hst). unfold files_inv.
  cbn [w_shard w_files w_stream]. splits; auto.
  intros fp Hfp. apply Hst. congruence.
Qed.

Lemma files_inv_write_all (objs : list record) (w : WState) :
  files_inv dir name w -> files_inv dir name (write_all dir name K objs w).
Proof.
  revert w. induction objs as [|obj objs IH]; intros w H; [exact H|].
  cbn [write_all fold_left]. apply IH. now apply files_inv_write.
Qed.

Lemma files_inv_init (d : Disk) : files_inv dir name (ndjsonWriter dir name d).
Proof.
  unfold ndjsonWriter. apply files_inv_openNew. unfold files_inv. cbn.
  splits; auto. discriminate.
Qed.

Lemma NoDup_shard_paths (n : nat) :
  NoDup (map (fun i => shard_path dir name (Z.of_nat i)) (seq 0 n)).
Proof.
  apply (NoDup_map_by (fun i => i)); [|rewrite map_id; apply seq_NoDup].
  intros x y _ _ E. apply shard_path_inj in E; lia.
Qed.

Lemma extends_refl d : extends d d.
Proof. intros fp c H. exists []. now rewrite app_nil_r. Qed.

Lemma extends_trans d1 d2 d3 : extends d1 d2 -> extends d2 d3 -> extends d1 d3.
Proof.
  intros H1 H2 fp c H. destruct (H1 fp c H) as (c1 & E1).
  destruct (H2 fp _ E1) as (c2 & E2). exists (c1 ++ c2). now rewrite app_assoc.
Qed.

Lemma disk_read_open_any (fp q : string) (d : Disk) :
  disk_read fp (disk_open q d)
  = match disk_read fp d with
    | Some c => Some c
    | None => if String.eqb fp q then Some [] else None
    end.
Proof.
  unfold disk_open. destruct (disk_read q d) eqn:E.
  - destruct (disk_read fp d) eqn:E'; [reflexivity|].
    destruct (String.eqb_spec fp q) as [->|]; congruence.
  - apply disk_read_snoc.
Qed.

Lemma extends_open q d : extends d (disk_open q d).
Proof.
  intros fp c H. exists []. now rewrite disk_read_open_any, H, app_nil_r.
Qed.

Lemma extends_append q chunk d : extends d (disk_append q chunk d).
Proof.
  intros fp c H. rewrite disk_read_append.
  destruct (String.eqb_spec fp q) as [->|].
  - rewrite H. now exists [chunk].
  - exists []. now rewrite app_nil_r.
Qed.

Lemma write_extends (obj : record) (w : WState) :
  files_inv dir name w ->
  extends (w_disk w) (w_disk (write dir name K obj w))
  /\ forall fp, ~ In fp (w_files (write dir name K obj w)) ->
                disk_read fp (w_disk (write dir name K obj w)) = disk_read fp (w_disk w).
Proof.
  intros H. unfold write. cbv zeta.
  set (w1 := if w_count w >=? K then openNew dir name w else w).
  assert (H1 : files_inv dir name w1)
    by (unfold w1; destruct (w_count w >=? K); [now apply files_inv_openNew | exact H]).
  assert (E1 : extends (w_disk w) (w_disk w1))
    by (unfold w1; destruct (w_count w >=? K); [apply extends_open | apply extends_refl]).
  assert (F1 : forall fp, ~ In fp (w_files w1) -> disk_read fp (w_disk w1) = disk_read fp (w_disk w)).
  { unfold w1. destruct (w_count w >=? K); [|reflexivity].
    intros fp Hn. cbn [openNew w_disk w_files] in *. rewrite disk_read_open_any.
    destruct (disk_read fp (w_disk w)); [reflexivity|].
    destruct (String.eqb_spec fp (shard_path dir name (w_shard w))) as [->|]; [|reflexivity].
    exfalso. apply Hn. apply in_or_app. right. now left. }
  destruct (w_stream w1) as [fp1|] eqn:S1; [|now split].
  cbn [w_disk w_files]. split.
  - eapply extends_trans; [exact E1 | apply extends_append].
  - intros fp Hn. rewrite disk_read_append.
    destruct (String.eqb_spec fp fp1) as [->|]; [|now apply F1].
    exfalso. apply Hn. destruct H1 as (_ & _ & Hst). now apply Hst.
Qed.

Lemma files_grow_write (obj : record) (w : WState) fp :
  In fp (w_files w) -> In fp (w_files (write dir name K obj w)).
Proof.
  intros H. unfold write. cbv zeta.
  assert (H1 : In fp (w_files (if w_count w >=? K then openNew dir name w else w))).
  { destruct (w_count w >=? K); [|exact H]. cbn. apply in_or_app. now left. }
  now destruct (w_stream _).
Qed.

Lemma files_grow_write_all (objs : list record) (w : WState) fp :
  In fp (w_files w) -> In fp (w_files (write_all dir name K objs w)).
Proof.
  revert w. induction objs as [|obj objs IH]; intros w H; [exact H|].
  cbn [write_all fold_left]. apply IH. now apply files_grow_write.
Qed.

Lemma write_all_extends (objs : list record) (w : WState) :
  files_inv dir name w ->
  extends (w_disk w) (w_disk (write_all dir name K objs w))
  /\ forall fp, ~ In fp (w_files (write_all dir name K objs w)) ->
                disk_read fp (w_disk (write_all dir name K objs w))
                = disk_read fp (w_disk w).
Proof.
  revert w. induction objs as [|obj objs IH]; intros w H.
  - split; [apply extends_refl | reflexivity].
  - change (write_all dir name K (obj :: objs) w)
      with (write_all dir name K objs (write dir name K obj w)).
    destruct (write_extends obj w H) as (E1 & F1).
    destruct (IH _ (files_inv_write obj w H)) as (E2 & F2).
    split; [eapply extends_trans; eassumption|].
    intros fp Hn. rewrite (F2 fp Hn). apply F1. intros Hin. apply Hn.
    now apply files_grow_write_all.
Qed.

End WriterExtras.

(** X1.  Whatever the capacity and whatever the directory holds, [files()]
    lists the shards in the order they were opened, shard [i] under the
    name [<name>_<i padded to 5 digits>.ndjson]; there is at least one,
    and no path is listed twice. *)
Theorem ndjsonWriter_files_listing (dir name : string) (K : Z) (d : Disk)
    (objs : list record) :
  let w := write_all dir name K objs (ndjsonWriter dir name d) in
  w_files w = map (fun i => shard_path dir name (Z.of_nat i))
                  (seq 0 (List.length (w_files w)))
  /\ (1 <= List.length (w_files w))%nat
  /\ NoDup (w_files w).
Proof.
  intros w.
  destruct (files_inv_write_all dir name K objs _ (files_inv_init dir name d))
    as (_ & Hf & _). fold w in Hf.
  split; [exact Hf|]. split.
  - assert (In (shard_path dir name 0) (w_files w)) as Hin
      by (apply files_grow_write_all; now left).
    destruct (w_files w); [destruct Hin | cbn; lia].
  - rewrite Hf. apply NoDup_shard_paths.
Qed.

(** X2.  A writer only appends: whatever a file of the directory held
    when the writer was created is still the beginning of what it holds
    after any number of writes, and a file that is not one of the
    writer's shards is left as it was. *)
Theorem ndjsonWriter_only_appends (dir name : string) (K : Z) (d : Disk)
    (objs : list record) :
  let w := write_all dir name K objs (ndjsonWriter dir name d) in
  (forall fp c, disk_read fp d = Some c ->
                exists c', disk_read fp (w_disk w) = Some (c ++ c'))
  /\ (forall fp, ~ In fp (w_files w) -> disk_read fp (w_disk w) = disk_read fp d).
Proof.
  intros w.
  destruct (write_all_extends dir name K objs _ (files_inv_init dir name d))
    as (E & F). fold w in E, F.
  split.
  - eapply extends_trans; [|exact E]. unfold ndjsonWriter, openNew. cbn [w_disk].
    apply extends_open.
  - intros fp Hn. rewrite (F fp Hn). unfold ndjsonWriter, openNew.
    cbn [w_disk w_shard].
    rewrite disk_read_open_any. destruct (disk_read fp d); [reflexivity|].
    destruct (String.eqb_spec fp (shard_path dir name 0)) as [->|]; [|reflexivity].
    exfalso. apply Hn. apply files_grow_write_all. now left.
Qed.

Lemma writer_shards_of (dir name : string) (K : Z) (d : Disk) (objs : list record) :
  fresh_disk dir name d ->
  let w := write_all dir name K objs (ndjsonWriter dir name d) in
  let s := fold_left (fun s c => shards_write K c s) (map line_of objs) ([], []) in
  shards w = fst s ++ [snd s].
Proof.
  intros Hfresh w s.
  pose proof (writer_inv_write_all dir name K objs _ [] []
                (writer_inv_init dir name d Hfresh)) as Hinv.
  cbn zeta in Hinv. fold w in Hinv.
  rewrite (fold_left_map_chunks (fun obj => (safeStringify obj ++ nl)%string)
             (fun s c => shards_write K c s)) in Hinv.
  exact (writer_inv_shards dir name w _ _ Hinv).
Qed.

(** X3.  With a capacity [K >= 1] and a directory that holds none of the
    writer's shard files, every shard but the last holds exactly [K]
    records; the last one holds at most [K], and at least one as soon as
    something was written. *)
Theorem ndjsonWriter_full_shards (dir name : string) (K : Z) (d : Disk)
    (objs : list record) :
  1 <= K ->
  fresh_disk dir name d ->
  let w := write_all dir name K objs (ndjsonWriter dir name d) in
  exists init lst,
    shards w = init ++ [lst]
    /\ Forall (fun s => Z.of_nat (List.length s) = K) init
    /\ Z.of_nat (List.length lst) <= K
    /\ (objs <> [] -> (1 <= List.length lst)%nat).
Proof.
  intros HK Hfresh w.
  pose proof (writer_shards_of dir name K d objs Hfresh) as Hs. cbv zeta in Hs.
  destruct (shards_write_all K HK (map line_of objs) [] [] (Forall_nil _)
              ltac:(cbn; lia)) as (Hfull & Hle & Hemp & _).
  destruct (fold_left _ _ _) as [init lst]. cbn [fst snd] in *.
  exists init, lst. splits; auto.
  intros Hne. destruct lst; [|cbn; lia].
  destruct (Hemp eq_refl) as (_ & E). destruct objs; [congruence | discriminate].
Qed.

Lemma ndjsonWriter_full_shards_witness :
  exists init lst,
    shards (write_all "flows" "asset_transfers" 2
              [[("n", JNum 1)]; [("n", JNum 2)]; [("n", JNum 3)]]
              (ndjsonWriter "flows" "asset_transfers" [])) = init ++ [lst]
    /\ Forall (fun s => Z.of_nat (List.length s) = 2) init
    /\ Z.of_nat (List.length lst) <= 2
    /\ ([[("n", JNum 1)]; [("n", JNum 2)]; [("n", JNum 3)]] <> [] ->
        (1 <= List.length lst)%nat).
Proof.
  apply (ndjsonWriter_full_shards "flows" "asset_transfers" 2 []
           [[("n", JNum 1)]; [("n", JNum 2)]; [("n", JNum 3)]]).
  - lia.
  - intros n _; reflexivity.
Defined.

Lemma shards_write_nonpositive (K : Z) (chunks : list string) init lst :
  K <= 0 ->
  let s := fold_left (fun s c => shards_write K c s) chunks (init, lst) in
  fst s ++ [snd s] = init ++ [lst] ++ map (fun c => [c]) chunks.
Proof.
  intros HK. revert init lst. induction chunks as [|c chunks IH]; intros init lst.
  - reflexivity.
  - cbn [fold_left]. cbv zeta in *.
    assert (E : shards_write K c (init, lst) = (init ++ [lst], [c])).
    { unfold shards_write.
      now destruct (Z.geb_spec (Z.of_nat (List.length lst)) K) as [_|Hlt]; [|lia]. }
    rewrite E, IH. cbn [map app]. now rewrite <- app_assoc.
Qed.

(** X4.  With a capacity of zero or less every write opens a new shard:
    the shard opened at creation stays empty and each record is alone in
    a shard of its own, so [N] writes leave [N + 1] files. *)
Theorem ndjsonWriter_nonpositive_capacity (dir name : string) (K : Z) (d : Disk)
    (objs : list record) :
  K <= 0 ->
  fresh_disk dir name d ->
  let w := write_all dir name K objs (ndjsonWriter dir name d) in
  shards w = [] :: map (fun obj => [line_of obj]) objs
  /\ List.length (w_files w) = S (List.length objs).
Proof.
  intros HK Hfresh w.
  pose proof (writer_shards_of dir name K d objs Hfresh) as Hs. cbv zeta in Hs.
  rewrite (shards_write_nonpositive K (map line_of objs) [] [] HK) in Hs.
  fold w in Hs. cbn [app] in Hs. rewrite map_map in Hs.
  split; [exact Hs|].
  apply (f_equal (@List.length _)) in Hs. unfold shards in Hs.
  rewrite length_map in Hs. rewrite Hs. cbn. now rewrite length_map.
Qed.

Lemma ndjsonWriter_nonpositive_capacity_witness :
  let objs := [[("n", JNum 1)]; [("n", JNum 2)]] in
  let w := write_all "flows" "asset_transfers" 0 objs
             (ndjsonWriter "flows" "asset_transfers" []) in
  shards w = [] :: map (fun obj => [line_of obj]) objs
  /\ List.length (w_files w) = 3%nat.
Proof.
  apply (ndjsonWriter_nonpositive_capacity "flows" "asset_transfers" 0 []
           [[("n", JNum 1)]; [("n", JNum 2)]]).
  - lia.
  - intros n _; reflexivity.
Defined.

(** *** One line per record *)

Lemma json_induction (P : json -> Prop) :
  P JUndef -> P JNull -> (forall b, P (JBool b)) -> (forall n, P (JNum n)) ->
  (forall s, P (JStr s)) ->
  (forall items, Forall P items -> P (JArr items)) ->
  (forall fields, Forall (fun kv => P (snd kv)) fields -> P (JObj fields)) ->
  forall j, P j.
Proof.
  intros Hu Hn Hb Hz Hs Ha Ho. fix IH 1.
  intros [| |b|n|s|items|fields];
    [exact Hu | exact Hn | apply Hb | apply Hz | apply Hs | | ].
  - apply Ha. induction items as [|x r IHr]; constructor; [apply IH | exact IHr].
  - apply Ho. induction fields as [|[k v] r IHr]; constructor; [apply IH | exact IHr].
Qed.

Lemma no_lf_app (a b : string) : no_lf (a ++ b)%string = no_lf a && no_lf b.
Proof. apply all_chars_app. Qed.

Lemma no_lf_String c s : no_lf (String c s) = negb (Ascii.eqb c lf) && no_lf s.
Proof. reflexivity. Qed.

Lemma no_lf_digits (s : string) : all_chars is_dec_digit s = true -> no_lf s = true.
Proof.
  apply all_chars_impl. intros c H. unfold is_dec_digit in H.
  destruct (Ascii.eqb_spec c lf) as [->|]; [discriminate H | reflexivity].
Qed.

Lemma no_lf_toString (z : Z) : no_lf (bigint_toString z) = true.
Proof.
  pose proof (is_decimal_string_toString z) as H. unfold is_decimal_string in H.
  destruct (bigint_toString z) as [|c r]; [reflexivity|].
  destruct (Ascii.eqb_spec c "-") as [->|].
  - apply andb_true_iff in H. destruct H as [_ H].
    rewrite no_lf_String, (no_lf_digits r H). reflexivity.
  - now apply no_lf_digits.
Qed.

Lemma hex_char_no_lf (d : Z) : 0 <= d < 16 -> Ascii.eqb (hex_char d) lf = false.
Proof.
  intros H.
  assert (d = 0 \/ d = 1 \/ d = 2 \/ d = 3 \/ d = 4 \/ d = 5 \/ d = 6 \/ d = 7 \/
          d = 8 \/ d = 9 \/ d = 10 \/ d = 11 \/ d = 12 \/ d = 13 \/ d = 14 \/ d = 15)
    as E by lia.
  repeat (destruct E as [->|E]; [reflexivity|]). subst. reflexivity.
Qed.

Lemma code_bound (c : ascii) : 0 <= code c < 256.
Proof.
  unfold code. pose proof (N_ascii_bounded c). lia.
Qed.

Lemma escape_char_no_lf (c : ascii) : no_lf (escape_char c) = true.
Proof.
  unfold escape_char. cbv zeta.
  destruct (code c =? 34); [reflexivity|].
  destruct (code c =? 92); [reflexivity|].
  destruct (code c =? 8); [reflexivity|].
  destruct (code c =? 9); [reflexivity|].
  destruct (Z.eqb_spec (code c) 10) as [|N10]; [reflexivity|].
  destruct (code c =? 12); [reflexivity|].
  destruct (code c =? 13); [reflexivity|].
  destruct (Z.ltb_spec (code c) 32) as [Hlt|_].
  - pose proof (code_bound c) as B.
    rewrite no_lf_app, !no_lf_String.
    rewrite !hex_char_no_lf; [reflexivity | | ].
    + apply Z.mod_pos_bound. lia.
    + split; [apply Z.div_pos; lia | apply Z.div_lt_upper_bound; lia].
  - rewrite no_lf_String. destruct (Ascii.eqb_spec c lf) as [->|]; [|reflexivity].
    exfalso. apply N10. reflexivity.
Qed.

Lemma escape_no_lf (s : string) : no_lf (escape s) = true.
Proof.
  induction s as [|c r IH]; [reflexivity|].
  cbn [escape]. now rewrite no_lf_app, escape_char_no_lf, IH.
Qed.

Lemma quote_no_lf (s : string) : no_lf (quote s) = true.
Proof.
  unfold quote. now rewrite no_lf_String, no_lf_app, escape_no_lf.
Qed.

Lemma join_no_lf (l : list string) :
  Forall (fun s => no_lf s = true) l -> no_lf (join "," l) = true.
Proof.
  induction 1 as [|x r Hx Hr IH]; [reflexivity|].
  destruct r as [|y r]; [exact Hx|].
  change (join "," (x :: y :: r)) with (x ++ "," ++ join "," (y :: r))%string.
  now rewrite !no_lf_app, Hx, IH.
Qed.

Lemma stringify_no_lf (j : json) : no_lf (stringify j) = true.
Proof.
  induction j as [| |b|n|s|items IH|fields IH] using json_induction;
    try reflexivity.
  - now destruct b.
  - apply no_lf_toString.
  - apply quote_no_lf.
  - cbn [stringify]. rewrite !no_lf_app, join_no_lf; [reflexivity|].
    induction IH as [|x r Hx _ IHr]; constructor; assumption.
  - cbn [stringify]. rewrite !no_lf_app, join_no_lf; [reflexivity|].
    induction IH as [|[k v] r Hv _ IHr]; [constructor|].
    cbn [snd] in Hv.
    destruct v; try exact IHr; constructor; try exact IHr;
      now rewrite !no_lf_app, quote_no_lf, Hv.
Qed.

Lemma split_on_line (a rest : string) :
  no_lf a = true ->
  split_on lf (a ++ String lf rest) = a :: split_on lf rest.
Proof.
  induction a as [|c a IH]; intros H.
  - reflexivity.
  - rewrite no_lf_String in H. apply andb_true_iff in H. destruct H as [Hc Ha].
    cbn [append split_on]. apply negb_true_iff in Hc. rewrite Hc, (IH Ha).
    reflexivity.
Qed.

Lemma file_text_lines (objs : list record) :
  split_on lf (file_text (map line_of objs)) = map safeStringify objs ++ [EmptyString].
Proof.
  induction objs as [|obj objs IH]; [reflexivity|].
  cbn [map file_text fold_right app]. unfold line_of at 1, nl.
  rewrite append_assoc. cbn [append].
  change (ascii_of_nat 10) with lf.
  rewrite split_on_line by apply stringify_no_lf.
  change (fold_right append EmptyString (map line_of objs))
    with (file_text (map line_of objs)).
  now rewrite IH.
Qed.

(** X5.  A record never spans two lines: [safeStringify] puts no line
    feed in its output, so the text of the shards read in file order and
    split at line feeds is the serialized records, in the order written,
    followed by the empty string after the last line feed. *)
Theorem ndjson_one_line_per_record (dir name : string) (K : Z) (d : Disk)
    (objs : list record) :
  1 <= K ->
  fresh_disk dir name d ->
  let w := write_all dir name K objs (ndjsonWriter dir name d) in
  (forall obj, no_lf (safeStringify obj) = true)
  /\ split_on lf (file_text (List.concat (shards w)))
     = map safeStringify objs ++ [EmptyString].
Proof.
  intros HK Hfresh w. split; [intros obj; apply stringify_no_lf|].
  pose proof (writer_shards_of dir name K d objs Hfresh) as Hs. cbv zeta in Hs.
  destruct (shards_write_all K HK (map line_of objs) [] [] (Forall_nil _)
              ltac:(cbn; lia)) as (_ & _ & _ & Hcat).
  fold w in Hs. rewrite Hs, concat_app. cbn [List.concat]. rewrite app_nil_r, Hcat.
  apply file_text_lines.
Qed.

Lemma ndjson_one_line_per_record_witness :
  let objs := [[("memo", JStr nl)]; [("n", JNum 2)]; [("n", JNum 3)]] in
  let w := write_all "flows" "asset_transfers" 2 objs
             (ndjsonWriter "flows" "asset_transfers" []) in
  (forall obj, no_lf (safeStringify obj) = true)
  /\ split_on lf (file_text (List.concat (shards w)))
     = map safeStringify objs ++ [EmptyString].
Proof.
  apply (ndjson_one_line_per_record "flows" "asset_transfers" 2 []
           [[("memo", JStr nl)]; [("n", JNum 2)]; [("n", JNum 3)]]).
  - lia.
  - intros n _; reflexivity.
Defined.

(* ================================================================== *)
(** * Further properties of the BigInt helpers *)

Lemma parse_digits_bad (base : Z) (r : string) (acc : Z) :
  all_chars (fun c => match digit_val base c with Some _ => true | None => false end) r
  = false ->
  parse_digits base r acc = None.
Proof.
  unfold all_chars. revert acc. induction r as [|c r IH]; intros acc H; cbn in *.
  - discriminate.
  - destruct (digit_val base c); [|reflexivity]. cbn in H. now apply IH.
Qed.

(** X6.  [hexToBigInt] reads hexadecimal only behind a [0x] prefix: a
    decimal numeral, negative ones included, is accepted and read in base
    10, and a [0x] string that holds no white-space character (of the
    ASCII ones or of the others that [BigInt] trims) and holds a
    character which is not a hexadecimal digit throws a SyntaxError.
    White space around the digits is trimmed, a no-break space as well:
    [0x1] followed by one is read as 1. *)
Theorem hexToBigInt_outside_hex :
  (forall z, hexToBigInt (bigint_toString z) = Ok z)
  /\ (forall r,
        has_ws r = false -> all_chars is_hex_digit r = false ->
        hexToBigInt (String "0" (String "x" r))
        = Throw "SyntaxError: Cannot convert to a BigInt")
  /\ hexToBigInt ("0x1" ++ nbsp) = Ok 1.
Proof.
  split; [|split; [|reflexivity]].
  - intros z. unfold hexToBigInt.
    pose proof (BigInt_toString z) as B.
    pose proof (is_decimal_string_toString z) as D.
    destruct (bigint_toString z) as [|c r] eqn:E; [discriminate D|].
    cbn [truthy_str negb orb].
    destruct (String.eqb_spec (String c r) "0x") as [E'|_]; [|exact B].
    rewrite E' in D. discriminate D.
  - intros r Hws Hhex. unfold hexToBigInt. cbn [truthy_str negb orb].
    destruct r as [|x r]; [discriminate Hhex|].
    destruct (String.eqb_spec (String "0" (String "x" (String x r))) "0x")
      as [E|_]; [discriminate E|].
    unfold BigInt, StringToBigInt. rewrite trim_no_ws.
    + pose proof (parse_digits_bad 16 (String x r) 0 Hhex) as P.
      cbn in P |- *. now rewrite P.
    + cbn [has_ws].
      rewrite (ascii_starts_ws "0" _ eq_refl), (ascii_starts_ws "x" _ eq_refl).
      exact Hws.
Qed.

Lemma add_all_from (z : Z) (amounts : list Z) :
  add_all (bigint_toString z) amounts = Ok (bigint_toString (z + sum_Z amounts)).
Proof.
  unfold add_all. revert z. induction amounts as [|v amounts IH]; intros z.
  - cbn. now rewrite Z.add_0_r.
  - cbn [fold_left bind sum_Z fold_right].
    unfold addBigStr at 2. rewrite BigInt_toString. cbn [bind].
    fold (sum_Z amounts). rewrite IH. do 2 f_equal. lia.
Qed.

(** X7.  The totals kept as decimal strings are exact: feeding amounts
    one after the other through [addBigStr], starting from the string
    ["0"] of a new profile, gives the decimal string of their sum,
    whatever the size or the sign of the amounts. *)
Theorem addBigStr_accumulates (amounts : list Z) :
  add_all "0" amounts = Ok (bigint_toString (sum_Z amounts))
  /\ parsed (bigint_toString (sum_Z amounts)) = sum_Z amounts.
Proof.
  split; [exact (add_all_from 0 amounts) | apply parsed_toString].
Qed.

Lemma str_drop_length (n : nat) (s : string) :
  String.length (str_drop n s) = (String.length s - n)%nat.
Proof.
  revert s. induction n as [|n IH]; intros s; [cbn; lia|].
  destruct s as [|c r]; [reflexivity|]. cbn [str_drop String.length]. now rewrite IH.
Qed.

Lemma str_take_drop (n : nat) (s : string) :
  (str_take n s ++ str_drop n s)%string = s.
Proof.
  revert s. induction n as [|n IH]; intros s; [reflexivity|].
  destruct s as [|c r]; [reflexivity|]. cbn. now rewrite IH.
Qed.

(** X8.  [topicToAddress] is null for the empty topic.  For any other
    topic of ASCII characters it is [0x] followed by the last 40
    characters of the topic, or by the whole topic when that is shorter:
    the result is never longer than 42 characters, and nothing checks
    that the characters are hexadecimal digits. *)
Theorem topicToAddress_suffix (topic : string) :
  (topic = EmptyString -> topicToAddress topic = None)
  /\ (topic <> EmptyString -> all_chars is_ascii topic = true ->
      exists pre suf,
        topicToAddress topic = Some (String "0" (String "x" suf))
        /\ topic = (pre ++ suf)%string
        /\ String.length suf = Nat.min 40 (String.length topic)).
Proof.
  split; [intros ->; reflexivity|].
  intros Hne _. unfold topicToAddress, slice_last.
  destruct topic as [|c r]; [congruence|]. cbn [truthy_str negb].
  exists (str_take (String.length (String c r) - 40) (String c r)),
         (str_drop (String.length (String c r) - 40) (String c r)).
  split; [reflexivity|]. split; [now rewrite str_take_drop|].
  rewrite str_drop_length. lia.
Qed.

Lemma topicToAddress_suffix_witness :
  let topic := "0x000000000000000000000000f39fd6e51aad88f6f4ce6ab8827279cfffb9226g" in
  exists pre suf,
    topicToAddress topic = Some (String "0" (String "x" suf))
    /\ topic = (pre ++ suf)%string
    /\ String.length suf = Nat.min 40 (String.length topic).
Proof.
  intros topic.
  apply (proj2 (topicToAddress_suffix topic)); [discriminate | vm_compute; reflexivity].
Defined.

(* ================================================================== *)
(** * The [Error(string)] branch of the revert-reason decoder *)

Lemma hexlify_app (a b : list Z) : hexlify (a ++ b) = (hexlify a ++ hexlify b)%string.
Proof. induction a as [|x a IH]; [reflexivity|]. cbn. now rewrite IH. Qed.

Lemma unhex_hexlify (bs : list Z) : Forall is_byte bs -> unhex (hexlify bs) = Some bs.
Proof.
  induction 1 as [|b bs Hb _ IH]; [reflexivity|].
  cbn [hexlify unhex]. unfold is_byte in Hb.
  rewrite digit_val_hex_char
    by (split; [apply Z.div_pos | apply Z.div_lt_upper_bound]; lia).
  rewrite digit_val_hex_char by (apply Z.mod_pos_bound; lia).
  rewrite IH. do 2 f_equal. pose proof (Z.div_mod b 16). lia.
Qed.

Lemma be_word_be_bytes (k : nat) (n : Z) :
  0 <= n < 256 ^ Z.of_nat k -> be_word (be_bytes k n) = n.
Proof.
  intros H. unfold be_word, be_bytes.
  rewrite fold_be_rev, le_word_bytes. now apply Z.mod_small.
Qed.

Lemma be_bytes_length (k : nat) (n : Z) : List.length (be_bytes k n) = k.
Proof. unfold be_bytes. now rewrite length_rev, word_bytes_length. Qed.

Lemma bytes_of_string_bytes (s : string) : Forall is_byte (bytes_of_string s).
Proof.
  unfold bytes_of_string. induction s as [|c r IH]; cbn; constructor; auto.
  apply code_bound.
Qed.

Lemma string_of_bytes_of_string (s : string) : string_of_bytes (bytes_of_string s) = s.
Proof.
  unfold string_of_bytes, bytes_of_string. induction s as [|c r IH]; [reflexivity|].
  cbn [list_ascii_of_string map string_of_list_ascii]. rewrite IH. f_equal.
  unfold code. now rewrite N2Z.id, ascii_N_embedding.
Qed.

Lemma bytes_of_string_length (s : string) :
  List.length (bytes_of_string s) = String.length s.
Proof.
  unfold bytes_of_string. induction s as [|c r IH]; [reflexivity|].
  cbn. now rewrite IH.
Qed.

Lemma padded_length (L : nat) :
  Z.of_nat (L + (32 - L mod 32) mod 32) = (Z.of_nat L + 31) / 32 * 32.
Proof.
  pose proof (Nat.div_mod_eq L 32) as E.
  pose proof (Nat.mod_upper_bound L 32 ltac:(lia)) as B.
  set (q := (L / 32)%nat) in *. set (r := (L mod 32)%nat) in *.
  destruct (Nat.eq_dec r 0) as [R0|R0].
  - rewrite R0 in *. change ((32 - 0) mod 32)%nat with 0%nat.
    replace (Z.of_nat L + 31) with (31 + Z.of_nat q * 32) by lia.
    rewrite Z.div_add by lia. rewrite (Z.div_small 31 32) by lia. lia.
  - rewrite (Nat.mod_small (32 - r) 32) by lia.
    replace (Z.of_nat L + 31) with ((Z.of_nat r - 1) + (Z.of_nat q + 1) * 32) by lia.
    rewrite Z.div_add by lia. rewrite (Z.div_small (Z.of_nat r - 1) 32) by lia. lia.
Qed.

Lemma startsWith_app (p s : string) : startsWith (p ++ s) p = true.
Proof.
  induction p as [|c p IH]; [now destruct s|]. cbn. now rewrite Ascii.eqb_refl, IH.
Qed.

Lemma str_drop_app (p s : string) : str_drop (String.length p) (p ++ s) = s.
Proof. induction p as [|c p IH]; [reflexivity|]. exact IH. Qed.

Lemma peekBytes_head (a rest : list Z) (len : Z) :
  0 <= len -> blen a = (len + 31) / 32 * 32 ->
  peekBytes (a ++ rest) 0 len = Some a.
Proof.
  intros Hlen Ha. unfold peekBytes, blen in *. cbv zeta.
  rewrite length_app, <- Ha.
  destruct (Z.gtb_spec (0 + Z.of_nat (List.length a))
                       (Z.of_nat (List.length a + List.length rest))) as [G|_]; [lia|].
  rewrite Nat2Z.id. cbn [Z.to_nat skipn].
  now rewrite firstn_app, firstn_all, Nat.sub_diag, firstn_O, app_nil_r.
Qed.

Lemma readIndex_word (n : Z) (rest : list Z) :
  0 <= n <= MAX_SAFE_INTEGER ->
  readIndex (be_bytes 32 n ++ rest) 0 = Some n.
Proof.
  intros Hn. unfold readIndex.
  assert (P : peekBytes (be_bytes 32 n ++ rest) 0 32 = Some (be_bytes 32 n)).
  { apply peekBytes_head; [lia|]. unfold blen. now rewrite be_bytes_length. }
  rewrite P.
  assert (B : 0 <= n < 256 ^ Z.of_nat 32).
  { unfold MAX_SAFE_INTEGER in Hn. split; [lia|].
    apply Z.le_lt_trans with (2 ^ 53 - 1); [lia | reflexivity]. }
  rewrite (be_word_be_bytes 32 n B).
  destruct (Z.gtb_spec n MAX_SAFE_INTEGER); [lia | reflexivity].
Qed.

Lemma skipn_word (n : Z) (rest : list Z) :
  skipn (Z.to_nat 32) (be_bytes 32 n ++ rest) = rest.
Proof.
  change (Z.to_nat 32) with 32%nat.
  rewrite <- (be_bytes_length 32 n) at 1.
  now rewrite skipn_app, skipn_all, Nat.sub_diag.
Qed.

Lemma abi_decode_encode_string (s : string) :
  utf8_valid (bytes_of_string s) = true ->
  Z.of_nat (String.length s) <= MAX_SAFE_INTEGER ->
  abi_decode_string (String "0" (String "x" (abi_encode_string s))) = Ok s.
Proof.
  intros Hutf Hlen. unfold abi_decode_string, abi_encode_string. cbv zeta.
  set (bs := bytes_of_string s).
  set (padding := ((32 - List.length bs mod 32) mod 32)%nat).
  set (body := bs ++ repeat 0 padding).
  assert (Hbody : Forall is_byte body).
  { apply Forall_app. split; [apply bytes_of_string_bytes|].
    apply Forall_forall. intros x Hx. apply repeat_spec in Hx. subst. unfold is_byte. lia. }
  assert (Lbody : blen body = (blen bs + 31) / 32 * 32).
  { unfold blen, body. rewrite length_app, repeat_length. apply padded_length. }
  assert (Lbs : blen bs = Z.of_nat (String.length s))
    by (unfold blen, bs; now rewrite bytes_of_string_length).
  unfold uint256_hex. rewrite <- !hexlify_app.
  unfold getBytes. cbn [startsWith Ascii.eqb Bool.eqb andb str_drop].
  cbn [andb].
  rewrite unhex_hexlify
    by (apply Forall_app; split; [apply be_bytes_bytes|];
        apply Forall_app; split; [apply be_bytes_bytes | exact Hbody]).
  assert (SN : forall x, startsWith x EmptyString = true) by (now intros []).
  rewrite SN.
  rewrite readIndex_word by (unfold MAX_SAFE_INTEGER; lia).
  rewrite !skipn_word.
  rewrite readIndex_word by (rewrite Lbs; lia).
  unfold peekBytes. cbv zeta.
  assert (Lsub : blen (be_bytes 32 (blen bs) ++ body) = 32 + blen body)
    by (unfold blen; rewrite length_app, be_bytes_length; lia).
  rewrite Lsub, Lbody.
  destruct (Z.gtb_spec (32 + (blen bs + 31) / 32 * 32) (32 + (blen bs + 31) / 32 * 32))
    as [G|_]; [lia|].
  rewrite skipn_word.
  assert (F : firstn (Z.to_nat (blen bs))
                (firstn (Z.to_nat ((blen bs + 31) / 32 * 32)) body) = bs).
  { rewrite <- Lbody. unfold blen. rewrite !Nat2Z.id, firstn_all. unfold body.
    now rewrite firstn_app, firstn_all, Nat.sub_diag, firstn_O, app_nil_r. }
  rewrite F.
  fold bs in Hutf. rewrite Hutf. unfold bs. now rewrite string_of_bytes_of_string.
Qed.

(** X9.  The [Error(string)] branch is the inverse of the ABI encoding:
    for every string of valid UTF-8 (every ASCII string is one), a trace
    whose output is the [Error(string)] selector followed by the encoding
    of the string, with no reason field in trace or receipt, decodes to
    this very string. *)
Theorem decodeRevertReason_error_string (s : string) (rc : option Receipt) :
  utf8_valid (bytes_of_string s) = true ->
  Z.of_nat (String.length s) <= MAX_SAFE_INTEGER ->
  truthy_ostr (opt_field rc rc_revertReason) = false ->
  decodeRevertReason
    (Some (output_only (selector_of "Error(string)" ++ abi_encode_string s)%string)) rc
  = Some s.
Proof.
  intros Hutf Hlen Hrc. rewrite error_selector.
  unfold decodeRevertReason.
  cbn [opt_field output_only c_revertReason c_output truthy_ostr].
  rewrite Hrc.
  set (o := ("0x08c379a0" ++ abi_encode_string s)%string).
  assert (To : truthy_str o = true) by reflexivity.
  rewrite To. unfold decode_output.
  assert (S1 : startsWith o "0x08c379a0" = true) by apply startsWith_app.
  assert (L1 : (10 <? String.length o)%nat = true).
  { apply Nat.ltb_lt. unfold o, abi_encode_string. cbv zeta.
    rewrite !append_length, uint256_hex_length. cbn [String.length]. lia. }
  rewrite S1, L1. cbn [andb]. cbv zeta.
  assert (D : slice_from 10 o = abi_encode_string s)
    by (unfold slice_from, o; exact (str_drop_app "0x08c379a0" _)).
  rewrite D. change ("0x" ++ abi_encode_string s)%string
    with (String "0" (String "x" (abi_encode_string s))).
  now rewrite (abi_decode_encode_string s Hutf Hlen).
Qed.

Lemma decodeRevertReason_error_string_witness :
  decodeRevertReason
    (Some (output_only (selector_of "Error(string)"
                        ++ abi_encode_string "Vault: nothing to withdraw")%string)) None
  = Some "Vault: nothing to withdraw".
Proof.
  apply (decodeRevertReason_error_string "Vault: nothing to withdraw" None).
  - reflexivity.
  - unfold MAX_SAFE_INTEGER. cbn. lia.
  - reflexivity.
Defined.

(* ================================================================== *)
(** * Further properties of the derivation loop *)

(** ** Every stream but [allowance_usage] is a function of the input *)

Lemma iteration_written (runId : string) (W : Stream) (f : Fetched) (st st' : State) :
  Stream_eqb W allowanceUsageW = false ->
  iteration runId f st = Ok st' ->
  written W (out st') = written W (out st) ++ written W (run_docs runId f).
Proof.
  intros HW H. unfold iteration, run_docs in *.
  destruct (f_tx f) as [tx|]; [destruct (f_rc f) as [rc|]|];
    try (injection H as <-; cbn; now rewrite app_nil_r).
  destruct (derive_tx_steps _ _ _ _ _ _ _ _ H) as (us & Hus & (O & _)).
  rewrite O, !written_app.
  rewrite (written_none W us); [now rewrite app_nil_r|].
  eapply streams_none; [eapply usage_docs_streams; exact Hus|].
  cbn. now rewrite HW.
Qed.

Lemma derive_loop_written (runId : string) (W : Stream) (fs : list Fetched)
    (st st' : State) :
  Stream_eqb W allowanceUsageW = false ->
  derive_loop runId fs st = Ok st' ->
  written W (out st') = written W (out st) ++ written W (flat_map (run_docs runId) fs).
Proof.
  intros HW. revert st. induction fs as [|f fs IH]; intros st H.
  - injection H as <-. cbn. now rewrite app_nil_r.
  - cbn [derive_loop] in H. bind_inv H st1 H1.
    rewrite (IH _ H), (iteration_written runId W f st st1 HW H1).
    cbn [flat_map]. now rewrite written_app, app_assoc.
Qed.

Lemma derive_written (runId : string) (W : Stream) (fs : list Fetched) (st : State) :
  Stream_eqb W allowanceUsageW = false ->
  Stream_eqb profilesW W = false ->
  Stream_eqb methodStatsW W = false ->
  derive runId fs = Ok st ->
  written W (out st) = written W (flat_map (run_docs runId) fs).
Proof.
  intros HW HP HM H. unfold derive in H. bind_inv H st0 H0. injection H as <-.
  destruct (flush_spec runId st0) as (O & _).
  rewrite O, written_app, (derive_loop_written runId W fs _ _ HW H0).
  unfold flush_docs. rewrite written_app, !written_other by assumption.
  cbn. now rewrite !app_nil_r.
Qed.

Lemma written_flat_map {X} W (g : X -> list (Stream * record)) (l : list X) :
  written W (flat_map g l) = flat_map (fun x => written W (g x)) l.
Proof.
  induction l as [|x l IH]; [reflexivity|].
  cbn [flat_map]. now rewrite written_app, IH.
Qed.

Lemma flat_map_processed {Y} (g : Fetched -> list Y)
    (k : Fetched * Tx * Receipt -> list Y) (fs : list Fetched) :
  (forall f, g f = match f_tx f, f_rc f with
                   | Some tx, Some rc => k (f, tx, rc)
                   | _, _ => []
                   end) ->
  flat_map g fs = flat_map k (processed fs).
Proof.
  intros Hg. unfold processed. induction fs as [|f fs IH]; [reflexivity|].
  cbn [flat_map]. rewrite flat_map_app, <- IH, Hg.
  destruct (f_tx f) as [tx|]; [destruct (f_rc f) as [rc|]|]; cbn;
    now rewrite ?app_nil_r.
Qed.

Lemma flat_map_singleton {X Y} (g : X -> Y) (l : list X) :
  flat_map (fun x => [g x]) l = map g l.
Proof. induction l as [|x l IH]; [reflexivity|]. cbn. now rewrite IH. Qed.

Section TxDocs.

Variables (runId h : string) (tx : Tx) (rc : Receipt) (ts : option Z)
          (trace : option Call).

Lemma trace_docs_streams :
  streams_in [traceEdgesW; internalTransfersW] (trace_docs runId h rc ts trace).
Proof.
  unfold trace_docs. destruct trace as [t|]; [|constructor].
  constructor; [reflexivity | apply walk_docs_streams].
Qed.

Lemma timeline_docs_streams :
  streams_in [txEnrichedW; blockTxOrderW; contractCallsW]
             (timeline_docs runId h tx rc ts).
Proof. repeat constructor. Qed.

(** What [tx_docs] holds for one stream, block by block. *)
Lemma written_tx_docs (W : Stream) :
  written W (tx_docs runId h tx rc ts trace)
  = written W (timeline_docs runId h tx rc ts)
    ++ written W (native_docs runId h tx rc ts)
    ++ written W (token_docs runId h rc ts (decoded_transfers (rc_logs rc)))
    ++ written W (trace_docs runId h rc ts trace)
    ++ written W (revert_docs runId h rc ts trace)
    ++ written W (approval_docs runId h rc ts (rc_logs rc) 0).
Proof. unfold tx_docs. now rewrite !written_app. Qed.

Lemma written_timeline_streams :
  written txEnrichedW (tx_docs runId h tx rc ts trace) = [tx_enriched_doc runId h tx rc ts]
  /\ written blockTxOrderW (tx_docs runId h tx rc ts trace)
     = [block_tx_order_doc runId h rc ts]
  /\ written contractCallsW (tx_docs runId h tx rc ts trace)
     = [contract_call_doc runId h tx rc ts].
Proof.
  pose proof (native_docs_streams runId h tx rc ts) as SN.
  pose proof (token_docs_streams runId h rc ts (decoded_transfers (rc_logs rc))) as ST.
  pose proof trace_docs_streams as SC.
  pose proof (revert_docs_streams runId h rc ts trace) as SR.
  pose proof (approval_docs_streams runId h rc ts (rc_logs rc) 0) as SA.
  rewrite !written_tx_docs.
  splits.
  - rewrite (written_none _ _ (streams_none _ txEnrichedW _ SN eq_refl)),
            (written_none _ _ (streams_none _ txEnrichedW _ ST eq_refl)),
            (written_none _ _ (streams_none _ txEnrichedW _ SC eq_refl)),
            (written_none _ _ (streams_none _ txEnrichedW _ SR eq_refl)),
            (written_none _ _ (streams_none _ txEnrichedW _ SA eq_refl)).
    reflexivity.
  - rewrite (written_none _ _ (streams_none _ blockTxOrderW _ SN eq_refl)),
            (written_none _ _ (streams_none _ blockTxOrderW _ ST eq_refl)),
            (written_none _ _ (streams_none _ blockTxOrderW _ SC eq_refl)),
            (written_none _ _ (streams_none _ blockTxOrderW _ SR eq_refl)),
            (written_none _ _ (streams_none _ blockTxOrderW _ SA eq_refl)).
    reflexivity.
  - rewrite (written_none _ _ (streams_none _ contractCallsW _ SN eq_refl)),
            (written_none _ _ (streams_none _ contractCallsW _ ST eq_refl)),
            (written_none _ _ (streams_none _ contractCallsW _ SC eq_refl)),
            (written_none _ _ (streams_none _ contractCallsW _ SR eq_refl)),
            (written_none _ _ (streams_none _ contractCallsW _ SA eq_refl)).
    reflexivity.
Qed.

Lemma written_revert_stream :
  written revertReasonsW (tx_docs runId h tx rc ts trace)
  = match rc_status rc with
    | Some 1 => []
    | _ => [revert_reason_doc runId h rc ts (decodeRevertReason trace (Some rc))]
    end.
Proof.
  pose proof timeline_docs_streams as S0.
  pose proof (native_docs_streams runId h tx rc ts) as SN.
  pose proof (token_docs_streams runId h rc ts (decoded_transfers (rc_logs rc))) as ST.
  pose proof trace_docs_streams as SC.
  pose proof (approval_docs_streams runId h rc ts (rc_logs rc) 0) as SA.
  rewrite written_tx_docs,
    (written_none _ _ (streams_none _ revertReasonsW _ S0 eq_refl)),
    (written_none _ _ (streams_none _ revertReasonsW _ SN eq_refl)),
    (written_none _ _ (streams_none _ revertReasonsW _ ST eq_refl)),
    (written_none _ _ (streams_none _ revertReasonsW _ SC eq_refl)),
    (written_none _ _ (streams_none _ revertReasonsW _ SA eq_refl)).
  cbn [app]. rewrite app_nil_r. unfold revert_docs, txStatus.
  destruct (rc_status rc) as [[|[p|p|]|p]|]; reflexivity.
Qed.

End TxDocs.

(** X10.  A run that completes writes exactly one [tx_enriched], one
    [block_tx_order] and one [contract_call] record for each hash whose
    transaction and receipt were both fetched, in the order of the
    hashes; a hash for which either is missing leaves no record in these
    streams. *)
Theorem timeline_one_record_per_transaction (runId : string) (fs : list Fetched)
    (st : State) :
  derive runId fs = Ok st ->
  written txEnrichedW (out st)
  = map (fun p => match p with
                  | (f, tx, rc) => tx_enriched_doc runId (f_hash f) tx rc (f_blk f)
                  end) (processed fs)
  /\ written blockTxOrderW (out st)
     = map (fun p => match p with
                     | (f, tx, rc) => block_tx_order_doc runId (f_hash f) rc (f_blk f)
                     end) (processed fs)
  /\ written contractCallsW (out st)
     = map (fun p => match p with
                     | (f, tx, rc) => contract_call_doc runId (f_hash f) tx rc (f_blk f)
                     end) (processed fs).
Proof.
  intros H.
  rewrite (derive_written runId txEnrichedW fs st eq_refl eq_refl eq_refl H),
          (derive_written runId blockTxOrderW fs st eq_refl eq_refl eq_refl H),
          (derive_written runId contractCallsW fs st eq_refl eq_refl eq_refl H),
          !written_flat_map.
  splits.
  - rewrite <- flat_map_singleton. apply flat_map_processed. intros f. unfold run_docs.
    destruct (f_tx f) as [tx|]; [destruct (f_rc f) as [rc|]|]; try reflexivity.
    apply written_timeline_streams.
  - rewrite <- flat_map_singleton. apply flat_map_processed. intros f. unfold run_docs.
    destruct (f_tx f) as [tx|]; [destruct (f_rc f) as [rc|]|]; try reflexivity.
    apply written_timeline_streams.
  - rewrite <- flat_map_singleton. apply flat_map_processed. intros f. unfold run_docs.
    destruct (f_tx f) as [tx|]; [destruct (f_rc f) as [rc|]|]; try reflexivity.
    apply written_timeline_streams.
Qed.

Lemma timeline_one_record_per_transaction_witness :
  exists st,
    derive "RUN_1" payments_run = Ok st
    /\ written txEnrichedW (out st)
       = map (fun p => match p with
                       | (f, tx, rc) => tx_enriched_doc "RUN_1" (f_hash f) tx rc (f_blk f)
                       end) (processed payments_run)
    /\ written blockTxOrderW (out st)
       = map (fun p => match p with
                       | (f, tx, rc) => block_tx_order_doc "RUN_1" (f_hash f) rc (f_blk f)
                       end) (processed payments_run)
    /\ written contractCallsW (out st)
       = map (fun p => match p with
                       | (f, tx, rc) => contract_call_doc "RUN_1" (f_hash f) tx rc (f_blk f)
                       end) (processed payments_run).
Proof.
  eexists. split; [vm_compute; reflexivity|].
  apply (timeline_one_record_per_transaction "RUN_1" payments_run).
  vm_compute; reflexivity.
Defined.

Lemma Forall2_filter_flat_map {A B} (q : A -> bool) (g : A -> list B)
    (P : A -> B -> Prop) (l : list A) :
  (forall a, q a = false -> g a = []) ->
  (forall a, q a = true -> exists b, g a = [b] /\ P a b) ->
  Forall2 P (filter q l) (flat_map g l).
Proof.
  intros Hno Hyes. induction l as [|a l IH]; [constructor|].
  cbn [filter flat_map]. destruct (q a) eqn:E.
  - destruct (Hyes a E) as (b & -> & Hb). now constructor.
  - now rewrite (Hno a E).
Qed.

(** X11.  A run that completes writes a [revert_reason] record for
    exactly the processed transactions whose receipt status is not 1 (a
    missing status counts as a revert), in order: the record of such a
    transaction names its hash and the status [revert], and its [reason]
    field is the reason [decodeRevertReason] gives for its trace and
    receipt, null when there is none. *)
Theorem revert_reason_per_reverted_transaction (runId : string) (fs : list Fetched)
    (st : State) :
  derive runId fs = Ok st ->
  written revertReasonsW (out st)
  = flat_map (fun p => match p with
                       | (f, tx, rc) =>
                           match rc_status rc with
                           | Some 1 => []
                           | _ => [revert_reason_doc runId (f_hash f) rc (f_blk f)
                                     (decodeRevertReason (f_trace f) (Some rc))]
                           end
                       end) (processed fs)
  /\ Forall2 revert_fact (filter reverted (processed fs))
             (written revertReasonsW (out st)).
Proof.
  intros H.
  assert (E : written revertReasonsW (out st)
              = flat_map (fun p => match p with
                       | (f, tx, rc) =>
                           match rc_status rc with
                           | Some 1 => []
                           | _ => [revert_reason_doc runId (f_hash f) rc (f_blk f)
                                     (decodeRevertReason (f_trace f) (Some rc))]
                           end
                       end) (processed fs)).
  { rewrite (derive_written runId revertReasonsW fs st eq_refl eq_refl eq_refl H),
            written_flat_map.
    apply flat_map_processed. intros f. unfold run_docs.
    destruct (f_tx f) as [tx|]; [destruct (f_rc f) as [rc|]|]; try reflexivity.
    apply written_revert_stream. }
  split; [exact E|]. rewrite E.
  apply Forall2_filter_flat_map.
  - intros [[f tx] rc]. unfold reverted. cbn [snd].
    destruct (rc_status rc) as [[|[]|]|]; (discriminate || reflexivity).
  - intros [[f tx] rc] Hr. eexists. split.
    + unfold reverted in Hr. cbn [snd] in Hr.
      destruct (rc_status rc) as [[|[]|]|]; (discriminate || reflexivity).
    + unfold revert_fact. cbn [fst snd]. repeat split.
Qed.

Lemma revert_reason_per_reverted_transaction_witness :
  exists st,
    derive "RUN_1" reverts_run = Ok st
    /\ map (fun p => f_hash (fst (fst p))) (filter reverted (processed reverts_run))
       = ["0x02"; "0x03"]
    /\ map (field "tx_hash") (written revertReasonsW (out st))
       = [JStr "0x02"; JStr "0x03"]
    /\ map (field "reason") (written revertReasonsW (out st))
       = [JNull; JStr "paused"].
Proof.
  eexists. split; [vm_compute; reflexivity|].
  match goal with
  | |- context [out ?st] =>
      destruct (revert_reason_per_reverted_transaction "RUN_1" reverts_run st
                  ltac:(vm_compute; reflexivity)) as (E & _)
  end.
  split; [vm_compute; reflexivity|].
  rewrite E. split; vm_compute; reflexivity.
Defined.

(** ** Approvals and allowance edges *)

Section ApprovalDocs.

Variables (runId h : string) (rc : Receipt) (ts : option Z).

Lemma approval_docs_decoded (logs : list Log) (idx : Z) :
  approval_docs runId h rc ts logs idx
  = flat_map (fun x => match x with
                       | (lg, a, i) =>
                           [(approvalsW, approval_doc runId h rc ts lg a i);
                            (allowanceEdgesW, allowance_edge_doc runId h rc ts lg a)]
                       end) (decoded_approvals logs idx).
Proof.
  revert idx. induction logs as [|lg logs IH]; intros idx; [reflexivity|].
  cbn [approval_docs decoded_approvals].
  destruct (decodeApprovalEvent lg) as [a|]; [|apply IH].
  cbn [flat_map app]. now rewrite IH.
Qed.

Lemma written_approval_docs (logs : list Log) (idx : Z) :
  written approvalsW (approval_docs runId h rc ts logs idx)
  = map (fun x => match x with
                  | (lg, a, i) => approval_doc runId h rc ts lg a i
                  end) (decoded_approvals logs idx)
  /\ written allowanceEdgesW (approval_docs runId h rc ts logs idx)
     = map (fun x => match x with
                     | (lg, a, i) => allowance_edge_doc runId h rc ts lg a
                     end) (decoded_approvals logs idx).
Proof.
  rewrite approval_docs_decoded.
  induction (decoded_approvals logs idx) as [|[[lg a] i] l [IH1 IH2]];
    [split; reflexivity|].
  cbn [flat_map map]. rewrite !written_app, IH1, IH2. split; reflexivity.
Qed.

End ApprovalDocs.

Lemma decoded_approvals_position (logs : list Log) (idx : Z) lg a i :
  In (lg, a, i) (decoded_approvals logs idx) ->
  idx <= i
  /\ nth_error logs (Z.to_nat (i - idx)) = Some lg
  /\ decodeApprovalEvent lg = Some a.
Proof.
  revert idx. induction logs as [|l logs IH]; intros idx Hin; [destruct Hin|].
  cbn [decoded_approvals] in Hin.
  assert (Tail : In (lg, a, i) (decoded_approvals logs (idx + 1)) ->
                 idx <= i /\ nth_error (l :: logs) (Z.to_nat (i - idx)) = Some lg
                 /\ decodeApprovalEvent lg = Some a).
  { intros Hr. destruct (IH _ Hr) as (Hle & Hn & Hd). splits; [lia| |exact Hd].
    replace (Z.to_nat (i - idx)) with (S (Z.to_nat (i - (idx + 1)))) by lia.
    exact Hn. }
  destruct (decodeApprovalEvent l) as [a'|] eqn:E; [|now apply Tail].
  destruct Hin as [Heq|Hr]; [|now apply Tail].
  injection Heq as -> -> ->. splits; [lia| |exact E].
  now rewrite Z.sub_diag.
Qed.

Lemma written_approvals_tx (runId h : string) (tx : Tx) (rc : Receipt) (ts : option Z)
    (trace : option Call) (W : Stream) :
  W = approvalsW \/ W = allowanceEdgesW ->
  written W (tx_docs runId h tx rc ts trace)
  = written W (approval_docs runId h rc ts (rc_logs rc) 0).
Proof.
  intros HW.
  pose proof (timeline_docs_streams runId h tx rc ts) as S0.
  pose proof (native_docs_streams runId h tx rc ts) as SN.
  pose proof (token_docs_streams runId h rc ts (decoded_transfers (rc_logs rc))) as ST.
  pose proof (trace_docs_streams runId h rc ts trace) as SC.
  pose proof (revert_docs_streams runId h rc ts trace) as SR.
  rewrite written_tx_docs.
  destruct HW as [-> | ->].
  - now rewrite (written_none _ _ (streams_none _ approvalsW _ S0 eq_refl)),
      (written_none _ _ (streams_none _ approvalsW _ SN eq_refl)),
      (written_none _ _ (streams_none _ approvalsW _ ST eq_refl)),
      (written_none _ _ (streams_none _ approvalsW _ SC eq_refl)),
      (written_none _ _ (streams_none _ approvalsW _ SR eq_refl)).
  - now rewrite (written_none _ _ (streams_none _ allowanceEdgesW _ S0 eq_refl)),
      (written_none _ _ (streams_none _ allowanceEdgesW _ SN eq_refl)),
      (written_none _ _ (streams_none _ allowanceEdgesW _ ST eq_refl)),
      (written_none _ _ (streams_none _ allowanceEdgesW _ SC eq_refl)),
      (written_none _ _ (streams_none _ allowanceEdgesW _ SR eq_refl)).
Qed.

Lemma flat_map_map {X Y Z'} (g : X -> list Y) (k : Y -> Z') (l : list X) :
  map k (flat_map g l) = flat_map (fun x => map k (g x)) l.
Proof.
  induction l as [|x l IH]; [reflexivity|]. cbn. now rewrite map_app, IH.
Qed.

(** X12.  The [approval] and [allowance_edge] streams go together: a run
    that completes writes one record to each for every log that
    [decodeApprovalEvent] accepts, in the order of the transactions and,
    within one, of its logs; the [log_index] of the approval record is
    the position of the log in the receipt's array of logs, counted from
    zero. *)
Theorem approvals_and_allowance_edges (runId : string) (fs : list Fetched) (st : State) :
  derive runId fs = Ok st ->
  written approvalsW (out st)
  = map (fun x => match x with
                  | (f, rc, (lg, a, i)) => approval_doc runId (f_hash f) rc (f_blk f) lg a i
                  end) (run_approvals fs)
  /\ written allowanceEdgesW (out st)
     = map (fun x => match x with
                     | (f, rc, (lg, a, i)) =>
                         allowance_edge_doc runId (f_hash f) rc (f_blk f) lg a
                     end) (run_approvals fs)
  /\ forall f rc lg a i,
       In (f, rc, (lg, a, i)) (run_approvals fs) ->
       f_rc f = Some rc
       /\ 0 <= i
       /\ nth_error (rc_logs rc) (Z.to_nat i) = Some lg
       /\ decodeApprovalEvent lg = Some a
       /\ field "log_index" (approval_doc runId (f_hash f) rc (f_blk f) lg a i) = JNum i.
Proof.
  intros H.
  rewrite (derive_written runId approvalsW fs st eq_refl eq_refl eq_refl H),
          (derive_written runId allowanceEdgesW fs st eq_refl eq_refl eq_refl H),
          !written_flat_map.
  unfold run_approvals. rewrite !flat_map_map.
  splits.
  - apply flat_map_processed. intros f. unfold run_docs.
    destruct (f_tx f) as [tx|]; [destruct (f_rc f) as [rc|]|]; try reflexivity.
    rewrite written_approvals_tx by now left.
    rewrite (proj1 (written_approval_docs _ _ _ _ _ _)), map_map. reflexivity.
  - apply flat_map_processed. intros f. unfold run_docs.
    destruct (f_tx f) as [tx|]; [destruct (f_rc f) as [rc|]|]; try reflexivity.
    rewrite written_approvals_tx by now right.
    rewrite (proj2 (written_approval_docs _ _ _ _ _ _)), map_map. reflexivity.
  - intros f rc lg a i Hin. apply in_flat_map in Hin.
    destruct Hin as ([[f' tx'] rc'] & Hp & Hin). apply in_map_iff in Hin.
    destruct Hin as ([[lg' a'] i'] & E & Hin). injection E as -> -> -> -> ->.
    unfold processed in Hp. apply in_flat_map in Hp. destruct Hp as (f0 & _ & Hp).
    destruct (f_tx f0) as [tx0|] eqn:E1;
      [destruct (f_rc f0) as [rc0|] eqn:E2; [|destruct Hp] | destruct Hp].
    destruct Hp as [Hp|[]]. injection Hp as -> -> ->.
    destruct (decoded_approvals_position _ _ _ _ _ Hin) as (Hle & Hn & Hd).
    rewrite Z.sub_0_r in Hn. splits; auto.
Qed.

Lemma approvals_and_allowance_edges_witness :
  exists st,
    derive "RUN_1" approval_then_spend = Ok st
    /\ List.length (run_approvals approval_then_spend) = 1%nat
    /\ map (field "log_index") (written approvalsW (out st)) = [JNum 0]
    /\ map (field "amount") (written allowanceEdgesW (out st)) = [JStr "200"].
Proof.
  eexists. split; [vm_compute; reflexivity|].
  match goal with
  | |- context [out ?st] =>
      destruct (approvals_and_allowance_edges "RUN_1" approval_then_spend st
                  ltac:(vm_compute; reflexivity)) as (E1 & E2 & _)
  end.
  split; [vm_compute; reflexivity|].
  rewrite E1, E2. split; vm_compute; reflexivity.
Defined.

(** ** Trace edges and internal native transfers *)

Section TraceDocs.

Variables (runId h : string) (rc : Receipt) (ts : option Z).

Lemma walk_docs_unfold from to input value type output rr calls depth :
  walk_docs runId h rc ts (mkCall from to input value type output rr calls) depth
  = visit_docs runId h rc ts from to type value input depth
    ++ match calls with
       | Some subs => flat_map (fun sub => walk_docs runId h rc ts sub (depth + 1)) subs
       | None => []
       end.
Proof.
  destruct calls as [subs|]; reflexivity.
Qed.

Lemma edges_ok_app l1 l2 : edges_ok l1 -> edges_ok l2 -> edges_ok (l1 ++ l2).
Proof.
  intros (A1 & B1) (A2 & B2). split.
  - intros i Hi. rewrite written_app in *. apply in_app_or in Hi.
    destruct Hi as [Hi|Hi]; [destruct (A1 i Hi) as (e & He & R)
                            | destruct (A2 i Hi) as (e & He & R)];
      exists e; (split; [apply in_or_app; auto | exact R]).
  - rewrite !written_app, filter_app, !length_app. lia.
Qed.

Lemma edges_ok_nil : edges_ok [].
Proof. split; [intros i [] | cbn; lia]. Qed.

Lemma edges_ok_flat_map {X} (g : X -> list (Stream * record)) (l : list X) :
  Forall (fun x => edges_ok (g x)) l -> edges_ok (flat_map g l).
Proof.
  induction 1 as [|x l Hx _ IH]; [apply edges_ok_nil|].
  cbn [flat_map]. now apply edges_ok_app.
Qed.

Lemma visit_docs_edges from to type value input depth :
  edges_ok (visit_docs runId h rc ts from to type value input depth).
Proof.
  unfold visit_docs.
  destruct from as [from|]; [|apply edges_ok_nil].
  destruct to as [to|]; [|apply edges_ok_nil].
  destruct type as [type|]; [|apply edges_ok_nil].
  destruct (_ && _); [|apply edges_ok_nil].
  destruct (call_value value) as [val|e] eqn:E;
    [|split; [intros i [] | cbn; lia]].
  destruct (Z.gtb_spec val 0) as [Hpos|_]; [|split; [intros i [] | cbn; lia]].
  split; [|cbn; lia].
  intros i [<-|[]]. eexists. split; [now left|].
  unfold call_value in E. destruct value as [v|]; [|injection E as <-; lia].
  destruct (truthy_str v) eqn:T; [|injection E as <-; lia].
  unfold BigInt in E. destruct (StringToBigInt v) as [z|] eqn:Ez; [|discriminate].
  injection E as ->.
  unfold edge_of_transfer. splits; try reflexivity.
  exists v, val. split; [|splits; auto; reflexivity].
  cbn [snd]. unfold trace_edge_doc, head, field. cbn. now rewrite T.
Qed.

Lemma walk_docs_edges (call : Call) :
  forall depth, edges_ok (walk_docs runId h rc ts call depth).
Proof.
  induction call as [from to input value type output rr calls IH] using Call_induction.
  intros depth. rewrite walk_docs_unfold. apply edges_ok_app.
  - apply visit_docs_edges.
  - destruct calls as [subs|]; [|apply edges_ok_nil].
    apply edges_ok_flat_map. eapply Forall_impl; [|exact IH]. intros sub Hs. apply Hs.
Qed.

Lemma trace_docs_edges (trace : option Call) : edges_ok (trace_docs runId h rc ts trace).
Proof.
  unfold trace_docs. destruct trace as [t|]; [|apply edges_ok_nil].
  change (?x :: ?l) with ([x] ++ l). apply edges_ok_app; [|apply walk_docs_edges].
  split; [intros i [] | cbn; lia].
Qed.

Lemma written_trace_tx (tx : Tx) (trace : option Call) (W : Stream) :
  W = traceEdgesW \/ W = internalTransfersW ->
  written W (tx_docs runId h tx rc ts trace) = written W (trace_docs runId h rc ts trace).
Proof.
  intros HW.
  pose proof (timeline_docs_streams runId h tx rc ts) as S0.
  pose proof (native_docs_streams runId h tx rc ts) as SN.
  pose proof (token_docs_streams runId h rc ts (decoded_transfers (rc_logs rc))) as ST.
  pose proof (revert_docs_streams runId h rc ts trace) as SR.
  pose proof (approval_docs_streams runId h rc ts (rc_logs rc) 0) as SA.
  rewrite written_tx_docs.
  destruct HW as [-> | ->].
  - rewrite (written_none _ _ (streams_none _ traceEdgesW _ S0 eq_refl)),
      (written_none _ _ (streams_none _ traceEdgesW _ SN eq_refl)),
      (written_none _ _ (streams_none _ traceEdgesW _ ST eq_refl)),
      (written_none _ _ (streams_none _ traceEdgesW _ SR eq_refl)),
      (written_none _ _ (streams_none _ traceEdgesW _ SA eq_refl)).
    cbn [app]. now rewrite app_nil_r.
  - rewrite (written_none _ _ (streams_none _ internalTransfersW _ S0 eq_refl)),
      (written_none _ _ (streams_none _ internalTransfersW _ SN eq_refl)),
      (written_none _ _ (streams_none _ internalTransfersW _ ST eq_refl)),
      (written_none _ _ (streams_none _ internalTransfersW _ SR eq_refl)),
      (written_none _ _ (streams_none _ internalTransfersW _ SA eq_refl)).
    cbn [app]. now rewrite app_nil_r.
Qed.

End TraceDocs.

Lemma edges_ok_written (l l' : list (Stream * record)) :
  written traceEdgesW l = written traceEdgesW l' ->
  written internalTransfersW l = written internalTransfersW l' ->
  edges_ok l' -> edges_ok l.
Proof. unfold edges_ok. intros -> ->. auto. Qed.

Lemma run_docs_edges (runId : string) (f : Fetched) : edges_ok (run_docs runId f).
Proof.
  unfold run_docs.
  destruct (f_tx f) as [tx|]; [destruct (f_rc f) as [rc|]|]; try apply edges_ok_nil.
  eapply edges_ok_written; [| |apply trace_docs_edges].
  - apply written_trace_tx. now left.
  - apply written_trace_tx. now right.
Qed.

(** X13.  No internal native transfer without its call: in a run that
    completes, every [internal_native_transfer] record has a
    [trace_edge] record of the same transaction, caller, callee, depth
    and call type whose raw [value] denotes the positive integer the
    transfer carries in decimal, and the run holds at least as many
    [trace_edge] records as internal transfers. *)
Theorem internal_transfers_have_trace_edges (runId : string) (fs : list Fetched)
    (st : State) :
  derive runId fs = Ok st ->
  (forall i, In i (written internalTransfersW (out st)) ->
             exists e, In e (written traceEdgesW (out st)) /\ edge_of_transfer e i)
  /\ (List.length (written internalTransfersW (out st))
      <= List.length (filter (doc_type_is "trace_edge")
                             (written traceEdgesW (out st))))%nat.
Proof.
  intros H.
  apply (edges_ok_written (out st) (flat_map (run_docs runId) fs)).
  - exact (derive_written runId traceEdgesW fs st eq_refl eq_refl eq_refl H).
  - exact (derive_written runId internalTransfersW fs st eq_refl eq_refl eq_refl H).
  - apply edges_ok_flat_map. apply Forall_forall. intros f _. apply run_docs_edges.
Qed.

Lemma internal_transfers_have_trace_edges_witness :
  exists st i e,
    derive "RUN_1" [traced_payment] = Ok st
    /\ written internalTransfersW (out st) = [i]
    /\ In e (written traceEdgesW (out st))
    /\ edge_of_transfer e i.
Proof.
  eexists _, _. 
  match goal with
  | |- exists e, derive _ _ = Ok ?st /\ _ =>
      assert (D : derive "RUN_1" [traced_payment] = Ok st) by (vm_compute; reflexivity)
  end.
  match type of D with
  | _ = Ok ?st =>
      destruct (internal_transfers_have_trace_edges "RUN_1" [traced_payment] st D)
        as (A & _);
      destruct (A (nth 0 (written internalTransfersW (out st)) [])
                  ltac:(vm_compute; left; reflexivity)) as (e & He & R)
  end.
  exists e. split; [exact D|]. split; [vm_compute; reflexivity|]. split; [exact He|].
  exact R.
Defined.

(** ** What each block leaves alone in the profiles *)

Section ProfFrames.

Context {X : Type} (phi : Prof -> X).

Variables (runId h : string) (tx : Tx) (rc : Receipt) (ts : option Z).

Section EthFields.

Hypothesis phi_eth_out_wei : forall v p, phi (set_eth_out_wei v p) = phi p.
Hypothesis phi_eth_out_txs : forall v p, phi (set_eth_out_txs v p) = phi p.
Hypothesis phi_eth_in_wei : forall v p, phi (set_eth_in_wei v p) = phi p.
Hypothesis phi_eth_in_txs : forall v p, phi (set_eth_in_txs v p) = phi p.
Hypothesis phi_call_targets : forall v p, phi (set_call_targets v p) = phi p.

Lemma eth_transfer_block_frame (st st' : State) :
  eth_transfer_block runId h tx rc ts st = Ok st' ->
  forall a, obs phi a (prof st') = obs phi a (prof st).
Proof.
  unfold eth_transfer_block.
  destruct (tx_to tx) as [to|]; [|now intros [= <-]].
  destruct (sends_value tx); [|now intros [= <-]].
  cbv zeta. intros H a. bind_inv H p1 H1. bind_inv H p2 H2. injection H as <-.
  cbn [prof set_prof emit set_out] in *.
  rewrite (modify_frame phi _ _ _ _ H2), (modify_frame phi _ _ _ _ H1), !obs_getProf;
    [reflexivity | |].
  - intros v v' Hv. bind_inv Hv x Hx. injection Hv as <-.
    now rewrite phi_call_targets, phi_eth_out_txs, phi_eth_out_wei.
  - intros v v' Hv. bind_inv Hv x Hx. injection Hv as <-.
    now rewrite phi_eth_in_txs, phi_eth_in_wei.
Qed.

Lemma visit_call_frame (from to type value input : option string) (depth : Z)
    (st st' : State) :
  visit_call runId h rc ts from to type value input depth st = Ok st' ->
  forall a, obs phi a (prof st') = obs phi a (prof st).
Proof.
  unfold visit_call.
  destruct from as [from|]; [|now intros [= <-]].
  destruct to as [to|]; [|now intros [= <-]].
  destruct type as [type|]; [|now intros [= <-]].
  destruct (_ && _); [|now intros [= <-]].
  cbv zeta. intros H a. bind_inv H val Hval.
  destruct (val >? 0); [|now injection H as <-].
  bind_inv H p1 H1. bind_inv H p2 H2. bind_inv H p3 H3. injection H as <-.
  cbn [prof set_prof emit set_out] in *.
  rewrite (modify_frame phi _ _ _ _ H3), (modify_frame phi _ _ _ _ H2),
    (modify_frame phi _ _ _ _ H1), !obs_getProf; [reflexivity | | |].
  - intros v v' Hv. bind_inv Hv x Hx. injection Hv as <-. apply phi_eth_out_wei.
  - intros v v' Hv. bind_inv Hv x Hx. injection Hv as <-. apply phi_eth_in_wei.
  - intros v v' Hv. injection Hv as <-. apply phi_call_targets.
Qed.

Lemma walkTrace_frame (call : Call) :
  forall (depth : Z) (st st' : State),
    walkTrace runId h rc ts call depth st = Ok st' ->
    forall a, obs phi a (prof st') = obs phi a (prof st).
Proof.
  induction call as [from to input value type output rr calls IH] using Call_induction.
  intros depth st st' H a. cbn [walkTrace] in H.
  bind_inv H st1 H1. rewrite <- (visit_call_frame _ _ _ _ _ _ _ _ H1 a). clear H1.
  destruct calls as [subs|]; [|now injection H as <-].
  revert st1 H. induction subs as [|sub subs IHs]; intros st1 H.
  - now injection H as <-.
  - bind_inv H st2 H2. inversion IH as [|? ? Hsub Hsubs]; subst.
    rewrite (IHs Hsubs st2 H). exact (Hsub _ _ _ H2 a).
Qed.

Lemma trace_block_frame (trace : option Call) (st st' : State) :
  trace_block runId h rc ts trace st = Ok st' ->
  forall a, obs phi a (prof st') = obs phi a (prof st).
Proof.
  unfold trace_block. destruct trace as [t|]; [|now intros [= <-]].
  intros H a. now rewrite (walkTrace_frame t _ _ _ H a).
Qed.

End EthFields.

Section TokenFields.

Hypothesis phi_erc20_out : forall v p, phi (set_erc20_out v p) = phi p.
Hypothesis phi_erc20_in : forall v p, phi (set_erc20_in v p) = phi p.

Lemma token_transfer_step_frame (t : Transfer) (st st' : State) :
  token_transfer_step runId h rc ts t st = Ok st' ->
  forall a, obs phi a (prof st') = obs phi a (prof st).
Proof.
  unfold token_transfer_step. cbv zeta. intros H a.
  bind_inv H p1 H1. bind_inv H p2 H2. injection H as <-.
  cbn [prof set_prof emit set_out] in *.
  assert (E2 : obs phi a p2 = obs phi a p1).
  { destruct (tr_to t) as [to|]; [|now injection H2 as <-].
    destruct (truthy_str to); [|now injection H2 as <-].
    rewrite (modify_frame phi _ _ _ _ H2), obs_getProf; [reflexivity|].
    intros v v' Hv. bind_inv Hv x Hx. injection Hv as <-. apply phi_erc20_in. }
  rewrite E2.
  destruct (tr_from t) as [from|]; [|now injection H1 as <-].
  destruct (truthy_str from); [|now injection H1 as <-].
  rewrite (modify_frame phi _ _ _ _ H1), obs_getProf; [reflexivity|].
  intros v v' Hv. bind_inv Hv x Hx. injection Hv as <-. apply phi_erc20_out.
Qed.

Lemma token_transfers_block_frame (logs : list Log) (transfers transfers' : list Transfer)
    (st st' : State) :
  token_transfers_block runId h rc ts logs transfers st = Ok (transfers', st') ->
  forall a, obs phi a (prof st') = obs phi a (prof st).
Proof.
  revert transfers st. induction logs as [|lg logs IH]; intros transfers st H a.
  - now inversion H.
  - cbn [token_transfers_block] in H. bind_inv H d Hd. destruct d as [t|].
    + bind_inv H st1 H1. rewrite (IH _ _ H a).
      exact (token_transfer_step_frame t _ _ H1 a).
    + exact (IH _ _ H a).
Qed.

End TokenFields.

Section SeenFields.

Hypothesis phi_tx_out_count : forall v p, phi (set_tx_out_count v p) = phi p.
Hypothesis phi_tx_in_count : forall v p, phi (set_tx_in_count v p) = phi p.
Hypothesis phi_gas_spent_wei : forall v p, phi (set_gas_spent_wei v p) = phi p.
Hypothesis phi_total_gas_used : forall v p, phi (set_total_gas_used v p) = phi p.
Hypothesis phi_touch_seen : forall t b p, phi (touch_seen t b p) = phi p.

Lemma profile_block_frame (st st' : State) :
  profile_block tx rc ts st = Ok st' ->
  forall a, obs phi a (prof st') = obs phi a (prof st).
Proof.
  unfold profile_block. cbv zeta. intros H a.
  bind_inv H p1 H1. bind_inv H p2 H2. injection H as <-.
  cbn [prof set_prof] in *.
  assert (E2 : obs phi a p2 = obs phi a p1).
  { destruct (tx_to tx) as [to|]; [|now injection H2 as <-].
    destruct (truthy_str to); [|now injection H2 as <-].
    rewrite (modify_frame phi _ _ _ _ H2), obs_getProf; [reflexivity|].
    intros v v' Hv. injection Hv as <-.
    now rewrite phi_touch_seen, phi_tx_in_count. }
  rewrite E2.
  destruct (truthy_str (tx_from tx)); [|now injection H1 as <-].
  rewrite (modify_frame phi _ _ _ _ H1), obs_getProf; [reflexivity|].
  intros v v' Hv. bind_inv Hv x Hx. bind_inv Hv y Hy. injection Hv as <-.
  now rewrite phi_touch_seen, phi_total_gas_used, phi_gas_spent_wei, phi_tx_out_count.
Qed.

End SeenFields.

(** The blocks of an iteration that do not write to the profiles. *)
Lemma derive_tx_blocks (trace : option Call) (st st' : State) :
  derive_tx runId h tx rc ts trace st = Ok st' ->
  exists st1 st2 st3 st4 st5 transfers,
    profile_block tx rc ts (timeline_block runId h tx rc ts st) = Ok st1
    /\ prof st2 = prof st1
    /\ eth_transfer_block runId h tx rc ts st2 = Ok st3
    /\ token_transfers_block runId h rc ts (rc_logs rc) [] st3 = Ok (transfers, st4)
    /\ trace_block runId h rc ts trace st4 = Ok st5
    /\ prof st' = prof st5.
Proof.
  unfold derive_tx. cbv zeta. intros H.
  bind_inv H st1 H1. bind_inv H st2 H2.
  destruct (method_stats_block_spec tx rc ts st1) as (st2' & E2 & _ & _ & P2).
  rewrite E2 in H2. injection H2 as ->.
  bind_inv H st3 H3. bind_inv H r H4. destruct r as [transfers st4].
  bind_inv H st5 H5.
  exists st1, st2, st3, st4, st5, transfers. splits; auto.
  apply allowance_usage_block_out in H. destruct H as (P8 & _).
  rewrite P8. destruct (approvals_block_out runId h rc ts (rc_logs rc) 0
                          (revert_block runId h rc ts trace st5)) as (_ & P7).
  rewrite P7. unfold revert_block. now destruct (String.eqb _ _).
Qed.

End ProfFrames.

(** ** Invariants of the method stats *)

Lemma map_set_set {V} (k : string) (v v' : V) (m : list (string * V)) :
  map_set k v' (map_set k v m) = map_set k v' m.
Proof.
  induction m as [|[k0 v0] m IH]; cbn.
  - now rewrite String.eqb_refl.
  - destruct (String.eqb_spec k k0) as [->|N]; cbn.
    + now rewrite String.eqb_refl.
    + destruct (String.eqb_spec k k0); [congruence|]. now rewrite IH.
Qed.

Lemma set_add_length (x : string) (s : list string) :
  (List.length (set_add x s) <= S (List.length s))%nat.
Proof.
  unfold set_add. destruct (existsb _ s); [lia|]. rewrite length_app. cbn. lia.
Qed.

Lemma seen_ordered_touch (t : Z) (first last : option Z) :
  seen_ordered first last ->
  let first' := if is_earlier t first then Some t else first in
  seen_ordered first' (if is_later t last then Some t else last).
Proof.
  unfold seen_ordered, is_earlier, is_later.
  destruct first as [f|], last as [l|]; cbv zeta; intros H.
  - destruct (Z.ltb_spec t f), (Z.gtb_spec t l); lia.
  - destruct H.
  - destruct H.
  - lia.
Qed.

Section StatInvariant.

Variables (tx : Tx) (rc : Receipt) (ts : option Z).

Lemma stat_seen_step (t : Z) (s : MethodStat) :
  let s1 := if is_earlier t (ms_first_seen_ts s)
            then set_ms_first_seen_ts (Some t) s else s in
  let s2 := if is_later t (ms_last_seen_ts s1)
            then set_ms_last_seen_ts (Some t) s1 else s1 in
  ms_count s2 = ms_count s
  /\ ms_success_count s2 = ms_success_count s
  /\ ms_revert_count s2 = ms_revert_count s
  /\ ms_callers s2 = ms_callers s
  /\ ms_first_seen_ts s2
     = (if is_earlier t (ms_first_seen_ts s) then Some t else ms_first_seen_ts s)
  /\ ms_last_seen_ts s2
     = (if is_later t (ms_last_seen_ts s) then Some t else ms_last_seen_ts s).
Proof.
  cbv zeta. destruct (is_earlier t (ms_first_seen_ts s));
    cbn [ms_last_seen_ts set_ms_first_seen_ts];
    destruct (is_later t (ms_last_seen_ts s)); cbn; splits; reflexivity.
Qed.

Lemma method_stats_update_ok (v : MethodStat) :
  stat_counts_ok v ->
  0 <= ms_count v ->
  seen_ordered (ms_first_seen_ts v) (ms_last_seen_ts v) ->
  let stat := set_ms_count (ms_count v + 1) v in
  let stat :=
    if String.eqb (txStatus rc) "success"
    then set_ms_success_count (ms_success_count stat + 1) stat
    else set_ms_revert_count (ms_revert_count stat + 1) stat in
  let stat :=
    if truthy_str (tx_from tx)
    then set_ms_callers (set_add (tx_from tx) (ms_callers stat)) stat
    else stat in
  stat_ok (match ts with
           | Some t =>
               if truthy_num ts then
                 let stat :=
                   if is_earlier t (ms_first_seen_ts stat)
                   then set_ms_first_seen_ts (Some t) stat else stat in
                 if is_later t (ms_last_seen_ts stat)
                 then set_ms_last_seen_ts (Some t) stat else stat
               else stat
           | None => stat
           end).
Proof.
  intros (C & S & R & U) C0 O. cbv zeta.
  pose proof (set_add_length (tx_from tx) (ms_callers v)) as L.
  set (s := if truthy_str (tx_from tx) then _ else _).
  assert (Hs : stat_counts_ok s /\ 1 <= ms_count s
               /\ ms_first_seen_ts s = ms_first_seen_ts v
               /\ ms_last_seen_ts s = ms_last_seen_ts v).
  { unfold s, stat_counts_ok.
    destruct (String.eqb (txStatus rc) "success"), (truthy_str (tx_from tx));
      cbn; splits; auto; lia. }
  clearbody s. destruct Hs as ((C' & S' & R' & U') & P' & F' & L').
  assert (Done : forall t,
             stat_ok (if is_later t (ms_last_seen_ts
                                       (if is_earlier t (ms_first_seen_ts s)
                                        then set_ms_first_seen_ts (Some t) s else s))
                      then set_ms_last_seen_ts (Some t)
                             (if is_earlier t (ms_first_seen_ts s)
                              then set_ms_first_seen_ts (Some t) s else s)
                      else (if is_earlier t (ms_first_seen_ts s)
                            then set_ms_first_seen_ts (Some t) s else s))).
  { intros t. destruct (stat_seen_step t s) as (E1 & E2 & E3 & E4 & E5 & E6).
    cbv zeta in *. unfold stat_ok, stat_counts_ok.
    rewrite E1, E2, E3, E4, E5, E6, F', L'. splits; auto.
    now apply seen_ordered_touch. }
  assert (Same : stat_ok s).
  { unfold stat_ok, stat_counts_ok. rewrite F', L'. splits; auto. }
  destruct ts as [t|]; [|exact Same].
  destruct (truthy_num (Some t)); [apply Done | exact Same].
Qed.

Lemma method_stats_block_ok (st st' : State) :
  method_stats_block tx rc ts st = Ok st' ->
  Forall (fun kv => stat_ok (snd kv)) (methodStats st) ->
  Forall (fun kv => stat_ok (snd kv)) (methodStats st').
Proof.
  unfold method_stats_block.
  destruct (tx_to tx) as [to|]; [|now intros [= <-]].
  destruct (_ && _); [|now intros [= <-]].
  intros H K. bind_inv H m Hm. injection H as <-.
  cbn [methodStats set_methodStats].
  apply modify_Ok in Hm. destruct Hm as (v & v' & Hg & Hv & ->).
  injection Hv as <-.
  assert (V : stat_counts_ok v /\ 0 <= ms_count v
              /\ seen_ordered (ms_first_seen_ts v) (ms_last_seen_ts v)).
  { unfold getMethodStat in Hg. cbv zeta in Hg.
    destruct (map_get (method_key to (methodId tx)) (methodStats st)) as [v0|] eqn:E.
    - rewrite E in Hg. injection Hg as ->.
      pose proof (Forall_map_get (fun _ s => stat_ok s) _ _ _ K E) as (C & P & O).
      splits; auto. lia.
    - rewrite map_get_set, String.eqb_refl in Hg. injection Hg as <-.
      unfold stat_counts_ok. cbn. splits; auto; lia. }
  destruct V as (C & C0 & O).
  pose proof (method_stats_update_ok v C C0 O) as V'. cbv zeta in V'.
  assert (E : forall x,
             map_set (method_key to (methodId tx)) x
               (getMethodStat to (methodId tx) (methodStats st))
             = map_set (method_key to (methodId tx)) x (methodStats st)).
  { intros x. unfold getMethodStat. cbv zeta.
    destruct (map_get _ (methodStats st)); [reflexivity | apply map_set_set]. }
  rewrite E.
  now apply (Forall_map_set (fun _ s => stat_ok s)).
Qed.

(** The blocks of an iteration other than the update of the method stats
    leave the method stats as they are. *)
Lemma derive_tx_stats_blocks (runId h : string) (trace : option Call) (st st' : State) :
  derive_tx runId h tx rc ts trace st = Ok st' ->
  exists st1 st2,
    methodStats st1 = methodStats st
    /\ method_stats_block tx rc ts st1 = Ok st2
    /\ methodStats st' = methodStats st2.
Proof.
  unfold derive_tx. cbv zeta. intros H.
  bind_inv H st1 H1. destruct (profile_block_spec _ _ _ _ _ H1) as (_ & _ & M1 & _).
  bind_inv H st2 H2. exists st1, st2. split; [exact M1|]. split; [exact H2|].
  bind_inv H st3 H3. apply eth_transfer_block_stats in H3.
  bind_inv H r H4. destruct r as [transfers st4].
  apply token_transfers_block_stats in H4.
  bind_inv H st5 H5. apply trace_block_stats in H5.
  assert (E : methodStats st' = methodStats st5).
  { unfold allowance_usage_block in H.
    destruct (_ && _); [apply usage_loop_stats in H | injection H as <-];
      rewrite ?H, approvals_block_stats; unfold revert_block;
      now destruct (String.eqb _ _). }
  now rewrite E, H5, H4, H3.
Qed.

End StatInvariant.


Lemma derive_loop_stat_ok (runId : string) (fs : list Fetched) (st st' : State) :
  derive_loop runId fs st = Ok st' ->
  Forall (fun kv => stat_ok (snd kv)) (methodStats st) ->
  Forall (fun kv => stat_ok (snd kv)) (methodStats st').
Proof.
  revert st. induction fs as [|f fs IH]; intros st H K.
  - now injection H as <-.
  - cbn [derive_loop] in H. bind_inv H st1 H1. apply (IH st1 H).
    unfold iteration in H1.
    destruct (f_tx f) as [tx|]; [destruct (f_rc f) as [rc|]|];
      try (injection H1 as <-; exact K).
    destruct (derive_tx_stats_blocks _ _ _ _ _ _ _ _ H1) as (s1 & s2 & M1 & H2 & M2).
    rewrite M2. apply (method_stats_block_ok _ _ _ _ _ H2). now rewrite M1.
Qed.

Lemma derive_stats (runId : string) (fs : list Fetched) (st : State) :
  derive runId fs = Ok st ->
  exists stats,
    written methodStatsW (out st) = map (method_stat_doc runId) stats
    /\ Forall stat_ok stats.
Proof.
  intros H.
  destruct (derive_Ok runId fs st H) as (st0 & new & H0 & O0 & S & _ & _ & O).
  destruct (written_flush runId st0 new S) as (_ & WS).
  exists (map snd (methodStats st0)). rewrite O, WS, map_map. split; [reflexivity|].
  rewrite Forall_map.
  apply (derive_loop_stat_ok runId fs init_state st0 H0). constructor.
Qed.

(** X14.  The counters of every flushed method stat agree: [count] is
    the sum of [success_count] and [revert_count], none of them is
    negative, [count] is at least 1 (a stat only exists for a call that
    was counted) and [unique_callers] lies between 0 and [count]. *)
Theorem method_stat_counters (runId : string) (fs : list Fetched) (st : State) :
  derive runId fs = Ok st ->
  forall s, In s (written methodStatsW (out st)) ->
  exists c ok rv u,
    field "count" s = JNum c
    /\ field "success_count" s = JNum ok
    /\ field "revert_count" s = JNum rv
    /\ field "unique_callers" s = JNum u
    /\ c = ok + rv /\ 0 <= ok /\ 0 <= rv /\ 1 <= c /\ 0 <= u <= c.
Proof.
  intros H s Hs. destruct (derive_stats runId fs st H) as (stats & W & K).
  rewrite W in Hs. apply in_map_iff in Hs. destruct Hs as (m & <- & Hm).
  rewrite Forall_forall in K. destruct (K m Hm) as ((C & S & R & U) & P & _).
  exists (ms_count m), (ms_success_count m), (ms_revert_count m),
         (Z.of_nat (List.length (ms_callers m))).
  splits; auto; try reflexivity; lia.
Qed.

Lemma method_stat_counters_witness :
  exists st s,
    derive "RUN_1" approval_then_spend = Ok st
    /\ In s (written methodStatsW (out st))
    /\ exists c ok rv u,
         field "count" s = JNum c
         /\ field "success_count" s = JNum ok
         /\ field "revert_count" s = JNum rv
         /\ field "unique_callers" s = JNum u
         /\ c = ok + rv /\ 0 <= ok /\ 0 <= rv /\ 1 <= c /\ 0 <= u <= c.
Proof.
  eexists _, _. split; [vm_compute; reflexivity|].
  split; [vm_compute; left; reflexivity|].
  eapply (method_stat_counters "RUN_1" approval_then_spend).
  - vm_compute; reflexivity.
  - vm_compute. left. reflexivity.
Defined.

(** ** The first- and last-seen bounds *)

Lemma modify_obs_pres (phi : Prof -> Prop) (k : string) (f : Prof -> Res Prof) m m' :
  modify k f m = Ok m' ->
  (forall v v', f v = Ok v' -> phi v -> phi v') ->
  (forall a, obs phi a m) -> forall a, obs phi a m'.
Proof.
  intros H Hf Hm a. apply modify_Ok in H. destruct H as (v & v' & Hg & Hv & ->).
  rewrite obs_set. destruct (String.eqb_spec a k) as [->|]; [|apply Hm].
  apply (Hf v v' Hv). specialize (Hm k). now rewrite (obs_get phi k m v Hg) in Hm.
Qed.

Lemma touch_seen_fields (ts : option Z) (bn : Z) (p : Prof) :
  let q := touch_seen ts bn p in
  first_seen_ts q
  = match ts with
    | Some t => if truthy_num ts
                then (if is_earlier t (first_seen_ts p) then Some t else first_seen_ts p)
                else first_seen_ts p
    | None => first_seen_ts p
    end
  /\ last_seen_ts q
     = match ts with
       | Some t => if truthy_num ts
                   then (if is_later t (last_seen_ts p) then Some t else last_seen_ts p)
                   else last_seen_ts p
       | None => last_seen_ts p
       end
  /\ first_seen_block q
     = (if is_earlier bn (first_seen_block p) then Some bn else first_seen_block p)
  /\ last_seen_block q
     = (if is_later bn (last_seen_block p) then Some bn else last_seen_block p).
Proof.
  cbv zeta. unfold touch_seen.
  destruct ts as [t|]; [destruct (truthy_num (Some t))|].
  - destruct (is_earlier t (first_seen_ts p));
      cbn [last_seen_ts set_first_seen_ts];
      destruct (is_later t (last_seen_ts p));
      cbn [first_seen_block set_first_seen_ts set_last_seen_ts];
      destruct (is_earlier bn (first_seen_block p));
      cbn [last_seen_block set_first_seen_block set_first_seen_ts set_last_seen_ts];
      destruct (is_later bn (last_seen_block p)); cbn; splits; reflexivity.
  - destruct (is_earlier bn (first_seen_block p));
      cbn [last_seen_block set_first_seen_block];
      destruct (is_later bn (last_seen_block p)); cbn; splits; reflexivity.
  - destruct (is_earlier bn (first_seen_block p));
      cbn [last_seen_block set_first_seen_block];
      destruct (is_later bn (last_seen_block p)); cbn; splits; reflexivity.
Qed.

Lemma touch_seen_bounds (ts : option Z) (bn : Z) (p : Prof) :
  prof_bounds p -> prof_bounds (touch_seen ts bn p).
Proof.
  intros (T & B). unfold prof_bounds.
  destruct (touch_seen_fields ts bn p) as (E1 & E2 & E3 & E4). cbv zeta in *.
  rewrite E1, E2, E3, E4. split; [|now apply seen_ordered_touch].
  destruct ts as [t|]; [|exact T].
  destruct (truthy_num (Some t)); [now apply seen_ordered_touch | exact T].
Qed.

Lemma profile_block_bounds (tx : Tx) (rc : Receipt) (ts : option Z) (st st' : State) :
  profile_block tx rc ts st = Ok st' ->
  (forall a, obs prof_bounds a (prof st)) -> forall a, obs prof_bounds a (prof st').
Proof.
  unfold profile_block. cbv zeta. intros H K.
  bind_inv H p1 H1. bind_inv H p2 H2. injection H as <-. cbn [prof set_prof].
  assert (K1 : forall a, obs prof_bounds a p1).
  { destruct (truthy_str (tx_from tx)); [|now injection H1 as <-].
    apply (modify_obs_pres prof_bounds _ _ _ _ H1).
    - intros v v' Hv Hb. bind_inv Hv x Hx. bind_inv Hv y Hy. injection Hv as <-.
      now apply touch_seen_bounds.
    - intros a. rewrite obs_getProf. apply K. }
  destruct (tx_to tx) as [to|]; [|now injection H2 as <-].
  destruct (truthy_str to); [|now injection H2 as <-].
  apply (modify_obs_pres prof_bounds _ _ _ _ H2).
  - intros v v' Hv Hb. injection Hv as <-. now apply touch_seen_bounds.
  - intros a. rewrite obs_getProf. apply K1.
Qed.

Lemma derive_tx_bounds (runId h : string) (tx : Tx) (rc : Receipt) (ts : option Z)
    (trace : option Call) (st st' : State) :
  derive_tx runId h tx rc ts trace st = Ok st' ->
  (forall a, obs prof_bounds a (prof st)) -> forall a, obs prof_bounds a (prof st').
Proof.
  intros H K a.
  destruct (derive_tx_blocks _ _ _ _ _ _ _ _ H)
    as (st1 & st2 & st3 & st4 & st5 & transfers & H1 & P2 & H3 & H4 & H5 & P6).
  rewrite P6.
  rewrite (trace_block_frame prof_bounds runId h rc ts
             (fun _ _ => eq_refl) (fun _ _ => eq_refl) (fun _ _ => eq_refl)
             trace _ _ H5 a).
  rewrite (token_transfers_block_frame prof_bounds runId h rc ts
             (fun _ _ => eq_refl) (fun _ _ => eq_refl) _ _ _ _ _ H4 a).
  rewrite (eth_transfer_block_frame prof_bounds runId h tx rc ts
             (fun _ _ => eq_refl) (fun _ _ => eq_refl) (fun _ _ => eq_refl)
             (fun _ _ => eq_refl) (fun _ _ => eq_refl) _ _ H3 a).
  rewrite P2. now apply (profile_block_bounds tx rc ts _ _ H1).
Qed.

Lemma derive_loop_bounds (runId : string) (fs : list Fetched) (st st' : State) :
  derive_loop runId fs st = Ok st' ->
  (forall a, obs prof_bounds a (prof st)) -> forall a, obs prof_bounds a (prof st').
Proof.
  revert st. induction fs as [|f fs IH]; intros st H K.
  - now injection H as <-.
  - cbn [derive_loop] in H. bind_inv H st1 H1. apply (IH st1 H).
    unfold iteration in H1.
    destruct (f_tx f) as [tx|]; [destruct (f_rc f) as [rc|]|];
      try (injection H1 as <-; exact K).
    now apply (derive_tx_bounds _ _ _ _ _ _ _ _ H1).
Qed.

Lemma seen_ordered_json (first last : option Z) :
  seen_ordered first last -> bounds_ordered (jnum_or_null first) (jnum_or_null last).
Proof.
  unfold seen_ordered, bounds_ordered.
  destruct first as [f|], last as [l|]; cbn; intros H; try (now destruct H).
  - right. exists f, l. auto.
  - left. auto.
Qed.

(** X15.  In every flushed profile the first- and last-seen timestamps
    are both null or both numbers with the first not after the last, and
    so are the first- and last-seen blocks; the same holds of the two
    timestamps of every flushed method stat. *)
Theorem seen_bounds_ordered (runId : string) (fs : list Fetched) (st : State) :
  derive runId fs = Ok st ->
  (forall p, In p (written profilesW (out st)) ->
     bounds_ordered (field "first_seen_ts" p) (field "last_seen_ts" p)
     /\ bounds_ordered (field "first_seen_block" p) (field "last_seen_block" p))
  /\ (forall s, In s (written methodStatsW (out st)) ->
        bounds_ordered (field "first_seen_ts" s) (field "last_seen_ts" s)).
Proof.
  intros H. split.
  - intros p Hp.
    destruct (derive_Ok runId fs st H) as (st0 & new & H0 & O0 & S & _ & [N F] & O).
    destruct (written_flush runId st0 new S) as (WP & _).
    rewrite O, WP in Hp. apply in_map_iff in Hp. destruct Hp as ([k pr] & <- & Hin).
    cbn [snd].
    assert (B : prof_bounds pr).
    { pose proof (derive_loop_bounds runId fs init_state st0 H0
                    (fun a => conj I I) k) as B.
      now rewrite (obs_get prof_bounds k _ pr (map_get_In _ _ _ N Hin)) in B. }
    destruct B as (T & B). split; now apply seen_ordered_json.
  - intros s Hs. destruct (derive_stats runId fs st H) as (stats & W & K).
    rewrite W in Hs. apply in_map_iff in Hs. destruct Hs as (m & <- & Hm).
    rewrite Forall_forall in K. destruct (K m Hm) as (_ & _ & O).
    now apply seen_ordered_json.
Qed.

Lemma seen_bounds_ordered_witness :
  exists st,
    derive "RUN_1" approval_then_spend = Ok st
    /\ (forall p, In p (written profilesW (out st)) ->
          bounds_ordered (field "first_seen_ts" p) (field "last_seen_ts" p)
          /\ bounds_ordered (field "first_seen_block" p) (field "last_seen_block" p))
    /\ (forall s, In s (written methodStatsW (out st)) ->
          bounds_ordered (field "first_seen_ts" s) (field "last_seen_ts" s)).
Proof.
  eexists. split; [vm_compute; reflexivity|].
  apply (seen_bounds_ordered "RUN_1" approval_then_spend).
  vm_compute; reflexivity.
Defined.

(** ** Transaction counters and gas totals against the contract calls *)

Lemma modify_obs_change {X} (phi : Prof -> X) (g : X -> X) (k : string)
    (f : Prof -> Res Prof) m m' :
  modify k f m = Ok m' ->
  (forall v v', f v = Ok v' -> phi v' = g (phi v)) ->
  forall a, obs phi a m' = if String.eqb a k then g (obs phi a m) else obs phi a m.
Proof.
  intros H Hf a. apply modify_Ok in H. destruct H as (v & v' & Hg & Hv & ->).
  rewrite obs_set. destruct (String.eqb_spec a k) as [->|]; [|reflexivity].
  rewrite (obs_get phi k m v Hg). now apply Hf.
Qed.

Lemma touch_seen_tx_view (ts : option Z) (bn : Z) (p : Prof) :
  tx_view (touch_seen ts bn p) = tx_view p.
Proof. unfold touch_seen. destruct ts; case_ifs; reflexivity. Qed.

Lemma profile_block_tx_view (tx : Tx) (rc : Receipt) (ts : option Z) (st st' : State) :
  profile_block tx rc ts st = Ok st' ->
  forall a, obs tx_view a (prof st')
            = view_add (obs tx_view a (prof st)) (tx_delta tx rc a).
Proof.
  unfold profile_block. cbv zeta. intros H a.
  bind_inv H p1 H1. bind_inv H p2 H2. injection H as <-. cbn [prof set_prof].
  unfold tx_delta. rewrite <- view_add_assoc.
  assert (E1 : obs tx_view a p1
               = view_add (obs tx_view a (prof st))
                   (if truthy_str (tx_from tx) && String.eqb a (tx_from tx)
                    then (1, 0, rc_gasUsed rc * gasPrice tx, rc_gasUsed rc)
                    else (0, 0, 0, 0))).
  { destruct (truthy_str (tx_from tx)); cbn [andb];
      [|injection H1 as <-; now rewrite view_add_0].
    rewrite (modify_obs_change tx_view
               (fun x => view_add x (1, 0, rc_gasUsed rc * gasPrice tx, rc_gasUsed rc))
               _ _ _ _ H1), obs_getProf.
    - destruct (String.eqb a (tx_from tx)); [reflexivity | now rewrite view_add_0].
    - intros v v' Hv. bind_inv Hv spent Hs. bind_inv Hv used Hu. injection Hv as <-.
      rewrite touch_seen_tx_view. apply addBigStr_Ok in Hs, Hu. subst spent used.
      unfold tx_view. cbn. rewrite !parsed_toString. apply tuple4_eq; lia. }
  rewrite <- E1.
  destruct (tx_to tx) as [to|]; [|injection H2 as <-; now rewrite view_add_0].
  destruct (truthy_str to); cbn [andb]; [|injection H2 as <-; now rewrite view_add_0].
  rewrite (modify_obs_change tx_view (fun x => view_add x (0, 1, 0, 0)) _ _ _ _ H2),
    obs_getProf.
  - destruct (String.eqb a to); [reflexivity | now rewrite view_add_0].
  - intros v v' Hv. injection Hv as <-. rewrite touch_seen_tx_view.
    unfold tx_view. cbn. apply tuple4_eq; lia.
Qed.

Lemma derive_tx_tx_view (runId h : string) (tx : Tx) (rc : Receipt) (ts : option Z)
    (trace : option Call) (st st' : State) :
  derive_tx runId h tx rc ts trace st = Ok st' ->
  forall a, obs tx_view a (prof st')
            = view_add (obs tx_view a (prof st)) (tx_delta tx rc a).
Proof.
  intros H a.
  destruct (derive_tx_blocks _ _ _ _ _ _ _ _ H)
    as (st1 & st2 & st3 & st4 & st5 & transfers & H1 & P2 & H3 & H4 & H5 & P6).
  rewrite P6.
  rewrite (trace_block_frame tx_view runId h rc ts
             (fun _ _ => eq_refl) (fun _ _ => eq_refl) (fun _ _ => eq_refl)
             trace _ _ H5 a).
  rewrite (token_transfers_block_frame tx_view runId h rc ts
             (fun _ _ => eq_refl) (fun _ _ => eq_refl) _ _ _ _ _ H4 a).
  rewrite (eth_transfer_block_frame tx_view runId h tx rc ts
             (fun _ _ => eq_refl) (fun _ _ => eq_refl) (fun _ _ => eq_refl)
             (fun _ _ => eq_refl) (fun _ _ => eq_refl) _ _ H3 a).
  rewrite P2. exact (profile_block_tx_view tx rc ts _ _ H1 a).
Qed.

Lemma calls_view_app a (l1 l2 : list record) :
  calls_view a (l1 ++ l2) = view_add (calls_view a l1) (calls_view a l2).
Proof.
  unfold calls_view, count, total. rewrite !tally_app. reflexivity.
Qed.

Lemma calls_view_call (runId h : string) (tx : Tx) (rc : Receipt) (ts : option Z) a :
  a <> EmptyString ->
  calls_view a [contract_call_doc runId h tx rc ts] = tx_delta tx rc a.
Proof.
  intros Ha. unfold calls_view, tx_delta, count, total, call_gas_cost.
  cbn [tally any_record andb].
  assert (F : field "from" (contract_call_doc runId h tx rc ts) = JStr (tx_from tx))
    by reflexivity.
  assert (T : field "to" (contract_call_doc runId h tx rc ts)
              = if truthy_ostr (tx_to tx) then jstr_or_null (tx_to tx) else JNull)
    by reflexivity.
  assert (G : amount_of (field "gas_used" (contract_call_doc runId h tx rc ts))
              = rc_gasUsed rc).
  { change (field "gas_used" (contract_call_doc runId h tx rc ts))
      with (JStr (bigint_toString (rc_gasUsed rc))).
    apply parsed_toString. }
  assert (P : amount_of (field "effective_gas_price" (contract_call_doc runId h tx rc ts))
              = gasPrice tx).
  { change (field "effective_gas_price" (contract_call_doc runId h tx rc ts))
      with (JStr (bigint_toString (gasPrice tx))).
    apply parsed_toString. }
  rewrite F, T, G, P. cbn [jstr_is].
  assert (E1 : truthy_str (tx_from tx) && String.eqb a (tx_from tx)
               = String.eqb a (tx_from tx)).
  { destruct (String.eqb_spec a (tx_from tx)) as [<-|]; [|apply andb_false_r].
    destruct a; [congruence | reflexivity]. }
  rewrite E1.
  assert (E2 : jstr_is a (if truthy_ostr (tx_to tx) then jstr_or_null (tx_to tx) else JNull)
               = match tx_to tx with
                 | Some to => truthy_str to && String.eqb a to
                 | None => false
                 end).
  { destruct (tx_to tx) as [to|]; [|reflexivity]. cbn [truthy_ostr].
    destruct (truthy_str to) eqn:Tt; [reflexivity|]. cbn. reflexivity. }
  rewrite E2.
  destruct (String.eqb a (tx_from tx)); destruct (tx_to tx) as [to|];
    try destruct (truthy_str to && String.eqb a to); cbn; apply tuple4_eq; lia.
Qed.

Lemma derive_loop_tx_view (runId : string) (fs : list Fetched) (st st' : State) :
  derive_loop runId fs st = Ok st' ->
  forall a, a <> EmptyString ->
    obs tx_view a (prof st) = calls_view a (written contractCallsW (out st)) ->
    obs tx_view a (prof st') = calls_view a (written contractCallsW (out st')).
Proof.
  revert st. induction fs as [|f fs IH]; intros st H a Ha K.
  - now injection H as <-.
  - cbn [derive_loop] in H. bind_inv H st1 H1. apply (IH st1 H a Ha).
    rewrite (iteration_written runId contractCallsW f st st1 eq_refl H1).
    unfold iteration, run_docs in *.
    destruct (f_tx f) as [tx|]; [destruct (f_rc f) as [rc|]|];
      try (injection H1 as <-; cbn; now rewrite app_nil_r).
    rewrite (derive_tx_tx_view _ _ _ _ _ _ _ _ H1 a), K, calls_view_app.
    f_equal. symmetry.
    rewrite (proj2 (proj2 (written_timeline_streams runId (f_hash f) tx rc (f_blk f)
                             (f_trace f)))).
    now apply calls_view_call.
Qed.

(** X16.  The transaction figures of a flushed profile are what the
    [contract_call] records of the run say: for an address that is not
    the empty string, [tx_out_count] is the number of calls whose [from]
    is the address, [tx_in_count] the number of calls whose [to] is the
    address, [total_gas_used] the decimal sum of the [gas_used] of the
    calls it sent, and [gas_spent_wei] the decimal sum of their
    [gas_used] times [effective_gas_price]. *)
Theorem profile_counts_contract_calls (runId : string) (fs : list Fetched) (st : State) :
  derive runId fs = Ok st ->
  forall p a,
    In p (written profilesW (out st)) ->
    field "address" p = JStr a -> a <> EmptyString ->
    let calls := written contractCallsW (out st) in
    field "tx_out_count" p = JNum (count any_record "from" a calls)
    /\ field "tx_in_count" p = JNum (count any_record "to" a calls)
    /\ field "total_gas_used" p
       = JStr (bigint_toString (total any_record "gas_used" "from" a calls))
    /\ field "gas_spent_wei" p
       = JStr (bigint_toString (tally any_record call_gas_cost "from" a calls)).
Proof.
  intros H p a Hp Ha Hne calls.
  destruct (derive_Ok runId fs st H) as (st0 & new & H0 & O0 & S & _ & [N F] & O).
  destruct (written_flush runId st0 new S) as (WP & _).
  assert (C : calls = written contractCallsW (out st0)).
  { unfold calls. rewrite O, O0, written_app. unfold flush_docs.
    rewrite written_app, !written_other by reflexivity. now rewrite !app_nil_r. }
  rewrite O, WP in Hp. apply in_map_iff in Hp. destruct Hp as ([k pr] & <- & Hin).
  cbn [snd] in *.
  pose proof (proj1 (Forall_forall _ _) F _ Hin) as Hok. cbn [fst snd] in Hok.
  destruct Hok as (Hk & _ & _ & (g & Eg) & (u & Eu) & _).
  assert (k = a) as -> by (change (field "address" (profile_doc runId pr))
                             with (JStr (address pr)) in Ha; congruence).
  pose proof (derive_loop_tx_view runId fs init_state st0 H0 a Hne eq_refl) as V.
  rewrite (obs_get tx_view a _ pr (map_get_In _ _ _ N Hin)), <- C in V.
  unfold tx_view, calls_view in V. injection V as V1 V2 V3 V4.
  rewrite Eg, parsed_toString in V3. rewrite Eu, parsed_toString in V4.
  change (field "tx_out_count" (profile_doc runId pr)) with (JNum (tx_out_count pr)).
  change (field "tx_in_count" (profile_doc runId pr)) with (JNum (tx_in_count pr)).
  change (field "total_gas_used" (profile_doc runId pr)) with (JStr (total_gas_used pr)).
  change (field "gas_spent_wei" (profile_doc runId pr)) with (JStr (gas_spent_wei pr)).
  rewrite V1, V2, Eg, Eu, V3, V4. splits; reflexivity.
Qed.

Lemma profile_counts_contract_calls_witness :
  exists st p,
    derive "RUN_1" approval_then_spend = Ok st
    /\ In p (written profilesW (out st))
    /\ field "tx_in_count" p = JNum 2
    /\ field "tx_in_count" p
       = JNum (count any_record "to" "0x5fbdb2315678afecb367f032d93f642f64180aa3"
                 (written contractCallsW (out st))).
Proof.
  eexists _, _. split; [vm_compute; reflexivity|].
  split; [vm_compute; right; left; reflexivity|].
  split; [vm_compute; reflexivity|].
  eapply (profile_counts_contract_calls "RUN_1" approval_then_spend).
  - vm_compute; reflexivity.
  - vm_compute. right. left. reflexivity.
  - vm_compute; reflexivity.
  - discriminate.
Defined.

(** ** Token totals against the token transfers *)

Lemma add_token_amount (tok : string) (amt : Z) (o o' : list (string * string)) t :
  add_token tok amt o = Ok o' ->
  token_amount t o' = token_amount t o + (if String.eqb t tok then amt else 0).
Proof.
  unfold add_token. cbv zeta. intros H. bind_inv H cur Hc. injection H as <-.
  unfold token_amount. rewrite map_get_set.
  destruct (String.eqb_spec t tok) as [->|]; [|lia].
  rewrite parsed_toString. f_equal.
  unfold BigInt in Hc.
  destruct (map_get tok o) as [s|].
  - destruct (truthy_str s) eqn:T.
    + unfold parsed, amount_of. destruct (StringToBigInt s); congruence.
    + destruct s; [|discriminate T]. vm_compute in Hc. injection Hc as <-. reflexivity.
  - vm_compute in Hc. now injection Hc as <-.
Qed.

Section TokenView.

Variables (runId h : string) (rc : Receipt) (ts : option Z) (t a : string).

Lemma token_transfer_step_in (x : Transfer) (st st' : State) :
  token_transfer_step runId h rc ts x st = Ok st' ->
  obs (fun p => token_amount t (erc20_in p)) a (prof st')
  = obs (fun p => token_amount t (erc20_in p)) a (prof st) + received t a x.
Proof.
  unfold token_transfer_step. cbv zeta. intros H.
  bind_inv H p1 H1. bind_inv H p2 H2. injection H as <-.
  cbn [prof set_prof emit set_out] in *.
  assert (E1 : obs (fun p => token_amount t (erc20_in p)) a p1
               = obs (fun p => token_amount t (erc20_in p)) a (prof st)).
  { destruct (tr_from x) as [from|]; [|now injection H1 as <-].
    destruct (truthy_str from); [|now injection H1 as <-].
    rewrite (modify_frame _ _ _ _ _ H1), obs_getProf; [reflexivity|].
    intros v v' Hv. bind_inv Hv o Ho. now injection Hv as <-. }
  rewrite <- E1. unfold received.
  destruct (tr_to x) as [to|]; [|injection H2 as <-; lia].
  destruct (truthy_str to); cbn [andb]; [|injection H2 as <-; lia].
  rewrite (modify_obs_change (fun p => token_amount t (erc20_in p))
             (fun z => z + (if String.eqb t (tr_tokenAddr x) then tr_amount x else 0))
             _ _ _ _ H2), obs_getProf.
  - destruct (String.eqb a to); cbn [andb]; [reflexivity|lia].
  - intros v v' Hv. bind_inv Hv o Ho. injection Hv as <-. cbn [erc20_in set_erc20_in].
    exact (add_token_amount _ _ _ _ t Ho).
Qed.

Lemma token_transfer_step_out (x : Transfer) (st st' : State) :
  token_transfer_step runId h rc ts x st = Ok st' ->
  obs (fun p => token_amount t (erc20_out p)) a (prof st')
  = obs (fun p => token_amount t (erc20_out p)) a (prof st) + sent t a x.
Proof.
  unfold token_transfer_step. cbv zeta. intros H.
  bind_inv H p1 H1. bind_inv H p2 H2. injection H as <-.
  cbn [prof set_prof emit set_out] in *.
  assert (E2 : obs (fun p => token_amount t (erc20_out p)) a p2
               = obs (fun p => token_amount t (erc20_out p)) a p1).
  { destruct (tr_to x) as [to|]; [|now injection H2 as <-].
    destruct (truthy_str to); [|now injection H2 as <-].
    rewrite (modify_frame _ _ _ _ _ H2), obs_getProf; [reflexivity|].
    intros v v' Hv. bind_inv Hv o Ho. now injection Hv as <-. }
  rewrite E2. unfold sent.
  destruct (tr_from x) as [from|]; [|injection H1 as <-; lia].
  destruct (truthy_str from); cbn [andb]; [|injection H1 as <-; lia].
  rewrite (modify_obs_change (fun p => token_amount t (erc20_out p))
             (fun z => z + (if String.eqb t (tr_tokenAddr x) then tr_amount x else 0))
             _ _ _ _ H1), obs_getProf.
  - destruct (String.eqb a from); cbn [andb]; [reflexivity|lia].
  - intros v v' Hv. bind_inv Hv o Ho. injection Hv as <-. cbn [erc20_out set_erc20_out].
    exact (add_token_amount _ _ _ _ t Ho).
Qed.

Lemma token_transfers_block_amounts (logs : list Log) (transfers transfers' : list Transfer)
    (st st' : State) :
  token_transfers_block runId h rc ts logs transfers st = Ok (transfers', st') ->
  obs (fun p => token_amount t (erc20_in p)) a (prof st')
  = obs (fun p => token_amount t (erc20_in p)) a (prof st)
    + sum_Z (map (received t a) (decoded_transfers logs))
  /\ obs (fun p => token_amount t (erc20_out p)) a (prof st')
     = obs (fun p => token_amount t (erc20_out p)) a (prof st)
       + sum_Z (map (sent t a) (decoded_transfers logs)).
Proof.
  revert transfers st. induction logs as [|lg logs IH]; intros transfers st H.
  - inversion H. cbn. split; lia.
  - cbn [token_transfers_block decoded_transfers] in *.
    bind_inv H d Hd. rewrite Hd. destruct d as [x|].
    + bind_inv H st1 H1. destruct (IH _ _ H) as (I & O).
      rewrite I, O, (token_transfer_step_in x _ _ H1), (token_transfer_step_out x _ _ H1).
      cbn [map sum_Z fold_right]. fold (sum_Z (map (received t a) (decoded_transfers logs))).
      fold (sum_Z (map (sent t a) (decoded_transfers logs))). split; lia.
    + exact (IH _ _ H).
Qed.

Lemma touch_seen_tokens (t0 : option Z) (b : Z) (p : Prof) :
  erc20_in (touch_seen t0 b p) = erc20_in p
  /\ erc20_out (touch_seen t0 b p) = erc20_out p.
Proof. unfold touch_seen. destruct t0; case_ifs; split; reflexivity. Qed.

Lemma derive_tx_but_tokens {X} (phi : Prof -> X) (tx : Tx) (trace : option Call)
    (st st' : State) :
  (forall v p, phi (set_eth_out_wei v p) = phi p) ->
  (forall v p, phi (set_eth_out_txs v p) = phi p) ->
  (forall v p, phi (set_eth_in_wei v p) = phi p) ->
  (forall v p, phi (set_eth_in_txs v p) = phi p) ->
  (forall v p, phi (set_call_targets v p) = phi p) ->
  (forall v p, phi (set_tx_out_count v p) = phi p) ->
  (forall v p, phi (set_tx_in_count v p) = phi p) ->
  (forall v p, phi (set_gas_spent_wei v p) = phi p) ->
  (forall v p, phi (set_total_gas_used v p) = phi p) ->
  (forall t0 b p, phi (touch_seen t0 b p) = phi p) ->
  derive_tx runId h tx rc ts trace st = Ok st' ->
  exists st3 st4 transfers,
    token_transfers_block runId h rc ts (rc_logs rc) [] st3 = Ok (transfers, st4)
    /\ (forall x, obs phi x (prof st3) = obs phi x (prof st))
    /\ (forall x, obs phi x (prof st') = obs phi x (prof st4)).
Proof.
  intros E1 E2 E3 E4 E5 S1 S2 S3 S4 S5 H.
  destruct (derive_tx_blocks _ _ _ _ _ _ _ _ H)
    as (st1 & st2 & st3 & st4 & st5 & transfers & H1 & P2 & H3 & H4 & H5 & P6).
  exists st3, st4, transfers. split; [exact H4|]. split; intros x.
  - rewrite (eth_transfer_block_frame phi runId h tx rc ts E1 E2 E3 E4 E5 _ _ H3 x), P2.
    exact (profile_block_frame phi tx rc ts S1 S2 S3 S4 S5 _ _ H1 x).
  - rewrite P6. exact (trace_block_frame phi runId h rc ts E1 E3 E5 trace _ _ H5 x).
Qed.

Lemma derive_tx_amounts (tx : Tx) (trace : option Call) (st st' : State) :
  derive_tx runId h tx rc ts trace st = Ok st' ->
  obs (fun p => token_amount t (erc20_in p)) a (prof st')
  = obs (fun p => token_amount t (erc20_in p)) a (prof st)
    + sum_Z (map (received t a) (decoded_transfers (rc_logs rc)))
  /\ obs (fun p => token_amount t (erc20_out p)) a (prof st')
     = obs (fun p => token_amount t (erc20_out p)) a (prof st)
       + sum_Z (map (sent t a) (decoded_transfers (rc_logs rc))).
Proof.
  intros H. split.
  - destruct (derive_tx_but_tokens (fun p => token_amount t (erc20_in p)) tx trace st st')
      as (st3 & st4 & transfers & H4 & B & A); auto;
      try (intros; now rewrite (proj1 (touch_seen_tokens _ _ _))).
    rewrite A, (proj1 (token_transfers_block_amounts _ _ _ _ _ H4)), B. reflexivity.
  - destruct (derive_tx_but_tokens (fun p => token_amount t (erc20_out p)) tx trace st st')
      as (st3 & st4 & transfers & H4 & B & A); auto;
      try (intros; now rewrite (proj2 (touch_seen_tokens _ _ _))).
    rewrite A, (proj2 (token_transfers_block_amounts _ _ _ _ _ H4)), B. reflexivity.
Qed.

Hypothesis a_truthy : a <> EmptyString.

Lemma total_token_docs (l : list Transfer) :
  total (is_token_transfer t) "amount" "to" a (map (token_transfer_doc runId h rc ts) l)
  = sum_Z (map (received t a) l)
  /\ total (is_token_transfer t) "amount" "from" a
       (map (token_transfer_doc runId h rc ts) l)
     = sum_Z (map (sent t a) l).
Proof.
  unfold total. induction l as [|x l [IH1 IH2]]; [split; reflexivity|].
  cbn [map tally sum_Z fold_right].
  fold (sum_Z (map (received t a) l)). fold (sum_Z (map (sent t a) l)).
  rewrite IH1, IH2.
  assert (S : is_token_transfer t (token_transfer_doc runId h rc ts x)
              = String.eqb t (tr_tokenAddr x)) by reflexivity.
  assert (A : amount_of (field "amount" (token_transfer_doc runId h rc ts x))
              = tr_amount x).
  { change (field "amount" (token_transfer_doc runId h rc ts x))
      with (JStr (bigint_toString (tr_amount x))). apply parsed_toString. }
  assert (T : field "to" (token_transfer_doc runId h rc ts x) = jstr_or_null (tr_to x))
    by reflexivity.
  assert (F : field "from" (token_transfer_doc runId h rc ts x) = jstr_or_null (tr_from x))
    by reflexivity.
  rewrite S, A, T, F. unfold received, sent.
  assert (E : forall o : option string,
             jstr_is a (jstr_or_null o)
             = match o with
               | Some s => truthy_str s && String.eqb a s
               | None => false
               end).
  { intros [s|]; [|reflexivity]. cbn [jstr_or_null jstr_is].
    destruct (String.eqb_spec a s) as [<-|]; [|now rewrite andb_false_r].
    destruct a; [congruence | reflexivity]. }
  rewrite !E.
  split; f_equal.
  - destruct (tr_to x) as [s|]; [|now rewrite andb_false_r].
    destruct (truthy_str s), (String.eqb a s), (String.eqb t (tr_tokenAddr x)); reflexivity.
  - destruct (tr_from x) as [s|]; [|now rewrite andb_false_r].
    destruct (truthy_str s), (String.eqb a s), (String.eqb t (tr_tokenAddr x)); reflexivity.
Qed.

Lemma total_native_docs (tx : Tx) side :
  total (is_token_transfer t) "amount" side a
    (written transfersW (native_docs runId h tx rc ts)) = 0.
Proof.
  unfold native_docs. destruct (tx_to tx); [|reflexivity].
  destruct (sends_value tx); reflexivity.
Qed.

Lemma total_tx_docs (tx : Tx) (trace : option Call) :
  total (is_token_transfer t) "amount" "to" a
    (written transfersW (tx_docs runId h tx rc ts trace))
  = sum_Z (map (received t a) (decoded_transfers (rc_logs rc)))
  /\ total (is_token_transfer t) "amount" "from" a
       (written transfersW (tx_docs runId h tx rc ts trace))
     = sum_Z (map (sent t a) (decoded_transfers (rc_logs rc))).
Proof.
  pose proof (timeline_docs_streams runId h tx rc ts) as S0.
  pose proof (trace_docs_streams runId h rc ts trace) as SC.
  pose proof (revert_docs_streams runId h rc ts trace) as SR.
  pose proof (approval_docs_streams runId h rc ts (rc_logs rc) 0) as SA.
  rewrite written_tx_docs, written_token_docs,
    (written_none _ _ (streams_none _ transfersW _ S0 eq_refl)),
    (written_none _ _ (streams_none _ transfersW _ SC eq_refl)),
    (written_none _ _ (streams_none _ transfersW _ SR eq_refl)),
    (written_none _ _ (streams_none _ transfersW _ SA eq_refl)).
  cbn [app]. rewrite !app_nil_r. unfold total. rewrite !tally_app.
  fold (total (is_token_transfer t) "amount" "to" a
          (written transfersW (native_docs runId h tx rc ts))).
  fold (total (is_token_transfer t) "amount" "from" a
          (written transfersW (native_docs runId h tx rc ts))).
  rewrite !total_native_docs.
  destruct (total_token_docs (decoded_transfers (rc_logs rc))) as (I & O).
  unfold total in I, O. rewrite I, O. split; reflexivity.
Qed.

End TokenView.

Lemma derive_loop_amounts (runId : string) (t a : string) (fs : list Fetched)
    (st st' : State) :
  a <> EmptyString ->
  derive_loop runId fs st = Ok st' ->
  obs (fun p => token_amount t (erc20_in p)) a (prof st)
    = total (is_token_transfer t) "amount" "to" a (written transfersW (out st))
  /\ obs (fun p => token_amount t (erc20_out p)) a (prof st)
     = total (is_token_transfer t) "amount" "from" a (written transfersW (out st)) ->
  obs (fun p => token_amount t (erc20_in p)) a (prof st')
    = total (is_token_transfer t) "amount" "to" a (written transfersW (out st'))
  /\ obs (fun p => token_amount t (erc20_out p)) a (prof st')
     = total (is_token_transfer t) "amount" "from" a (written transfersW (out st')).
Proof.
  intros Ha. revert st. induction fs as [|f fs IH]; intros st H K.
  - now injection H as <-.
  - cbn [derive_loop] in H. bind_inv H st1 H1. apply (IH st1 H).
    rewrite (iteration_written runId transfersW f st st1 eq_refl H1).
    unfold iteration, run_docs in *.
    destruct (f_tx f) as [tx|]; [destruct (f_rc f) as [rc|]|];
      try (injection H1 as <-; cbn; now rewrite app_nil_r).
    destruct (derive_tx_amounts runId (f_hash f) rc (f_blk f) t a tx _ _ _ H1) as (I & O).
    destruct (total_tx_docs runId (f_hash f) rc (f_blk f) t a Ha tx (f_trace f))
      as (DI & DO).
    destruct K as (KI & KO).
    unfold total in *. rewrite !tally_app, I, O, KI, KO, DI, DO. split; reflexivity.
Qed.

Lemma map_get_map {V W} (g : V -> W) (k : string) (m : list (string * V)) :
  map_get k (map (fun kv => (fst kv, g (snd kv))) m) = option_map g (map_get k m).
Proof.
  induction m as [|[k0 v0] m IH]; [reflexivity|]. cbn.
  destruct (String.eqb k k0); [reflexivity | exact IH].
Qed.

(** X17.  The token totals of a flushed profile are what the ERC-20
    [asset_transfer] records of the run say: for an address that is not
    the empty string and any token, the amount under the token in
    [erc20_in] is the sum of the amounts of the token's transfers whose
    [to] is the address, the amount in [erc20_out] the sum of those whose
    [from] is the address, and a token absent from the object has no
    such transfer or transfers that sum to zero. *)
Theorem profile_token_totals (runId : string) (fs : list Fetched) (st : State) :
  derive runId fs = Ok st ->
  forall p a t,
    In p (written profilesW (out st)) ->
    field "address" p = JStr a -> a <> EmptyString ->
    let transfers := written transfersW (out st) in
    token_field t (field "erc20_in" p)
    = total (is_token_transfer t) "amount" "to" a transfers
    /\ token_field t (field "erc20_out" p)
       = total (is_token_transfer t) "amount" "from" a transfers.
Proof.
  intros H p a t Hp Ha Hne transfers.
  destruct (derive_Ok runId fs st H) as (st0 & new & H0 & O0 & S & _ & [N F] & O).
  destruct (written_flush runId st0 new S) as (WP & _).
  assert (C : transfers = written transfersW (out st0)).
  { unfold transfers. rewrite O, O0, written_app. unfold flush_docs.
    rewrite written_app, !written_other by reflexivity. now rewrite !app_nil_r. }
  rewrite O, WP in Hp. apply in_map_iff in Hp. destruct Hp as ([k pr] & <- & Hin).
  cbn [snd] in *.
  pose proof (proj1 (Forall_forall _ _) F _ Hin) as Hok. cbn [fst snd] in Hok.
  destruct Hok as (Hk & _).
  assert (k = a) as -> by (change (field "address" (profile_doc runId pr))
                             with (JStr (address pr)) in Ha; congruence).
  destruct (derive_loop_amounts runId t a fs init_state st0 Hne H0
              (conj eq_refl eq_refl)) as (VI & VO).
  rewrite (obs_get _ a _ pr (map_get_In _ _ _ N Hin)), <- C in VI.
  rewrite (obs_get _ a _ pr (map_get_In _ _ _ N Hin)), <- C in VO.
  rewrite <- VI, <- VO.
  change (field "erc20_in" (profile_doc runId pr))
    with (JObj (map (fun kv => (fst kv, JStr (snd kv))) (erc20_in pr))).
  change (field "erc20_out" (profile_doc runId pr))
    with (JObj (map (fun kv => (fst kv, JStr (snd kv))) (erc20_out pr))).
  unfold token_field, token_amount. rewrite !map_get_map.
  split; [destruct (map_get t (erc20_in pr)) | destruct (map_get t (erc20_out pr))];
    reflexivity.
Qed.

Lemma profile_token_totals_witness :
  exists st p,
    derive "RUN_1" approval_then_spend = Ok st
    /\ In p (written profilesW (out st))
    /\ field "address" p = JStr "0x3c44cdddb6a900fa2b585dd299e03d12fa4293bc"
    /\ token_field "0x5fbdb2315678afecb367f032d93f642f64180aa3" (field "erc20_in" p) = 16
    /\ token_field "0x5fbdb2315678afecb367f032d93f642f64180aa3" (field "erc20_in" p)
       = total (is_token_transfer "0x5fbdb2315678afecb367f032d93f642f64180aa3")
           "amount" "to" "0x3c44cdddb6a900fa2b585dd299e03d12fa4293bc"
           (written transfersW (out st)).
Proof.
  eexists _, _. split; [vm_compute; reflexivity|].
  split; [vm_compute; do 4 right; left; reflexivity|].
  split; [vm_compute; reflexivity|]. split; [vm_compute; reflexivity|].
  eapply (profile_token_totals "RUN_1" approval_then_spend).
  - vm_compute; reflexivity.
  - vm_compute. do 4 right. left. reflexivity.
  - vm_compute; reflexivity.
  - discriminate.
Defined.

(* ------------------------------------------------------------------ *)
(** ** A log whose data is no number *)

Lemma derive_loop_app (runId : string) (fs1 fs2 : list Fetched) (st : State) :
  derive_loop runId (fs1 ++ fs2) st
  = do st1 <- derive_loop runId fs1 st; derive_loop runId fs2 st1.
Proof.
  revert st. induction fs1 as [|f fs1 IH]; intros st; [reflexivity|].
  rewrite <- app_comm_cons. cbn [derive_loop].
  destruct (iteration runId f st) as [st1|e]; cbn [bind]; [apply IH | reflexivity].
Qed.

Lemma token_transfers_block_throws (runId h : string) (rc : Receipt) (ts : option Z)
    (pre : list Log) (lg : Log) (post : list Log) (transfers : list Transfer)
    (st : State) (e : string) :
  forallb wf_log pre = true -> profs_ok (prof st) ->
  has_shape TRANSFER_TOPIC0 lg ->
  hexToBigInt (data_or_0x (lg_data lg)) = Throw e ->
  token_transfers_block runId h rc ts (pre ++ lg :: post) transfers st = Throw e.
Proof.
  intros Hwf Hok Hs He. revert transfers st Hok Hwf.
  induction pre as [|l pre IH]; intros transfers st Hok Hwf.
  - rewrite app_nil_l. cbn [token_transfers_block]. rewrite decodeTransferLog_cases.
    apply (shape_test TRANSFER_TOPIC0 lg TRANSFER_TOPIC0_lower) in Hs.
    destruct Hs as [-> ->]. now rewrite He.
  - cbn [forallb] in Hwf. apply andb_true_iff in Hwf. destruct Hwf as [Hl Hwf].
    rewrite <- app_comm_cons. cbn [token_transfers_block].
    destruct (decodeTransferLog_total l Hl) as (d & ->). cbn [bind].
    destruct d as [t|]; [|now apply IH].
    destruct (token_transfer_step_total runId h rc ts t st Hok) as (st1 & H1).
    rewrite H1. cbn [bind]. apply IH; [|assumption].
    apply token_transfer_step_spec in H1. destruct H1 as (_ & _ & _ & K). auto.
Qed.

Lemma derive_tx_throws (runId h : string) (tx : Tx) (rc : Receipt) (ts : option Z)
    (trace : option Call) (pre : list Log) (lg : Log) (post : list Log)
    (st : State) (e : string) :
  profs_ok (prof st) ->
  rc_logs rc = pre ++ lg :: post ->
  forallb wf_log pre = true ->
  has_shape TRANSFER_TOPIC0 lg ->
  hexToBigInt (data_or_0x (lg_data lg)) = Throw e ->
  derive_tx runId h tx rc ts trace st = Throw e.
Proof.
  intros Hok Hl Hwf Hs He. unfold derive_tx. cbv zeta.
  destruct (profile_block_total tx rc ts (timeline_block runId h tx rc ts st) Hok)
    as (st1 & H1).
  rewrite H1. cbn [bind].
  destruct (profile_block_spec _ _ _ _ _ H1) as (_ & _ & _ & _ & K1).
  destruct (method_stats_block_spec tx rc ts st1) as (st2 & H2 & _ & _ & P2).
  rewrite H2. cbn [bind].
  destruct (eth_transfer_block_total runId h tx rc ts st2) as (st3 & H3);
    [rewrite P2; now apply K1|].
  rewrite H3. cbn [bind].
  destruct (eth_transfer_block_spec _ _ _ _ _ _ _ H3) as (_ & _ & _ & K3).
  rewrite Hl, (token_transfers_block_throws runId h rc ts pre lg post [] st3 e);
    auto.
  apply K3. rewrite P2. now apply K1.
Qed.

(** X18.  A log with the event signature of [Transfer] whose data is no
    number ends the run: when the loop has come to a transaction with such
    a log, the logs before it being well formed, the derivation throws the
    error of [BigInt], whatever comes after.  The same data under the
    signature of [Approval] is skipped by [decodeApprovalEvent], which
    returns null. *)
Theorem unreadable_transfer_data_aborts (runId : string) (fs1 fs2 : list Fetched)
    (f : Fetched) (st1 : State) (tx : Tx) (rc : Receipt)
    (pre post : list Log) (lg : Log) (e : string) :
  derive_loop runId fs1 init_state = Ok st1 ->
  f_tx f = Some tx -> f_rc f = Some rc ->
  rc_logs rc = pre ++ lg :: post ->
  forallb wf_log pre = true ->
  hexToBigInt (data_or_0x (lg_data lg)) = Throw e ->
  (has_shape TRANSFER_TOPIC0 lg -> derive runId (fs1 ++ f :: fs2) = Throw e)
  /\ (has_shape APPROVAL_TOPIC0 lg -> decodeApprovalEvent lg = None).
Proof.
  intros H1 Htx Hrc Hl Hwf He. split; intros Hs.
  - unfold derive. rewrite derive_loop_app, H1. cbn [bind derive_loop].
    unfold iteration. rewrite Htx, Hrc.
    destruct (derive_loop_steps _ _ _ _ H1) as (new & (_ & _ & K) & _).
    rewrite (derive_tx_throws runId (f_hash f) tx rc (f_blk f) (f_trace f)
               pre lg post st1 e); auto.
    apply K, profs_ok_init.
  - rewrite decodeApprovalEvent_cases.
    apply (shape_test APPROVAL_TOPIC0 lg APPROVAL_TOPIC0_lower) in Hs.
    destruct Hs as [-> ->]. now rewrite He.
Qed.

Lemma unreadable_transfer_data_aborts_witness :
  derive "RUN_1" (payments_run ++ fetched_with_log (unreadable_log TRANSFER_TOPIC0)
                    :: payments_run)
  = Throw "SyntaxError: Cannot convert to a BigInt"
  /\ decodeApprovalEvent (unreadable_log APPROVAL_TOPIC0) = None.
Proof.
  split.
  - refine (proj1 (unreadable_transfer_data_aborts "RUN_1" payments_run payments_run
                     (fetched_with_log (unreadable_log TRANSFER_TOPIC0))
                     _ _ _ [] [] _ _ _ eq_refl eq_refl eq_refl eq_refl _) _).
    + vm_compute; reflexivity.
    + vm_compute; reflexivity.
    + split; vm_compute; reflexivity.
  - refine (proj2 (unreadable_transfer_data_aborts "RUN_1" [] []
                     (fetched_with_log (unreadable_log APPROVAL_TOPIC0)) init_state
                     _ _ [] [] _ _ eq_refl eq_refl eq_refl eq_refl eq_refl _) _).
    + vm_compute; reflexivity.
    + split; vm_compute; reflexivity.
Defined.

(* ------------------------------------------------------------------ *)
(** ** The snapshot set of the RAW export *)

Lemma set_has_In (x : string) (s : list string) : set_has x s = true <-> In x s.
Proof.
  unfold set_has. rewrite existsb_exists. split.
  - intros (y & Hy & E). apply String.eqb_eq in E. now subst.
  - intros H. exists x. split; [assumption | apply String.eqb_refl].
Qed.

Lemma set_add_In (x a : string) (s : list string) :
  In x (set_add a s) <-> In x s \/ x = a.
Proof.
  unfold set_add. destruct (existsb (String.eqb a) s) eqn:E.
  - apply (set_has_In a s) in E. split; [auto | intros [H| ->]; assumption].
  - rewrite in_app_iff. cbn. intuition.
Qed.

Lemma truthy_str_iff (a : string) : truthy_str a = true <-> a <> EmptyString.
Proof. destruct a; cbn; split; congruence. Qed.

Lemma add_truthy_In (x : string) (l s : list string) :
  In x (add_truthy l s) <-> In x s \/ (In x l /\ x <> EmptyString).
Proof.
  unfold add_truthy. revert s. induction l as [|a l IH]; intros s; cbn [fold_left].
  - cbn. tauto.
  - rewrite IH. destruct (truthy_str a) eqn:T.
    + rewrite set_add_In. apply truthy_str_iff in T. cbn [In].
      split; [intros [[H| ->]|[H N]] | intros [H|[[->|H] N]]]; auto.
    + cbn [In]. split; [intros [H|[H N]] | intros [H|[[->|H] N]]]; auto.
      apply truthy_str_iff in N. congruence.
Qed.

Lemma banned_In (x : string) (d : Deployed) :
  In x (banned d) <-> In x (contract_values d).
Proof.
  unfold banned, contract_values. cbn [fold_left].
  rewrite !set_add_In. cbn [In]. intuition.
Qed.

Lemma snap_init_In (x : string) (attackers : list string) (d : Deployed) :
  In x (snapAddrs (snap_init attackers d))
  <-> x <> EmptyString /\ (In x attackers \/ In x (contract_values d)).
Proof.
  unfold snap_init. cbn [snapAddrs]. rewrite !add_truthy_In. cbn [In]. tauto.
Qed.

Lemma lt_num_mono (n m : Z) (cap : Cap) :
  n <= m -> lt_num m cap = true -> lt_num n cap = true.
Proof. destruct cap as [c| | |]; cbn; auto. rewrite !Z.ltb_lt. lia. Qed.

Lemma snap_step_nil (cap : Cap) (s : Snap) : snap_step cap [] s s.
Proof.
  exists []. rewrite app_nil_r. cbn [List.length]. splits; auto; try lia.
  intros _ a [].
Qed.

Lemma snap_step_trans (cap : Cap) (l1 l2 : list string) (s s1 s2 : Snap) :
  snap_step cap l1 s s1 -> snap_step cap l2 s1 s2 -> snap_step cap (l1 ++ l2) s s2.
Proof.
  intros (a1 & A1 & O1 & F1 & B1 & C1) (a2 & A2 & O2 & F2 & B2 & C2).
  exists (a1 ++ a2). splits.
  - now rewrite A2, A1, app_assoc.
  - rewrite O2, O1, length_app. lia.
  - apply Forall_app. split.
    + eapply Forall_impl; [|exact F1]. cbn. intros a (N & I & S). splits; auto.
      apply in_app_iff. auto.
    + eapply Forall_impl; [|exact F2]. cbn. intros a (N & I & S). splits; auto.
      * intros K. apply I. rewrite A1. apply in_app_iff. auto.
      * apply in_app_iff. auto.
  - destruct B2 as [->|B2]; [|auto].
    destruct B1 as [->|B1]; [auto|]. right.
    cbn [List.length] in O2. replace (observedEOAs s2) with (observedEOAs s1) by lia.
    exact B1.
  - intros L a Ha Hne. apply in_app_iff in Ha. destruct Ha as [Ha|Ha].
    + rewrite A2. apply in_app_iff. left. apply C1; auto.
      apply (lt_num_mono _ (observedEOAs s2)); [lia | exact L].
    + now apply C2.
Qed.

Lemma observe_step (cap : Cap) (a : string) (s : Snap) :
  snap_step cap [a] s (observe cap a s).
Proof.
  unfold observe.
  destruct (truthy_str a) eqn:T; cbn [andb].
  2:{ exists []. rewrite app_nil_r. cbn [List.length]. splits; auto; try lia.
      intros _ x [<-|[]] N. apply truthy_str_iff in N. congruence. }
  destruct (lt_num (observedEOAs s) cap) eqn:L; cbn [andb].
  2:{ exists []. rewrite app_nil_r. cbn [List.length]. splits; auto; try lia.
      congruence. }
  destruct (set_has a (snapAddrs s)) eqn:M; cbn [negb].
  - exists []. rewrite app_nil_r. cbn [List.length]. splits; auto; try lia.
    intros _ x [<-|[]] _. now apply set_has_In.
  - assert (N : ~ In a (snapAddrs s)).
    { intros K. apply set_has_In in K. congruence. }
    exists [a]. cbn [snapAddrs observedEOAs List.length]. splits.
    + unfold set_add. unfold set_has in M. now rewrite M.
    + lia.
    + constructor; [|constructor]. splits; auto.
      * now apply truthy_str_iff.
      * now left.
    + right. now replace (observedEOAs s + 1 - 1) with (observedEOAs s) by lia.
    + intros _ x [<-|[]] _. apply set_add_In. auto.
Qed.

Lemma expand_snapshot_set_step (cap : Cap) (f : Fetched) (s : Snap) :
  snap_step cap (addresses_of f) s (expand_snapshot_set cap f s).
Proof.
  unfold expand_snapshot_set, addresses_of.
  destruct (f_tx f) as [tx|]; [|apply snap_step_nil].
  destruct (f_rc f) as [rc|]; [|apply snap_step_nil]. cbv zeta.
  destruct (tx_to tx) as [to|].
  - apply (snap_step_trans cap [tx_from tx] [to] s (observe cap (tx_from tx) s));
      apply observe_step.
  - apply observe_step.
Qed.

Lemma export_snapshot_set_step (cap : Cap) (fs : list Fetched) (s : Snap) :
  snap_step cap (flat_map addresses_of fs) s (export_snapshot_set cap fs s).
Proof.
  unfold export_snapshot_set. revert s.
  induction fs as [|f fs IH]; intros s; cbn [fold_left flat_map].
  - apply snap_step_nil.
  - eapply snap_step_trans; [apply expand_snapshot_set_step | apply IH].
Qed.

Lemma filter_none {A} (p : A -> bool) (l : list A) :
  (forall a, In a l -> p a = false) -> filter p l = [].
Proof.
  induction l as [|x l IH]; intros H; [reflexivity|]. cbn [filter].
  rewrite (H x (or_introl eq_refl)). apply IH. intros a Ha. apply H. now right.
Qed.

Lemma filter_all {A} (p : A -> bool) (l : list A) :
  (forall a, In a l -> p a = true) -> filter p l = l.
Proof.
  induction l as [|x l IH]; intros H; [reflexivity|]. cbn [filter].
  rewrite (H x (or_introl eq_refl)). f_equal. apply IH. intros a Ha. apply H. now right.
Qed.

(** X19.  The export adds to the snapshot set, after the attackers and
    the contracts it starts from, only senders and recipients of the
    transactions it fetched, none of them empty; [observedEOAs] counts the
    added addresses and never exceeds a positive cap (with a cap that is
    zero, negative or NaN nothing is added, an infinite one sets no
    bound); and when the counter ends below the cap, every non-empty
    sender and recipient is in the set. *)
Theorem snapshot_set_within_cap (cap : Cap) (attackers : list string)
    (d : Deployed) (fs : list Fetched) :
  let s0 := snap_init attackers d in
  let s := export_snapshot_set cap fs s0 in
  exists added,
    snapAddrs s = (snapAddrs s0 ++ added)%list
    /\ observedEOAs s = Z.of_nat (List.length added)
    /\ match cap with
       | Fin c => Z.of_nat (List.length added) <= Z.max 0 c
       | PosInf => True
       | NaN | NegInf => added = []
       end
    /\ Forall (fun a => a <> EmptyString /\ In a (flat_map addresses_of fs)) added
    /\ (lt_num (observedEOAs s) cap = true ->
        forall a, In a (flat_map addresses_of fs) -> a <> EmptyString ->
                  In a (snapAddrs s)).
Proof.
  intros s0 s.
  destruct (export_snapshot_set_step cap fs s0) as (added & A & O & F & B & C).
  fold s in A, O, B, C. change (observedEOAs s0) with 0 in O.
  exists added. splits; auto.
  - destruct B as [->|B]; [destruct cap; cbn; auto; lia|].
    destruct cap as [c| | |]; cbn in B; try discriminate; [|exact I].
    apply Z.ltb_lt in B. lia.
  - eapply Forall_impl; [|exact F]. cbn. tauto.
Qed.

(** X20.  [snapshotted_users] of [addresses.json] is exactly the list of
    addresses the export added to the snapshot set, in the order it met
    them: the filter removes the attackers and contracts the set started
    from and nothing else, and the final [slice] never cuts anything. *)
Theorem snapshotted_users_are_the_added (cap : Cap) (attackers : list string)
    (d : Deployed) (fs : list Fetched) :
  let s0 := snap_init attackers d in
  let s := export_snapshot_set cap fs s0 in
  snapshotted_users attackers d cap (snapAddrs s)
  = skipn (List.length (snapAddrs s0)) (snapAddrs s).
Proof.
  intros s0 s.
  destruct (export_snapshot_set_step cap fs s0) as (added & A & O & F & B & C).
  fold s in A, O, B, C. change (observedEOAs s0) with 0 in O.
  rewrite A, skipn_app, skipn_all, Nat.sub_diag, app_nil_l. cbn [skipn].
  unfold snapshotted_users. rewrite filter_app.
  assert (F0 : filter (fun a => negb (set_has a (banned d))
                                && negb (set_has a attackers)) (snapAddrs s0) = []).
  { apply filter_none. intros a Ha.
    apply snap_init_In in Ha. destruct Ha as (_ & [Ha|Ha]).
    - apply (set_has_In a attackers) in Ha. rewrite Ha. apply andb_false_r.
    - apply banned_In, set_has_In in Ha. now rewrite Ha. }
  assert (F1 : filter (fun a => negb (set_has a (banned d))
                                && negb (set_has a attackers)) added = added).
  { apply filter_all. intros a Ha.
    rewrite Forall_forall in F. destruct (F a Ha) as (N & I & _).
    destruct (set_has a (banned d)) eqn:E1.
    - exfalso. apply I, snap_init_In. split; [assumption|]. right.
      now apply banned_In, set_has_In.
    - destruct (set_has a attackers) eqn:E2; [|reflexivity].
      exfalso. apply I, snap_init_In. split; [assumption|]. left.
      now apply set_has_In. }
  rewrite F0, F1, app_nil_l. unfold slice_upto.
  destruct B as [->|B].
  { destruct cap as [c| | |]; try reflexivity. destruct (c <? 0); apply firstn_nil. }
  destruct cap as [c| | |]; cbn in B; try discriminate; [|reflexivity].
  apply Z.ltb_lt in B.
  destruct (Z.ltb_spec c 0); [lia|]. apply firstn_all2. lia.
Qed.

(* ------------------------------------------------------------------ *)
(** ** Input the derivation reads without an error *)

Section Readable.

Variables (runId h : string) (tx : Tx) (rc : Receipt) (ts : option Z).

Lemma visit_call_total (from to type value input : option string) (depth : Z)
    (st : State) (v : Z) :
  profs_ok (prof st) -> call_value value = Ok v ->
  exists st', visit_call runId h rc ts from to type value input depth st = Ok st'.
Proof.
  intros Hok Hv. unfold visit_call.
  destruct from as [from|]; [|eauto]. destruct to as [to|]; [|eauto].
  destruct type as [type|]; [|eauto].
  destruct (truthy_str from && truthy_str to && truthy_str type); [|eauto].
  cbv zeta. rewrite Hv. cbn [bind]. destruct (v >? 0); [|eauto].
  cbn [prof emit set_out].
  set (p0 := getProf to (getProf from (prof st))).
  assert (Hok0 : profs_ok p0) by (now apply getProf_ok, getProf_ok).
  assert (Hf : exists vf, map_get from p0 = Some vf).
  { unfold p0. rewrite getProf_get.
    destruct (String.eqb from to); [eauto | apply getProf_has]. }
  destruct Hf as (vf & Hvf).
  pose proof (profs_ok_get _ _ _ Hok0 Hvf) as (k0 & a & b & c & d & e & f).
  erewrite modify_total; [ | exact Hvf | rewrite (addBigStr_total _ _ b); reflexivity].
  cbn [bind].
  match goal with
  | |- context [modify to _ (map_set ?k ?v' p0)] =>
      assert (Ht : exists vt, map_get to (map_set k v' p0) = Some vt /\ prof_ok to vt)
  end.
  { rewrite map_get_set. destruct (String.eqb_spec to from) as [Eq|].
    - eexists; split; [reflexivity|]. unfold prof_ok. cbn.
      splits; auto using decimal_toString. congruence.
    - destruct (getProf_has to (getProf from (prof st))) as (vt & Hvt).
      exists vt. split; [exact Hvt|].
      eapply profs_ok_get; [exact Hok0 | exact Hvt]. }
  destruct Ht as (vt & Hvt & (_ & a' & _)).
  erewrite modify_total; [ | exact Hvt | rewrite (addBigStr_total _ _ a'); reflexivity].
  cbn [bind].
  match goal with
  | |- context [modify from _ ?m] =>
      assert (Hg : exists vg, map_get from m = Some vg)
  end.
  { rewrite map_get_set. destruct (String.eqb from to); [eauto|].
    rewrite map_get_set, String.eqb_refl. eauto. }
  destruct Hg as (vg & Hvg).
  erewrite modify_total; [ | exact Hvg | reflexivity].
  cbn [bind]. eauto.
Qed.

Lemma walkTrace_total (call : Call) :
  forall (depth : Z) (st : State),
    profs_ok (prof st) -> readable_call call = true ->
    exists st', walkTrace runId h rc ts call depth st = Ok st'.
Proof.
  induction call as [from to input value type output rr calls IH] using Call_induction.
  intros depth st Hok Hr. cbn [readable_call] in Hr.
  apply andb_true_iff in Hr. destruct Hr as [Hv Hsubs].
  destruct (call_value value) as [v|] eqn:Ev; [|discriminate].
  cbn [walkTrace].
  destruct (visit_call_total from to type value input depth st v Hok Ev) as (st1 & H1).
  rewrite H1. cbn [bind].
  apply visit_call_steps in H1. destruct H1 as ((_ & _ & K1) & _).
  specialize (K1 Hok). clear Hok Ev Hv.
  destruct calls as [subs|]; [|eauto].
  revert st1 K1. induction subs as [|sub subs IHs]; intros st1 K1; [eauto|].
  cbn [forallb] in Hsubs. apply andb_true_iff in Hsubs. destruct Hsubs as [Hsub Hsubs].
  inversion IH as [|? ? Psub Psubs]; subst.
  destruct (Psub (depth + 1) st1 K1 Hsub) as (st2 & H2). rewrite H2. cbn [bind].
  apply walkTrace_steps in H2. destruct H2 as ((_ & _ & K2) & _).
  exact (IHs Psubs Hsubs st2 (K2 K1)).
Qed.

Lemma trace_block_total (trace : option Call) (st : State) :
  profs_ok (prof st) ->
  match trace with
  | Some c => readable_call c = true
  | None => True
  end ->
  exists st', trace_block runId h rc ts trace st = Ok st'.
Proof.
  intros Hok Hr. unfold trace_block. destruct trace as [c|]; [|eauto].
  now apply walkTrace_total.
Qed.

Lemma derive_tx_completes (trace : option Call) (st : State) :
  profs_ok (prof st) ->
  registry_backed (approvals st) (out st) ->
  forallb wf_log (rc_logs rc) = true ->
  match trace with
  | Some c => readable_call c = true
  | None => True
  end ->
  exists st', derive_tx runId h tx rc ts trace st = Ok st'.
Proof.
  intros Hok Hreg Hwf Hr. unfold derive_tx. cbv zeta.
  destruct (profile_block_total tx rc ts (timeline_block runId h tx rc ts st) Hok)
    as (st1 & H1).
  rewrite H1. cbn [bind].
  destruct (profile_block_spec _ _ _ _ _ H1) as (O1 & A1 & _ & _ & K1).
  destruct (method_stats_block_spec tx rc ts st1) as (st2 & H2 & O2 & A2 & P2).
  rewrite H2. cbn [bind].
  destruct (eth_transfer_block_total runId h tx rc ts st2) as (st3 & H3);
    [rewrite P2; now apply K1|].
  rewrite H3. cbn [bind].
  destruct (eth_transfer_block_spec _ _ _ _ _ _ _ H3) as (O3 & A3 & _ & K3).
  destruct (token_transfers_block_total runId h rc ts (rc_logs rc) [] st3 Hwf)
    as ([transfers st4] & H4); [apply K3; rewrite P2; now apply K1|].
  rewrite H4. cbn [bind].
  destruct (token_transfers_block_spec _ _ _ _ _ _ _ _ _ H4) as (T4 & O4 & A4 & _ & K4).
  destruct (trace_block_total trace st4) as (st5 & H5);
    [apply K4, K3; rewrite P2; now apply K1 | exact Hr |].
  rewrite H5. cbn [bind].
  apply trace_block_steps in H5. destruct H5 as ((O5 & _) & A5).
  destruct (revert_block_steps runId h rc ts trace st5) as ((O6 & _) & A6).
  set (st6 := revert_block runId h rc ts trace st5) in *.
  assert (R6 : registry_backed (approvals st6) (out st6)).
  { rewrite A6, A5, A4, A3, A2, A1, O6, O5, O4, O3, O2, O1.
    cbn [approvals out timeline_block emit set_out].
    now repeat apply registry_backed_app. }
  destruct (approvals_block_spec runId h rc ts (rc_logs rc) 0 st6 Hwf R6) as (_ & _ & R7).
  cbv zeta in R7.
  unfold allowance_usage_block. destruct (_ && _); [|eauto].
  apply usage_loop_total; [exact R7|].
  subst transfers. now apply decoded_transfers_from.
Qed.

End Readable.

Lemma derive_loop_completes (runId : string) (fs : list Fetched) (st : State) :
  forallb readable_fetched fs = true ->
  profs_ok (prof st) ->
  registry_backed (approvals st) (out st) ->
  usage_sound (out st) ->
  exists st', derive_loop runId fs st = Ok st'.
Proof.
  revert st. induction fs as [|f fs IH]; intros st Hr Hok Hreg Hsound; [cbn; eauto|].
  cbn [forallb] in Hr. apply andb_true_iff in Hr. destruct Hr as [Hf Hr].
  apply andb_true_iff in Hf. destruct Hf as [Hwf Ht].
  cbn [derive_loop].
  assert (E : exists st1, iteration runId f st = Ok st1).
  { unfold iteration. unfold wf_fetched in Hwf.
    destruct (f_tx f) as [tx|]; [|eauto]. destruct (f_rc f) as [rc|]; [|eauto].
    apply derive_tx_completes; auto. destruct (f_trace f); auto. }
  destruct E as (st1 & H1). rewrite H1. cbn [bind].
  assert (I1 : registry_backed (approvals st1) (out st1) /\ usage_sound (out st1)).
  { unfold iteration in H1. unfold wf_fetched in Hwf.
    destruct (f_tx f) as [tx|]; [destruct (f_rc f) as [rc|]|].
    - eapply derive_tx_linkage; eassumption.
    - inversion H1; subst; auto.
    - inversion H1; subst; auto. }
  destruct I1 as [R1 U1].
  destruct (iteration_steps _ _ _ _ H1) as (new & (_ & _ & K) & _).
  apply IH; auto.
Qed.

(** X21.  The derivation completes on every input it can read: when the
    logs of each fetched receipt are well-formed hexadecimal and, in each
    trace that was fetched, [BigInt] reads the [value] of every frame that
    has one, the loop and the two flushes run to their end without an
    error, whatever the transactions, receipts and traces otherwise
    hold. *)
Theorem derive_completes_on_readable_input (runId : string) (fs : list Fetched) :
  forallb readable_fetched fs = true ->
  exists st, derive runId fs = Ok st.
Proof.
  intros Hr. unfold derive.
  destruct (derive_loop_completes runId fs init_state Hr profs_ok_init
              (registry_backed_nil _) usage_sound_nil) as (st & ->).
  cbn [bind]. eauto.
Qed.

Lemma derive_completes_on_readable_input_witness :
  forallb readable_fetched payments_run = true
  /\ exists st, derive "RUN_1" payments_run = Ok st.
Proof.
  split; [vm_compute; reflexivity|].
  apply (derive_completes_on_readable_input "RUN_1" payments_run).
  vm_compute; reflexivity.
Defined.

(* ------------------------------------------------------------------ *)
(** ** The fund-flow graph *)

Lemma written_flow_tx (runId h : string) (tx : Tx) (rc : Receipt) (ts : option Z)
    (trace : option Call) :
  written edgesW (tx_docs runId h tx rc ts trace)
  = map flow_edge_of (written transfersW (tx_docs runId h tx rc ts trace)).
Proof.
  pose proof (timeline_docs_streams runId h tx rc ts) as S0.
  pose proof (trace_docs_streams runId h rc ts trace) as SC.
  pose proof (revert_docs_streams runId h rc ts trace) as SR.
  pose proof (approval_docs_streams runId h rc ts (rc_logs rc) 0) as SA.
  rewrite !written_tx_docs.
  rewrite (written_none _ _ (streams_none _ edgesW _ S0 eq_refl)),
          (written_none _ _ (streams_none _ edgesW _ SC eq_refl)),
          (written_none _ _ (streams_none _ edgesW _ SR eq_refl)),
          (written_none _ _ (streams_none _ edgesW _ SA eq_refl)),
          (written_none _ _ (streams_none _ transfersW _ S0 eq_refl)),
          (written_none _ _ (streams_none _ transfersW _ SC eq_refl)),
          (written_none _ _ (streams_none _ transfersW _ SR eq_refl)),
          (written_none _ _ (streams_none _ transfersW _ SA eq_refl)).
  rewrite !app_nil_l, !app_nil_r, map_app. f_equal.
  - unfold native_docs. destruct (tx_to tx) as [to|]; [|reflexivity].
    destruct (sends_value tx); reflexivity.
  - induction (decoded_transfers (rc_logs rc)) as [|t l IH]; [reflexivity|].
    cbn [token_docs flat_map]. rewrite !written_app, map_app.
    unfold token_docs in IH. rewrite IH. reflexivity.
Qed.

(** X22.  The fund-flow graph mirrors the asset transfers: a run that
    completes writes one [fund_flow_edge] record for each
    [asset_transfer] record, native or token, in the same order, with the
    same transaction, block, timestamp, asset and ends; the edge has the
    amount under [amount], where a native transfer has it under
    [amount_wei], and carries no [log_index]. *)
Theorem fund_flow_edges_mirror_transfers (runId : string) (fs : list Fetched)
    (st : State) :
  derive runId fs = Ok st ->
  written edgesW (out st) = map flow_edge_of (written transfersW (out st)).
Proof.
  intros H.
  rewrite (derive_written runId edgesW fs st eq_refl eq_refl eq_refl H),
          (derive_written runId transfersW fs st eq_refl eq_refl eq_refl H).
  rewrite !written_flat_map, flat_map_map. clear H.
  induction fs as [|f fs IH]; [reflexivity|].
  cbn [flat_map]. rewrite IH. f_equal.
  unfold run_docs. destruct (f_tx f) as [tx|]; [|reflexivity].
  destruct (f_rc f) as [rc|]; [|reflexivity]. apply written_flow_tx.
Qed.

Lemma fund_flow_edges_mirror_transfers_witness :
  exists st,
    derive "RUN_1" approval_then_spend = Ok st
    /\ List.length (written edgesW (out st)) = 1%nat
    /\ written edgesW (out st) = map flow_edge_of (written transfersW (out st)).
Proof.
  eexists. split; [vm_compute; reflexivity|]. split; [vm_compute; reflexivity|].
  apply (fund_flow_edges_mirror_transfers "RUN_1" approval_then_spend).
  vm_compute; reflexivity.
Defined.

(* ------------------------------------------------------------------ *)
(** ** The approval an allowance usage quotes *)

Lemma In_map_set_other {V} (k k' : string) (v v' : V) (m : list (string * V)) :
  NoDup (map fst m) ->
  In (k', v') (map_set k v m) -> (k', v') = (k, v) \/ (k' <> k /\ In (k', v') m).
Proof.
  intros N Hin.
  pose proof (map_get_In k' v' _ (NoDup_map_set k v m N) Hin) as G.
  rewrite map_get_set in G. destruct (String.eqb_spec k' k) as [->|Hne].
  - left. congruence.
  - right. split; [assumption|]. clear -G.
    induction m as [|[k0 v0] m IH]; [discriminate|]. cbn in G.
    destruct (String.eqb_spec k' k0) as [->|]; [left; congruence | right; auto].
Qed.

Lemma none_on_In W (r : record) (l : list (Stream * record)) :
  none_on W l -> In (W, r) l -> False.
Proof.
  unfold none_on. rewrite Forall_forall. intros H Hin. specialize (H _ Hin).
  cbn in H. destruct W; discriminate.
Qed.

Lemma registry_latest_nil l : registry_latest [] l.
Proof. split; [constructor | intros key e []]. Qed.

Lemma registry_latest_app reg l new :
  registry_latest reg l -> none_on approvalsW new -> registry_latest reg (l ++ new).
Proof.
  intros [N H] Hnew. split; [assumption|]. intros key e Hin.
  destruct (H key e Hin)
    as (t & o & s & a & p & mid & K & Bt & Bo & Bs & L & Ft & Fo & Fs & Fh & Fv & Last).
  exists t, o, s, a, p, (mid ++ new). splits; auto.
  - now rewrite L, <- app_assoc.
  - intros a' Ha'. apply in_app_iff in Ha'. destruct Ha' as [Ha'|Ha']; [now apply Last|].
    destruct (none_on_In _ _ _ Hnew Ha').
Qed.

Lemma registry_latest_tail kv reg l :
  registry_latest (kv :: reg) l -> registry_latest reg l.
Proof.
  intros [N H]. split; [now inversion N|]. intros key e Hin. apply H. now right.
Qed.

Lemma quotes_latest_nil : quotes_latest [].
Proof. intros pre u post E. destruct pre; discriminate. Qed.

Lemma quotes_latest_snoc l (u : record) :
  quotes_latest l ->
  (exists p a mid, l = p ++ (approvalsW, a) :: mid /\ backs a u
                   /\ forall a', In (approvalsW, a') mid -> ~ same_triple a' a) ->
  quotes_latest (l ++ [(allowanceUsageW, u)]).
Proof.
  intros Hl Hu pre u' post E.
  destruct post as [|x post] using rev_ind.
  - apply app_inj_tail in E. destruct E as [<- [= <-]]. exact Hu.
  - clear IHpost. rewrite app_comm_cons, app_assoc in E.
    apply app_inj_tail in E. destruct E as [E _].
    exact (Hl _ _ _ E).
Qed.

Lemma quotes_latest_app l new :
  quotes_latest l -> none_on allowanceUsageW new -> quotes_latest (l ++ new).
Proof.
  intros Hl Hnew pre u post E.
  apply app_eq_app in E. destruct E as (m & [[E1 E2]|[E1 E2]]).
  - destruct m as [|x m].
    + cbn in E2. subst new. inversion Hnew as [|? ? Hx _]. discriminate.
    + cbn in E2. injection E2 as <- E2. rewrite E1 in Hl.
      exact (Hl pre u m eq_refl).
  - subst new. unfold none_on in Hnew. rewrite Forall_app in Hnew.
    destruct Hnew as [_ Hnew]. inversion Hnew as [|? ? Hx _]. discriminate.
Qed.

Section Latest.

Variables (runId h : string) (tx : Tx) (rc : Receipt) (ts : option Z).

Lemma approval_step_latest (lg : Log) (idx : Z) (st : State) :
  wf_log lg = true ->
  registry_latest (approvals st) (out st) ->
  let st' := approval_step runId h rc ts lg idx st in
  registry_latest (approvals st') (out st').
Proof.
  intros Hwf [N Hreg]. unfold approval_step.
  destruct (decodeApprovalEvent lg) as [ev|] eqn:E; [|split; assumption].
  cbv zeta. cbn [out approvals emit set_out set_approvals].
  rewrite decodeApprovalEvent_cases in E.
  destruct (List.length (lg_topics lg) <? 3)%nat eqn:L; [discriminate|].
  destruct (String.eqb _ _); [|discriminate].
  destruct (hexToBigInt _) as [value|]; [|discriminate].
  injection E as <-. cbn [ev_owner ev_spender ev_value].
  apply Nat.ltb_ge in L.
  unfold wf_log in Hwf. apply andb_true_iff in Hwf. destruct Hwf as [Hwf _].
  apply andb_true_iff in Hwf. destruct Hwf as [Haddr Htopics].
  destruct (topicToAddress_hex _ (topic_at_hex 1 _ Htopics ltac:(lia))) as (o & Ho & Bo).
  destruct (topicToAddress_hex _ (topic_at_hex 2 _ Htopics ltac:(lia))) as (s & Hs & Bs).
  rewrite Ho, Hs.
  split; [now apply NoDup_map_set|].
  intros key e Hin. apply In_map_set_other in Hin; [|assumption].
  destruct Hin as [Hin|[Hne Hin]].
  - injection Hin as -> ->.
    exists (lg_address lg), o, s.
    eexists. exists (out st). eexists. split; [reflexivity|].
    split; [now apply hex_string_no_bar|]. split; [assumption|]. split; [assumption|].
    split; [rewrite <- app_assoc; reflexivity|].
    cbn. splits; try reflexivity.
    intros a' [Ha'|[]]. discriminate.
  - destruct (Hreg key e Hin)
      as (t0 & o0 & s0 & a & p & mid & K & Bt & Bo0 & Bs0 & O & Ft & Fo & Fs & Fh & Fv & Last).
    exists t0, o0, s0, a, p. eexists. splits; auto.
    + rewrite O, <- !app_assoc. cbn [app]. reflexivity.
    + intros a' Ha'. apply in_app_iff in Ha'. destruct Ha' as [Ha'|Ha']; [now apply Last|].
      destruct Ha' as [Ha'|[Ha'|[]]]; [|discriminate].
      injection Ha' as <-. intros (T1 & T2 & T3). apply Hne.
      rewrite Ft, Fo, Fs in *. cbn in T1, T2, T3.
      injection T1 as <-. injection T2 as <-. injection T3 as <-. exact K.
Qed.

Lemma approvals_block_latest (logs : list Log) (idx : Z) (st : State) :
  forallb wf_log logs = true ->
  registry_latest (approvals st) (out st) ->
  let st' := approvals_block runId h rc ts logs idx st in
  registry_latest (approvals st') (out st').
Proof.
  revert idx st. induction logs as [|lg logs IH]; intros idx st Hwf Hreg; [assumption|].
  cbn [forallb] in Hwf. apply andb_true_iff in Hwf. destruct Hwf as [Hlg Hwf].
  cbn [approvals_block]. cbv zeta. apply IH; [assumption|].
  now apply approval_step_latest.
Qed.

(** An entry found in the registry comes from the last approval fact for
    its three addresses, and these match, up to letter case, those of the
    transfer. *)
Lemma find_approval_latest reg l (token : string) (from : option string) (sender : string)
    (key : string) (e : ApprovalEntry) :
  registry_latest reg l ->
  find_approval reg token from sender = Ok (Some (key, e)) ->
  exists f a p mid t o s,
    from = Some f /\ l = p ++ (approvalsW, a) :: mid
    /\ field "token" a = JStr t /\ toLowerCase t = toLowerCase token
    /\ field "owner" a = JStr o /\ toLowerCase o = toLowerCase f
    /\ field "spender" a = JStr s /\ toLowerCase s = toLowerCase sender
    /\ field "tx_hash" a = JStr (ap_tx_hash e)
    /\ field "value" a = JStr (bigint_toString (ap_amount e))
    /\ forall a', In (approvalsW, a') mid -> ~ same_triple a' a.
Proof.
  induction reg as [|[key0 e0] reg IH]; intros Hreg H; [discriminate|].
  pose proof (registry_latest_tail _ _ _ Hreg) as Htail.
  destruct (proj2 Hreg key0 e0 (or_introl eq_refl))
    as (t & o & s & a & p & mid & K & Bt & Bo & Bs & L & Ft & Fo & Fs & Fh & Fv & Last).
  cbn [find_approval] in H. rewrite K, (split_key t o s Bt Bo Bs) in H.
  cbn [nth_error lower_of bind] in H.
  destruct (String.eqb_spec (toLowerCase t) (toLowerCase token)) as [Et|];
    cbn [negb] in H; [|now apply IH].
  destruct from as [f|]; [|discriminate]. cbn [lower_of bind] in H.
  destruct (String.eqb_spec (toLowerCase o) (toLowerCase f)) as [Eo|];
    cbn [negb] in H; [|now apply IH].
  destruct (String.eqb_spec (toLowerCase s) (toLowerCase sender)) as [Es|];
    [|now apply IH].
  injection H as <- <-. exists f, a, p, mid, t, o, s. splits; auto.
Qed.

Lemma usage_step_latest (t : Transfer) (st st' : State) :
  usage_step runId h tx rc ts t st = Ok st' ->
  registry_latest (approvals st) (out st) ->
  quotes_latest (out st) ->
  registry_latest (approvals st') (out st') /\ quotes_latest (out st').
Proof.
  unfold usage_step. intros H Hreg Hq. bind_inv H found Hf.
  destruct found as [[key ap]|]; inversion H; subst st'; clear H; [|auto].
  cbn [approvals out emit set_out]. split.
  - apply registry_latest_app; [assumption|]. repeat constructor.
  - apply quotes_latest_snoc; [assumption|].
    destruct (find_approval_latest _ _ _ _ _ _ _ Hreg Hf)
      as (f & a & p & mid & t0 & o & s & Hfrom & L & Ft & Et & Fo & Eo & Fs & Es
          & Fh & Fv & Last).
    exists p, a, mid. split; [assumption|]. split; [|assumption].
    unfold backs, same_address.
    rewrite Ft, Fo, Fs, Fh, Fv. cbn. rewrite Hfrom. cbn.
    splits; eauto.
Qed.

Lemma usage_loop_latest (transfers : list Transfer) (st st' : State) :
  usage_loop runId h tx rc ts transfers st = Ok st' ->
  registry_latest (approvals st) (out st) ->
  quotes_latest (out st) ->
  registry_latest (approvals st') (out st') /\ quotes_latest (out st').
Proof.
  revert st. induction transfers as [|t transfers IH]; intros st H Hreg Hq.
  - inversion H; subst. auto.
  - cbn [usage_loop] in H. bind_inv H st1 H1.
    destruct (usage_step_latest t st st1 H1 Hreg Hq) as (R1 & Q1).
    exact (IH st1 H R1 Q1).
Qed.

Lemma derive_tx_latest (trace : option Call) (st st' : State) :
  derive_tx runId h tx rc ts trace st = Ok st' ->
  forallb wf_log (rc_logs rc) = true ->
  registry_latest (approvals st) (out st) ->
  quotes_latest (out st) ->
  registry_latest (approvals st') (out st') /\ quotes_latest (out st').
Proof.
  intros H Hwf Hreg Hq.
  apply derive_tx_split in H. destruct H as (st6 & (O6 & _) & A6 & H).
  assert (R6 : registry_latest (approvals st6) (out st6)).
  { rewrite A6, O6. apply registry_latest_app; [assumption|].
    eapply streams_none; [apply early_docs_streams | reflexivity]. }
  assert (Q6 : quotes_latest (out st6)).
  { rewrite O6. apply quotes_latest_app; [assumption|].
    eapply streams_none; [apply early_docs_streams | reflexivity]. }
  pose proof (approvals_block_latest (rc_logs rc) 0 st6 Hwf R6) as R7.
  destruct (approvals_block_out runId h rc ts (rc_logs rc) 0 st6) as (O7 & _).
  cbv zeta in *.
  assert (Q7 : quotes_latest (out (approvals_block runId h rc ts (rc_logs rc) 0 st6))).
  { rewrite O7. apply quotes_latest_app; [assumption|].
    eapply streams_none; [apply approval_docs_streams | reflexivity]. }
  unfold allowance_usage_block in H. destruct (_ && _).
  - exact (usage_loop_latest _ _ _ H R7 Q7).
  - injection H as <-. auto.
Qed.

End Latest.

Lemma derive_loop_latest (runId : string) (fs : list Fetched) (st st' : State) :
  derive_loop runId fs st = Ok st' ->
  forallb wf_fetched fs = true ->
  registry_latest (approvals st) (out st) ->
  quotes_latest (out st) ->
  registry_latest (approvals st') (out st') /\ quotes_latest (out st').
Proof.
  revert st. induction fs as [|f fs IH]; intros st H Hwf Hreg Hq.
  - inversion H; subst. auto.
  - cbn [derive_loop] in H. bind_inv H st1 H1.
    cbn [forallb] in Hwf. apply andb_true_iff in Hwf. destruct Hwf as [Hf Hwf].
    assert (I1 : registry_latest (approvals st1) (out st1) /\ quotes_latest (out st1)).
    { unfold iteration in H1. unfold wf_fetched in Hf.
      destruct (f_tx f) as [tx|]; [destruct (f_rc f) as [rc|]|].
      - eapply derive_tx_latest; eassumption.
      - inversion H1; subst; auto.
      - inversion H1; subst; auto. }
    destruct I1 as [R1 Q1]. now apply (IH st1).
Qed.

Lemma In_written (W : Stream) (r : record) (l : list (Stream * record)) :
  In r (written W l) <-> In (W, r) l.
Proof.
  unfold written. rewrite in_map_iff. split.
  - intros ([W' r'] & <- & Hin). apply filter_In in Hin. destruct Hin as [Hin E].
    cbn [fst snd] in *. apply Stream_eqb_eq in E. now subst.
  - intros Hin. exists (W, r). split; [reflexivity|]. apply filter_In.
    split; [assumption|]. cbn. now destruct W.
Qed.

Lemma written_approvals_run (runId : string) (fs : list Fetched) (st : State) :
  derive runId fs = Ok st ->
  written approvalsW (out st)
  = map (fun x => match x with
                  | (f, rc, (lg, a, i)) => approval_doc runId (f_hash f) rc (f_blk f) lg a i
                  end) (run_approvals fs).
Proof.
  intros H.
  rewrite (derive_written runId approvalsW fs st eq_refl eq_refl eq_refl H),
          written_flat_map.
  unfold run_approvals. rewrite flat_map_map.
  apply flat_map_processed. intros f. unfold run_docs.
  destruct (f_tx f) as [tx|]; [destruct (f_rc f) as [rc|]|]; try reflexivity.
  rewrite written_approvals_tx by now left.
  rewrite (proj1 (written_approval_docs _ _ _ _ _ _)), map_map. reflexivity.
Qed.

Lemma ostr_eqb_eq (a b : option string) : ostr_eqb a b = true -> a = b.
Proof.
  destruct a, b; cbn; try discriminate; try reflexivity.
  intros H. apply String.eqb_eq in H. now subst.
Qed.

Lemma triple_eqb_refl t : triple_eqb t t = true.
Proof.
  destruct t as [[a [b|]] [c|]]; cbn; now rewrite !String.eqb_refl.
Qed.

Lemma case_consistent_In (fs : list Fetched) x y :
  case_consistent fs = true ->
  In x (run_approvals fs) -> In y (run_approvals fs) ->
  lower_triple (approval_triple x) = lower_triple (approval_triple y) ->
  approval_triple x = approval_triple y.
Proof.
  unfold case_consistent. cbv zeta. intros H Hx Hy E.
  rewrite forallb_forall in H.
  specialize (H _ (in_map approval_triple _ _ Hx)). rewrite forallb_forall in H.
  specialize (H _ (in_map approval_triple _ _ Hy)).
  rewrite E, triple_eqb_refl in H. cbn [implb] in H.
  destruct (approval_triple x) as [[a b] c], (approval_triple y) as [[a' b'] c'].
  cbn [triple_eqb] in H.
  apply andb_true_iff in H. destruct H as [H Hc].
  apply andb_true_iff in H. destruct H as [Ha Hb].
  apply String.eqb_eq in Ha. apply ostr_eqb_eq in Hb, Hc. now subst.
Qed.

Lemma same_address_ostr (a b : option string) :
  same_address (jstr_or_null a) (jstr_or_null b) ->
  option_map toLowerCase a = option_map toLowerCase b.
Proof.
  intros (s1 & s2 & E1 & E2 & E).
  destruct a, b; cbn in E1, E2; try discriminate.
  injection E1 as ->. injection E2 as ->. cbn. now rewrite E.
Qed.

(** In a run whose approval logs are consistent in letter case, two
    approval records that agree up to letter case agree exactly. *)
Lemma case_consistent_records (runId : string) (fs : list Fetched) (st : State)
    (a b : record) :
  derive runId fs = Ok st ->
  case_consistent fs = true ->
  In (approvalsW, a) (out st) -> In (approvalsW, b) (out st) ->
  same_triple_ci a b -> same_triple a b.
Proof.
  intros H Hc Ha Hb (T & O & S).
  apply In_written in Ha, Hb.
  rewrite (written_approvals_run runId fs st H) in Ha, Hb.
  apply in_map_iff in Ha, Hb.
  destruct Ha as ([[f rc] [[lg ev] i]] & <- & Hx).
  destruct Hb as ([[f' rc'] [[lg' ev'] i']] & <- & Hy).
  change (same_address (JStr (lg_address lg)) (JStr (lg_address lg'))) in T.
  change (same_address (jstr_or_null (ev_owner ev)) (jstr_or_null (ev_owner ev'))) in O.
  change (same_address (jstr_or_null (ev_spender ev)) (jstr_or_null (ev_spender ev')))
    in S.
  destruct T as (s1 & s2 & [= <-] & [= <-] & T).
  apply same_address_ostr in O, S.
  pose proof (case_consistent_In fs _ _ Hc Hx Hy) as E.
  cbn [approval_triple lower_triple] in E. rewrite T, O, S in E.
  specialize (E eq_refl). injection E as E1 E2 E3.
  unfold same_triple.
  change (JStr (lg_address lg) = JStr (lg_address lg')
          /\ jstr_or_null (ev_owner ev) = jstr_or_null (ev_owner ev')
          /\ jstr_or_null (ev_spender ev) = jstr_or_null (ev_spender ev')).
  now rewrite E1, E2, E3.
Qed.

(** X23.  An allowance-usage record quotes the latest approval for the
    strings it was stored under: in a run over well-formed logs, every
    [allowance_usage] record is preceded, in the order the records are
    written, by an approval record that has its token, owner and spender
    up to letter case and whose transaction hash and amount it quotes,
    and between that approval and the usage record no approval record
    with the same token, owner and spender strings was written (an
    approval logged by the spending transaction itself counts, since its
    approvals are recorded before its usages).  When the approval logs of
    the run name every token, owner and spender in one letter case, no
    approval record for the same token, owner and spender up to letter
    case was written in between either. *)
Theorem allowance_usage_quotes_latest_approval (runId : string) (fs : list Fetched)
    (st : State) :
  forallb wf_fetched fs = true ->
  derive runId fs = Ok st ->
  forall pre u post,
    out st = pre ++ (allowanceUsageW, u) :: post ->
    exists p a mid,
      pre = p ++ (approvalsW, a) :: mid
      /\ backs a u
      /\ (forall a', In (approvalsW, a') mid -> ~ same_triple a' a)
      /\ (case_consistent fs = true ->
          forall a', In (approvalsW, a') mid -> ~ same_triple_ci a' a).
Proof.
  intros Hwf H pre u post E.
  assert (Q : quotes_latest (out st)).
  { pose proof H as H'. unfold derive in H'. bind_inv H' st0 H0. injection H' as <-.
    destruct (derive_loop_latest runId fs init_state st0 H0 Hwf
                (registry_latest_nil _) quotes_latest_nil) as (_ & Q).
    destruct (flush_spec runId st0) as (O & _). rewrite O.
    apply quotes_latest_app; [assumption|].
    unfold flush_docs, none_on. apply Forall_app. split.
    - induction (prof st0); constructor; auto.
    - induction (methodStats st0); constructor; auto. }
  destruct (Q pre u post E) as (p & a & mid & Ep & B & L).
  exists p, a, mid. split; [exact Ep|]. split; [exact B|]. split; [exact L|].
  intros Hc a' Hin Hci. apply (L a' Hin).
  apply (case_consistent_records runId fs st a' a H Hc); [| |exact Hci];
    rewrite E, Ep; apply in_or_app; left; apply in_or_app; right.
  - right. exact Hin.
  - left. reflexivity.
Qed.

Lemma allowance_usage_quotes_latest_approval_witness :
  exists st pre u post,
    forallb wf_fetched reapproval_then_spend = true
    /\ derive "RUN_1" reapproval_then_spend = Ok st
    /\ case_consistent reapproval_then_spend = true
    /\ out st = pre ++ (allowanceUsageW, u) :: post
    /\ field "approval_tx_hash" u = JStr "0xab"
    /\ exists p a mid,
         pre = p ++ (approvalsW, a) :: mid
         /\ backs a u
         /\ (forall a', In (approvalsW, a') mid -> ~ same_triple a' a)
         /\ (forall a', In (approvalsW, a') mid -> ~ same_triple_ci a' a).
Proof.
  exists (final_state (derive "RUN_1" reapproval_then_spend)).
  exists (firstn 15 (out (final_state (derive "RUN_1" reapproval_then_spend)))).
  exists (nth 15 (map snd (out (final_state (derive "RUN_1" reapproval_then_spend)))) []).
  exists (skipn 16 (out (final_state (derive "RUN_1" reapproval_then_spend)))).
  assert (W : forallb wf_fetched reapproval_then_spend = true) by (vm_compute; reflexivity).
  assert (E : derive "RUN_1" reapproval_then_spend
              = Ok (final_state (derive "RUN_1" reapproval_then_spend)))
    by (vm_compute; reflexivity).
  assert (C : case_consistent reapproval_then_spend = true) by (vm_compute; reflexivity).
  split; [exact W|]. split; [exact E|]. split; [exact C|].
  split; [vm_compute; reflexivity|]. split; [vm_compute; reflexivity|].
  destruct (allowance_usage_quotes_latest_approval "RUN_1" reapproval_then_spend _ W E
              (firstn 15 (out (final_state (derive "RUN_1" reapproval_then_spend))))
              (nth 15 (map snd (out (final_state (derive "RUN_1" reapproval_then_spend)))) [])
              (skipn 16 (out (final_state (derive "RUN_1" reapproval_then_spend))))
              ltac:(vm_compute; reflexivity))
    as (p & a & mid & Ep & B & L & Lci).
  exists p, a, mid. split; [exact Ep|]. split; [exact B|]. split; [exact L|].
  exact (Lci C).
Defined.

(** Without that consistency the record can quote an older approval: in
    the run of [mixed_case_reapproval] the usage record quotes the
    approval of transaction [0xaa], although the approval of [0xab],
    written after it, names the same token, owner and spender up to
    letter case. *)
Lemma mixed_case_quotes_older_approval :
  let l := out (final_state (derive "RUN_1" mixed_case_reapproval)) in
  forallb wf_fetched mixed_case_reapproval = true
  /\ case_consistent mixed_case_reapproval = false
  /\ map (field "tx_hash") (written approvalsW l) = [JStr "0xaa"; JStr "0xab"]
  /\ map (field "approval_tx_hash") (written allowanceUsageW l) = [JStr "0xaa"].
Proof. vm_compute. repeat split. Qed.

(* ------------------------------------------------------------------ *)
(** ** The addresses that have a profile *)

Lemma known_set (a k : string) (v : Prof) (m : list (string * Prof)) :
  known a (map_set k v m) = String.eqb a k || known a m.
Proof. unfold known. rewrite map_get_set. now destruct (String.eqb a k). Qed.

Lemma known_getProf (a k : string) (m : list (string * Prof)) :
  known a (getProf k m) = String.eqb a k || known a m.
Proof.
  unfold getProf. destruct (map_get k m) as [p|] eqn:E; [|apply known_set].
  destruct (String.eqb_spec a k) as [->|]; [|reflexivity].
  unfold known. now rewrite E.
Qed.

Lemma known_modify (a k : string) (f : Prof -> Res Prof) (m m' : list (string * Prof)) :
  modify k f m = Ok m' -> known a m' = known a m.
Proof.
  intros H. apply modify_Ok in H. destruct H as (v & v' & Hg & _ & ->).
  rewrite known_set. destruct (String.eqb_spec a k) as [->|]; [|reflexivity].
  unfold known. now rewrite Hg.
Qed.

Lemma mentioned_app (a : string) (l1 l2 : list (Stream * record)) :
  mentioned a (l1 ++ l2) = mentioned a l1 || mentioned a l2.
Proof. apply existsb_app. Qed.

Lemma mentioned_none (a : string) (l : list (Stream * record)) :
  streams_in [txEnrichedW; blockTxOrderW; edgesW; traceEdgesW; revertReasonsW;
              approvalsW; allowanceEdgesW; allowanceUsageW; profilesW; methodStatsW] l ->
  mentioned a l = false.
Proof.
  induction 1 as [|[W r] l Hx _ IH]; [reflexivity|].
  cbn [mentioned existsb]. fold (mentioned a l). rewrite IH.
  destruct W; try discriminate Hx; reflexivity.
Qed.

Lemma streams_in_map {X} (Ws : list Stream) (W : Stream) (g : X -> record) (l : list X) :
  existsb (Stream_eqb W) Ws = true -> streams_in Ws (map (fun x => (W, g x)) l).
Proof. intros H. induction l; constructor; auto. Qed.

Section Participants.

Variables (runId h : string) (tx : Tx) (rc : Receipt) (ts : option Z).
Variable a : string.
Hypothesis a_truthy : a <> EmptyString.

Lemma eqb_truthy (s : string) : truthy_str s && String.eqb a s = String.eqb a s.
Proof.
  destruct s; [|reflexivity]. cbn [truthy_str andb].
  symmetry. apply String.eqb_neq. exact a_truthy.
Qed.

Lemma profile_block_known (st st' : State) :
  profile_block tx rc ts st = Ok st' ->
  known a (prof st')
  = known a (prof st) || mentioned a (timeline_docs runId h tx rc ts).
Proof.
  unfold profile_block. cbv zeta. intros H.
  bind_inv H p1 H1. bind_inv H p2 H2. injection H as <-. cbn [prof set_prof].
  assert (E1 : known a p1 = String.eqb a (tx_from tx) || known a (prof st)).
  { destruct (truthy_str (tx_from tx)) eqn:T.
    - now rewrite (known_modify _ _ _ _ _ H1), known_getProf.
    - injection H1 as <-. destruct (tx_from tx); [|discriminate].
      now rewrite (proj2 (String.eqb_neq a EmptyString) a_truthy). }
  assert (E2 : known a p2
               = match tx_to tx with
                 | Some to => String.eqb a to
                 | None => false
                 end || known a p1).
  { destruct (tx_to tx) as [to|]; [|now injection H2 as <-].
    destruct (truthy_str to) eqn:T.
    - now rewrite (known_modify _ _ _ _ _ H2), known_getProf.
    - injection H2 as <-. destruct to; [|discriminate].
      now rewrite (proj2 (String.eqb_neq a EmptyString) a_truthy). }
  rewrite E2, E1. unfold timeline_docs, mentioned.
  cbn [existsb party fst snd orb].
  change (field "from" (contract_call_doc runId h tx rc ts)) with (JStr (tx_from tx)).
  change (field "to" (contract_call_doc runId h tx rc ts))
    with (if truthy_ostr (tx_to tx) then jstr_or_null (tx_to tx) else JNull).
  cbn [jstr_is]. rewrite orb_false_r.
  destruct (tx_to tx) as [to|]; cbn [truthy_ostr jstr_or_null jstr_is].
  - destruct to as [|c to]; cbn [truthy_str jstr_is].
    + rewrite (proj2 (String.eqb_neq a EmptyString) a_truthy).
      now destruct (String.eqb a (tx_from tx)), (known a (prof st)).
    + now destruct (String.eqb a (String c to)), (String.eqb a (tx_from tx)),
        (known a (prof st)).
  - now destruct (String.eqb a (tx_from tx)), (known a (prof st)).
Qed.

Lemma eth_transfer_block_known (st st' : State) :
  eth_transfer_block runId h tx rc ts st = Ok st' ->
  known a (prof st') = known a (prof st) || mentioned a (native_docs runId h tx rc ts).
Proof.
  unfold eth_transfer_block, native_docs.
  destruct (tx_to tx) as [to|]; [|intros [= <-]; now rewrite orb_false_r].
  destruct (sends_value tx); [|intros [= <-]; now rewrite orb_false_r].
  cbv zeta. intros H. bind_inv H p1 H1. bind_inv H p2 H2. injection H as <-.
  cbn [prof set_prof emit set_out] in *.
  rewrite (known_modify _ _ _ _ _ H2), (known_modify _ _ _ _ _ H1), !known_getProf.
  unfold mentioned. cbn [existsb party fst snd].
  change (field "from" (native_transfer_doc runId h tx rc ts to)) with (JStr (tx_from tx)).
  change (field "to" (native_transfer_doc runId h tx rc ts to)) with (JStr to).
  cbn [jstr_is]. rewrite !orb_false_r.
  now destruct (String.eqb a to), (String.eqb a (tx_from tx)), (known a (prof st)).
Qed.

Lemma token_transfer_step_known (t : Transfer) (st st' : State) :
  token_transfer_step runId h rc ts t st = Ok st' ->
  known a (prof st')
  = known a (prof st) || party a (transfersW, token_transfer_doc runId h rc ts t).
Proof.
  unfold token_transfer_step. cbv zeta. intros H.
  bind_inv H p1 H1. bind_inv H p2 H2. injection H as <-.
  cbn [prof set_prof emit set_out] in *.
  assert (E1 : known a p1 = jstr_is a (jstr_or_null (tr_from t)) || known a (prof st)).
  { destruct (tr_from t) as [from|]; [|now injection H1 as <-].
    cbn [jstr_or_null jstr_is].
    destruct (truthy_str from) eqn:T.
    - now rewrite (known_modify _ _ _ _ _ H1), known_getProf.
    - injection H1 as <-. destruct from; [|discriminate].
      now rewrite (proj2 (String.eqb_neq a EmptyString) a_truthy). }
  assert (E2 : known a p2 = jstr_is a (jstr_or_null (tr_to t)) || known a p1).
  { destruct (tr_to t) as [to|]; [|now injection H2 as <-].
    cbn [jstr_or_null jstr_is].
    destruct (truthy_str to) eqn:T.
    - now rewrite (known_modify _ _ _ _ _ H2), known_getProf.
    - injection H2 as <-. destruct to; [|discriminate].
      now rewrite (proj2 (String.eqb_neq a EmptyString) a_truthy). }
  rewrite E2, E1. unfold party. cbn [fst snd].
  change (field "from" (token_transfer_doc runId h rc ts t))
    with (jstr_or_null (tr_from t)).
  change (field "to" (token_transfer_doc runId h rc ts t)) with (jstr_or_null (tr_to t)).
  now destruct (jstr_is a (jstr_or_null (tr_to t))),
    (jstr_is a (jstr_or_null (tr_from t))), (known a (prof st)).
Qed.

Lemma token_transfers_block_known (logs : list Log) (transfers transfers' : list Transfer)
    (st st' : State) :
  token_transfers_block runId h rc ts logs transfers st = Ok (transfers', st') ->
  known a (prof st')
  = known a (prof st) || mentioned a (token_docs runId h rc ts (decoded_transfers logs)).
Proof.
  revert transfers st. induction logs as [|lg logs IH]; intros transfers st H.
  - injection H as _ <-. now rewrite orb_false_r.
  - cbn [token_transfers_block decoded_transfers] in *.
    bind_inv H d Hd. rewrite Hd. destruct d as [t|]; [|exact (IH _ _ H)].
    bind_inv H st1 H1. rewrite (IH _ _ H), (token_transfer_step_known t _ _ H1).
    cbn [token_docs flat_map]. rewrite mentioned_app.
    unfold mentioned at 2. cbn [existsb app].
    change (party a (edgesW, token_edge_doc runId h rc ts t)) with false.
    now rewrite !orb_false_r, orb_assoc.
Qed.

Lemma visit_call_known (from to type value input : option string) (depth : Z)
    (st st' : State) :
  visit_call runId h rc ts from to type value input depth st = Ok st' ->
  known a (prof st')
  = known a (prof st)
    || mentioned a (visit_docs runId h rc ts from to type value input depth).
Proof.
  unfold visit_call, visit_docs.
  destruct from as [from|]; [|intros [= <-]; now rewrite orb_false_r].
  destruct to as [to|]; [|intros [= <-]; now rewrite orb_false_r].
  destruct type as [type|]; [|intros [= <-]; now rewrite orb_false_r].
  destruct (_ && _); [|intros [= <-]; now rewrite orb_false_r].
  cbv zeta. intros H. bind_inv H val Hval. rewrite Hval.
  unfold mentioned. cbn [existsb party fst snd orb].
  destruct (val >? 0); [|injection H as <-; cbn; now rewrite orb_false_r].
  bind_inv H p1 H1. bind_inv H p2 H2. bind_inv H p3 H3. injection H as <-.
  cbn [prof set_prof emit set_out] in *.
  rewrite (known_modify _ _ _ _ _ H3), (known_modify _ _ _ _ _ H2),
    (known_modify _ _ _ _ _ H1), !known_getProf.
  cbn [existsb party fst snd].
  change (field "from" (internal_transfer_doc runId h rc ts from to type val depth))
    with (JStr from).
  change (field "to" (internal_transfer_doc runId h rc ts from to type val depth))
    with (JStr to).
  cbn [jstr_is]. rewrite !orb_false_r.
  now destruct (String.eqb a to), (String.eqb a from), (known a (prof st)).
Qed.

Lemma walkTrace_known (call : Call) :
  forall (depth : Z) (st st' : State),
    walkTrace runId h rc ts call depth st = Ok st' ->
    known a (prof st')
    = known a (prof st) || mentioned a (walk_docs runId h rc ts call depth).
Proof.
  induction call as [from to input value type output rr calls IH] using Call_induction.
  intros depth st st' H. rewrite walk_docs_unfold, mentioned_app. cbn [walkTrace] in H.
  bind_inv H st1 H1. rewrite orb_assoc, <- (visit_call_known _ _ _ _ _ _ _ _ H1).
  clear H1. destruct calls as [subs|]; [|injection H as <-; now rewrite orb_false_r].
  revert st1 H. induction subs as [|sub subs IHs]; intros st1 H.
  - injection H as <-. now rewrite orb_false_r.
  - bind_inv H st2 H2. inversion IH as [|? ? Hsub Hsubs]; subst.
    cbn [flat_map]. rewrite mentioned_app, orb_assoc, <- (Hsub _ _ _ H2).
    exact (IHs Hsubs st2 H).
Qed.

Lemma trace_block_known (trace : option Call) (st st' : State) :
  trace_block runId h rc ts trace st = Ok st' ->
  known a (prof st') = known a (prof st) || mentioned a (trace_docs runId h rc ts trace).
Proof.
  unfold trace_block, trace_docs.
  destruct trace as [t|]; [|intros [= <-]; now rewrite orb_false_r].
  intros H. now rewrite (walkTrace_known t _ _ _ H).
Qed.

Lemma derive_tx_known (trace : option Call) (st st' : State) :
  derive_tx runId h tx rc ts trace st = Ok st' ->
  known a (prof st) = mentioned a (out st) ->
  known a (prof st') = mentioned a (out st').
Proof.
  intros H K.
  destruct (derive_tx_steps _ _ _ _ _ _ _ _ H) as (us & Hus & (O & _)).
  destruct (derive_tx_blocks runId h tx rc ts trace st st' H)
    as (st1 & st2 & st3 & st4 & st5 & transfers & H1 & P2 & H3 & H4 & H5 & P6).
  rewrite P6, (trace_block_known _ _ _ H5), (token_transfers_block_known _ _ _ _ _ H4),
    (eth_transfer_block_known _ _ H3), P2, (profile_block_known _ _ H1).
  cbn [prof timeline_block emit set_out]. rewrite K, O.
  unfold tx_docs. rewrite !mentioned_app.
  rewrite (mentioned_none a (revert_docs runId h rc ts trace)),
          (mentioned_none a (approval_docs runId h rc ts (rc_logs rc) 0)),
          (mentioned_none a us).
  - now rewrite !orb_false_r, !orb_assoc.
  - eapply streams_in_weaken; [|eapply usage_docs_streams; exact Hus].
    intros W. destruct W; cbn; congruence.
  - eapply streams_in_weaken; [|apply approval_docs_streams].
    intros W. destruct W; cbn; congruence.
  - eapply streams_in_weaken; [|apply revert_docs_streams].
    intros W. destruct W; cbn; congruence.
Qed.

End Participants.

Lemma derive_loop_known (runId : string) (a : string) (fs : list Fetched)
    (st st' : State) :
  a <> EmptyString ->
  derive_loop runId fs st = Ok st' ->
  known a (prof st) = mentioned a (out st) ->
  known a (prof st') = mentioned a (out st').
Proof.
  intros Ha. revert st. induction fs as [|f fs IH]; intros st H K.
  - now injection H as <-.
  - cbn [derive_loop] in H. bind_inv H st1 H1. apply (IH st1 H).
    unfold iteration in H1.
    destruct (f_tx f) as [tx|]; [destruct (f_rc f) as [rc|]|];
      try (injection H1 as <-; exact K).
    exact (derive_tx_known runId _ tx rc _ a Ha _ _ _ H1 K).
Qed.

Lemma jstr_is_eq (a : string) (j : json) : jstr_is a j = true <-> j = JStr a.
Proof.
  destruct j; cbn; split; try discriminate.
  - intros E. apply String.eqb_eq in E. now subst.
  - intros [= ->]. apply String.eqb_refl.
Qed.

Lemma mentioned_iff (a : string) (l : list (Stream * record)) :
  mentioned a l = true
  <-> exists r,
        (In r (written contractCallsW l) \/ In r (written transfersW l)
         \/ In r (written internalTransfersW l))
        /\ (field "from" r = JStr a \/ field "to" r = JStr a).
Proof.
  unfold mentioned. rewrite existsb_exists. split.
  - intros ([W r] & Hin & P). unfold party in P. cbn [fst snd] in P.
    exists r. rewrite !In_written.
    destruct W; try discriminate P; apply orb_true_iff in P;
      rewrite !jstr_is_eq in P; auto.
  - intros (r & Hin & P). rewrite !In_written in Hin.
    rewrite <- !jstr_is_eq in P. apply orb_true_iff in P.
    destruct Hin as [Hin|[Hin|Hin]]; eexists; (split; [exact Hin | exact P]).
Qed.

(** X24.  The profiles cover the participants and nobody else: in a run
    that completes, an address other than the empty string has an
    [address_profile] record exactly when it is the [from] or the [to] of
    a [contract_call], an [asset_transfer] or an
    [internal_native_transfer] record of the run.  (The caller and callee
    of a traced call that moves no value get no profile from it.) *)
Theorem profiles_cover_participants (runId : string) (fs : list Fetched) (st : State) :
  derive runId fs = Ok st ->
  forall a, a <> EmptyString ->
    (exists p, In p (written profilesW (out st)) /\ field "address" p = JStr a)
    <-> (exists r,
           (In r (written contractCallsW (out st))
            \/ In r (written transfersW (out st))
            \/ In r (written internalTransfersW (out st)))
           /\ (field "from" r = JStr a \/ field "to" r = JStr a)).
Proof.
  intros H a Ha.
  destruct (derive_Ok runId fs st H) as (st0 & new & H0 & O0 & S & _ & [N F] & O).
  destruct (written_flush runId st0 new S) as (WP & _).
  pose proof (derive_loop_known runId a fs init_state st0 Ha H0 eq_refl) as K.
  assert (M : mentioned a (out st) = mentioned a (out st0)).
  { rewrite O, O0, mentioned_app, (mentioned_none a (flush_docs runId st0));
      [apply orb_false_r|].
    unfold flush_docs. apply streams_in_app; now apply streams_in_map. }
  rewrite <- mentioned_iff, M, <- K, O, WP. unfold known. split.
  - intros (p & Hp & Hadr). apply in_map_iff in Hp. destruct Hp as ([k pr] & <- & Hin).
    cbn [snd] in Hadr.
    pose proof (proj1 (Forall_forall _ _) F _ Hin) as (Hk & _). cbn [fst snd] in Hk.
    change (field "address" (profile_doc runId pr)) with (JStr (address pr)) in Hadr.
    assert (k = a) as -> by congruence.
    now rewrite (map_get_In _ _ _ N Hin).
  - destruct (map_get a (prof st0)) as [pr|] eqn:G; [|discriminate]. intros _.
    exists (profile_doc runId pr). split.
    + apply in_map_iff. exists (a, pr). split; [reflexivity|].
      clear -G. induction (prof st0) as [|[k0 v0] m IH]; [discriminate|]. cbn in G.
      destruct (String.eqb_spec a k0) as [->|]; [left; congruence | right; auto].
    + change (field "address" (profile_doc runId pr)) with (JStr (address pr)).
      pose proof (Forall_map_get (fun k v => prof_ok k v) a pr _ F G) as (Hk & _).
      now rewrite Hk.
Qed.

Lemma profiles_cover_participants_witness :
  exists st,
    derive "RUN_1" payments_run = Ok st
    /\ ((exists p, In p (written profilesW (out st))
                   /\ field "address" p = JStr "0x70997970c51812dc3a010c7d01b50e0d17dc79c8")
        <-> (exists r,
               (In r (written contractCallsW (out st))
                \/ In r (written transfersW (out st))
                \/ In r (written internalTransfersW (out st)))
               /\ (field "from" r = JStr "0x70997970c51812dc3a010c7d01b50e0d17dc79c8"
                   \/ field "to" r = JStr "0x70997970c51812dc3a010c7d01b50e0d17dc79c8"))).
Proof.
  eexists. split; [vm_compute; reflexivity|].
  apply (profiles_cover_participants "RUN_1" payments_run).
  - vm_compute; reflexivity.
  - discriminate.
Defined.

(* ------------------------------------------------------------------ *)
(** ** The method stats against the contract calls *)

Lemma stat_view_set (k key : string) (s : MethodStat) (m : list (string * MethodStat)) :
  stat_view k (map_set key s m)
  = if String.eqb k key
    then (ms_count s, ms_success_count s, ms_revert_count s, ms_callers s)
    else stat_view k m.
Proof. unfold stat_view. rewrite map_get_set. now destruct (String.eqb k key). Qed.

Lemma stat_view_getMethodStat (k to mid : string) (m : list (string * MethodStat)) :
  stat_view k (getMethodStat to mid m) = stat_view k m.
Proof.
  unfold getMethodStat. cbv zeta.
  destruct (map_get (method_key to mid) m) eqn:E; [reflexivity|].
  rewrite stat_view_set. destruct (String.eqb_spec k (method_key to mid)) as [->|];
    [|reflexivity].
  unfold stat_view. now rewrite E.
Qed.

Lemma calls_stat_app (k : string) (l1 l2 : list record) v :
  calls_stat k (l1 ++ l2) v = calls_stat k l2 (calls_stat k l1 v).
Proof. apply fold_left_app. Qed.

Section StatCalls.

Variables (runId h : string) (tx : Tx) (rc : Receipt) (ts : option Z).

Lemma call_key_doc :
  call_key (contract_call_doc runId h tx rc ts)
  = match tx_to tx with
    | Some to =>
        if truthy_str to && negb (String.eqb (methodId tx) "0x")
        then Some (method_key to (methodId tx)) else None
    | None => None
    end.
Proof.
  unfold call_key.
  change (field "to" (contract_call_doc runId h tx rc ts))
    with (if truthy_ostr (tx_to tx) then jstr_or_null (tx_to tx) else JNull).
  change (field "method_id" (contract_call_doc runId h tx rc ts))
    with (JStr (methodId tx)).
  destruct (tx_to tx) as [to|]; [|reflexivity]. cbn [truthy_ostr jstr_or_null].
  destruct (truthy_str to); [|reflexivity]. cbn [andb negb].
  now destruct (String.eqb (methodId tx) "0x").
Qed.

Lemma method_stats_block_view (st st' : State) (k : string) :
  method_stats_block tx rc ts st = Ok st' ->
  stat_view k (methodStats st')
  = if counted k (contract_call_doc runId h tx rc ts)
    then bump (contract_call_doc runId h tx rc ts) (stat_view k (methodStats st))
    else stat_view k (methodStats st).
Proof.
  unfold counted. rewrite call_key_doc. unfold method_stats_block.
  destruct (tx_to tx) as [to|]; [|now intros [= <-]].
  destruct (truthy_str to && negb (String.eqb (methodId tx) "0x")); [|now intros [= <-]].
  intros H. bind_inv H m Hm. injection H as <-. cbn [methodStats set_methodStats].
  apply modify_Ok in Hm. destruct Hm as (v & v' & Hg & Hv & ->).
  rewrite stat_view_set.
  destruct (String.eqb_spec k (method_key to (methodId tx))) as [->|];
    [|apply stat_view_getMethodStat].
  rewrite <- (stat_view_getMethodStat _ to (methodId tx)). unfold stat_view at 1.
  rewrite Hg. injection Hv as <-.
  unfold bump, succeeded, caller_of.
  change (field "status" (contract_call_doc runId h tx rc ts)) with (JStr (txStatus rc)).
  change (field "from" (contract_call_doc runId h tx rc ts)) with (JStr (tx_from tx)).
  cbn [jstr_is]. rewrite (String.eqb_sym "success" (txStatus rc)).
  set (s := if truthy_str (tx_from tx) then _ else _).
  assert (Hs : (ms_count s, ms_success_count s, ms_revert_count s, ms_callers s)
               = (ms_count v + 1,
                  if String.eqb (txStatus rc) "success"
                  then ms_success_count v + 1 else ms_success_count v,
                  if String.eqb (txStatus rc) "success"
                  then ms_revert_count v else ms_revert_count v + 1,
                  fold_left (fun cl f => set_add f cl)
                    (if truthy_str (tx_from tx) then [tx_from tx] else [])
                    (ms_callers v))).
  { unfold s. destruct (String.eqb (txStatus rc) "success"), (truthy_str (tx_from tx));
      reflexivity. }
  rewrite <- Hs. clearbody s.
  destruct ts as [t|]; [|reflexivity].
  destruct (truthy_num (Some t)); [|reflexivity].
  destruct (stat_seen_step t s) as (E1 & E2 & E3 & E4 & _). cbv zeta in *.
  now rewrite E1, E2, E3, E4.
Qed.

End StatCalls.

Lemma derive_loop_stat_view (runId : string) (k : string) (fs : list Fetched)
    (st st' : State) :
  derive_loop runId fs st = Ok st' ->
  stat_view k (methodStats st)
  = calls_stat k (written contractCallsW (out st)) (0, 0, 0, []) ->
  stat_view k (methodStats st')
  = calls_stat k (written contractCallsW (out st')) (0, 0, 0, []).
Proof.
  revert st. induction fs as [|f fs IH]; intros st H K.
  - now injection H as <-.
  - cbn [derive_loop] in H. bind_inv H st1 H1. apply (IH st1 H).
    rewrite (iteration_written runId contractCallsW f st st1 eq_refl H1).
    unfold iteration, run_docs in *.
    destruct (f_tx f) as [tx|]; [destruct (f_rc f) as [rc|]|];
      try (injection H1 as <-; cbn; now rewrite app_nil_r).
    destruct (derive_tx_stats_blocks _ _ _ _ _ _ _ _ H1) as (s1 & s2 & M1 & H2 & M2).
    rewrite M2, (method_stats_block_view runId (f_hash f) tx rc (f_blk f) _ _ k H2), M1, K.
    rewrite calls_stat_app,
      (proj2 (proj2 (written_timeline_streams runId (f_hash f) tx rc (f_blk f)
                       (f_trace f)))).
    reflexivity.
Qed.

Lemma set_add_NoDup (x : string) (s : list string) : NoDup s -> NoDup (set_add x s).
Proof.
  intros N. unfold set_add. destruct (existsb (String.eqb x) s) eqn:E; [assumption|].
  apply NoDup_app; [assumption | repeat constructor; intros [] |].
  intros y Hy [Ey|[]]. subst y. apply (set_has_In x s) in Hy. unfold set_has in Hy.
  congruence.
Qed.

Lemma calls_stat_cons (k : string) (r : record) (calls : list record) v :
  calls_stat k (r :: calls) v = calls_stat k calls (if counted k r then bump r v else v).
Proof. reflexivity. Qed.

(** The figures a list of calls gives a key, in closed form. *)
Lemma calls_stat_closed (k : string) (calls : list record) c s rv cl :
  NoDup cl ->
  let cs := filter (counted k) calls in
  exists cl',
    calls_stat k calls (c, s, rv, cl)
    = (c + Z.of_nat (List.length cs),
       s + Z.of_nat (List.length (filter succeeded cs)),
       rv + Z.of_nat (List.length (filter (fun r => negb (succeeded r)) cs)),
       cl')
    /\ NoDup cl'
    /\ forall x, In x cl' <-> In x cl \/ exists r, In r cs /\ In x (caller_of r).
Proof.
  revert c s rv cl. induction calls as [|r calls IH]; intros c s rv cl N; cbv zeta.
  - exists cl. cbn. rewrite !Z.add_0_r. splits; auto.
    intros x. split; [auto | intros [H|(r & [] & _)]; exact H].
  - rewrite calls_stat_cons. cbn [filter].
    destruct (counted k r) eqn:C.
    + change (bump r (c, s, rv, cl))
        with (c + 1, (if succeeded r then s + 1 else s),
              (if succeeded r then rv else rv + 1),
              fold_left (fun cl f => set_add f cl) (caller_of r) cl).
      assert (N' : NoDup (fold_left (fun cl f => set_add f cl) (caller_of r) cl)
                   /\ forall x, In x (fold_left (fun cl f => set_add f cl) (caller_of r) cl)
                                <-> In x cl \/ In x (caller_of r)).
      { unfold caller_of. destruct (field "from" r) as [| | | |f| |];
          try (split; [exact N | intros x; cbn; tauto]).
        destruct (truthy_str f); [|split; [exact N | intros x; cbn; tauto]].
        cbn [fold_left]. split; [now apply set_add_NoDup|].
        intros x. rewrite set_add_In. cbn. intuition. }
      destruct N' as [N' M'].
      destruct (IH (c + 1) (if succeeded r then s + 1 else s)
                   (if succeeded r then rv else rv + 1) _ N') as (cl' & E & Nc & Mc).
      exists cl'. cbv zeta in E. rewrite E. split; [|split; [exact Nc|]].
      * cbn [filter List.length]. destruct (succeeded r); cbn [negb filter List.length];
          repeat first [reflexivity | lia | f_equal].
      * intros x. rewrite Mc, M'. split.
        -- intros [[H|H]|(r' & Hr' & Hx)]; auto.
           ++ right. exists r. split; [now left | exact H].
           ++ right. exists r'. split; [now right | exact Hx].
        -- intros [H|(r' & [<-|Hr'] & Hx)]; auto. right. eauto.
    + destruct (IH c s rv cl N) as (cl' & E & Nc & Mc). exists cl'. auto.
Qed.

(** X25.  The method stats are the counts of the contract calls: in a
    run that completes, the [count] of a [method_stat] record is the
    number of [contract_call] records with its callee and selector (the
    calls that have a callee and a selector other than ["0x"], taken by
    the key callee|selector), [success_count] the number of those whose
    status is success, [revert_count] the number of the others, and
    [unique_callers] the number of distinct non-empty senders among
    them. *)
Theorem method_stats_count_contract_calls (runId : string) (fs : list Fetched)
    (st : State) :
  derive runId fs = Ok st ->
  forall s t m,
    In s (written methodStatsW (out st)) ->
    field "to" s = JStr t -> field "method_id" s = JStr m ->
    let cs := filter (counted (method_key t m)) (written contractCallsW (out st)) in
    field "count" s = JNum (Z.of_nat (List.length cs))
    /\ field "success_count" s = JNum (Z.of_nat (List.length (filter succeeded cs)))
    /\ field "revert_count" s
       = JNum (Z.of_nat (List.length (filter (fun r => negb (succeeded r)) cs)))
    /\ exists callers,
         NoDup callers
         /\ (forall x, In x callers
                       <-> x <> EmptyString
                           /\ exists r, In r cs /\ field "from" r = JStr x)
         /\ field "unique_callers" s = JNum (Z.of_nat (List.length callers)).
Proof.
  intros H s t m Hs Ht Hm cs.
  destruct (derive_Ok runId fs st H) as (st0 & new & H0 & O0 & S & _ & _ & O).
  destruct (written_flush runId st0 new S) as (_ & WS).
  pose proof (derive_loop_stats runId fs init_state st0 H0 stats_ok_init) as [Ns Fs].
  assert (C : written contractCallsW (out st) = written contractCallsW (out st0)).
  { rewrite O, O0, written_app. unfold flush_docs.
    rewrite written_app, !written_other by reflexivity. now rewrite !app_nil_r. }
  rewrite O, WS in Hs. apply in_map_iff in Hs. destruct Hs as ([k ms] & <- & Hin).
  cbn [snd] in *.
  change (field "to" (method_stat_doc runId ms)) with (JStr (ms_to ms)) in Ht.
  change (field "method_id" (method_stat_doc runId ms)) with (JStr (ms_method_id ms)) in Hm.
  injection Ht as <-. injection Hm as <-.
  pose proof (proj1 (Forall_forall _ _) Fs _ Hin) as Hk. cbn [fst snd] in Hk. subst k.
  pose proof (derive_loop_stat_view runId (method_key (ms_to ms) (ms_method_id ms))
                fs init_state st0 H0 eq_refl) as V.
  unfold stat_view in V. rewrite (map_get_In _ _ _ Ns Hin) in V.
  destruct (calls_stat_closed (method_key (ms_to ms) (ms_method_id ms))
              (written contractCallsW (out st0)) 0 0 0 [] (NoDup_nil _))
    as (cl & E & Nc & Mc).
  cbv zeta in E. rewrite E in V. injection V as Vc Vs Vr Vl.
  unfold cs. rewrite C.
  change (field "count" (method_stat_doc runId ms)) with (JNum (ms_count ms)).
  change (field "success_count" (method_stat_doc runId ms))
    with (JNum (ms_success_count ms)).
  change (field "revert_count" (method_stat_doc runId ms))
    with (JNum (ms_revert_count ms)).
  change (field "unique_callers" (method_stat_doc runId ms))
    with (JNum (Z.of_nat (List.length (ms_callers ms)))).
  rewrite Vc, Vs, Vr, Vl. splits; try reflexivity.
  exists cl. splits; auto.
  intros x. rewrite Mc. cbv zeta. split.
  - intros [[]|(r & Hr & Hx)]. unfold caller_of in Hx.
    destruct (field "from" r) as [| | | |f| |] eqn:F; try destruct Hx.
    destruct (truthy_str f) eqn:T; [|destruct Hx]. destruct Hx as [<-|[]].
    split; [now apply truthy_str_iff | eauto].
  - intros (Hx & r & Hr & F). right. exists r. split; [assumption|].
    unfold caller_of. rewrite F, (proj2 (truthy_str_iff x) Hx). now left.
Qed.

Lemma method_stats_count_contract_calls_witness :
  exists st s,
    derive "RUN_1" approval_then_spend = Ok st
    /\ In s (written methodStatsW (out st))
    /\ field "to" s = JStr "0x5fbdb2315678afecb367f032d93f642f64180aa3"
    /\ field "method_id" s = JStr "0x23b872dd"
    /\ field "count" s
       = JNum (Z.of_nat (List.length
            (filter (counted (method_key "0x5fbdb2315678afecb367f032d93f642f64180aa3"
                                         "0x23b872dd"))
                    (written contractCallsW (out st))))).
Proof.
  eexists _, _. split; [vm_compute; reflexivity|].
  split; [vm_compute; right; left; reflexivity|].
  split; [vm_compute; reflexivity|]. split; [vm_compute; reflexivity|].
  eapply (proj1 (method_stats_count_contract_calls "RUN_1" approval_then_spend _ _ _ _ _ _ _ _)).
  Unshelve.
  - vm_compute; reflexivity.
  - vm_compute. right. left. reflexivity.
  - vm_compute; reflexivity.
  - vm_compute; reflexivity.
Defined.

(* ------------------------------------------------------------------ *)
(** ** The call targets of a profile *)

Lemma targets_app (a : string) (l1 l2 : list (Stream * record)) (cl : list string) :
  targets a (l1 ++ l2) cl = targets a l2 (targets a l1 cl).
Proof. unfold targets. now rewrite flat_map_app, fold_left_app. Qed.

Lemma targets_none (a : string) (l : list (Stream * record)) (cl : list string) :
  Forall (fun e => moves_value e = false) l -> targets a l cl = cl.
Proof.
  unfold targets. induction 1 as [|e l He _ IH]; [reflexivity|].
  cbn [flat_map]. unfold target_of at 1. rewrite He. exact IH.
Qed.

Lemma streams_no_value (l : list (Stream * record)) :
  streams_in [txEnrichedW; blockTxOrderW; contractCallsW; edgesW; traceEdgesW;
              revertReasonsW; approvalsW; allowanceEdgesW; allowanceUsageW;
              profilesW; methodStatsW] l ->
  Forall (fun e => moves_value e = false) l.
Proof.
  intros H. eapply Forall_impl; [|exact H]. cbn beta. intros [W r] Hx.
  unfold moves_value. cbn [fst snd] in *. destruct W; try reflexivity; discriminate Hx.
Qed.

Lemma fold_set_add_spec (ts cl : list string) :
  NoDup cl ->
  NoDup (fold_left (fun cl t => set_add t cl) ts cl)
  /\ forall x, In x (fold_left (fun cl t => set_add t cl) ts cl) <-> In x cl \/ In x ts.
Proof.
  revert cl. induction ts as [|t ts IH]; intros cl N; cbn [fold_left].
  - split; [assumption | intros x; cbn; tauto].
  - destruct (IH (set_add t cl) (set_add_NoDup t cl N)) as (N' & M').
    split; [assumption|]. intros x. rewrite M', set_add_In. cbn. intuition.
Qed.

Lemma touch_seen_call_targets (ts : option Z) (bn : Z) (p : Prof) :
  call_targets (touch_seen ts bn p) = call_targets p.
Proof. unfold touch_seen. destruct ts; case_ifs; reflexivity. Qed.

Section Targets.

Variables (runId h : string) (tx : Tx) (rc : Receipt) (ts : option Z).
Variable a : string.

Lemma eth_transfer_block_targets (st st' : State) :
  eth_transfer_block runId h tx rc ts st = Ok st' ->
  obs call_targets a (prof st')
  = targets a (native_docs runId h tx rc ts) (obs call_targets a (prof st)).
Proof.
  unfold eth_transfer_block, native_docs.
  destruct (tx_to tx) as [to|]; [|now intros [= <-]].
  destruct (sends_value tx); [|now intros [= <-]].
  cbv zeta. intros H. bind_inv H p1 H1. bind_inv H p2 H2. injection H as <-.
  cbn [prof set_prof emit set_out] in *.
  rewrite (modify_frame call_targets _ _ _ _ H2),
    (modify_obs_change call_targets (set_add to) _ _ _ _ H1), !obs_getProf.
  - unfold targets. cbn [flat_map]. unfold target_of, moves_value. cbn [fst snd].
    change (field "asset_type" (native_transfer_doc runId h tx rc ts to))
      with (JStr "native").
    change (field "from" (native_transfer_doc runId h tx rc ts to))
      with (JStr (tx_from tx)).
    change (field "to" (native_transfer_doc runId h tx rc ts to)) with (JStr to).
    cbn [jstr_is andb]. change (String.eqb "native" "native") with true. cbn [andb].
    now destruct (String.eqb a (tx_from tx)).
  - intros v v' Hv. bind_inv Hv x Hx. now injection Hv as <-.
  - intros v v' Hv. bind_inv Hv x Hx. now injection Hv as <-.
Qed.

Lemma visit_call_targets (from to type value input : option string) (depth : Z)
    (st st' : State) :
  visit_call runId h rc ts from to type value input depth st = Ok st' ->
  obs call_targets a (prof st')
  = targets a (visit_docs runId h rc ts from to type value input depth)
      (obs call_targets a (prof st)).
Proof.
  unfold visit_call, visit_docs.
  destruct from as [from|]; [|now intros [= <-]].
  destruct to as [to|]; [|now intros [= <-]].
  destruct type as [type|]; [|now intros [= <-]].
  destruct (_ && _); [|now intros [= <-]].
  cbv zeta. intros H. bind_inv H val Hval. rewrite Hval.
  destruct (val >? 0); [|now injection H as <-].
  bind_inv H p1 H1. bind_inv H p2 H2. bind_inv H p3 H3. injection H as <-.
  cbn [prof set_prof emit set_out] in *.
  rewrite (modify_obs_change call_targets (set_add to) _ _ _ _ H3),
    (modify_frame call_targets _ _ _ _ H2), (modify_frame call_targets _ _ _ _ H1),
    !obs_getProf.
  - unfold targets. cbn [flat_map]. unfold target_of, moves_value. cbn [fst snd andb].
    change (field "from" (internal_transfer_doc runId h rc ts from to type val depth))
      with (JStr from).
    change (field "to" (internal_transfer_doc runId h rc ts from to type val depth))
      with (JStr to).
    cbn [jstr_is app]. now destruct (String.eqb a from).
  - intros v v' Hv. bind_inv Hv x Hx. now injection Hv as <-.
  - intros v v' Hv. bind_inv Hv x Hx. now injection Hv as <-.
  - intros v v' Hv. now injection Hv as <-.
Qed.

Lemma walkTrace_targets (call : Call) :
  forall (depth : Z) (st st' : State),
    walkTrace runId h rc ts call depth st = Ok st' ->
    obs call_targets a (prof st')
    = targets a (walk_docs runId h rc ts call depth) (obs call_targets a (prof st)).
Proof.
  induction call as [from to input value type output rr calls IH] using Call_induction.
  intros depth st st' H. rewrite walk_docs_unfold, targets_app. cbn [walkTrace] in H.
  bind_inv H st1 H1. rewrite <- (visit_call_targets _ _ _ _ _ _ _ _ H1).
  clear H1. destruct calls as [subs|]; [|now injection H as <-].
  revert st1 H. induction subs as [|sub subs IHs]; intros st1 H.
  - now injection H as <-.
  - bind_inv H st2 H2. inversion IH as [|? ? Hsub Hsubs]; subst.
    cbn [flat_map]. rewrite targets_app, <- (Hsub _ _ _ H2).
    exact (IHs Hsubs st2 H).
Qed.

Lemma trace_block_targets (trace : option Call) (st st' : State) :
  trace_block runId h rc ts trace st = Ok st' ->
  obs call_targets a (prof st')
  = targets a (trace_docs runId h rc ts trace) (obs call_targets a (prof st)).
Proof.
  unfold trace_block, trace_docs. destruct trace as [t|]; [|now intros [= <-]].
  intros H. rewrite (walkTrace_targets t _ _ _ H). reflexivity.
Qed.

Lemma token_docs_no_value (l : list Transfer) :
  Forall (fun e => moves_value e = false) (token_docs runId h rc ts l).
Proof. induction l; repeat constructor. assumption. Qed.

Lemma derive_tx_targets (trace : option Call) (st st' : State) :
  derive_tx runId h tx rc ts trace st = Ok st' ->
  obs call_targets a (prof st) = targets a (out st) [] ->
  obs call_targets a (prof st') = targets a (out st') [].
Proof.
  intros H K.
  destruct (derive_tx_steps _ _ _ _ _ _ _ _ H) as (us & Hus & (O & _)).
  destruct (derive_tx_blocks runId h tx rc ts trace st st' H)
    as (st1 & st2 & st3 & st4 & st5 & transfers & H1 & P2 & H3 & H4 & H5 & P6).
  rewrite P6, (trace_block_targets _ _ _ H5).
  rewrite (token_transfers_block_frame call_targets runId h rc ts
             (fun _ _ => eq_refl) (fun _ _ => eq_refl) _ _ _ _ _ H4 a).
  rewrite (eth_transfer_block_targets _ _ H3), P2.
  rewrite (profile_block_frame call_targets tx rc ts
             (fun _ _ => eq_refl) (fun _ _ => eq_refl) (fun _ _ => eq_refl)
             (fun _ _ => eq_refl) touch_seen_call_targets _ _ H1 a).
  cbn [prof timeline_block emit set_out]. rewrite K, O.
  unfold tx_docs. rewrite !targets_app.
  rewrite (targets_none a (timeline_docs runId h tx rc ts)),
          (targets_none a (token_docs runId h rc ts (decoded_transfers (rc_logs rc)))),
          (targets_none a (revert_docs runId h rc ts trace)),
          (targets_none a (approval_docs runId h rc ts (rc_logs rc) 0)),
          (targets_none a us).
  - reflexivity.
  - apply streams_no_value.
    eapply streams_in_weaken; [|eapply usage_docs_streams; exact Hus].
    intros W. destruct W; cbn; congruence.
  - apply streams_no_value.
    eapply streams_in_weaken; [|apply approval_docs_streams].
    intros W. destruct W; cbn; congruence.
  - apply streams_no_value.
    eapply streams_in_weaken; [|apply revert_docs_streams].
    intros W. destruct W; cbn; congruence.
  - apply token_docs_no_value.
  - repeat constructor.
Qed.

End Targets.

Lemma derive_loop_targets (runId : string) (a : string) (fs : list Fetched)
    (st st' : State) :
  derive_loop runId fs st = Ok st' ->
  obs call_targets a (prof st) = targets a (out st) [] ->
  obs call_targets a (prof st') = targets a (out st') [].
Proof.
  revert st. induction fs as [|f fs IH]; intros st H K.
  - now injection H as <-.
  - cbn [derive_loop] in H. bind_inv H st1 H1. apply (IH st1 H).
    unfold iteration in H1.
    destruct (f_tx f) as [tx|]; [destruct (f_rc f) as [rc|]|];
      try (injection H1 as <-; exact K).
    exact (derive_tx_targets runId _ tx rc _ a _ _ _ H1 K).
Qed.

(** X26.  The call targets of a profile are the recipients of the value
    its address sent: in a run that completes, [call_targets] of the
    profile of an address lists, without repetition, exactly the [to] of
    the native [asset_transfer] records and of the
    [internal_native_transfer] records whose [from] is the address.  A
    call that moves no value adds no target. *)
Theorem call_targets_are_value_recipients (runId : string) (fs : list Fetched)
    (st : State) :
  derive runId fs = Ok st ->
  forall p a,
    In p (written profilesW (out st)) ->
    field "address" p = JStr a ->
    exists cl,
      field "call_targets" p = JArr (map JStr cl)
      /\ NoDup cl
      /\ forall x,
           In x cl
           <-> exists r,
                 ((In r (written transfersW (out st))
                   /\ field "asset_type" r = JStr "native")
                  \/ In r (written internalTransfersW (out st)))
                 /\ field "from" r = JStr a /\ field "to" r = JStr x.
Proof.
  intros H p a Hp Ha.
  destruct (derive_Ok runId fs st H) as (st0 & new & H0 & O0 & S & _ & [N F] & O).
  destruct (written_flush runId st0 new S) as (WP & _).
  rewrite O, WP in Hp. apply in_map_iff in Hp. destruct Hp as ([k pr] & <- & Hin).
  cbn [snd] in *.
  pose proof (proj1 (Forall_forall _ _) F _ Hin) as (Hk & _). cbn [fst snd] in Hk.
  assert (k = a) as -> by (change (field "address" (profile_doc runId pr))
                             with (JStr (address pr)) in Ha; congruence).
  pose proof (derive_loop_targets runId a fs init_state st0 H0 eq_refl) as K.
  rewrite (obs_get _ a _ pr (map_get_In _ _ _ N Hin)) in K.
  exists (call_targets pr). split; [reflexivity|].
  destruct (fold_set_add_spec (flat_map (target_of a) (out st0)) [] (NoDup_nil _))
    as (Nc & Mc).
  fold (targets a (out st0) []) in Nc, Mc. rewrite <- K in Nc, Mc.
  split; [exact Nc|]. intros x. rewrite Mc, in_flat_map.
  assert (V : forall W, W = transfersW \/ W = internalTransfersW ->
                        written W (out st) = written W (out st0)).
  { intros W HW. rewrite O, O0, written_app. unfold flush_docs.
    destruct HW as [-> | ->];
      rewrite written_app, !written_other by reflexivity; now rewrite !app_nil_r. }
  rewrite (V transfersW (or_introl eq_refl)), (V internalTransfersW (or_intror eq_refl)).
  split.
  - intros [[]|([W r] & He & Hx)]. unfold target_of in Hx.
    destruct (moves_value (W, r)) eqn:MV; [|destruct Hx].
    cbn [snd andb] in Hx.
    destruct (jstr_is a (field "from" r)) eqn:Fr; [|destruct Hx].
    destruct (field "to" r) eqn:To; try (now destruct Hx).
    destruct Hx as [<-|[]]. apply jstr_is_eq in Fr.
    exists r. split; [|auto].
    unfold moves_value in MV. cbn [fst snd] in MV. destruct W; try discriminate MV.
    + left. split; [now apply In_written | now apply jstr_is_eq].
    + right. now apply In_written.
  - intros (r & Hr & Fr & To). right.
    apply jstr_is_eq in Fr.
    destruct Hr as [[Hr Ty]|Hr]; apply In_written in Hr;
      eexists; (split; [exact Hr|]);
      unfold target_of, moves_value; cbn [fst snd]; rewrite Fr, To.
    + apply jstr_is_eq in Ty. rewrite Ty. now left.
    + now left.
Qed.

Lemma call_targets_are_value_recipients_witness :
  exists st p,
    derive "RUN_1" payments_run = Ok st
    /\ In p (written profilesW (out st))
    /\ field "address" p = JStr "0xf39fd6e51aad88f6f4ce6ab8827279cfffb92266"
    /\ exists cl,
         field "call_targets" p = JArr (map JStr cl)
         /\ NoDup cl
         /\ forall x,
              In x cl
              <-> exists r,
                    ((In r (written transfersW (out st))
                      /\ field "asset_type" r = JStr "native")
                     \/ In r (written internalTransfersW (out st)))
                    /\ field "from" r = JStr "0xf39fd6e51aad88f6f4ce6ab8827279cfffb92266"
                    /\ field "to" r = JStr x.
Proof.
  eexists _, _. split; [vm_compute; reflexivity|].
  split; [vm_compute; left; reflexivity|].
  split; [vm_compute; reflexivity|].
  eapply (call_targets_are_value_recipients "RUN_1" payments_run).
  - vm_compute; reflexivity.
  - vm_compute. left. reflexivity.
  - vm_compute; reflexivity.
Defined.

(* ------------------------------------------------------------------ *)
(** ** The transfers an allowance usage is written for *)

Lemma registry_complete_nil reg : registry_complete reg [].
Proof. intros a []. Qed.

Lemma registry_complete_app reg l new :
  registry_complete reg l -> none_on approvalsW new -> registry_complete reg (l ++ new).
Proof.
  intros H Hnew a Hin. apply in_app_iff in Hin. destruct Hin as [Hin|Hin]; [now apply H|].
  destruct (none_on_In _ _ _ Hnew Hin).
Qed.

Section Complete.

Variables (runId h : string) (tx : Tx) (rc : Receipt) (ts : option Z).

Lemma approval_step_complete (lg : Log) (idx : Z) (st : State) :
  wf_log lg = true ->
  registry_complete (approvals st) (out st) ->
  let st' := approval_step runId h rc ts lg idx st in
  registry_complete (approvals st') (out st').
Proof.
  intros Hwf Hreg. unfold approval_step.
  destruct (decodeApprovalEvent lg) as [ev|] eqn:E; [|assumption].
  cbv zeta. cbn [out approvals emit set_out set_approvals].
  rewrite decodeApprovalEvent_cases in E.
  destruct (List.length (lg_topics lg) <? 3)%nat eqn:L; [discriminate|].
  destruct (String.eqb _ _); [|discriminate].
  destruct (hexToBigInt _) as [value|]; [|discriminate].
  injection E as <-. cbn [ev_owner ev_spender ev_value].
  apply Nat.ltb_ge in L.
  unfold wf_log in Hwf. apply andb_true_iff in Hwf. destruct Hwf as [Hwf _].
  apply andb_true_iff in Hwf. destruct Hwf as [Haddr Htopics].
  destruct (topicToAddress_hex _ (topic_at_hex 1 _ Htopics ltac:(lia))) as (o & Ho & Bo).
  destruct (topicToAddress_hex _ (topic_at_hex 2 _ Htopics ltac:(lia))) as (s & Hs & Bs).
  rewrite Ho, Hs.
  intros a Hin. apply in_app_iff in Hin. destruct Hin as [Hin|[Hin|[]]]; [|discriminate].
  apply in_app_iff in Hin. destruct Hin as [Hin|[Hin|[]]].
  - destruct (Hreg a Hin) as (t0 & o0 & s0 & Ft & Fo & Fs & Bt & Bo0 & Bs0 & G).
    exists t0, o0, s0. splits; auto. rewrite map_get_set.
    now destruct (String.eqb _ _).
  - injection Hin as <-. exists (lg_address lg), o, s. cbn. splits; auto.
    + now apply hex_string_no_bar.
    + rewrite map_get_set.
      change (approval_key (lg_address lg) (Some o) (Some s))
        with (lg_address lg ++ "|" ++ o ++ "|" ++ s)%string.
      now rewrite String.eqb_refl.
Qed.

Lemma approvals_block_complete (logs : list Log) (idx : Z) (st : State) :
  forallb wf_log logs = true ->
  registry_complete (approvals st) (out st) ->
  let st' := approvals_block runId h rc ts logs idx st in
  registry_complete (approvals st') (out st').
Proof.
  revert idx st. induction logs as [|lg logs IH]; intros idx st Hwf Hreg; [assumption|].
  cbn [forallb] in Hwf. apply andb_true_iff in Hwf. destruct Hwf as [Hlg Hwf].
  cbn [approvals_block]. cbv zeta. apply IH; [assumption|].
  now apply approval_step_complete.
Qed.

(** A key of the registry whose three addresses match those of the
    transfer up to letter case makes the search succeed. *)
Lemma find_approval_complete reg l (token f sender t o s : string) :
  registry_backed reg l ->
  no_bar t = true -> no_bar o = true -> no_bar s = true ->
  map_get (t ++ "|" ++ o ++ "|" ++ s) reg <> None ->
  toLowerCase t = toLowerCase token ->
  toLowerCase o = toLowerCase f ->
  toLowerCase s = toLowerCase sender ->
  exists r, find_approval reg token (Some f) sender = Ok (Some r).
Proof.
  intros Hreg Bt Bo Bs G Et Eo Es.
  induction reg as [|[key0 e0] reg IH]; [now destruct G|].
  pose proof (registry_backed_tail _ _ _ Hreg) as Htail.
  destruct (Hreg key0 e0 (or_introl eq_refl))
    as (t0 & o0 & s0 & a & K & Bt0 & Bo0 & Bs0 & _).
  assert (Next : (t0, o0, s0) <> (t, o, s) ->
                 exists r, find_approval reg token (Some f) sender = Ok (Some r)).
  { intros Hne. apply IH; [assumption|]. cbn [map_get] in G.
    destruct (String.eqb_spec (t ++ "|" ++ o ++ "|" ++ s) key0) as [Ek|]; [|exact G].
    exfalso. apply Hne. rewrite K in Ek.
    pose proof (split_key t o s Bt Bo Bs) as S1.
    rewrite Ek, (split_key t0 o0 s0 Bt0 Bo0 Bs0) in S1. congruence. }
  cbn [find_approval]. rewrite K, (split_key t0 o0 s0 Bt0 Bo0 Bs0).
  cbn [nth_error lower_of bind].
  destruct (String.eqb_spec (toLowerCase t0) (toLowerCase token)) as [E1|N1];
    cbn [negb]; [|apply Next; congruence].
  destruct (String.eqb_spec (toLowerCase o0) (toLowerCase f)) as [E2|N2];
    cbn [negb]; [|apply Next; congruence].
  destruct (String.eqb_spec (toLowerCase s0) (toLowerCase sender)) as [E3|N3];
    [eauto | apply Next; congruence].
Qed.

Lemma same_lower_iff (j : json) (s : string) :
  same_lower j s = true <-> exists t, j = JStr t /\ toLowerCase t = toLowerCase s.
Proof.
  destruct j; cbn; split; try discriminate; try (intros (t & E & _); discriminate).
  - intros E. apply String.eqb_eq in E. eauto.
  - intros (t & [= ->] & E). now apply String.eqb_eq.
Qed.

(** The search succeeds exactly when an approval fact for the three
    addresses has been written. *)
Lemma find_approval_approved (t : Transfer) (f : string) (st : State) :
  registry_backed (approvals st) (out st) ->
  registry_complete (approvals st) (out st) ->
  tr_from t = Some f ->
  exists r,
    find_approval (approvals st) (tr_tokenAddr t) (tr_from t) (tx_from tx) = Ok r
    /\ (approved (written approvalsW (out st)) t (tx_from tx) = true
        <-> exists key ap, r = Some (key, ap)).
Proof.
  intros Hb Hc Hf.
  destruct (approved (written approvalsW (out st)) t (tx_from tx)) eqn:A.
  - unfold approved in A. apply existsb_exists in A. destruct A as (a & Hin & Ha).
    apply In_written in Hin. unfold approves in Ha. rewrite Hf in Ha.
    apply andb_true_iff in Ha. destruct Ha as [Ha A3].
    apply andb_true_iff in Ha. destruct Ha as [A1 A2].
    apply same_lower_iff in A1, A2, A3.
    destruct A1 as (t1 & F1 & E1), A2 as (o1 & F2 & E2), A3 as (s1 & F3 & E3).
    destruct (Hc a Hin) as (t0 & o0 & s0 & Ft & Fo & Fs & Bt & Bo & Bs & G).
    assert (t0 = t1) as -> by congruence. assert (o0 = o1) as -> by congruence.
    assert (s0 = s1) as -> by congruence.
    rewrite Hf.
    destruct (find_approval_complete _ _ (tr_tokenAddr t) f (tx_from tx) t1 o1 s1
                Hb Bt Bo Bs G E1 E2 E3) as ([key ap] & ->).
    eexists. split; [reflexivity|]. split; eauto.
  - rewrite Hf.
    destruct (find_approval_total _ _ (tr_tokenAddr t) f (tx_from tx) Hb) as (r & Hr).
    exists r. split; [exact Hr|]. split; [discriminate|].
    intros (key & ap & ->).
    destruct (find_approval_found _ _ _ _ _ _ _ Hb Hr)
      as (f' & a & t0 & o & s & Hfrom & Hin & Ft & Et & Fo & Eo & Fs & Es & _).
    injection Hfrom as <-.
    assert (approved (written approvalsW (out st)) t (tx_from tx) = true); [|congruence].
    unfold approved. apply existsb_exists. exists a. split; [now apply In_written|].
    unfold approves. rewrite Hf, Ft, Fo, Fs. cbn [same_lower].
    now rewrite Et, Eo, Es, !String.eqb_refl.
Qed.

Lemma usage_loop_exact (transfers : list Transfer) (st st' : State) :
  usage_loop runId h tx rc ts transfers st = Ok st' ->
  registry_backed (approvals st) (out st) ->
  registry_complete (approvals st) (out st) ->
  Forall (fun t => exists f, tr_from t = Some f) transfers ->
  exists us,
    out st' = out st ++ map (fun u => (allowanceUsageW, u)) us
    /\ map usage_of us
       = map spend_of
           (filter (fun t => approved (written approvalsW (out st)) t (tx_from tx))
                   transfers)
    /\ Forall (fun u => field "drain_tx_hash" u = JStr h
                        /\ field "spender" u = JStr (tx_from tx)) us.
Proof.
  revert st. induction transfers as [|t transfers IH]; intros st H Hb Hc Hfrom.
  - injection H as <-. exists []. cbn. rewrite app_nil_r. auto.
  - inversion Hfrom as [|? ? (f & Hf) Hrest]; subst.
    cbn [usage_loop] in H. bind_inv H st1 H1. unfold usage_step in H1.
    destruct (find_approval_approved t f st Hb Hc Hf) as (r & Hr & A).
    rewrite Hr in H1. cbn [bind] in H1. cbn [filter].
    destruct r as [[key ap]|]; injection H1 as <-.
    + rewrite (proj2 A (ex_intro _ key (ex_intro _ ap eq_refl))).
      destruct (IH _ H) as (us & O & M & D).
      * cbn [approvals out emit set_out]. now apply registry_backed_app.
      * cbn [approvals out emit set_out]. apply registry_complete_app; [assumption|].
        repeat constructor.
      * assumption.
      * cbn [out emit set_out] in O, M. rewrite written_app in M.
        change (written approvalsW [(allowanceUsageW,
                                     allowance_usage_doc runId h tx rc ts t ap)])
          with (@nil record) in M.
        rewrite app_nil_r in M.
        exists (allowance_usage_doc runId h tx rc ts t ap :: us).
        split; [rewrite O, <- app_assoc; reflexivity|]. split.
        -- cbn [map]. rewrite M. f_equal.
        -- constructor; [split; reflexivity | assumption].
    + destruct (approved (written approvalsW (out st)) t (tx_from tx)) eqn:Ap.
      * destruct (proj1 A eq_refl) as (key & ap & Habs). discriminate Habs.
      * exact (IH _ H Hb Hc Hrest).
Qed.

Lemma derive_tx_complete_reg (trace : option Call) (st st' : State) :
  derive_tx runId h tx rc ts trace st = Ok st' ->
  forallb wf_log (rc_logs rc) = true ->
  registry_complete (approvals st) (out st) ->
  registry_complete (approvals st') (out st').
Proof.
  intros H Hwf Hreg.
  apply derive_tx_split in H. destruct H as (st6 & (O6 & _) & A6 & H).
  assert (R6 : registry_complete (approvals st6) (out st6)).
  { rewrite A6, O6. apply registry_complete_app; [assumption|].
    eapply streams_none; [apply early_docs_streams | reflexivity]. }
  pose proof (approvals_block_complete (rc_logs rc) 0 st6 Hwf R6) as R7.
  cbv zeta in R7.
  apply allowance_usage_block_out in H. destruct H as (_ & A8 & us & O8 & Hus).
  rewrite A8, O8. apply registry_complete_app; [assumption|].
  eapply streams_none; [eapply usage_docs_streams; exact Hus | reflexivity].
Qed.

End Complete.

Lemma derive_loop_complete_reg (runId : string) (fs : list Fetched) (st st' : State) :
  derive_loop runId fs st = Ok st' ->
  forallb wf_fetched fs = true ->
  registry_complete (approvals st) (out st) ->
  registry_complete (approvals st') (out st').
Proof.
  revert st. induction fs as [|f fs IH]; intros st H Hwf Hreg.
  - now injection H as <-.
  - cbn [derive_loop] in H. bind_inv H st1 H1.
    cbn [forallb] in Hwf. apply andb_true_iff in Hwf. destruct Hwf as [Hf Hwf].
    apply (IH st1 H Hwf). unfold iteration in H1. unfold wf_fetched in Hf.
    destruct (f_tx f) as [tx|]; [destruct (f_rc f) as [rc|]|];
      try (injection H1 as <-; exact Hreg).
    eapply derive_tx_complete_reg; eassumption.
Qed.

(** X27.  No linked usage is missed, and none is written twice: at any
    point of a run over well-formed logs, the iteration of a transaction
    whose selector is that of [transferFrom] writes one
    [allowance_usage] record for each of its decoded token transfers for
    which an approval record of the token, from the address the tokens
    leave, to the sender of the transaction (up to letter case) has been
    written so far, its own approvals included; in the order of the
    transfers, with their token, owner and amount; the iteration of any
    other transaction writes none. *)
Theorem allowance_usage_per_approved_transfer (runId : string) (fs : list Fetched)
    (f : Fetched) (tx : Tx) (rc : Receipt) (st st' : State) :
  forallb wf_fetched fs = true ->
  derive_loop runId fs init_state = Ok st ->
  wf_fetched f = true ->
  f_tx f = Some tx -> f_rc f = Some rc ->
  iteration runId f st = Ok st' ->
  exists us,
    written allowanceUsageW (out st') = written allowanceUsageW (out st) ++ us
    /\ map usage_of us
       = map spend_of
           (if is_transferFrom tx
            then filter (fun t => approved (written approvalsW (out st')) t (tx_from tx))
                        (decoded_transfers (rc_logs rc))
            else [])
    /\ Forall (fun u => field "drain_tx_hash" u = JStr (f_hash f)
                        /\ field "spender" u = JStr (tx_from tx)) us.
Proof.
  intros Hwf Hloop Hf Htx Hrc H.
  destruct (derive_loop_reachable runId fs st Hwf Hloop) as (_ & Hb).
  pose proof (derive_loop_complete_reg runId fs init_state st Hloop Hwf
                (registry_complete_nil _)) as Hc.
  unfold wf_fetched in Hf. unfold iteration in H. rewrite Htx, Hrc in *.
  apply derive_tx_split in H. destruct H as (st6 & (O6 & _) & A6 & H).
  assert (B6 : registry_backed (approvals st6) (out st6)).
  { rewrite A6, O6. now apply registry_backed_app. }
  assert (C6 : registry_complete (approvals st6) (out st6)).
  { rewrite A6, O6. apply registry_complete_app; [assumption|].
    eapply streams_none; [apply early_docs_streams | reflexivity]. }
  destruct (approvals_block_spec runId (f_hash f) rc (f_blk f) (rc_logs rc) 0 st6 Hf B6)
    as (O7 & _ & B7).
  pose proof (approvals_block_complete runId (f_hash f) rc (f_blk f) (rc_logs rc) 0 st6
                Hf C6) as C7.
  cbv zeta in *.
  set (st7 := approvals_block runId (f_hash f) rc (f_blk f) (rc_logs rc) 0 st6) in *.
  assert (U7 : written allowanceUsageW (out st7) = written allowanceUsageW (out st)).
  { rewrite O7, O6, !written_app.
    rewrite (written_none allowanceUsageW (early_docs _ _ _ _ _ _)),
            (written_none allowanceUsageW (approval_docs _ _ _ _ _ _));
      [now rewrite !app_nil_r | |].
    - eapply streams_none; [apply approval_docs_streams | reflexivity].
    - eapply streams_none; [apply early_docs_streams | reflexivity]. }
  unfold allowance_usage_block in H. fold (is_transferFrom tx) in H.
  destruct (is_transferFrom tx).
  - destruct (usage_loop_exact runId (f_hash f) tx rc (f_blk f) _ _ _ H B7 C7
                (decoded_transfers_from _ Hf)) as (us & O & M & D).
    assert (Eu : written allowanceUsageW (out st')
                 = written allowanceUsageW (out st) ++ us).
    { rewrite O, written_app, U7. f_equal.
      rewrite (written_same allowanceUsageW (fun u => u)). apply map_id. }
    assert (Ea : written approvalsW (out st') = written approvalsW (out st7)).
    { rewrite O, written_app, written_other by reflexivity. apply app_nil_r. }
    exists us. rewrite Ea. splits; auto.
  - injection H as <-. exists []. rewrite U7, app_nil_r. splits; auto.
Qed.

Lemma allowance_usage_per_approved_transfer_witness :
  exists st st' us,
    derive_loop "RUN_1" (firstn 2 reapproval_then_spend) init_state = Ok st
    /\ iteration "RUN_1" (nth 2 reapproval_then_spend traced_payment) st = Ok st'
    /\ written allowanceUsageW (out st') = written allowanceUsageW (out st) ++ us
    /\ List.length us = 1%nat.
Proof.
  pose (st := final_state (derive_loop "RUN_1" (firstn 2 reapproval_then_spend)
                             init_state)).
  pose (st' := final_state (iteration "RUN_1" (nth 2 reapproval_then_spend traced_payment)
                              st)).
  assert (E : derive_loop "RUN_1" (firstn 2 reapproval_then_spend) init_state = Ok st)
    by (vm_compute; reflexivity).
  assert (E' : iteration "RUN_1" (nth 2 reapproval_then_spend traced_payment) st = Ok st')
    by (vm_compute; reflexivity).
  destruct (allowance_usage_per_approved_transfer "RUN_1"
              (firstn 2 reapproval_then_spend)
              (nth 2 reapproval_then_spend traced_payment)
              {| tx_from := "0x70997970C51812dc3A010C7d01b50e0d17dc79C8";
                 tx_to := Some "0x5fbdb2315678afecb367f032d93f642f64180aa3";
                 tx_value := 0; tx_data := "0x23b872dd"; tx_gasPrice := Some 1 |}
              (match f_rc (nth 2 reapproval_then_spend traced_payment) with
               | Some rc => rc
               | None => mkReceipt None 0 0 [] None None
               end)
              st st' eq_refl E eq_refl eq_refl eq_refl E')
    as (us & W & M & D).
  exists st, st', us. split; [exact E|]. split; [exact E'|]. split; [exact W|].
  apply (f_equal (@List.length _)) in M. rewrite !length_map in M. rewrite M.
  vm_compute. reflexivity.
Defined.
